(* ===== verification/_CoqProject ===== *)
-Q . S2P
Prelude.v
Limbs.v
Accum.v
Primes.v
Fp.v
Curve.v
CurveGroup.v
FieldSpec.v
FieldVal.v
FieldRef.v
FieldGen.v
ScalarSpec.v
ScalarWords.v
ScalarVal.v
ScalarLow.v
ScalarGen.v
Num.v
NumSpec.v
Group.v
GroupSpec.v
GroupOps.v
FieldBig.v
GOrder.v
Cofactor.v
GroupTable.v
Hash.v
HashSpec.v
HashThm.v
Ecmult.v
EcmultWnaf.v
EcmultTable.v
EcmultSpec.v
EcmultGen.v
EcmultGenSpec.v
GenTable.v
EcmultConst.v
EcmultConstSpec.v
EcmultEndo.v
EcmultEndoSpec.v
Ecdsa.v
EcdsaDer.v
EcdsaSpec.v
Eckey.v
EckeySpec.v
Recovery.v
Api.v
Secp256k1.v
Modules.v
Lax.v
LaxSpec.v
ApiSpec.v
ApiSign.v
ApiKeys.v
ApiModules.v
Scalar8x32.v
Scalar8x32Ops.v
Scalar8x32Mul.v
Scalar4x64.v
Scalar4x64Ops.v
Scalar4x64Mul.v
X86.v
Scalar4x64Asm.v
ScalarThm.v
Field10x26.v
Field10x26Ser.v
Field10x26Mul.v
Field5x52.v
Field5x52Ser.v
Field5x52Mul.v
Field5x52Asm.v
FieldThm.v
NumThm.v
GroupThm.v
MemInst.v
EcmultThm.v
EcdsaThm.v
ApiThm.v
Java.v
ApiRefine.v
LaxThm.v
