(* ===== verification/Prelude.v ===== *)
(** * A verification of the elliptic-curve library of tinychain

    The program signs and verifies transactions with libsecp256k1, the C library
    under [src/core/vm/evm/crypto/secp256k1/libsecp256k1], through the four
    functions of [src/core/vm/evm/crypto/secp256k1/ext.h] and the public
    interface.  This development models that C code and proves what it promises:
    signatures that verify, recovery of the signer, agreement of key exchange and
    tweaks, strict encodings, down to the carries of the limb arithmetic.

    ** The configuration

    [secp256.go] compiles one file with [USE_NUM_NONE], [USE_FIELD_10X26],
    [USE_FIELD_INV_BUILTIN], [USE_SCALAR_8X32], [USE_SCALAR_INV_BUILTIN] and
    [NDEBUG]; there is no [VERIFY], no endomorphism and no static table.  The
    model is of that build on a little-endian machine with a 64-bit [size_t].
    What the configure script selects on 64-bit machines is modelled too:
    [USE_FIELD_5X52] and [USE_SCALAR_4X64], with their products in C or, with
    [USE_ASM_X86_64], in assembly.  The code above the representations is the
    same for the three, and is written once.  [USE_ENDOMORPHISM] changes two
    functions, and GMP ([USE_NUM_GMP], [USE_FIELD_INV_NUM],
    [USE_SCALAR_INV_NUM]) the inverses and the test for squares; these are
    modelled in both forms.

    ** The parts and the files

    - [Prelude], [Limbs], [Accum]: C integers as [Z] with their
      wrap-around written out ([u8], [u32], [u64]), bounds propagated through
      straight-line code ([Rng], [wp]), integers as lists of limbs, the curve
      constants, and the three-word accumulator macros of the scalar code.
    - [Primes], [Fp], [Curve], [CurveGroup]: the mathematics.  Both
      moduli are prime, the affine addition of [y^2 = x^3 + c] is a commutative
      group law (associativity included), multiples, isomorphic curves.
    - [FieldSpec], [ScalarSpec], [Api]: the interfaces, as type classes of
      operations ([FieldImpl], [ScalarImpl], [MemImpl]) and of the laws their
      comments in [field.h], [scalar.h] promise ([FieldLaws], [ScalarLaws],
      [MemLaws]).  All code above the representations is written and proved once
      over these classes.
    - [FieldVal], [ScalarWords], [ScalarVal]: what the representations share.  A
      representation proves what its operations do to the value of the limbs
      ([FieldVal], [ScalarVal]); the laws of the interface follow once for all.
    - [Field10x26], with [Field10x26Ser], [Field10x26Mul]: [field_10x26.h] and
      [field_10x26_impl.h].  An element is the list of its ten limbs; magnitudes
      are part of the statements.
    - [Field5x52], with [Field5x52Ser], [Field5x52Mul]: [field_5x52.h],
      [field_5x52_impl.h] and the products of [field_5x52_int128_impl.h].
    - [Scalar8x32], with [Scalar8x32Ops], [Scalar8x32Mul],
      [ScalarThm]: [scalar_8x32.h] and [scalar_8x32_impl.h].
    - [Scalar4x64], with [Scalar4x64Ops], [Scalar4x64Mul]: [scalar_4x64.h] and
      the C code of [scalar_4x64_impl.h].
    - [X86]: the x86-64 instructions that the library uses, with an executable
      semantics; [Field5x52Asm], [Scalar4x64Asm]: the [asm] statements of
      [field_5x52_asm_impl.h] and [scalar_4x64_impl.h] as programs of it.  The
      operands the compiler is free to place are stack slots.
    - [ScalarLow]: [scalar_low_impl.h], scalars modulo a small order, with the
      inverse and the split that [scalar_impl.h] has for them.
    - [FieldGen], [ScalarGen], [FieldThm]: [field_impl.h] and [scalar_impl.h].
    - [Num], [NumSpec], [NumThm]: the numbers of [num_gmp.h] and
      [num_gmp_impl.h], and the functions of [field_impl.h] and [scalar_impl.h]
      that use them.  GMP, with limbs of 32 or 64 bits, is a parameter with the
      laws of its manual ([GMP], [GMPLaws]); a GMP on integers shows that they
      can hold.
    - [FieldRef], [FieldBig]: two reference implementations of the field
      interface, on [Z] and on [BigN], used to compute concrete points.
    - [Group], [GroupSpec], [GroupOps], [GroupTable], [GroupThm]: [group.h] and
      [group_impl.h] against the affine law.
    - [GOrder], [Cofactor]: the generator has order [n], and every point of the
      curve is one of its multiples.
    - [Hash], [HashSpec], [HashThm]: [hash.h] and [hash_impl.h] against FIPS
      180-4, RFC 2104 and RFC 6979.
    - [Ecmult], [EcmultWnaf], [EcmultTable], [EcmultSpec]: [ecmult_impl.h];
      [EcmultGen], [EcmultGenSpec], [GenTable]: [ecmult_gen_impl.h];
      [EcmultConst], [EcmultConstSpec]: [ecmult_const_impl.h]; [EcmultEndo],
      [EcmultEndoSpec]: what [USE_ENDOMORPHISM] makes of [ecmult_impl.h] and
      [ecmult_const_impl.h]; [EcmultThm].
    - [Ecdsa], [EcdsaDer], [EcdsaSpec], [EcdsaThm]: [ecdsa_impl.h]; [Eckey],
      [EckeySpec]: [eckey_impl.h]; [Recovery]: the recovery of
      [modules/recovery/main_impl.h].
    - [Api], [Secp256k1]: [secp256k1.c] and the flags of [include/secp256k1.h];
      [Modules]: [modules/ecdh/main_impl.h], the rest of the recovery module and
      [ext.h]; [MemInst]: the bytes of the representations in memory.
    - [ApiSpec], [ApiSign], [ApiKeys], [ApiModules], [ApiThm]: what the public
      functions promise; [ApiRefine]: ECDSA on numbers and points, which they
      refine in every build.
    - [Lax], [LaxSpec], [LaxThm]: [contrib/lax_der_parsing.c] and
      [contrib/lax_der_privatekey_parsing.c], over the public functions.
    - [Java]: the native methods of [src/java], over the public functions.  The
      virtual machine is a parameter with the laws of JNI ([JNIEnv], [JNILaws])
      and memory for the arrays of a result ([JNIMemory]); a heap of arrays is an
      instance.

    ** How code becomes definitions

    A C function is a definition of the same name; a loop is a [Fixpoint] on its
    counter, with the name of the function it is part of.  Structures are
    records, arrays are lists, and what a function writes through pointers is in
    its result.  A function of the public interface takes [None] for a null
    pointer and ends in [result]: it [Returns] a value with the texts the
    illegal-argument callback was called with, it [Aborts] when the default
    callback does, or gives [NoResult] when a loop is out of fuel, a nonce
    function has no result, or a method of the Java wrapper reads past its buffer
    or passes a null reference on; the theorems say when signing returns and that
    the methods do neither.  A nonce function is partial: the default one has no
    result for the attempt [UINT_MAX], where its loop would not end.  A read past
    the end of the input of the DER parser gives [None], and the theorems show
    that it does not happen.  Memory that a function writes before it reads it
    starts cleared or, where the contents could matter, is an argument ([mem]).

    ** What the theorems show

    - Public interface ([ApiThm]): signing gives signatures that verify, ends as
      soon as the nonce function gives a usable nonce, and verification accepts
      exactly the valid signatures with low [s]; recovery returns the signer,
      unless [r] is zero, and only keys that verify; tweaks of secret and public keys agree; exactly the
      three encodings of public keys are accepted; both parties of an exchange
      compute the same secret; a context keeps its tables.
    - Java ([Java]): through the wrapper, signatures verify for the printed key,
      tweaks of secret and public keys give the keys of the sum and the product,
      and the secret of an exchange is the digest of the product point.
    - Refinement ([ApiRefine]): signing with its retries, key generation and
      verification compute the functions [spec_sign], [spec_pubkey] and
      [spec_verify], which know nothing of limbs; so the 32-bit, the 64-bit and
      the assembly build return the same bytes.
    - Encodings ([EcdsaThm], [LaxThm]): the DER parser stays in its input and
      accepts exactly minimal encodings; printing and parsing are inverse.  The
      lax parser stays in its input and accepts exactly its grammar, which
      contains DER; exported private keys are imported again.
    - Multiplication ([EcmultThm]): the three multiplications compute multiples
      of points for all scalars, with digit recodings, tables and blinding, and
      so do the two that the endomorphism changes.
    - Group ([GroupThm]): every addition formula is the group law, with all
      exceptional cases; conversions keep the point.
    - Field and scalars ([Field10x26Mul], [Field5x52Mul], [FieldThm],
      [ScalarThm], [Scalar4x64Mul], [ScalarLow]): exact arithmetic modulo the
      prime and the order with no lost carry within the stated magnitudes,
      canonical results, square roots, inverses, and the bounds of the lambda
      split.
    - Numbers ([NumThm]): every function keeps numbers well formed and computes
      with the integers they stand for; the inverses and the test for squares
      agree with the code that does not use GMP.
    - Assembly ([Field5x52Asm], [Scalar4x64Asm]): the programs run to their end
      from any registers, touch no memory but their results, keep the registers
      they do not declare, and compute what the C code computes.
    - Hashing ([HashThm]): refinement of the standards for any split of the
      input into writes.

    ** Bounds and fuel

    Field magnitudes are at most 8 for products and 31 for normalisation; at 32
    two additions can overflow, and [normalize_overflows_at_32] says what the code
    returns then.  The modulus of [secp256k1_num_mod_inverse] has at most
    [NUM_LIMBS] limbs, half of the array of a number.  Requests to the RFC 6979
    generator are below [2^31] bytes, since the code counts them with an [int];
    fuel one more than the length is enough for its loop.  The recodings and
    [secp256k1_sha256_write] take the number of bits or bytes as fuel, which their
    theorems show to be enough.  Three loops
    retry until a random draw is in range: the blinding of
    [ecmult_gen_impl.h], whose first draw for a fresh context is computed and
    succeeds, so fuel 1 is enough for [secp256k1_context_create]; and signing,
    where fuel [i + 1] is enough if attempt [i] ends ([ecdsa_sign_terminates]).

    ** Not modelled

    - Code of other builds: the ARM assembly, [VERIFY] assertions, static
      precomputation ([gen_context.c]).
    - Allocation failure: [checked_malloc] succeeds, and [JNIMemory] assumes that
      the virtual machine has memory.
    - Side channels: the constant-time code is verified for its results only.
    - The test and benchmark programs, and the assembly headers of
      [bn256/cloudflare].
    - The Go packages of the program. *)

From Stdlib Require Import ZArith Lia List Bool Morphisms.
Import ListNotations.
Open Scope Z_scope.

(** * C integers

    An integer of the C code is a [Z]; a value stored in a [uint8_t], [uint32_t]
    or [uint64_t] is wrapped explicitly.  Unsigned C arithmetic is arithmetic
    modulo [2^w], so an expression is wrapped once, where it is stored. *)

Declare Scope c_scope.
Delimit Scope c_scope with C.

Notation "x >> n" := (Z.shiftr x n) (at level 51, left associativity) : c_scope.
Notation "x << n" := (Z.shiftl x n) (at level 51, left associativity) : c_scope.
Notation "x .& y" := (Z.land x y) (at level 52, left associativity) : c_scope.
Notation "x .^ y" := (Z.lxor x y) (at level 53, left associativity) : c_scope.
Notation "x .| y" := (Z.lor x y) (at level 54, left associativity) : c_scope.
Notation "l .[ i ]" := (nth i l 0)
  (at level 1, left associativity, format "l .[ i ]") : c_scope.
Open Scope c_scope.

Definition u8 (z : Z) : Z := z mod 2 ^ 8.
Definition u32 (z : Z) : Z := z mod 2 ^ 32.
Definition u64 (z : Z) : Z := z mod 2 ^ 64.
Definition u128 (z : Z) : Z := z mod 2 ^ 128.

(** Conversion to [int]. *)
Definition s32 (z : Z) : Z := (z + 2 ^ 31) mod 2 ^ 32 - 2 ^ 31.

(** [~x] on a [uint32_t], and on a [uint64_t]. *)
Definition not32 (z : Z) : Z := u32 (Z.lnot z).
Definition not64 (z : Z) : Z := u64 (Z.lnot z).

(** The [int] a C comparison yields. *)
Definition b2z (b : bool) : Z := if b then 1 else 0.

(** C truth of an [int]. *)
Definition z2b (z : Z) : bool := negb (z =? 0).

(** [a[i] = v] on an array; out of range the code has undefined behaviour and
    the model leaves the array unchanged. *)
Fixpoint upd {A : Type} (i : nat) (v : A) (l : list A) : list A :=
  match l, i with
  | [], _ => []
  | _ :: t, O => v :: t
  | h :: t, S j => h :: upd j v t
  end.

(** * Partial operations

    [None] stands for an access outside of an object, or through a null
    pointer. *)
Definition bind {A B : Type} (m : option A) (k : A -> option B) : option B :=
  match m with
  | Some x => k x
  | None => None
  end.

Notation "'let*' x ':=' m 'in' k" := (bind m (fun x => k))
  (at level 10, x pattern, m at level 200, k at level 200) : c_scope.

(** * Little-endian limb values *)

(** [limbs_val b l] is the sum of [l[i] * 2^(b*i)]. *)
Fixpoint limbs_val (b : Z) (l : list Z) : Z :=
  match l with
  | [] => 0
  | x :: t => x + 2 ^ b * limbs_val b t
  end.

(** The value of a big-endian byte string. *)
Definition be_val (l : list Z) : Z := limbs_val 8 (rev l).

(** * Ranges

    [Rng x B] bounds a non-negative integer.  Instance resolution computes the
    bound of an expression from the bounds of its variables, so it is the
    interval analysis that discharges the no-overflow side conditions. *)

Class Rng (x B : Z) : Prop := rng : 0 <= x <= B.
#[export] Hint Mode Rng ! - : typeclass_instances.

Lemma rng_weaken x B C : Rng x B -> B <= C -> Rng x C.
Proof. unfold Rng; lia. Qed.

Lemma rng_add x y A B : Rng x A -> Rng y B -> Rng (x + y) (A + B).
Proof. unfold Rng; lia. Qed.

Lemma rng_mul x y A B : Rng x A -> Rng y B -> Rng (x * y) (A * B).
Proof. unfold Rng; nia. Qed.

Lemma rng_shiftr x n A : 0 <= n -> Rng x A -> Rng (x >> n) (A >> n).
Proof.
  intros Hn [H0 H1]. rewrite !Z.shiftr_div_pow2 by lia.
  assert (0 < 2 ^ n) by (apply Z.pow_pos_nonneg; lia).
  split; [apply Z.div_pos | apply Z.div_le_mono]; lia.
Qed.

Lemma rng_shiftl x n A : 0 <= n -> Rng x A -> Rng (x << n) (A << n).
Proof.
  intros Hn [H0 H1]. rewrite !Z.shiftl_mul_pow2 by lia.
  assert (0 < 2 ^ n) by (apply Z.pow_pos_nonneg; lia). split; nia.
Qed.

Lemma rng_land x y B : 0 <= x -> Rng y B -> Rng (x .& y) B.
Proof.
  intros Hx [H0 H1].
  assert (0 <= x .& y) by (apply Z.land_nonneg; auto).
  split; [lia |].
  enough (x .& y <= y) by lia.
  apply Z.ldiff_le; [lia |].
  apply Z.bits_inj'; intros i Hi.
  rewrite Z.ldiff_spec, Z.land_spec, Z.bits_0.
  now destruct (Z.testbit x i), (Z.testbit y i).
Qed.

Lemma lor_bound x y n : 0 <= n -> 0 <= x < 2 ^ n -> 0 <= y < 2 ^ n -> 0 <= x .| y < 2 ^ n.
Proof.
  intros Hn Hx Hy.
  assert (0 < 2 ^ n) by lia.
  assert (0 <= x .| y) by (apply Z.lor_nonneg; lia).
  split; [lia |].
  assert ((x .| y) / 2 ^ n = 0).
  { rewrite <- Z.shiftr_div_pow2, Z.shiftr_lor, !Z.shiftr_div_pow2 by lia.
    now rewrite !Z.div_small by lia. }
  apply Z.div_small_iff in H1; lia.
Qed.

Lemma rng_lor x y A B : Rng x A -> Rng y B ->
  Rng (x .| y) (Z.ones (Z.log2 (Z.max A B) + 1)).
Proof.
  intros [Hx HA] [Hy HB]. pose proof (Z.log2_nonneg (Z.max A B)).
  assert (Z.max A B < 2 ^ (Z.log2 (Z.max A B) + 1)).
  { destruct (Z.eq_dec (Z.max A B) 0) as [-> | ?]; [reflexivity |].
    apply Z.log2_spec; lia. }
  pose proof (lor_bound x y (Z.log2 (Z.max A B) + 1) ltac:(lia) ltac:(lia) ltac:(lia)).
  unfold Rng. rewrite Z.ones_equiv. lia.
Qed.

Lemma rng_land2 x y A B : Rng x A -> Rng y B -> Rng (x .& y) (Z.min A B).
Proof.
  intros HA HB.
  pose proof (rng_land x y B (proj1 HA) HB) as [? ?].
  pose proof (rng_land y x A (proj1 HB) HA) as [? ?].
  rewrite (Z.land_comm y x) in *. unfold Rng; lia.
Qed.

Lemma wrap_small w x B : Rng x B -> B < 2 ^ w -> x mod 2 ^ w = x.
Proof. intros [? ?] ?. apply Z.mod_small; lia. Qed.

Lemma rng_b2z b : Rng (b2z b) 1.
Proof. destruct b; unfold Rng; cbn; lia. Qed.

Lemma rng_cst c : (0 <=? c) = true -> Rng c c.
Proof. unfold Rng; lia. Qed.

Lemma b2z_land a b : b2z a .& b2z b = b2z (a && b).
Proof. now destruct a, b. Qed.

Lemma b2z_lor a b : b2z a .| b2z b = b2z (a || b).
Proof. now destruct a, b. Qed.

Lemma b2z_b2z a : z2b (b2z a) = a.
Proof. now destruct a. Qed.

Lemma rng_b2z_of q : Rng q 1 -> q = b2z (q =? 1).
Proof. intros [? ?]. destruct (Z.eqb_spec q 1); cbn; lia. Qed.

Lemma rng_lxor n x y : 0 <= n -> Rng x (Z.ones n) -> Rng y (Z.ones n) -> Rng (x .^ y) (Z.ones n).
Proof.
  intros Hn [Hx HX] [Hy HY]. unfold Rng. rewrite Z.ones_equiv in *.
  assert (0 < 2 ^ n) by (apply Z.pow_pos_nonneg; lia).
  assert (H0 : 0 <= x .^ y) by (apply Z.lxor_nonneg; lia).
  assert (H1 : (x .^ y) / 2 ^ n = 0).
  { rewrite <- Z.shiftr_div_pow2, Z.shiftr_lxor, !Z.shiftr_div_pow2 by lia.
    now rewrite !Z.div_small by lia. }
  apply Z.div_small_iff in H1; lia.
Qed.

Lemma rng_u32 x : Rng (u32 x) 0xFFFFFFFF.
Proof. unfold Rng, u32. pose proof (Z.mod_pos_bound x (2 ^ 32) eq_refl). lia. Qed.

Lemma rng_csub c x B : Rng x B -> (B <=? c) = true -> Rng (c - x) c.
Proof. unfold Rng. lia. Qed.

Lemma u32_id x : 0 <= x < 2 ^ 32 -> u32 x = x.
Proof. apply Z.mod_small. Qed.

Lemma u64_id x : 0 <= x < 2 ^ 64 -> u64 x = x.
Proof. apply Z.mod_small. Qed.

(** Residues from an explicit quotient. *)
Lemma mod_of_reduced v r k n : v = r + k * n -> 0 <= r < n -> r = v mod n.
Proof. intros -> H. rewrite Z.mod_add, Z.mod_small; lia. Qed.

Lemma mod_eq_of v w k n : n <> 0 -> v = w + k * n -> v mod n = w mod n.
Proof. intros Hn ->. now apply Z.mod_add. Qed.

#[export] Hint Resolve rng_add rng_mul rng_lor rng_land2 rng_b2z rng_u32 : typeclass_instances.
#[export] Hint Extern 3 (Rng (_ >> _) _) =>
  (apply rng_shiftr; [apply Z.leb_le; reflexivity |]) : typeclass_instances.
#[export] Hint Extern 3 (Rng (_ << _) _) =>
  (apply rng_shiftl; [apply Z.leb_le; reflexivity |]) : typeclass_instances.
#[export] Hint Extern 1 (Rng ?c _) =>
  (lazymatch isZcst c with true => apply rng_cst; reflexivity end) : typeclass_instances.

#[export] Hint Extern 2 (Rng (?c - _) _) =>
  (lazymatch isZcst c with
   | true => eapply rng_csub; [typeclasses eauto | vm_compute; reflexivity]
   end) : typeclass_instances.

(** * Straight-line code

    [wp v Q] is the goal that the value [v] of a function body satisfies [Q].
    The tactics below run a chain of [let]s, one C statement at a time: each
    statement becomes a variable with its equation and its range. *)

Definition wp {A : Type} (v : A) (Q : A -> Prop) : Prop := Q v.

Lemma wp_intro {A} (v : A) (Q : A -> Prop) : wp v Q -> Q v.
Proof. exact id. Qed.

Lemma wp_let {A B} (e : A) (k : A -> B) (Q : B -> Prop) :
  (forall x, x = e -> wp (k x) Q) -> wp (let x := e in k x) Q.
Proof. intros H. exact (H e eq_refl). Qed.

(** Splitting a word at bit [k]: [x & (2^k-1)] and [x >> k]. *)
Lemma split_bits k x : 0 <= k -> x = (x .& Z.ones k) + 2 ^ k * (x >> k).
Proof.
  intros Hk. rewrite Z.land_ones, Z.shiftr_div_pow2 by lia.
  rewrite (Z.div_mod x (2 ^ k)) at 1 by (apply Z.pow_nonzero; lia). lia.
Qed.

Lemma shiftr_split k r q : 0 <= k -> 0 <= r < 2 ^ k -> (r + 2 ^ k * q) >> k = q.
Proof.
  intros Hk Hr. rewrite Z.shiftr_div_pow2, (Z.mul_comm (2 ^ k)), Z.div_add by lia.
  now rewrite Z.div_small.
Qed.

(** Evaluate the bound of a [Rng] hypothesis to a literal. *)
Ltac rng_norm H :=
  lazymatch type of H with
  | Rng ?x ?B =>
      lazymatch isZcst B with
      | true => idtac
      | _ => let B' := eval vm_compute in B in change (Rng x B') in H
      end
  end.

(** [rng_of e H] adds [H : Rng e B] with [B] a literal. *)
Ltac rng_of e H :=
  let H' := fresh H in
  eassert (Rng e _) as H' by typeclasses eauto;
  rename H' into H;
  rng_norm H.

(** Replace the variable [y] by [r + 2^k * q], its parts below and above bit
    [k], wherever it is masked or shifted there. *)
Ltac split_core y k :=
  let m := eval vm_compute in (Z.ones k) in
  let p := eval vm_compute in (2 ^ k) in
  let r := fresh y in let q := fresh "q" in
  let E := fresh in let Rr := fresh "R" in let Rq := fresh "R" in
  lazymatch goal with
  | R : Rng y ?B |- _ =>
      let b := eval vm_compute in (B >> k) in
      assert (E : y = (y .& m) + p * (y >> k))
        by exact (split_bits k y ltac:(apply Z.leb_le; reflexivity));
      assert (Rr : Rng (y .& m) m)
        by (apply rng_land; [exact (proj1 R) | apply rng_cst; reflexivity]);
      assert (Rq : Rng (y >> k) b)
        by exact (rng_shiftr y k B ltac:(apply Z.leb_le; reflexivity) R);
      revert E Rr Rq; generalize (y .& m), (y >> k);
      intros r q E Rr Rq; subst y
  end.

Ltac split_at y k :=
  tryif (lazymatch goal with Ey : y = _ |- _ => revert Ey end)
  then (split_core y k; let Ey := fresh "E" in intros Ey)
  else split_core y k.

(** Split [y] where the rest of the code shifts or masks it. *)
Ltac auto_split y :=
  lazymatch goal with
  | |- context [Z.shiftr y ?k] => split_at y k
  | |- context [Z.land y ?m] =>
      lazymatch isZcst m with
      | true => let k := eval vm_compute in (Z.log2 (m + 1)) in
                let m' := eval vm_compute in (Z.ones k) in
                constr_eq m m'; split_at y k
      end
  end.

Lemma wrap32 e B : Rng e B -> (B <? 2 ^ 32) = true -> u32 e = e.
Proof. intros H HB. apply (wrap_small 32 e B); [exact H | lia]. Qed.

Lemma wrap64 e B : Rng e B -> (B <? 2 ^ 64) = true -> u64 e = e.
Proof. intros H HB. apply (wrap_small 64 e B); [exact H | lia]. Qed.

Lemma wrap128 e B : Rng e B -> (B <? 2 ^ 128) = true -> u128 e = e.
Proof. intros H HB. apply (wrap_small 128 e B); [exact H | lia]. Qed.

(** Left shifts by a literal become multiplications in the recorded equation. *)
Ltac shl_norm E :=
  repeat match type of E with
         | context [Z.shiftl ?a ?k] =>
             let p := eval vm_compute in (2 ^ k) in
             change (Z.shiftl a k) with (a << k) in E;
             rewrite (Z.shiftl_mul_pow2 a k ltac:(apply Z.leb_le; reflexivity)) in E;
             change (2 ^ k) with p in E
         end.

(** One statement of a [let] chain. *)
Ltac wp_step :=
  lazymatch goal with
  | |- wp (let x := ?e in @?k x) ?Q =>
      let y := fresh x in let E := fresh "E" in let R := fresh "R" in
      first
        [ is_var e; change (wp (k e) Q); cbv beta; try auto_split e
        | lazymatch isZcst e with true => change (wp (k e) Q); cbv beta end
        | lazymatch e with
          | u32 ?e' => rng_of e' R; refine (wp_let e k Q _); intros y E;
                       rewrite (wrap32 e' _ R eq_refl) in E
          | u64 ?e' => rng_of e' R; refine (wp_let e k Q _); intros y E;
                       rewrite (wrap64 e' _ R eq_refl) in E
          | u128 ?e' => rng_of e' R; refine (wp_let e k Q _); intros y E;
                       rewrite (wrap128 e' _ R eq_refl) in E
          | _ => rng_of e R; refine (wp_let e k Q _); intros y E
          end;
          rewrite <- E in R; shl_norm E; cbv beta; try auto_split y
        | refine (wp_let e k Q _); intros y E; cbv beta ]
  end.

(** The value is reached: state its postcondition. *)
Ltac wp_done :=
  lazymatch goal with
  | |- wp (if _ then _ else _) _ => fail
  | |- wp _ _ => cbv beta delta [wp]
  end.

(** Name the value of a statement, without a range. *)
Ltac wp_name y E :=
  lazymatch goal with
  | |- wp (let x := ?e in @?k x) ?Q => refine (wp_let e k Q _); intros y E; cbv beta
  end.

(** Solve each recorded carry equation for its low part and substitute. *)
Ltac solve_carries :=
  repeat match goal with R : Rng _ _ |- _ => clear R end;
  repeat match goal with
         | E : ?x + ?k * ?q + ?k' * ?q' = ?e |- _ => is_var x; apply (proj1 (Z.add_move_r _ _ _)) in E
         | E : ?x + ?k * ?q = ?e |- _ =>
             is_var x; is_var q; apply (proj1 (Z.add_move_r _ _ _)) in E; subst x
         end;
  subst.

(** Case analysis on the integer comparisons of the goal. *)
Ltac zcases :=
  repeat match goal with
         | |- context [?a <=? ?b] => destruct (Z.leb_spec a b)
         | |- context [?a <? ?b] => destruct (Z.ltb_spec a b)
         | |- context [?a =? ?b] => destruct (Z.eqb_spec a b)
         end.

(** * The constants of the curve: the field prime and the group order *)

(** The field prime [2^256 - 2^32 - 977]. *)
Definition secp_p : Z := 2 ^ 256 - 2 ^ 32 - 977.

(** The group order. *)
Definition secp_n : Z := 0xFFFFFFFFFFFFFFFFFFFFFFFFFFFFFFFEBAAEDCE6AF48A03BBFD25E8CD0364141.

(** A cube root of unity modulo the group order. *)
Definition lambda : Z := 0x5363AD4CC05C30E0A5261C028812645A122E22EA20816678DF02967C1B23BD72.
