(* ===== verification/Limbs.v ===== *)
(** Multi-limb integers: canonical digits of a value in base [2^b], their
    round trip with [limbs_val], and the effect of writing one digit. *)

From Stdlib Require Import ZArith Lia List Bool.
From S2P Require Import Prelude.
Import ListNotations.
Open Scope Z_scope.

(** The [n] low digits of [v] in base [2^b], least significant first. *)
Fixpoint digits (b : Z) (n : nat) (v : Z) : list Z :=
  match n with
  | O => []
  | S m => v mod 2 ^ b :: digits b m (v / 2 ^ b)
  end.

Definition limbs_lt (b : Z) (l : list Z) : Prop := Forall (fun x => 0 <= x < 2 ^ b) l.

Lemma length_upd {A} i (v : A) l : length (upd i v l) = length l.
Proof. revert i; induction l as [| h t IH]; intros [| i]; cbn; auto. Qed.

Lemma nth_upd_eq {A} i (v d : A) l : (i < length l)%nat -> nth i (upd i v l) d = v.
Proof.
  revert i; induction l as [| h t IH]; intros [| i] H; cbn [upd nth length] in *; try lia; [reflexivity |].
  apply IH. lia.
Qed.

Lemma nth_upd_neq {A} i j (v d : A) l : i <> j -> nth j (upd i v l) d = nth j l d.
Proof.
  revert i j; induction l as [| h t IH]; intros [| i] [| j] H; cbn [upd nth]; try congruence.
  apply IH. congruence.
Qed.

Lemma length_digits b n v : length (digits b n v) = n.
Proof. revert v; induction n; intros; cbn; auto. Qed.

Lemma limbs_lt_digits b n v : 0 <= b -> limbs_lt b (digits b n v).
Proof.
  intros Hb; revert v; induction n; intros; constructor; [| apply IHn].
  apply Z.mod_pos_bound, Z.pow_pos_nonneg; lia.
Qed.

Lemma limbs_val_app b l1 l2 : 0 <= b ->
  limbs_val b (l1 ++ l2) = limbs_val b l1 + 2 ^ (b * Z.of_nat (length l1)) * limbs_val b l2.
Proof.
  intros Hb. induction l1 as [| x t IH]; cbn [app limbs_val length].
  - rewrite Z.mul_0_r. change (2 ^ 0) with 1. lia.
  - rewrite IH, Nat2Z.inj_succ, Z.mul_succ_r, Z.pow_add_r by lia. ring.
Qed.

Lemma limbs_val_bound b l : 0 <= b -> limbs_lt b l ->
  0 <= limbs_val b l < 2 ^ (b * Z.of_nat (length l)).
Proof.
  intros Hb H. induction H as [| x t Hx Ht IH]; cbn [limbs_val length].
  - rewrite Z.mul_0_r. cbn; lia.
  - rewrite Nat2Z.inj_succ, Z.mul_succ_r, Z.pow_add_r by lia. nia.
Qed.

Lemma limbs_val_digits b n v : 0 <= b ->
  limbs_val b (digits b n v) = v mod 2 ^ (b * Z.of_nat n).
Proof.
  intros Hb. assert (H2 : 0 < 2 ^ b) by (apply Z.pow_pos_nonneg; lia).
  revert v. induction n as [| n IH]; intros v; cbn [digits limbs_val].
  - rewrite Z.mul_0_r. now rewrite Z.mod_1_r.
  - rewrite IH. replace (b * Z.of_nat (S n)) with (b + b * Z.of_nat n) by lia.
    rewrite Z.pow_add_r, Z.rem_mul_r by (try apply Z.pow_pos_nonneg; lia). lia.
Qed.

Lemma digits_limbs_val b l : 0 <= b -> limbs_lt b l ->
  digits b (length l) (limbs_val b l) = l.
Proof.
  intros Hb H. assert (H2 : 0 < 2 ^ b) by (apply Z.pow_pos_nonneg; lia).
  induction H as [| x t Hx Ht IH]; cbn [digits limbs_val length]; [reflexivity |].
  rewrite Z.mul_comm, Z.mod_add, Z.div_add, Z.mod_small, Z.div_small by lia.
  now rewrite Z.add_0_l, IH.
Qed.

(** Canonical limbs are determined by their value. *)
Lemma limbs_val_inj b l1 l2 : 0 <= b -> limbs_lt b l1 -> limbs_lt b l2 ->
  length l1 = length l2 -> limbs_val b l1 = limbs_val b l2 -> l1 = l2.
Proof.
  intros Hb H1 H2 Hl Hv.
  rewrite <- (digits_limbs_val b l1), <- (digits_limbs_val b l2) by assumption.
  now rewrite Hl, Hv.
Qed.

Lemma nth_digits b n v i : 0 <= b -> (i < n)%nat ->
  nth i (digits b n v) 0 = (v / 2 ^ (b * Z.of_nat i)) mod 2 ^ b.
Proof.
  intros Hb. assert (H2 : 0 < 2 ^ b) by (apply Z.pow_pos_nonneg; lia).
  revert v i. induction n as [| n IH]; intros v [| i] Hi; try lia; cbn [digits nth].
  - rewrite Z.mul_0_r. now rewrite Z.div_1_r.
  - rewrite IH, Nat2Z.inj_succ, Z.mul_succ_r by lia.
    now rewrite Z.div_div, (Z.add_comm (b * _)), Z.pow_add_r by
      (try lia; apply Z.pow_pos_nonneg; lia).
Qed.

Lemma digits_snoc b n v : 0 <= b ->
  digits b (S n) v = digits b n v ++ [(v / 2 ^ (b * Z.of_nat n)) mod 2 ^ b].
Proof.
  intros Hb. assert (H2 : 0 < 2 ^ b) by (apply Z.pow_pos_nonneg; lia).
  revert v; induction n as [| n IH]; intros v.
  - cbn [digits app Z.of_nat]. now rewrite Z.mul_0_r, Z.div_1_r.
  - change (digits b (S (S n)) v) with (v mod 2 ^ b :: digits b (S n) (v / 2 ^ b)).
    rewrite IH. cbn [digits app]. do 3 f_equal.
    rewrite Z.div_div by (try apply Z.pow_pos_nonneg; lia).
    rewrite <- Z.pow_add_r by lia. do 3 f_equal. lia.
Qed.

Lemma upd_repeat m x l : upd m x (repeat 0 (S m) ++ l) = repeat 0 m ++ x :: l.
Proof. induction m as [| m IH]; [reflexivity |]. cbn [repeat app upd]. f_equal. exact IH. Qed.

(** A bit field inside the low [n] bits does not see the higher ones. *)
Lemma field_mod x n k m : 0 <= k -> 0 <= m -> k + m <= n ->
  (x mod 2 ^ n / 2 ^ k) mod 2 ^ m = (x / 2 ^ k) mod 2 ^ m.
Proof.
  intros Hk Hm Hn. apply Z.bits_inj'; intros i Hi.
  destruct (Z.lt_ge_cases i m).
  - rewrite !Z.mod_pow2_bits_low, !Z.div_pow2_bits by lia.
    now rewrite Z.mod_pow2_bits_low by lia.
  - now rewrite !Z.mod_pow2_bits_high by lia.
Qed.

Lemma mod_pow_add x s w : 0 <= s -> 0 <= w ->
  x mod 2 ^ (s + w) = x mod 2 ^ s + 2 ^ s * ((x / 2 ^ s) mod 2 ^ w).
Proof.
  intros Hs Hw. rewrite Z.pow_add_r, Z.rem_mul_r by (try apply Z.pow_pos_nonneg; lia). lia.
Qed.

(** Byte [i] from the end of a big-endian string. *)
Lemma nth_be a n i : limbs_lt 8 a -> length a = n -> (i < n)%nat ->
  nth (n - 1 - i) a 0 = (be_val a / 2 ^ (8 * Z.of_nat i)) mod 2 ^ 8.
Proof.
  intros Ha Hl Hi. unfold be_val.
  assert (Hr : limbs_lt 8 (rev a)) by now apply Forall_rev.
  rewrite <- (nth_digits 8 n) by lia.
  rewrite <- Hl, <- length_rev, digits_limbs_val by (assumption || lia).
  rewrite rev_nth by lia. f_equal. rewrite length_rev. lia.
Qed.

Lemma be_val_bound a : limbs_lt 8 a -> 0 <= be_val a < 2 ^ (8 * Z.of_nat (length a)).
Proof.
  intros H. unfold be_val. rewrite <- length_rev. apply limbs_val_bound; [lia |].
  now apply Forall_rev.
Qed.

(** The [n] big-endian bytes of a value. *)
Definition be_bytes (n : nat) (v : Z) : list Z := rev (digits 8 n v).

Lemma be_val_cons b l : be_val (b :: l) = b * 2 ^ (8 * Z.of_nat (length l)) + be_val l.
Proof.
  unfold be_val. cbn [rev]. rewrite limbs_val_app by lia. rewrite length_rev. cbn [limbs_val]. ring.
Qed.

Lemma be_val_zeros k l : be_val (repeat 0 k ++ l) = be_val l.
Proof. induction k as [| k IH]; [reflexivity |]. cbn [repeat app]. rewrite be_val_cons, IH. ring. Qed.

Lemma be_val_bytes n v : be_val (be_bytes n v) = v mod 2 ^ (8 * Z.of_nat n).
Proof. unfold be_val, be_bytes. rewrite rev_involutive. now apply limbs_val_digits. Qed.

Lemma be_bytes_val a : limbs_lt 8 a -> be_bytes (length a) (be_val a) = a.
Proof.
  intros H. unfold be_val, be_bytes.
  rewrite <- length_rev, digits_limbs_val, rev_involutive; [reflexivity | lia |].
  now apply Forall_rev.
Qed.

Lemma length_be_bytes n v : length (be_bytes n v) = n.
Proof. unfold be_bytes. now rewrite length_rev, length_digits. Qed.

Lemma limbs_lt_be_bytes n v : limbs_lt 8 (be_bytes n v).
Proof. unfold be_bytes. apply Forall_rev, limbs_lt_digits. lia. Qed.

(** Or-ing a shifted value onto cleared bits is addition. *)
Lemma lor_shiftl x c s : 0 <= s -> 0 <= x < 2 ^ s -> x .| (c << s) = x + 2 ^ s * c.
Proof.
  intros Hs Hx.
  assert (H0 : x .& (c << s) = 0).
  { apply Z.bits_inj'; intros i Hi. rewrite Z.land_spec, Z.bits_0.
    destruct (Z.lt_ge_cases i s).
    - now rewrite (Z.shiftl_spec_low c) by lia; apply andb_false_r.
    - replace x with (x mod 2 ^ s) by (apply Z.mod_small; lia).
      now rewrite Z.mod_pow2_bits_high by lia. }
  rewrite <- Z.lxor_lor, <- Z.add_nocarry_lxor, Z.shiftl_mul_pow2 by assumption. lia.
Qed.

(** Writing the bits [c] at position [b*i + s] of a value that ends below it. *)
Lemma upd_digits b n v i s c w : 0 <= b -> 0 <= s -> 0 <= w -> s + w <= b ->
  (i < n)%nat -> 0 <= c < 2 ^ w -> 0 <= v < 2 ^ (b * Z.of_nat i + s) ->
  upd i (nth i (digits b n v) 0 .| (c << s)) (digits b n v) =
  digits b n (v + 2 ^ (b * Z.of_nat i + s) * c).
Proof.
  intros Hb Hs Hw Hsw. assert (H2 : 0 < 2 ^ b) by (apply Z.pow_pos_nonneg; lia).
  assert (Hcs : 2 ^ s * 2 ^ w <= 2 ^ b)
    by (rewrite <- Z.pow_add_r by lia; apply Z.pow_le_mono_r; lia).
  assert (0 < 2 ^ s) by (apply Z.pow_pos_nonneg; lia).
  revert v i. induction n as [| n IH]; intros v [| i] Hi Hc Hv; try lia; cbn [digits nth upd].
  - rewrite Z.mul_0_r, Z.add_0_l in *.
    assert (2 ^ s <= 2 ^ b) by (apply Z.pow_le_mono_r; lia).
    rewrite (Z.mod_small v) by lia. rewrite lor_shiftl by lia.
    rewrite Z.mod_small, !Z.div_small by nia. reflexivity.
  - rewrite Nat2Z.inj_succ, Z.mul_succ_r in Hv |- *.
    replace (b * Z.of_nat i + b + s) with (b + (b * Z.of_nat i + s)) in Hv |- * by lia.
    rewrite Z.pow_add_r in Hv |- * by lia. rewrite <- Z.mul_assoc.
    rewrite (Z.mul_comm (2 ^ b)), Z.mod_add, Z.div_add by lia.
    f_equal. apply IH; [lia | assumption |].
    split; [apply Z.div_pos; lia |]. apply Z.div_lt_upper_bound; lia.
Qed.

(** [x & y] is the all-ones word exactly when both are. *)
Lemma land_full_iff M x y : Rng x M -> Rng y M -> x .& y = M <-> x = M /\ y = M.
Proof.
  intros Hx Hy. split.
  - intros H. pose proof (rng_land x y y (proj1 Hx) (conj (proj1 Hy) (Z.le_refl _))) as [? ?].
    pose proof (rng_land y x x (proj1 Hy) (conj (proj1 Hx) (Z.le_refl _))) as [? ?].
    rewrite (Z.land_comm y) in *. unfold Rng in *; lia.
  - intros [-> ->]. apply Z.land_diag.
Qed.

Lemma rng_land_same M x y : Rng x M -> Rng y M -> Rng (x .& y) M.
Proof. intros Hx Hy. exact (rng_land x y M (proj1 Hx) Hy). Qed.


(** The low [i + 1] limbs, and comparison decided by the top limb that differs. *)
Lemma limbs_val_firstn_S b l i : 0 <= b -> (i < length l)%nat ->
  limbs_val b (firstn (S i) l) = limbs_val b (firstn i l) + 2 ^ (b * Z.of_nat i) * nth i l 0.
Proof.
  intros Hb Hi. rewrite <- (firstn_skipn i (firstn (S i) l)), firstn_firstn, limbs_val_app by lia.
  rewrite Nat.min_l, length_firstn, Nat.min_l by lia. do 2 f_equal.
  rewrite skipn_firstn_comm. replace (S i - i)%nat with 1%nat by lia.
  rewrite <- (firstn_skipn i l) at 2. rewrite app_nth2; rewrite length_firstn; [| lia].
  replace (i - Nat.min i (length l))%nat with 0%nat by lia.
  destruct (skipn i l) eqn:E; [| cbn; lia].
  apply (f_equal (@length Z)) in E. rewrite length_skipn in E. cbn in E. lia.
Qed.

Lemma limbs_lt_firstn b l i : limbs_lt b l -> limbs_lt b (firstn i l).
Proof.
  intros H. rewrite <- (firstn_skipn i l) in H. exact (proj1 (proj1 (Forall_app _ _ _) H)).
Qed.

Lemma compare_step b i u v x y : 0 <= b -> 0 <= u < 2 ^ (b * i) -> 0 <= v < 2 ^ (b * i) ->
  (u + 2 ^ (b * i) * x ?= v + 2 ^ (b * i) * y) =
  match x ?= y with Eq => (u ?= v) | c => c end.
Proof.
  intros Hb Hu Hv. destruct (Z.compare_spec x y) as [-> | H | H].
  - now rewrite !(Z.add_comm _ (_ * y)), Z.add_compare_mono_l.
  - apply Z.compare_lt_iff. nia.
  - apply Z.compare_gt_iff. nia.
Qed.

(** Break a list of known length into its elements. *)
Ltac list_cases l H :=
  lazymatch type of H with
  | length l = S _ =>
      let x := fresh l in
      destruct l as [| x l]; [discriminate H |];
      cbn [length] in H; apply eq_add_S in H; list_cases l H
  | length l = 0%nat => apply length_zero_iff_nil in H; subst l
  end.

Lemma wrap_shl w x k : 0 <= k <= w -> (x << k) mod 2 ^ w = (x mod 2 ^ (w - k)) << k.
Proof.
  intros Hk. rewrite !Z.shiftl_mul_pow2 by lia.
  replace (2 ^ w) with (2 ^ (w - k) * 2 ^ k) by (rewrite <- Z.pow_add_r by lia; f_equal; lia).
  now rewrite Z.mul_mod_distr_r by (apply Z.pow_nonzero; lia).
Qed.

Lemma u32_shl x k : 0 <= k <= 32 -> u32 (x << k) = (x mod 2 ^ (32 - k)) << k.
Proof. apply wrap_shl. Qed.

Lemma div_lt x i k : 0 <= i -> 0 <= k -> 0 <= x < 2 ^ (i + k) -> 0 <= x / 2 ^ i < 2 ^ k.
Proof.
  intros Hi Hk Hx. rewrite Z.pow_add_r in Hx by lia.
  assert (0 < 2 ^ i) by (apply Z.pow_pos_nonneg; lia).
  split; [apply Z.div_pos | apply Z.div_lt_upper_bound]; lia.
Qed.

Lemma mod_div_pow x n k : 0 <= k <= n -> (x mod 2 ^ n) / 2 ^ k = (x / 2 ^ k) mod 2 ^ (n - k).
Proof.
  intros H. rewrite <- !Z.shiftr_div_pow2, <- !Z.land_ones by lia.
  apply Z.bits_inj'; intros i Hi.
  rewrite Z.shiftr_spec, !Z.land_spec, Z.shiftr_spec by lia. f_equal.
  destruct (Z.ltb_spec i (n - k)).
  - now rewrite !Z.ones_spec_low by lia.
  - now rewrite !Z.ones_spec_high by lia.
Qed.

Lemma div_div_pow x m n : 0 <= m -> 0 <= n -> x / 2 ^ m / 2 ^ n = x / 2 ^ (m + n).
Proof.
  intros. rewrite Z.div_div, <- Z.pow_add_r by (try apply Z.pow_pos_nonneg; lia). reflexivity.
Qed.

Lemma mod_mod_pow x m n : 0 <= n <= m -> (x mod 2 ^ m) mod 2 ^ n = x mod 2 ^ n.
Proof.
  intros. apply Z.mod_mod_divide. exists (2 ^ (m - n)).
  rewrite <- Z.pow_add_r by lia. f_equal. lia.
Qed.

(** A word read across two words of width [w]. *)
Lemma funnel w X s : 0 <= s < w ->
  (X mod 2 ^ w >> s) .| ((((X / 2 ^ w) mod 2 ^ w) << (w - s)) mod 2 ^ w) = (X / 2 ^ s) mod 2 ^ w.
Proof.
  intros Hs. rewrite wrap_shl, Z.shiftr_div_pow2, mod_div_pow by lia.
  replace (w - (w - s)) with s by lia.
  rewrite lor_shiftl by (try apply Z.mod_pos_bound, Z.pow_pos_nonneg; lia).
  rewrite mod_mod_pow by lia.
  replace (X / 2 ^ w) with (X / 2 ^ s / 2 ^ (w - s)) by
    (rewrite div_div_pow by lia; do 2 f_equal; lia).
  rewrite <- mod_pow_add by lia. do 2 f_equal. lia.
Qed.

(** * Packing and unpacking limbs *)

Lemma shl_mask w x k n : 0 <= k <= n -> n <= w ->
  ((x << k) mod 2 ^ w) .& Z.ones n = (x mod 2 ^ (n - k)) << k.
Proof. intros Hk Hn. rewrite Z.land_ones, mod_mod_pow by lia. now apply wrap_shl. Qed.

(** One word packed from the top of [x] and the bottom of [y]. *)
Lemma pack_word w x y i k : 0 <= i -> 0 <= k <= w -> 0 <= x < 2 ^ (i + k) ->
  (x >> i) .| ((y << k) mod 2 ^ w) = x / 2 ^ i + 2 ^ k * (y mod 2 ^ (w - k)).
Proof.
  intros Hi Hk Hx. rewrite wrap_shl, Z.shiftr_div_pow2 by lia.
  apply lor_shiftl; [lia | apply div_lt; lia].
Qed.

(** One limb of [n] bits unpacked from the top of [x] and the bottom of [y]. *)
Lemma unpack_limb w n x y i k : 0 <= i -> 0 <= k <= n -> n <= w -> 0 <= x < 2 ^ (i + k) ->
  (x >> i) .| (((y << k) mod 2 ^ w) .& Z.ones n) = x / 2 ^ i + 2 ^ k * (y mod 2 ^ (n - k)).
Proof.
  intros Hi Hk Hn Hx. rewrite shl_mask, Z.shiftr_div_pow2 by lia.
  apply lor_shiftl; [lia | apply div_lt; lia].
Qed.

Lemma const_limb x y i k n : 0 <= i -> 0 <= k -> 0 <= n -> 0 <= x < 2 ^ (i + k) ->
  (x >> i) .| ((y .& Z.ones n) << k) = x / 2 ^ i + 2 ^ k * (y mod 2 ^ n).
Proof.
  intros Hi Hk Hn Hx. rewrite Z.land_ones, Z.shiftr_div_pow2 by lia.
  apply lor_shiftl; [lia | apply div_lt; lia].
Qed.

(** * Masks *)

(** [x ^ c] is all ones exactly when [x] is the complement of [c]. *)
Lemma lxor_full_iff M x c d : Z.lxor M c = d -> x .^ c = M <-> x = d.
Proof.
  intros <-. split; intros H.
  - now rewrite <- H, Z.lxor_assoc, Z.lxor_nilpotent, Z.lxor_0_r.
  - now rewrite H, Z.lxor_assoc, Z.lxor_nilpotent, Z.lxor_0_r.
Qed.

Lemma mod_eq_0_iff v n : 0 <= v < 2 * n -> v mod n = 0 <-> v = 0 \/ v = n.
Proof.
  intros H. split.
  - intros H0. pose proof (Z.div_mod v n ltac:(lia)) as E. rewrite H0 in E.
    assert (v / n = 0 \/ v / n = 1) as [E1 | E1] by nia; rewrite E1 in E; lia.
  - intros [-> | ->]; [apply Z.mod_0_l | apply Z.mod_same]; lia.
Qed.

(** The masks of a conditional move on words of width [w]. *)
Lemma mask_select w x y (b : bool) : 0 <= w -> 0 <= x < 2 ^ w -> 0 <= y < 2 ^ w ->
  let mask := if b then 0 else Z.ones w in
  (x .& mask) .| (y .& Z.ldiff (Z.ones w) mask) = if b then y else x.
Proof.
  intros Hw Hx Hy. assert (Full : forall z, 0 <= z < 2 ^ w -> z .& Z.ones w = z)
    by (intros z Hz; rewrite Z.land_ones by lia; now apply Z.mod_small).
  destruct b; cbv zeta; [rewrite Z.ldiff_0_r | rewrite Z.ldiff_diag]; rewrite Z.land_0_r, Full by assumption;
    [apply Z.lor_0_l | apply Z.lor_0_r].
Qed.

(** * Comparison from the most significant limb

    [for (i = 9; i >= 0; i--)] in [secp256k1_fe_cmp_var]; [k] is [i + 1]. *)
Fixpoint fe_cmp_loop (k : nat) (a b : list Z) : Z :=
  match k with
  | O => 0
  | S i =>
      if a.[i] >? b.[i] then 1
      else if a.[i] <? b.[i] then -1
      else fe_cmp_loop i a b
  end.

Lemma fe_cmp_loop_spec w a b k : 0 <= w -> limbs_lt w a -> limbs_lt w b ->
  (k <= length a)%nat -> (k <= length b)%nat ->
  fe_cmp_loop k a b =
  match limbs_val w (firstn k a) ?= limbs_val w (firstn k b) with
  | Gt => 1 | Lt => -1 | Eq => 0
  end.
Proof.
  intros Hw Ha Hb. induction k as [| i IH]; intros La Lb; [reflexivity |].
  cbn [fe_cmp_loop]. rewrite IH, !limbs_val_firstn_S by lia.
  assert (B : forall l, limbs_lt w l -> (i < length l)%nat ->
    0 <= limbs_val w (firstn i l) < 2 ^ (w * Z.of_nat i)).
  { intros l Hl Hi.
    pose proof (limbs_val_bound w (firstn i l) Hw (limbs_lt_firstn w l i Hl)) as Hv.
    rewrite length_firstn, Nat.min_l in Hv by lia. exact Hv. }
  rewrite compare_step by (try apply B; auto; lia).
  rewrite Z.gtb_ltb. destruct (Z.compare_spec a.[i] b.[i]) as [-> | H | H].
  - now rewrite Z.ltb_irrefl.
  - rewrite (proj2 (Z.ltb_ge _ _)), (proj2 (Z.ltb_lt _ _)) by lia. reflexivity.
  - now rewrite (proj2 (Z.ltb_lt _ _)) by lia.
Qed.

(** * Elements as explicit lists of limbs

    A bound on an element is its length, a bound on all limbs but the top one
    and a bound on the top one.  [fe_cases] makes the limbs and their bounds
    explicit, the others prove such a bound. *)

Ltac fe_cases a H :=
  let L := fresh in let F := fresh in let T := fresh "R" in
  destruct H as (L & F & T); list_cases a L; cbn [firstn nth] in F, T;
  repeat lazymatch goal with
         | F : Forall _ (_ :: _) |- _ =>
             let R := fresh "R" in
             apply Forall_cons_iff in F; destruct F as [R F]; cbv beta in R
         | F : Forall _ [] |- _ => clear F
         end.

(** Prove the limb bounds of an explicit list. *)
Ltac limb_bounds :=
  lazymatch goal with
  | |- Rng _ _ =>
      first [eapply rng_weaken; [eassumption | apply Z.leb_le; reflexivity]
            | eapply rng_weaken; [typeclasses eauto | apply Z.leb_le; reflexivity]]
  end.

Ltac fe_bounds :=
  split; [reflexivity | split;
    [cbn [firstn]; repeat (apply Forall_cons; [limb_bounds |]); apply Forall_nil
    | cbn [nth]; limb_bounds]].

(** Run the body of [f] statement by statement. *)
Ltac wp_run f := cbv beta iota delta [f nth]; repeat wp_step; try wp_done.

Ltac fe_mag_intro :=
  split; [reflexivity | split;
    [cbn [firstn]; repeat (apply Forall_cons; [unfold Rng in *; nia |]); apply Forall_nil
    | cbn [nth]; unfold Rng in *; nia]].
