(* ===== verification/Accum.v ===== *)
(** The three-word accumulator of the scalar multiplications: the macros
    [muladd], [muladd_fast], [muladd2], [sumadd], [sumadd_fast], [extract] and
    [extract_fast], which [scalar_8x32_impl.h] instantiates at 32 bits and
    [scalar_4x64_impl.h] at 64, with a narrower [c2] in its products.  An
    accumulator represents an integer; the
    macros add to it and take its low word, as long as it fits. *)

From Stdlib Require Import ZArith Lia List Bool.
From S2P Require Import Prelude.
Open Scope Z_scope.
Open Scope c_scope.

(** The words [c0], [c1], [c2]. *)
Record acc : Type := Acc { c0 : Z; c1 : Z; c2 : Z }.

Section Macros.
(** The widths of [c0] and [c1], and of [c2]. *)
Variables w w2 : Z.

Definition wrap (z : Z) : Z := z mod 2 ^ w.

Definition wrap2 (z : Z) : Z := z mod 2 ^ w2.

(** [t] is the double-width product. *)
Definition muladd (c : acc) (a b : Z) : acc :=
  let t := (a * b) mod 2 ^ (2 * w) in
  let th := wrap (t >> w) in
  let tl := wrap t in
  let c0 := wrap (c0 c + tl) in
  let th := wrap (th + b2z (c0 <? tl)) in
  let c1 := wrap (c1 c + th) in
  let c2 := wrap2 (c2 c + b2z (c1 <? th)) in
  Acc c0 c1 c2.

Definition muladd_fast (c : acc) (a b : Z) : acc :=
  let t := (a * b) mod 2 ^ (2 * w) in
  let th := wrap (t >> w) in
  let tl := wrap t in
  let c0 := wrap (c0 c + tl) in
  let th := wrap (th + b2z (c0 <? tl)) in
  let c1 := wrap (c1 c + th) in
  Acc c0 c1 (c2 c).

Definition muladd2 (c : acc) (a b : Z) : acc :=
  let t := (a * b) mod 2 ^ (2 * w) in
  let th := wrap (t >> w) in
  let tl := wrap t in
  let th2 := wrap (th + th) in
  let c2 := wrap2 (c2 c + b2z (th2 <? th)) in
  let tl2 := wrap (tl + tl) in
  let th2 := wrap (th2 + b2z (tl2 <? tl)) in
  let c0 := wrap (c0 c + tl2) in
  let th2 := wrap (th2 + b2z (c0 <? tl2)) in
  let c2 := wrap2 (c2 + (b2z (c0 <? tl2) .& b2z (th2 =? 0))) in
  let c1 := wrap (c1 c + th2) in
  let c2 := wrap2 (c2 + b2z (c1 <? th2)) in
  Acc c0 c1 c2.

Definition sumadd (c : acc) (a : Z) : acc :=
  let c0 := wrap (c0 c + a) in
  let over := b2z (c0 <? a) in
  let c1 := wrap (c1 c + over) in
  let c2 := wrap2 (c2 c + b2z (c1 <? over)) in
  Acc c0 c1 c2.

Definition sumadd_fast (c : acc) (a : Z) : acc :=
  let c0 := wrap (c0 c + a) in
  let c1 := wrap (c1 c + b2z (c0 <? a)) in
  Acc c0 c1 (c2 c).

(** After [(n) = c0], the shift by one word. *)
Definition extract (c : acc) : acc := Acc (c1 c) (c2 c) 0.

Definition extract_fast (c : acc) : acc := Acc (c1 c) 0 (c2 c).

(** [acc_is c v B]: the words represent [v], which is at most [B]. *)
Definition acc_is (c : acc) (v B : Z) : Prop :=
  0 <= c0 c < 2 ^ w /\ 0 <= c1 c < 2 ^ w /\ 0 <= c2 c < 2 ^ w2 /\
  v = c0 c + 2 ^ w * (c1 c + 2 ^ w * c2 c) /\ v <= B.

Hypothesis w_pos : 0 < w.
Hypothesis w2_le : 0 < w2 <= w.

Local Abbreviation W := (2 ^ w).
Local Abbreviation W2 := (2 ^ w2).

Lemma W_pos : 1 < W.
Proof. apply Z.pow_gt_1; lia. Qed.

Lemma W2_le : W2 <= W.
Proof. apply Z.pow_le_mono_r; lia. Qed.

(** An addition of words with its carry, as the code detects it. *)
Lemma add_carry x y : 0 <= x < W -> 0 <= y < W ->
  exists k, wrap (x + y) + W * b2z k = x + y /\ (wrap (x + y) <? y) = k /\
  0 <= wrap (x + y) < W.
Proof.
  intros Hx Hy. unfold wrap. exists (W <=? x + y).
  pose proof (Z.mod_pos_bound (x + y) W ltac:(lia)).
  destruct (Z.leb_spec W (x + y)); cbn [b2z].
  - replace ((x + y) mod W) with (x + y - W) by
      (apply Z.mod_unique with 1; lia). lia.
  - rewrite Z.mod_small by lia. lia.
Qed.

Lemma wrap_id x : 0 <= x < W -> wrap x = x.
Proof. intros H. apply Z.mod_small, H. Qed.

Lemma wrap2_id x : 0 <= x < W2 -> wrap2 x = x.
Proof. intros H. apply Z.mod_small, H. Qed.

(** The double-width product and its two words. *)
Lemma product_words a b : 0 <= a < W -> 0 <= b < W ->
  exists th tl, (a * b) mod 2 ^ (2 * w) = tl + W * th /\
  wrap ((tl + W * th) >> w) = th /\ wrap (tl + W * th) = tl /\
  a * b = tl + W * th /\ 0 <= tl < W /\ 0 <= th /\ th + 2 <= W.
Proof.
  intros Ha Hb. assert (0 <= a * b <= (W - 1) * (W - 1)) by nia.
  pose proof W_pos. pose proof (Z.div_mod (a * b) W ltac:(lia)) as E.
  pose proof (Z.mod_pos_bound (a * b) W ltac:(lia)) as Hm.
  exists (a * b / W), ((a * b) mod W). rewrite (Z.add_comm _ (W * _)), <- E.
  assert (0 <= a * b / W) by (apply Z.div_pos; lia).
  assert (a * b / W < W - 1) by (apply Z.div_lt_upper_bound; nia).
  rewrite Z.shiftr_div_pow2 by lia.
  repeat split; try lia.
  - apply Z.mod_small. replace (2 ^ (2 * w)) with (W * W); [nia |].
    rewrite <- Z.pow_add_r by lia. f_equal. lia.
  - apply wrap_id. lia.
Qed.

(** Words that fit because the represented integer does. *)
Lemma top_word x y z : 0 <= x -> 0 <= y -> 0 <= z ->
  x + W * (y + W * z) < W * (W * W2) -> z < W2.
Proof. intros. pose proof W_pos. nia. Qed.

Lemma mid_word x y z : 0 <= x -> 0 <= y -> 0 <= z ->
  x + W * (y + W * z) < W * W -> y < W.
Proof. intros. pose proof W_pos. nia. Qed.

Ltac carry x y k :=
  let r := fresh "r" in let E := fresh "E" in let K := fresh "K" in let R := fresh "R" in
  destruct (add_carry x y) as (k & E & K & R);
  [lia | lia |]; rewrite ?K; set (r := wrap (x + y)) in *; clearbody r; clear K;
  pose proof (rng_b2z k : 0 <= b2z k <= 1).

(** Solve the recorded carries for the old words. *)
Ltac solve_words :=
  repeat match goal with E : ?r + W * ?k = ?x + ?y |- _ =>
    let X := fresh in assert (X : x = r + W * k - y) by lia; rewrite X; clear E X end;
  ring.

Ltac acc_start c Ha :=
  destruct Ha as (? & ? & ? & -> & ?); pose proof W_pos.

Ltac acc_split Heq :=
  split; [cbn [c0]; lia |]; split; [cbn [c1]; lia |]; split; [cbn [c2]; lia |];
  split; [exact Heq | lia].

Lemma acc_sumadd c v B a : acc_is c v B -> 0 <= a < W -> v + a < W * (W * W2) ->
  acc_is (sumadd c a) (v + a) (B + a).
Proof.
  intros Hc Ha Hv. acc_start c Hc. unfold sumadd.
  carry (c0 c) a k. carry (c1 c) (b2z k) k'.
  assert (Heq : c0 c + W * (c1 c + W * c2 c) + a = r + W * (r0 + W * (c2 c + b2z k')))
    by solve_words.
  pose proof (top_word r r0 (c2 c + b2z k')). rewrite wrap2_id by lia. acc_split Heq.
Qed.

Lemma acc_sumadd_fast c v B a : acc_is c v B -> 0 <= a < W -> v + a < W * W ->
  acc_is (sumadd_fast c a) (v + a) (B + a).
Proof.
  intros Hc Ha Hv. acc_start c Hc. unfold sumadd_fast. carry (c0 c) a k.
  assert (Heq : c0 c + W * (c1 c + W * c2 c) + a = r + W * (c1 c + b2z k + W * c2 c))
    by solve_words.
  pose proof (mid_word r (c1 c + b2z k) (c2 c)). rewrite wrap_id by lia. acc_split Heq.
Qed.

Ltac product a b Ha Hb :=
  destruct (product_words a b Ha Hb) as (th & tl & E & Eh & El & Ep & Hl & Hh & Hh');
  rewrite E, Eh, El, Ep in *; clear E Eh El.

Lemma acc_muladd c v B a b : acc_is c v B -> 0 <= a < W -> 0 <= b < W ->
  v + a * b < W * (W * W2) -> acc_is (muladd c a b) (v + a * b) (B + a * b).
Proof.
  intros Hc Ha Hb Hv. acc_start c Hc. unfold muladd. product a b Ha Hb.
  carry (c0 c) tl k. rewrite (wrap_id (th + b2z k)) by lia.
  carry (c1 c) (th + b2z k) k'.
  assert (Heq : c0 c + W * (c1 c + W * c2 c) + (tl + W * th)
                = r + W * (r0 + W * (c2 c + b2z k'))) by solve_words.
  pose proof (top_word r r0 (c2 c + b2z k')). rewrite wrap2_id by lia. acc_split Heq.
Qed.

Lemma acc_muladd_fast c v B a b : acc_is c v B -> 0 <= a < W -> 0 <= b < W ->
  v + a * b < W * W -> acc_is (muladd_fast c a b) (v + a * b) (B + a * b).
Proof.
  intros Hc Ha Hb Hv. acc_start c Hc. unfold muladd_fast. product a b Ha Hb.
  carry (c0 c) tl k. rewrite (wrap_id (th + b2z k)) by lia.
  assert (Heq : c0 c + W * (c1 c + W * c2 c) + (tl + W * th)
                = r + W * (c1 c + (th + b2z k) + W * c2 c)) by solve_words.
  pose proof (mid_word r (c1 c + (th + b2z k)) (c2 c)). rewrite wrap_id by lia.
  acc_split Heq.
Qed.

(** Doubling a word leaves room for one carry. *)
Lemma double_even th : 0 <= th < W -> wrap (th + th) + 2 <= W.
Proof.
  intros H. unfold wrap. pose proof (Z.mod_pos_bound (th + th) W ltac:(lia)).
  assert (E : W = 2 * 2 ^ (w - 1)) by (rewrite <- Z.pow_succ_r by lia; f_equal; lia).
  assert (((th + th) mod W) mod 2 = 0).
  { rewrite Z.mod_mod_divide by (exists (2 ^ (w - 1)); lia).
    rewrite Z.add_diag, Z.mul_comm. apply Z.mod_mul; lia. }
  set (x := (th + th) mod W) in *. clearbody x. Z.div_mod_to_equations. lia.
Qed.

(** The second carry into [th2] is detected by its wrapping to zero. *)
Lemma carry_to_zero x k : 0 <= x < W ->
  exists k', wrap (x + b2z k) + W * b2z k' = x + b2z k /\
  (b2z k .& b2z (wrap (x + b2z k) =? 0)) = b2z k' /\ 0 <= wrap (x + b2z k) < W.
Proof.
  intros Hx. pose proof W_pos. pose proof (rng_b2z k : 0 <= b2z k <= 1).
  destruct (add_carry x (b2z k) ltac:(lia) ltac:(lia)) as (k' & E & _ & R).
  exists k'. repeat split; try lia. rewrite b2z_land. f_equal.
  destruct k, k'; cbn [b2z andb] in *; lia.
Qed.

Lemma acc_muladd2 c v B a b : acc_is c v B -> 0 <= a < W -> 0 <= b < W ->
  v + 2 * (a * b) < W * (W * W2) -> acc_is (muladd2 c a b) (v + 2 * (a * b)) (B + 2 * (a * b)).
Proof.
  intros Hc Ha Hb Hv. acc_start c Hc. unfold muladd2. product a b Ha Hb.
  pose proof (double_even th ltac:(lia)). carry th th k1. carry tl tl k2.
  rewrite (wrap_id (r + b2z k2)) by lia. carry (c0 c) r0 k3.
  destruct (carry_to_zero (r + b2z k2) k3 ltac:(lia)) as (k4 & E4 & K4 & R4).
  rewrite K4. set (t := wrap (r + b2z k2 + b2z k3)) in *. clearbody t. clear K4.
  pose proof (rng_b2z k4 : 0 <= b2z k4 <= 1). carry (c1 c) t k5.
  assert (Heq : c0 c + W * (c1 c + W * c2 c) + 2 * (tl + W * th)
                = r1 + W * (r2 + W * (c2 c + b2z k1 + b2z k4 + b2z k5))).
  { replace (c0 c) with (r1 + W * b2z k3 - r0) by lia.
    replace (c1 c) with (r2 + W * b2z k5 - t) by lia.
    replace (2 * (tl + W * th)) with (r0 + W * b2z k2 + W * (r + W * b2z k1)) by
      (replace (r0 + W * b2z k2) with (tl + tl) by lia;
       replace (r + W * b2z k1) with (th + th) by lia; ring).
    replace t with (r + b2z k2 + b2z k3 - W * b2z k4) by lia. ring. }
  pose proof (top_word r1 r2 (c2 c + b2z k1 + b2z k4 + b2z k5)).
  rewrite (wrap2_id (c2 c + b2z k1)) by lia.
  rewrite (wrap2_id (c2 c + b2z k1 + b2z k4)) by lia. rewrite wrap2_id by lia.
  acc_split Heq.
Qed.

(** Taking the low word out. *)
Lemma acc_extract c v B : acc_is c v B ->
  exists v', c0 c + W * v' = v /\ acc_is (extract c) v' (B >> w) /\ 0 <= v'.
Proof.
  intros (H0 & H1 & H2 & -> & HB). pose proof W_pos. pose proof W2_le.
  exists (c1 c + W * c2 c). split; [reflexivity |]. split; [| nia].
  split; [cbn [extract Accum.c0]; lia |]. split; [cbn [extract Accum.c1]; lia |].
  split; [cbn [extract Accum.c2]; lia |]. split; [cbn [extract Accum.c0 Accum.c1 Accum.c2]; ring |].
  rewrite Z.shiftr_div_pow2 by lia. apply Z.div_le_lower_bound; lia.
Qed.

Lemma acc_extract_fast c v B : acc_is c v B -> v < W * W ->
  exists v', c0 c + W * v' = v /\ acc_is (extract_fast c) v' (B >> w) /\ 0 <= v'.
Proof.
  intros (H0 & H1 & H2 & -> & HB) Hv. pose proof W_pos. pose proof W2_le.
  assert (c2 c = 0) as E by nia.
  exists (c1 c). rewrite E. split; [ring |]. split; [| lia].
  split; [cbn [extract_fast Accum.c0]; lia |]. split; [cbn [extract_fast Accum.c1]; lia |].
  split; [cbn [extract_fast Accum.c2]; lia |].
  split; [cbn [extract_fast Accum.c0 Accum.c1 Accum.c2]; rewrite E; ring |].
  rewrite Z.shiftr_div_pow2 by lia. apply Z.div_le_lower_bound; nia.
Qed.

Lemma acc_word c v B : acc_is c v B -> v < W -> c0 c = v.
Proof. intros (H0 & H1 & H2 & -> & HB) Hv. pose proof W_pos. pose proof W2_le.
  assert (c1 c + W * c2 c = 0) as -> by nia. lia.
Qed.
End Macros.

(** * Steps of a [let] chain on an accumulator

    As [wp_step], with the bound [B] of every [acc_is] a literal. *)

(** From a macro's lemma to its step, the arithmetic of the bounds aside. *)
Ltac wp_acc L :=
  intros Hc; intros; lazymatch goal with HQ : forall _, _ -> wp _ _ |- _ => apply HQ end;
  rewrite ?andb_true_iff, ?Z.ltb_lt in *; unfold Rng in *;
  assert (Hv := proj2 (proj2 (proj2 (proj2 Hc))));
  destruct (L Hc) as (? & ? & ? & ? & ?); try lia; repeat split; lia.

Lemma widths w w2 : (0 <? w2) && (w2 <=? w) = true -> 0 < w /\ 0 < w2 <= w.
Proof. rewrite andb_true_iff, Z.ltb_lt, Z.leb_le. lia. Qed.

Lemma wp_acc_init w w2 {T} x A (k : acc -> T) (Q : T -> Prop) :
  Rng x A -> (0 <? w2) && (w2 <=? w) = true -> (A <? 2 ^ w) = true ->
  (forall c, acc_is w w2 c x A -> wp (k c) Q) -> wp (let c := Acc x 0 0 in k c) Q.
Proof.
  intros Hx [Hw Hw2]%widths HA HQ. apply Z.ltb_lt in HA. pose proof (Z.pow_pos_nonneg 2 w2). apply HQ. unfold Rng in *.
  repeat split; cbn [c0 c1 c2]; lia.
Qed.

Lemma wp_muladd w w2 {T} c v B a b A A' (k : acc -> T) (Q : T -> Prop) :
  acc_is w w2 c v B -> Rng a A -> Rng b A' -> (0 <? w2) && (w2 <=? w) = true -> (A <? 2 ^ w) && (A' <? 2 ^ w) && (B + A * A' <? 2 ^ w * (2 ^ w * 2 ^ w2)) = true ->
  (forall c', acc_is w w2 c' (v + a * b) (B + A * A') -> wp (k c') Q) ->
  wp (let c' := muladd w w2 c a b in k c') Q.
Proof.
  intros Hc Ha Hb [Hw Hw2]%widths. pose proof (rng_mul a b A A' Ha Hb).
  revert Hc. wp_acc (acc_muladd w w2 Hw Hw2 c v B a b).
Qed.

Lemma wp_muladd_fast w w2 {T} c v B a b A A' (k : acc -> T) (Q : T -> Prop) :
  acc_is w w2 c v B -> Rng a A -> Rng b A' -> (0 <? w2) && (w2 <=? w) = true -> (A <? 2 ^ w) && (A' <? 2 ^ w) && (B + A * A' <? 2 ^ w * 2 ^ w) = true ->
  (forall c', acc_is w w2 c' (v + a * b) (B + A * A') -> wp (k c') Q) ->
  wp (let c' := muladd_fast w c a b in k c') Q.
Proof.
  intros Hc Ha Hb [Hw Hw2]%widths. pose proof (rng_mul a b A A' Ha Hb).
  revert Hc. wp_acc (acc_muladd_fast w w2 Hw Hw2 c v B a b).
Qed.

Lemma wp_muladd2 w w2 {T} c v B a b A A' (k : acc -> T) (Q : T -> Prop) :
  acc_is w w2 c v B -> Rng a A -> Rng b A' -> (0 <? w2) && (w2 <=? w) = true -> (A <? 2 ^ w) && (A' <? 2 ^ w) && (B + 2 * (A * A') <? 2 ^ w * (2 ^ w * 2 ^ w2)) = true ->
  (forall c', acc_is w w2 c' (v + 2 * (a * b)) (B + 2 * (A * A')) -> wp (k c') Q) ->
  wp (let c' := muladd2 w w2 c a b in k c') Q.
Proof.
  intros Hc Ha Hb [Hw Hw2]%widths. pose proof (rng_mul a b A A' Ha Hb).
  revert Hc. wp_acc (acc_muladd2 w w2 Hw Hw2 c v B a b).
Qed.

Lemma wp_sumadd w w2 {T} c v B a A (k : acc -> T) (Q : T -> Prop) :
  acc_is w w2 c v B -> Rng a A -> (0 <? w2) && (w2 <=? w) = true -> (A <? 2 ^ w) && (B + A <? 2 ^ w * (2 ^ w * 2 ^ w2)) = true ->
  (forall c', acc_is w w2 c' (v + a) (B + A) -> wp (k c') Q) ->
  wp (let c' := sumadd w w2 c a in k c') Q.
Proof.
  intros Hc Ha [Hw Hw2]%widths. revert Hc. wp_acc (acc_sumadd w w2 Hw Hw2 c v B a).
Qed.

Lemma wp_sumadd_fast w w2 {T} c v B a A (k : acc -> T) (Q : T -> Prop) :
  acc_is w w2 c v B -> Rng a A -> (0 <? w2) && (w2 <=? w) = true -> (A <? 2 ^ w) && (B + A <? 2 ^ w * 2 ^ w) = true ->
  (forall c', acc_is w w2 c' (v + a) (B + A) -> wp (k c') Q) ->
  wp (let c' := sumadd_fast w c a in k c') Q.
Proof.
  intros Hc Ha [Hw Hw2]%widths. revert Hc. wp_acc (acc_sumadd_fast w w2 Hw Hw2 c v B a).
Qed.

(** [(n) = c0] followed by the shift. *)
Lemma wp_extract w w2 {T} c v B (k : Z -> acc -> T) (Q : T -> Prop) :
  acc_is w w2 c v B -> (0 <? w2) && (w2 <=? w) = true ->
  (forall n c' v', n + 2 ^ w * v' = v -> Rng n (2 ^ w - 1) -> acc_is w w2 c' v' (B >> w) ->
     wp (k n c') Q) ->
  wp (let n := c0 c in let c' := extract c in k n c') Q.
Proof.
  intros Hc [Hw Hw2]%widths HQ. destruct (acc_extract w w2 Hw Hw2 c v B Hc) as (v' & E & Hc' & _).
  apply (HQ _ _ v' E); [| exact Hc']. destruct Hc as (? & _). unfold Rng; lia.
Qed.

Lemma wp_extract_fast w w2 {T} c v B (k : Z -> acc -> T) (Q : T -> Prop) :
  acc_is w w2 c v B -> (0 <? w2) && (w2 <=? w) = true -> (B <? 2 ^ w * 2 ^ w) = true ->
  (forall n c' v', n + 2 ^ w * v' = v -> Rng n (2 ^ w - 1) -> acc_is w w2 c' v' (B >> w) ->
     wp (k n c') Q) ->
  wp (let n := c0 c in let c' := extract_fast c in k n c') Q.
Proof.
  intros Hc [Hw Hw2]%widths HB HQ. apply Z.ltb_lt in HB.
  destruct (acc_extract_fast w w2 Hw Hw2 c v B Hc) as (v' & E & Hc' & _).
  { destruct Hc as (_ & _ & _ & _ & ?). lia. }
  apply (HQ _ _ v' E); [| exact Hc']. destruct Hc as (? & _). unfold Rng; lia.
Qed.

(** Reading the low word as the whole value. *)
Lemma wp_word w w2 {T} c v B (k : Z -> T) (Q : T -> Prop) :
  acc_is w w2 c v B -> (0 <? w2) && (w2 <=? w) = true -> (B <? 2 ^ w) = true ->
  (forall n, n = v -> Rng n B -> wp (k n) Q) -> wp (let n := c0 c in k n) Q.
Proof.
  intros Hc [Hw Hw2]%widths HB HQ. apply Z.ltb_lt in HB. pose proof (acc_word w w2 Hw Hw2 c v B Hc) as E.
  destruct Hc as (? & _ & _ & _ & ?). apply HQ; unfold Rng; lia.
Qed.

(** Evaluate the bound of an accumulator. *)
Ltac acc_norm H :=
  lazymatch type of H with
  | acc_is ?w ?w2 ?c ?v ?B => let B' := eval vm_compute in B in change (acc_is w w2 c v B') in H
  end.

(** The bound, the ranges of the operands and the contract of a macro. *)
Ltac acc_side := first [eassumption | typeclasses eauto | reflexivity | vm_compute; reflexivity].

(** Forget the accumulators before [c]. *)
Ltac acc_drop c :=
  repeat match goal with H : acc_is _ _ ?c' _ _ |- _ =>
    tryif constr_eq c c' then fail else clear H c' end.

Ltac acc_got := let c := fresh "c" in let Hc := fresh "Hc" in intros c Hc; acc_norm Hc; acc_drop c; cbv beta.

Ltac acc_take :=
  let n := fresh "n" in let c := fresh "c" in let v := fresh "v" in
  let E := fresh "E" in let R := fresh "R" in let Hc := fresh "Hc" in
  intros n c v E R Hc; acc_norm Hc; acc_drop c; rng_norm R; cbv beta;
  lazymatch type of E with
  | _ + ?p * _ = _ => let p' := eval vm_compute in p in change p with p' in E
  end.

(** One macro call. *)
Ltac acc_step w w2 :=
  lazymatch goal with
  | |- wp (let x := Acc ?a 0 0 in @?k x) ?Q =>
      refine (wp_acc_init w w2 a _ k Q _ _ _ _); [acc_side .. | acc_got]
  | |- wp (let x := muladd _ _ ?c ?a ?b in @?k x) ?Q =>
      refine (wp_muladd w w2 c _ _ a b _ _ k Q _ _ _ _ _ _); [acc_side .. | acc_got]
  | |- wp (let x := muladd_fast _ ?c ?a ?b in @?k x) ?Q =>
      refine (wp_muladd_fast w w2 c _ _ a b _ _ k Q _ _ _ _ _ _); [acc_side .. | acc_got]
  | |- wp (let x := muladd2 _ _ ?c ?a ?b in @?k x) ?Q =>
      refine (wp_muladd2 w w2 c _ _ a b _ _ k Q _ _ _ _ _ _); [acc_side .. | acc_got]
  | |- wp (let x := sumadd _ _ ?c ?a in @?k x) ?Q =>
      refine (wp_sumadd w w2 c _ _ a _ k Q _ _ _ _ _); [acc_side .. | acc_got]
  | |- wp (let x := sumadd_fast _ ?c ?a in @?k x) ?Q =>
      refine (wp_sumadd_fast w w2 c _ _ a _ k Q _ _ _ _ _); [acc_side .. | acc_got]
  | |- wp (let x := c0 ?c in let y := extract ?c in @?k x y) ?Q =>
      refine (wp_extract w w2 c _ _ k Q _ _ _); [acc_side .. | acc_take]
  | |- wp (let x := c0 ?c in let y := extract_fast ?c in @?k x y) ?Q =>
      refine (wp_extract_fast w w2 c _ _ k Q _ _ _ _); [acc_side .. | acc_take]
  | |- wp (let x := c0 ?c in @?k x) ?Q =>
      refine (wp_word w w2 c _ _ k Q _ _ _ _); [acc_side .. |];
      let n := fresh "n" in let E := fresh "E" in let R := fresh "R" in
      intros n E R; cbv beta
  end.
