(* ===== verification/Primes.v ===== *)
(** Primality of the field prime and of the group order, by Pocklington
    certificates that the kernel evaluates. *)

From Stdlib Require Import ZArith Lia List Bool Zmod.
From S2P Require Import Prelude.
Import ListNotations.
Open Scope Z_scope.

(** * Modular exponentiation *)

Fixpoint powmod (m a : Z) (e : positive) : Z :=
  match e with
  | xH => a mod m
  | xO e => let b := powmod m a e in (b * b) mod m
  | xI e => let b := powmod m a e in ((b * b) mod m * a) mod m
  end.

Lemma powmod_spec m a e : m <> 0 -> powmod m a e = a ^ Z.pos e mod m.
Proof.
  intros Hm. induction e as [e IH | e IH |]; cbn [powmod].
  - rewrite IH, Pos2Z.inj_xI, Z.pow_add_r, Z.pow_1_r by lia.
    rewrite <- Z.mul_mod, Z.mul_mod_idemp_l by lia. do 2 f_equal.
    rewrite <- Z.pow_add_r by lia. f_equal. lia.
  - rewrite IH, Pos2Z.inj_xO, <- Z.mul_mod, <- Z.pow_add_r by lia. do 2 f_equal. lia.
  - now rewrite Z.pow_1_r.
Qed.

(** * Prime divisors *)

(** The least divisor above 1, searched upwards from [k]. *)
Lemma least_divisor n k : 2 <= k <= n -> (forall d, 1 < d < k -> ~ (d | n)) ->
  exists r, 1 < r /\ (r | n) /\ forall d, 1 < d < r -> ~ (d | n).
Proof.
  intros Hk. replace k with (n - (n - k)) by lia. assert (Hm : 0 <= n - k <= n - 2) by lia.
  revert Hm. generalize (n - k). clear k Hk.
  intros m Hm. destruct Hm as [H0 Hm]. revert Hm. pattern m. apply natlike_ind; [| | exact H0].
  - intros Hn Hd. exists n. rewrite Z.sub_0_r in Hd. split; [lia |]. split; [reflexivity | exact Hd].
  - clear m H0. intros m H0 IH Hm Hd. set (k := n - Z.succ m) in *.
    destruct (Z.eq_dec (n mod k) 0) as [E | E].
    + exists k. split; [lia |]. split; [apply Z.mod_divide; lia | exact Hd].
    + apply IH; [lia |]. intros d Hdk. destruct (Z.eq_dec d k) as [-> | ?].
      * rewrite <- Z.mod_divide by lia. exact E.
      * apply Hd. lia.
Qed.

Lemma prime_divisor n : 1 < n -> exists r, Z.prime r /\ (r | n).
Proof.
  intros Hn. destruct (least_divisor n 2) as (r & Hr & Hd & Hl); [lia | lia |].
  exists r. split; [split; [exact Hr |] | exact Hd].
  intros d Hdr Hdd. apply (Hl d Hdr). now transitivity r.
Qed.

(** * Pocklington's criterion *)

(** Raising to a multiple of [q] congruent to 1 modulo [r - 1] is the identity
    modulo the prime [r], so if [b^q] is 1 and [q] does not divide [r - 1] then
    [b] is 1. *)
Lemma order_step r q b : Z.prime r -> Z.prime q -> ~ (q | r - 1) ->
  b ^ q mod r = 1 -> b mod r = 1.
Proof.
  intros Hr Hq Hd Hb. pose proof (Z.prime_ge_2 r Hr). pose proof (Z.prime_ge_2 q Hq).
  destruct (Z.Bezout_coprime q (r - 1)) as (u & v & E); [now apply Z.coprime_prime_l |].
  set (w := u mod (r - 1) + (r - 1)).
  pose proof (Z.mod_pos_bound u (r - 1) ltac:(lia)).
  assert (Hw : (r - 1 | w * q - 1)).
  { exists (q - q * (u / (r - 1)) - v). unfold w.
    replace (u mod (r - 1)) with (u - (r - 1) * (u / (r - 1))) by (rewrite Z.mod_eq by lia; ring).
    nia. }
  destruct Hw as [k Hk]. assert (0 <= k) by (unfold w in *; nia).
  assert (E1 : b ^ (w * q) mod r = 1).
  { rewrite Z.mul_comm, Z.pow_mul_r by (unfold w in *; lia).
    rewrite <- Z.mod_pow_l, Hb, Z.pow_1_l by (unfold w in *; lia). apply Z.mod_1_l; lia. }
  assert (Hnz : b mod r <> 0).
  { intros Hz. rewrite <- Z.mod_pow_l, Hz, Z.pow_0_l, Z.mod_0_l in Hb by lia. discriminate. }
  replace (w * q) with (1 + (r - 1) * k) in E1 by lia.
  rewrite Z.pow_add_r, Z.pow_1_r, Z.pow_mul_r in E1 by nia.
  rewrite <- Z.mul_mod_idemp_r, <- Z.mod_pow_l in E1 by lia.
  pose proof (Z.fermat_nz r b Hr Hnz) as F.
  rewrite F, Z.pow_1_l, Z.mod_1_l, Z.mul_1_r in E1 by lia. exact E1.
Qed.

(** A prime factor [q] of [N - 1] with a base. *)
Definition pock_factor (N : Z) (c : Z * Z) : bool :=
  let '(q, a) := c in
  let e := (N - 1) / q in
  let b := powmod N a (Z.to_pos e) in
  (0 <? e) && (0 <? q) && (e * q =? N - 1) && (powmod N b (Z.to_pos q) =? 1)
  && (Z.gcd (b - 1) N =? 1).

Lemma pock_factor_spec N q a r : 1 < N -> pock_factor N (q, a) = true -> Z.prime q ->
  Z.prime r -> (r | N) -> (q | r - 1).
Proof.
  intros HN H Hq Hr Hd. unfold pock_factor in H. rewrite !andb_true_iff, !Z.ltb_lt, !Z.eqb_eq in H.
  destruct H as ((((He & Hq0) & Heq) & Hp) & Hg). pose proof (Z.prime_ge_2 r Hr).
  set (b := powmod N a (Z.to_pos ((N - 1) / q))) in *.
  rewrite powmod_spec, Z2Pos.id in Hp by lia.
  destruct (Z.eq_dec ((r - 1) mod q) 0) as [E | E]; [now apply Z.mod_divide; [lia |] |].
  exfalso. rewrite Z.mod_divide in E by lia.
  assert (Hb : b mod r = 1).
  { apply (order_step r q); trivial. rewrite <- (Z.mod_mod_divide (b ^ q) N r), Hp by assumption.
    apply Z.mod_1_l. lia. }
  assert (D : (r | Z.gcd (b - 1) N)).
  { apply Z.gcd_greatest; [| exact Hd]. apply Z.mod_divide; [lia |].
    rewrite Zminus_mod, Hb, Z.mod_1_l by lia. reflexivity. }
  rewrite Hg in D. apply Z.divide_1_r_nonneg in D; lia.
Qed.

(** The factors must be coprime and their product exceed the square root. *)
Fixpoint pock_product (l : list (Z * Z)) : Z :=
  match l with [] => 1 | (q, _) :: t => q * pock_product t end.

Fixpoint pock_coprime (l : list (Z * Z)) : bool :=
  match l with [] => true | (q, _) :: t => (Z.gcd q (pock_product t) =? 1) && pock_coprime t end.

Definition pock_check (N : Z) (l : list (Z * Z)) : bool :=
  (1 <? N) && (0 <? pock_product l) && (N <? pock_product l * pock_product l) && pock_coprime l
  && forallb (pock_factor N) l.

Lemma pock_product_divides l x : pock_coprime l = true -> Forall (fun c => (fst c | x)) l ->
  (pock_product l | x).
Proof.
  induction l as [| [q a] t IH]; cbn [pock_coprime pock_product]; intros Hc Hd.
  - apply Z.divide_1_l.
  - apply andb_true_iff in Hc as [Hg Hc]. apply Z.eqb_eq in Hg.
    apply Forall_cons_iff in Hd as [Hq Hd]. cbn [fst] in Hq.
    destruct (IH Hc Hd) as [k ->]. destruct (Z.gauss q (pock_product t) k) as [m ->].
    + now rewrite Z.mul_comm.
    + exact Hg.
    + exists m. ring.
Qed.

Theorem pocklington N l : pock_check N l = true -> Forall (fun c => Z.prime (fst c)) l -> Z.prime N.
Proof.
  unfold pock_check. rewrite !andb_true_iff, !Z.ltb_lt, forallb_forall.
  intros ((((H1 & H0) & HF) & Hc) & Hf) Hp.
  assert (P : forall r, Z.prime r -> (r | N) -> pock_product l < r).
  { intros r Hr Hd. pose proof (Z.prime_ge_2 r Hr).
    assert (D : (pock_product l | r - 1)).
    { apply pock_product_divides; [exact Hc |]. rewrite Forall_forall in *. intros [q a] Hin.
      exact (pock_factor_spec N q a r H1 (Hf _ Hin) (Hp _ Hin) Hr Hd). }
    apply Z.divide_pos_le in D; lia. }
  split; [exact H1 |]. intros n Hn [m E].
  assert (Hm : 1 < m) by nia.
  destruct (Z.le_gt_cases n m).
  - destruct (prime_divisor n) as (r & Hr & Hd); [lia |].
    assert (r <= n) by (apply Z.divide_pos_le; [lia | exact Hd]).
    pose proof (P r Hr ltac:(rewrite E; now apply Z.divide_mul_r)). nia.
  - destruct (prime_divisor m) as (r & Hr & Hd); [lia |].
    assert (r <= m) by (apply Z.divide_pos_le; [lia | exact Hd]).
    pose proof (P r Hr ltac:(rewrite E; now apply Z.divide_mul_l)). nia.
Qed.

(** * The certificates *)

(** Trial division by [2 .. k + 1]. *)
Definition trial (n : Z) (k : nat) : bool :=
  (1 <? n) && (n <? (Z.of_nat k + 2) * (Z.of_nat k + 2))
  && forallb (fun d => negb (n mod Z.of_nat d =? 0)) (seq 2 k).

Lemma small_prime n k : trial n k = true -> Z.prime n.
Proof.
  unfold trial. rewrite !andb_true_iff, !Z.ltb_lt, forallb_forall. intros ((H1 & Hk) & Ht).
  assert (D : forall d, 1 < d < Z.of_nat k + 2 -> ~ (d | n)).
  { intros d Hd Hdiv. specialize (Ht (Z.to_nat d)). rewrite in_seq, Z2Nat.id in Ht by lia.
    rewrite (proj2 (Z.mod_divide n d ltac:(lia)) Hdiv) in Ht. specialize (Ht ltac:(lia)).
    discriminate. }
  split; [exact H1 |]. intros d Hd Hdiv. destruct Hdiv as [m E].
  destruct (Z.lt_ge_cases d (Z.of_nat k + 2)).
  - apply (D d); [lia |]. now exists m.
  - apply (D m); [nia |]. exists d. lia.
Qed.

#[local] Create HintDb primes.

Ltac pock l :=
  apply (pocklington _ l);
  [ vm_compute; reflexivity
  | repeat (apply Forall_cons; [cbn [fst]; solve [eauto 1 with primes nocore] |]); apply Forall_nil ].

Lemma prime_53 : Z.prime 53.
Proof. now apply (small_prime _ 8). Qed.
#[local] Hint Resolve prime_53 : primes.

Lemma prime_29 : Z.prime 29.
Proof. now apply (small_prime _ 6). Qed.
#[local] Hint Resolve prime_29 : primes.

Lemma prime_7 : Z.prime 7.
Proof. now apply (small_prime _ 3). Qed.
#[local] Hint Resolve prime_7 : primes.

Lemma prime_107590001 : Z.prime 107590001.
Proof. pock [(53, 2); (29, 2); (7, 2)]. Qed.
#[local] Hint Resolve prime_107590001 : primes.

Lemma prime_20113 : Z.prime 20113.
Proof. now apply (small_prime _ 142). Qed.
#[local] Hint Resolve prime_20113 : primes.

Lemma prime_1206781 : Z.prime 1206781.
Proof. pock [(20113, 2)]. Qed.
#[local] Hint Resolve prime_1206781 : primes.

Lemma prime_7240687 : Z.prime 7240687.
Proof. pock [(1206781, 2)]. Qed.
#[local] Hint Resolve prime_7240687 : primes.

Lemma prime_96557 : Z.prime 96557.
Proof. now apply (small_prime _ 311). Qed.
#[local] Hint Resolve prime_96557 : primes.

Lemma prime_255515944373312847190720520512484175977 : Z.prime 255515944373312847190720520512484175977.
Proof. pock [(107590001, 2); (7240687, 2); (96557, 2)]. Qed.
#[local] Hint Resolve prime_255515944373312847190720520512484175977 : primes.

Lemma prime_205115282021455665897114700593932402728804164701536103180137503955397371 : Z.prime 205115282021455665897114700593932402728804164701536103180137503955397371.
Proof. pock [(255515944373312847190720520512484175977, 2)]. Qed.
#[local] Hint Resolve prime_205115282021455665897114700593932402728804164701536103180137503955397371 : primes.

Lemma prime_secp_p : Z.prime secp_p.
Proof.
  pock [(205115282021455665897114700593932402728804164701536103180137503955397371, 2)].
Qed.

Lemma prime_1871 : Z.prime 1871.
Proof. now apply (small_prime _ 44). Qed.
#[local] Hint Resolve prime_1871 : primes.

Lemma prime_1627771 : Z.prime 1627771.
Proof. pock [(1871, 2)]. Qed.
#[local] Hint Resolve prime_1627771 : primes.

Lemma prime_297159362677 : Z.prime 297159362677.
Proof. pock [(1627771, 2)]. Qed.
#[local] Hint Resolve prime_297159362677 : primes.

Lemma prime_28181 : Z.prime 28181.
Proof. now apply (small_prime _ 168). Qed.
#[local] Hint Resolve prime_28181 : primes.

Lemma prime_545358713 : Z.prime 545358713.
Proof. pock [(28181, 2)]. Qed.
#[local] Hint Resolve prime_545358713 : primes.

Lemma prime_29047611873442575647497758179 : Z.prime 29047611873442575647497758179.
Proof. pock [(297159362677, 2); (545358713, 2)]. Qed.
#[local] Hint Resolve prime_29047611873442575647497758179 : primes.

Lemma prime_341948486974166000522343609283189 : Z.prime 341948486974166000522343609283189.
Proof. pock [(29047611873442575647497758179, 2)]. Qed.
#[local] Hint Resolve prime_341948486974166000522343609283189 : primes.

Lemma prime_9349 : Z.prime 9349.
Proof. now apply (small_prime _ 97). Qed.
#[local] Hint Resolve prime_9349 : primes.

Lemma prime_44706919 : Z.prime 44706919.
Proof. pock [(9349, 2)]. Qed.
#[local] Hint Resolve prime_44706919 : primes.

Lemma prime_120233 : Z.prime 120233.
Proof. now apply (small_prime _ 347). Qed.
#[local] Hint Resolve prime_120233 : primes.

Lemma prime_174723607534414371449 : Z.prime 174723607534414371449.
Proof. pock [(44706919, 2); (120233, 2)]. Qed.
#[local] Hint Resolve prime_174723607534414371449 : primes.

Lemma prime_secp_n : Z.prime secp_n.
Proof.
  pock [(341948486974166000522343609283189, 2); (174723607534414371449, 2)].
Qed.
