(* ===== verification/Fp.v ===== *)
(** The field of [secp_p] elements and the ring of integers modulo the group
    order, with the [ring] and [field] tactics over them. *)

From Stdlib Require Import ZArith Lia List Bool Zmod Ring_theory Field.
From S2P Require Import Prelude Primes.
Open Scope Z_scope.

#[export] Existing Instance prime_secp_p.
#[export] Existing Instance prime_secp_n.

(** Residues modulo the field prime and modulo the group order. *)
Abbreviation F := (Zmod secp_p).
Abbreviation Fn := (Zmod secp_n).

Definition F_of_Z (z : Z) : F := Zmod.of_Z secp_p z.
Definition Fn_of_Z (z : Z) : Fn := Zmod.of_Z secp_n z.

Declare Scope F_scope.
Delimit Scope F_scope with F.
Infix "+" := Zmod.add : F_scope.
Infix "-" := Zmod.sub : F_scope.
Infix "*" := Zmod.mul : F_scope.
Infix "/" := Zmod.mdiv : F_scope.
Notation "- x" := (Zmod.opp x) : F_scope.
Notation "x ^ n" := (Zmod.pow x n%Z) : F_scope.
Notation "0" := Zmod.zero : F_scope.
Notation "1" := Zmod.one : F_scope.
Bind Scope F_scope with Zmod.

Section Morphism.
Variable m : Z.

Lemma of_Z_morph : ring_morph (@Zmod.zero m) Zmod.one Zmod.add Zmod.mul Zmod.sub Zmod.opp eq
  0 1 Z.add Z.mul Z.sub Z.opp Z.eqb (Zmod.of_Z m).
Proof.
  split; auto using Zmod.of_Z_0, Zmod.of_Z_1, Zmod.of_Z_add, Zmod.of_Z_mul, Zmod.of_Z_sub, Zmod.of_Z_opp.
  intros x y H. apply Z.eqb_eq in H. now subst.
Qed.

Lemma pow_theory : power_theory (@Zmod.one m) Zmod.mul eq Z.of_N Zmod.pow.
Proof.
  split. intros r n. destruct n as [| p]; cbn [Z.of_N pow_N]; [apply Zmod.pow_0_r |].
  induction p as [p IH | p IH |].
  - cbn [pow_pos]. rewrite Pos2Z.inj_xI. change (2 * Z.pos p + 1) with (Z.succ (2 * Z.pos p)).
    rewrite Zmod.pow_succ_nonneg_r by lia. f_equal. rewrite <- IH, <- Zmod.pow_add_r_nonneg by lia.
    f_equal. lia.
  - cbn [pow_pos]. rewrite <- IH, <- Zmod.pow_add_r_nonneg by lia. f_equal. lia.
  - apply Zmod.pow_1_r.
Qed.
End Morphism.

Ltac F_cst t :=
  lazymatch t with
  | Zmod.zero => constr:(0%Z)
  | Zmod.one => constr:(1%Z)
  | F_of_Z ?z => lazymatch isZcst z with true => z | _ => constr:(InitialRing.NotConstant) end
  | Fn_of_Z ?z => lazymatch isZcst z with true => z | _ => constr:(InitialRing.NotConstant) end
  | _ => constr:(InitialRing.NotConstant)
  end.

Ltac F_pow_cst t :=
  lazymatch isZcst t with
  | true => let n := eval cbv in (Z.to_N t) in n
  | _ => constr:(InitialRing.NotConstant)
  end.

Add Field F_field : (Zmod.field_theory secp_p prime_secp_p)
  (morphism (of_Z_morph secp_p), constants [F_cst], power_tac (pow_theory secp_p) [F_pow_cst]).

Add Field Fn_field : (Zmod.field_theory secp_n prime_secp_n)
  (morphism (of_Z_morph secp_n), constants [F_cst], power_tac (pow_theory secp_n) [F_pow_cst]).

(** * Facts used by the implementations *)

Lemma F_of_Z_mod z : F_of_Z (z mod secp_p) = F_of_Z z.
Proof. apply Zmod.of_Z_mod. Qed.

Lemma F_of_Z_eq x y : F_of_Z x = F_of_Z y <-> x mod secp_p = y mod secp_p.
Proof. apply Zmod.of_Z_inj. Qed.

Lemma F_to_Z_bound (x : F) : 0 <= Zmod.to_Z x < secp_p.
Proof. apply Zmod.unsigned_pos_bound. reflexivity. Qed.

Lemma F_to_of_Z z : Zmod.to_Z (F_of_Z z) = z mod secp_p.
Proof. apply Zmod.unsigned_of_Z. Qed.

Lemma F_of_to_Z (x : F) : F_of_Z (Zmod.to_Z x) = x.
Proof. apply Zmod.of_Z_unsigned. Qed.

Lemma F_eq_dec (x y : F) : {x = y} + {x <> y}.
Proof.
  destruct (Z.eq_dec (Zmod.to_Z x) (Zmod.to_Z y)) as [E | E].
  - left. now apply Zmod.unsigned_inj.
  - right. congruence.
Defined.

Lemma F_mul_0 (x y : F) : (x * y = 0)%F <-> x = 0%F \/ y = 0%F.
Proof. apply Zmod.mul_0_iff_prime, prime_secp_p. Qed.

Lemma F_of_Z_nz z : 0 < z < secp_p -> F_of_Z z <> 0%F.
Proof. intros H E. apply Zmod.of_Z_nz in E; [exact E |]. rewrite Z.mod_small by lia. lia. Qed.
