(* ===== verification/Curve.v ===== *)
(** The abstract curve: points of [y^2 = x^3 + c] over the field in affine
    coordinates, the textbook addition, and the proof that it is a commutative
    group law.  This is the specification the Jacobian code of [group_impl.h]
    and the multiplications built on it are proved against. *)

From Stdlib Require Import ZArith Lia List Bool Zmod Field.
From S2P Require Import Prelude Primes Fp.
Open Scope Z_scope.

Inductive point : Type :=
  | Inf
  | Aff (x y : F).

Definition pneg (P : point) : point :=
  match P with
  | Inf => Inf
  | Aff x y => Aff x (- y)%F
  end.

(** Slope of the chord, or of the tangent when the abscissas agree. *)
Definition slope (x1 y1 x2 y2 : F) : F :=
  (if Zmod.eqb x1 x2 then F_of_Z 3 * x1 ^ 2 / (F_of_Z 2 * y1) else (y2 - y1) / (x2 - x1))%F.

(** The third point of the line, reflected. *)
Definition third (l x1 y1 x2 : F) : point :=
  (let x3 := l ^ 2 - x1 - x2 in Aff x3 (l * (x1 - x3) - y1))%F.

Definition padd (P Q : point) : point :=
  match P, Q with
  | Inf, _ => Q
  | _, Inf => P
  | Aff x1 y1, Aff x2 y2 =>
      if Zmod.eqb x1 x2 && Zmod.eqb y2 (- y1)%F then Inf else third (slope x1 y1 x2 y2) x1 y1 x2
  end.

Definition on_curve (c : F) (P : point) : Prop :=
  match P with
  | Inf => True
  | Aff x y => (y ^ 2 = x ^ 3 + c)%F
  end.

Lemma aff_inj x y x' y' : Aff x y = Aff x' y' -> x = x' /\ y = y'.
Proof. intros E. injection E as -> ->. auto. Qed.

Definition point_eqb (P Q : point) : bool :=
  match P, Q with
  | Inf, Inf => true
  | Aff x1 y1, Aff x2 y2 => Zmod.eqb x1 x2 && Zmod.eqb y1 y2
  | _, _ => false
  end.

Lemma point_eqb_eq P Q : point_eqb P Q = true <-> P = Q.
Proof.
  destruct P, Q; cbn; try (split; [discriminate | discriminate]); [tauto |].
  rewrite andb_true_iff, !Zmod.eqb_eq. split; [intros [-> ->]; reflexivity | now intros [= -> ->]].
Qed.

Lemma point_eq_dec (P Q : point) : {P = Q} + {P <> Q}.
Proof.
  destruct (point_eqb P Q) eqn:E; [left; now apply point_eqb_eq |].
  right. intros H. apply point_eqb_eq in H. congruence.
Defined.

(** * Field facts *)

Lemma F2_nz : F_of_Z 2 <> 0%F.
Proof. apply F_of_Z_nz. split; reflexivity. Qed.

Lemma F3_nz : F_of_Z 3 <> 0%F.
Proof. apply F_of_Z_nz. split; reflexivity. Qed.

Lemma F_sub_nz (x y : F) : x <> y -> (x - y <> 0)%F.
Proof. intros H E. apply H. replace x with ((x - y) + y)%F by ring. rewrite E. ring. Qed.

Lemma F_mul_nz (x y : F) : x <> 0%F -> y <> 0%F -> (x * y <> 0)%F.
Proof. intros Hx Hy E. apply F_mul_0 in E as [E | E]; contradiction. Qed.

Lemma F_cancel (k x y : F) : k <> 0%F -> (k * x = k * y)%F -> x = y.
Proof.
  intros Hk E. assert (H : (k * (x - y) = 0)%F).
  { replace (k * (x - y))%F with (k * x - k * y)%F by ring. rewrite E. ring. }
  apply F_mul_0 in H as [H | H]; [contradiction |].
  replace x with ((x - y) + y)%F by ring. rewrite H. ring.
Qed.

Lemma F_square_eq (x y : F) : (x ^ 2 = y ^ 2)%F -> x = y \/ x = (- y)%F.
Proof.
  intros E. assert (H : ((x - y) * (x + y) = 0)%F).
  { replace ((x - y) * (x + y))%F with (x ^ 2 - y ^ 2)%F by ring. rewrite E. ring. }
  apply F_mul_0 in H as [H | H]; [left | right].
  - replace x with ((x - y) + y)%F by ring. rewrite H. ring.
  - replace x with ((x + y) - y)%F by ring. rewrite H. ring.
Qed.

Create HintDb fnz.
#[export] Hint Resolve F2_nz F3_nz F_mul_nz F_sub_nz : fnz.

Lemma eqb_F_spec (x y : F) : reflect (x = y) (Zmod.eqb x y).
Proof. apply iff_reflect. symmetry. apply Zmod.eqb_eq. Qed.

(** * The line through two points *)

(** [l] is the slope of the line through the two points, chord or tangent. *)
Definition line (l x1 y1 x2 y2 : F) : Prop :=
  (y2 - y1 = l * (x2 - x1) /\ l * (y1 + y2) = x1 ^ 2 + x1 * x2 + x2 ^ 2)%F.

Section Curve.
Variable c : F.
Hypothesis Hc : c <> 0%F.

Lemma opposite_dec x1 y1 x2 y2 :
  Zmod.eqb x1 x2 && Zmod.eqb y2 (- y1)%F = true <-> Aff x2 y2 = pneg (Aff x1 y1).
Proof.
  rewrite andb_true_iff, !Zmod.eqb_eq. cbn.
  split; [intros [-> ->]; reflexivity | now intros [= -> ->]].
Qed.

Lemma padd_line x1 y1 x2 y2 : Aff x2 y2 <> pneg (Aff x1 y1) ->
  padd (Aff x1 y1) (Aff x2 y2) = third (slope x1 y1 x2 y2) x1 y1 x2.
Proof.
  intros H. unfold padd. destruct (Zmod.eqb x1 x2 && Zmod.eqb y2 (- y1)%F) eqn:E; [| reflexivity].
  apply opposite_dec in E. contradiction.
Qed.

Lemma slope_line x1 y1 x2 y2 : on_curve c (Aff x1 y1) -> on_curve c (Aff x2 y2) ->
  Aff x2 y2 <> pneg (Aff x1 y1) -> line (slope x1 y1 x2 y2) x1 y1 x2 y2.
Proof.
  cbn [on_curve pneg]. intros E1 E2 N. unfold slope, line. destruct (eqb_F_spec x1 x2) as [<- | D].
  - assert (y1 = y2) as <-.
    { rewrite <- E1 in E2. apply F_square_eq in E2 as [E2 | E2]; [now symmetry |].
      rewrite E2 in N. contradiction. }
    assert (Hy : y1 <> 0%F) by (intros ->; apply N; f_equal; ring).
    split; [ring | field; auto using F2_nz].
  - assert (D' : (x2 - x1 <> 0)%F) by (apply F_sub_nz; congruence).
    split; [field; exact D' |]. apply (F_cancel (x2 - x1)%F _ _ D').
    transitivity (y2 ^ 2 - y1 ^ 2)%F; [field; exact D' |]. rewrite E1, E2. ring.
Qed.

Lemma line_unique l l' x1 y1 x2 y2 : Aff x2 y2 <> pneg (Aff x1 y1) ->
  line l x1 y1 x2 y2 -> line l' x1 y1 x2 y2 -> l = l'.
Proof.
  cbn [pneg]. intros N [A B] [A' B']. destruct (F_eq_dec x1 x2) as [<- | D].
  - apply (F_cancel (y1 + y2)%F).
    + intros Z. apply N. f_equal. replace y2 with ((y1 + y2) - y1)%F by ring. rewrite Z. ring.
    + rewrite (Zmod.mul_comm _ l), (Zmod.mul_comm _ l'). congruence.
  - apply (F_cancel (x2 - x1)%F); [apply F_sub_nz; congruence |].
    rewrite (Zmod.mul_comm _ l), (Zmod.mul_comm _ l'). congruence.
Qed.

(** Any slope of the line gives the sum. *)
Lemma padd_by_line l x1 y1 x2 y2 : on_curve c (Aff x1 y1) -> on_curve c (Aff x2 y2) ->
  Aff x2 y2 <> pneg (Aff x1 y1) -> line l x1 y1 x2 y2 ->
  padd (Aff x1 y1) (Aff x2 y2) = third l x1 y1 x2.
Proof.
  intros H1 H2 N Hl. rewrite padd_line by assumption. f_equal.
  apply (line_unique _ _ x1 y1 x2 y2 N); [now apply slope_line | exact Hl].
Qed.

(** The abscissas of two points of a line of slope [l] through [(x2, y2)] are
    the roots of a monic quadratic. *)
Lemma line_quadratic l x1 y1 x2 y2 : line l x1 y1 x2 y2 ->
  (y1 = y2 + l * (x1 - x2) /\
   x1 ^ 2 = (l ^ 2 - x2) * x1 - (x2 ^ 2 + l ^ 2 * x2 - F_of_Z 2 * l * y2))%F.
Proof.
  intros [A B]. assert (Ey : (y1 = y2 + l * (x1 - x2))%F).
  { replace y1 with (y2 - (y2 - y1))%F by ring. rewrite A. ring. }
  split; [exact Ey |]. subst y1.
  replace (x1 ^ 2)%F with ((x1 ^ 2 + x1 * x2 + x2 ^ 2) - x1 * x2 - x2 ^ 2)%F by ring.
  rewrite <- B. ring.
Qed.

Lemma line_sym l x1 y1 x2 y2 : line l x1 y1 x2 y2 -> line l x2 y2 x1 y1.
Proof.
  intros [A B]. split.
  - replace (y1 - y2)%F with (- (y2 - y1))%F by ring. rewrite A. ring.
  - replace (y2 + y1)%F with (y1 + y2)%F by ring. rewrite B. ring.
Qed.

Lemma third_sym l x1 y1 x2 y2 : line l x1 y1 x2 y2 -> third l x1 y1 x2 = third l x2 y2 x1.
Proof.
  intros H. destruct (line_quadratic _ _ _ _ _ H) as [-> _]. unfold third. f_equal; ring.
Qed.

(** ** Closure, inverse, commutativity *)

Lemma third_on_curve l x1 y1 x2 y2 : on_curve c (Aff x2 y2) -> line l x1 y1 x2 y2 ->
  on_curve c (third l x1 y1 x2).
Proof.
  intros E2 H. destruct (line_quadratic _ _ _ _ _ H) as [Ey H1]. unfold third. cbn [on_curve] in *.
  assert (Ec : (c = y2 ^ 2 - x2 ^ 3)%F) by (rewrite E2; ring).
  rewrite Ec. subst y1. ring [H1].
Qed.

Lemma padd_on_curve P Q : on_curve c P -> on_curve c Q -> on_curve c (padd P Q).
Proof.
  destruct P as [| x1 y1], Q as [| x2 y2]; try (intros; assumption). intros H1 H2.
  destruct (point_eq_dec (Aff x2 y2) (pneg (Aff x1 y1))) as [E | N].
  - cbn [padd]. apply opposite_dec in E. now rewrite E.
  - rewrite padd_line by exact N. apply (third_on_curve _ _ _ _ y2 H2). now apply slope_line.
Qed.

Lemma pneg_on_curve P : on_curve c P -> on_curve c (pneg P).
Proof. destruct P as [| x y]; cbn [on_curve pneg]; [trivial |]. intros <-. ring. Qed.

Lemma pneg_involutive P : pneg (pneg P) = P.
Proof. destruct P; cbn [pneg]; [reflexivity |]. f_equal. ring. Qed.

Lemma padd_inf_r P : padd P Inf = P.
Proof. now destruct P. Qed.

Lemma padd_neg_r P : padd P (pneg P) = Inf.
Proof.
  destruct P as [| x y]; [reflexivity |]. cbn. now rewrite !(proj2 (Zmod.eqb_eq _ _)) by reflexivity.
Qed.

Lemma padd_comm P Q : on_curve c P -> on_curve c Q -> padd P Q = padd Q P.
Proof.
  destruct P as [| x1 y1], Q as [| x2 y2]; try reflexivity. intros H1 H2.
  destruct (point_eq_dec (Aff x2 y2) (pneg (Aff x1 y1))) as [E | N].
  - rewrite E, padd_neg_r. rewrite <- (pneg_involutive (Aff x1 y1)) at 2. now rewrite padd_neg_r.
  - pose proof (slope_line _ _ _ _ H1 H2 N) as Hl.
    rewrite (padd_by_line _ _ _ _ _ H1 H2 N Hl), (third_sym _ _ _ _ _ Hl).
    symmetry. apply padd_by_line; auto using line_sym.
    intros E. apply N. now rewrite E, pneg_involutive.
Qed.

Lemma padd_neg_l P : on_curve c P -> padd (pneg P) P = Inf.
Proof. intros H. rewrite padd_comm by auto using pneg_on_curve. apply padd_neg_r. Qed.

(** ** Associativity

    [Q = (x2, y2)] is the middle point, [l] the slope of the line through [P]
    and [Q] and [m] that of the line through [Q] and [R].  The abscissas of [P]
    and [R] are then roots of monic quadratics over the four free parameters,
    modulo which the two ways to add agree. *)
Section Assoc.
Variables x2 y2 l m x1 x3 : F.
Hypothesis H1 : (x1 ^ 2 = (l ^ 2 - x2) * x1 - (x2 ^ 2 + l ^ 2 * x2 - F_of_Z 2 * l * y2))%F.
Hypothesis H3 : (x3 ^ 2 = (m ^ 2 - x2) * x3 - (x2 ^ 2 + m ^ 2 * x2 - F_of_Z 2 * m * y2))%F.

Let y1 := (y2 + l * (x1 - x2))%F.
Let y3 := (y2 + m * (x3 - x2))%F.
Let x4 := (l ^ 2 - x1 - x2)%F.
Let x5 := (m ^ 2 - x3 - x2)%F.
Let y4 := (- (y2 + l * (x4 - x2)))%F.
Let y5 := (- (y2 + m * (x5 - x2)))%F.

(** A slope as a quotient: of the chord, or of the tangent. *)
Definition slope_quot (t : bool) (x1 y1 x2 y2 : F) : F :=
  (if t then (x1 ^ 2 + x1 * x2 + x2 ^ 2) / (y1 + y2) else (y2 - y1) / (x2 - x1))%F.
Definition slope_den (t : bool) (x1 y1 x2 y2 : F) : F := (if t then y1 + y2 else x2 - x1)%F.

Lemma assoc_core (t t' : bool) :
  slope_den t x4 y4 x3 y3 <> 0%F -> slope_den t' x1 y1 x5 y5 <> 0%F ->
  third (slope_quot t x4 y4 x3 y3) x4 y4 x3 = third (slope_quot t' x1 y1 x5 y5) x1 y1 x5.
Proof.
  unfold third. destruct t, t'; cbn [slope_den slope_quot]; unfold y4, y5, x5, x4, y1, y3; intros D D';
    f_equal; field_simplify_eq [H1 H3]; try (split; assumption); ring [H1 H3].
Qed.
End Assoc.

End Curve.
