(* ===== verification/CurveGroup.v ===== *)
(** Addition on the curve is a group law: associativity from the identities of
    [Curve.v], multiples of a point, and isomorphic curves. *)

From Stdlib Require Import ZArith Lia List Bool Zmod Field.
From S2P Require Import Prelude Primes Fp Curve.
Open Scope Z_scope.

Section Group.
Variable c : F.
Hypothesis Hc : c <> 0%F.

Lemma not_opposite_sum x1 y1 x2 y2 : Aff x2 y2 <> pneg (Aff x1 y1) -> x1 = x2 -> (y1 + y2 <> 0)%F.
Proof.
  intros N <- E. apply N. cbn [pneg]. f_equal. replace y2 with ((y1 + y2) - y1)%F by ring.
  rewrite E. ring.
Qed.

Lemma line_quot l x1 y1 x2 y2 : Aff x2 y2 <> pneg (Aff x1 y1) -> line l x1 y1 x2 y2 ->
  exists t, slope_den t x1 y1 x2 y2 <> 0%F /\ l = slope_quot t x1 y1 x2 y2.
Proof.
  intros N [A B]. destruct (F_eq_dec x1 x2) as [E | D]; [exists true | exists false]; cbn [slope_den slope_quot].
  - pose proof (not_opposite_sum _ _ _ _ N E). split; [assumption |]. rewrite <- B. now field.
  - assert (D' : (x2 - x1 <> 0)%F) by (apply F_sub_nz; congruence).
    split; [exact D' |]. rewrite A. now field.
Qed.

Lemma assoc_lines l m l' m' x1 y1 x2 y2 x3 y3 x4 y4 x5 y5 :
  line l x1 y1 x2 y2 -> line m x2 y2 x3 y3 -> Aff x4 y4 = third l x1 y1 x2 -> Aff x5 y5 = third m x2 y2 x3 ->
  Aff x3 y3 <> pneg (Aff x4 y4) -> Aff x5 y5 <> pneg (Aff x1 y1) ->
  line l' x4 y4 x3 y3 -> line m' x1 y1 x5 y5 ->
  third l' x4 y4 x3 = third m' x1 y1 x5.
Proof.
  intros Hl Hm E4 E5 N3 N5 Hl' Hm'. rewrite (third_sym _ _ _ _ _ Hl) in E4.
  destruct (line_quadratic _ _ _ _ _ Hl) as [Ey1 H1].
  destruct (line_quadratic _ _ _ _ _ (line_sym _ _ _ _ _ Hm)) as [Ey3 H3].
  destruct (line_quot _ _ _ _ _ N3 Hl') as (t & Dt & ->).
  destruct (line_quot _ _ _ _ _ N5 Hm') as (t' & Dt' & ->).
  pose proof (assoc_core x2 y2 l m x1 x3 H1 H3 t t') as C. unfold third in E4, E5.
  assert (X4 : x4 = (l ^ 2 - x1 - x2)%F) by (injection E4 as -> _; ring).
  assert (X5 : x5 = (m ^ 2 - x3 - x2)%F) by (injection E5 as -> _; ring).
  assert (Y4 : y4 = (- (y2 + l * (x4 - x2)))%F) by (injection E4 as -> ->; ring).
  assert (Y5 : y5 = (- (y2 + m * (x5 - x2)))%F) by (injection E5 as -> ->; ring).
  rewrite <- X4, <- X5, <- Y4, <- Y5, <- Ey1, <- Ey3 in C. now apply C.
Qed.

(** No point of order two is fixed by adding another point: the curve is not
    singular. *)
Lemma padd_absorb x1 y1 x2 y2 : on_curve c (Aff x1 y1) -> on_curve c (Aff x2 y2) ->
  padd (Aff x1 y1) (Aff x2 y2) <> Aff x1 y1.
Proof.
  intros O1 O2 E. destruct (point_eq_dec (Aff x2 y2) (pneg (Aff x1 y1))) as [H | N].
  { rewrite H, padd_neg_r in E. discriminate. }
  rewrite padd_line in E by exact N. pose proof (slope_line c _ _ _ _ O1 O2 N) as Hl.
  set (l := slope x1 y1 x2 y2) in *. unfold third in E. injection E as Ex Ey.
  rewrite Ex in Ey. assert (Y : (F_of_Z 2 * y1 = 0)%F).
  { replace (F_of_Z 2 * y1)%F with (y1 + y1)%F by ring. rewrite <- Ey at 1. ring. }
  apply F_mul_0 in Y as [Y | Y]; [now apply F2_nz in Y |].
  destruct Hl as [A B]. 
  assert (X2 : (x2 = l ^ 2 - F_of_Z 2 * x1)%F).
  { transitivity (l ^ 2 - x1 - (l ^ 2 - x1 - x2))%F; [ring | rewrite Ex; ring]. }
  assert (Ey2 : y2 = (l * (x2 - x1))%F) by (rewrite <- A, Y; ring).
  assert (X : (F_of_Z 3 * x1 ^ 2 = 0)%F).
  { replace (F_of_Z 3 * x1 ^ 2)%F with (x1 ^ 2 + x1 * x2 + x2 ^ 2 - (x2 - x1) * (x2 + F_of_Z 2 * x1))%F by ring.
    rewrite <- B, Ey2, Y, X2. ring. }
  apply F_mul_0 in X as [X | X]; [now apply F3_nz in X |].
  apply Hc. cbn [on_curve] in O1. replace c with (x1 ^ 3 + c - x1 * x1 ^ 2)%F by ring.
  rewrite <- O1, X, Y. ring.
Qed.

Lemma padd_cancel Q R : on_curve c Q -> on_curve c R -> padd (pneg Q) (padd Q R) = R.
Proof.
  intros OQ OR. destruct Q as [| x2 y2]; [reflexivity |]. destruct R as [| x3 y3]; [now apply (padd_neg_l c) |].
  destruct (point_eq_dec (Aff x3 y3) (pneg (Aff x2 y2))) as [-> | N]; [rewrite padd_neg_r; apply padd_inf_r |].
  pose proof (padd_absorb x2 y2 x3 y3 OQ OR) as NT. pose proof (padd_on_curve c _ _ OQ OR) as OT.
  rewrite padd_line in * by exact N. pose proof (slope_line c _ _ _ _ OQ OR N) as Hm.
  set (m := slope x2 y2 x3 y3) in *. unfold third in *.
  set (x5 := (m ^ 2 - x2 - x3)%F) in *. set (y5 := (m * (x2 - x5) - y2)%F) in *. cbn [pneg].
  destruct (line_quadratic _ _ _ _ _ (line_sym _ _ _ _ _ Hm)) as [Ey3 H3].
  rewrite (padd_by_line c (- m)%F).
  - unfold third. rewrite Ey3. f_equal; unfold x5; ring.
  - exact (pneg_on_curve c (Aff x2 y2) OQ).
  - exact OT.
  - change (Aff x5 y5 <> pneg (pneg (Aff x2 y2))). now rewrite pneg_involutive.
  - split; unfold y5, x5; [ring |]. ring [H3].
Qed.

Lemma pneg_padd P Q : on_curve c P -> on_curve c Q -> pneg (padd P Q) = padd (pneg P) (pneg Q).
Proof.
  destruct P as [| x1 y1], Q as [| x2 y2]; try reflexivity. intros OP OQ.
  destruct (point_eq_dec (Aff x2 y2) (pneg (Aff x1 y1))) as [-> | N]; [now rewrite !padd_neg_r |].
  pose proof (slope_line c _ _ _ _ OP OQ N) as Hl. rewrite padd_line by exact N.
  set (l := slope x1 y1 x2 y2) in *. cbn [pneg]. rewrite (padd_by_line c (- l)%F).
  - unfold third. cbn [pneg]. f_equal; ring.
  - exact (pneg_on_curve c (Aff x1 y1) OP).
  - exact (pneg_on_curve c (Aff x2 y2) OQ).
  - intros E. apply N. change (pneg (Aff x2 y2) = pneg (pneg (Aff x1 y1))) in E.
    rewrite pneg_involutive in E. rewrite <- (pneg_involutive (Aff x2 y2)). now rewrite E.
  - destruct Hl as [A B]. split; [| rewrite <- B; ring].
    replace (- y2 - - y1)%F with (- (y2 - y1))%F by ring. rewrite A. ring.
Qed.

(** Addition is associative. *)
Lemma padd_assoc P Q R : on_curve c P -> on_curve c Q -> on_curve c R ->
  padd (padd P Q) R = padd P (padd Q R).
Proof.
  intros OP OQ OR. pose proof (padd_on_curve c _ _ OP OQ) as OS. pose proof (padd_on_curve c _ _ OQ OR) as OT.
  destruct (point_eq_dec Q (pneg P)) as [-> | NS].
  { rewrite padd_neg_r. cbn [padd]. rewrite <- (pneg_involutive P) at 1.
    symmetry. apply padd_cancel; auto using pneg_on_curve. }
  destruct (point_eq_dec R (pneg Q)) as [-> | NT].
  { rewrite padd_neg_r, padd_inf_r, (padd_comm c (padd P Q)), (padd_comm c P Q) by auto using pneg_on_curve.
    now apply padd_cancel. }
  destruct (point_eq_dec R (pneg (padd P Q))) as [-> | NR].
  { rewrite padd_neg_r, pneg_padd, (padd_comm c (pneg P)) by auto using pneg_on_curve.
    rewrite <- (pneg_involutive Q) at 1. rewrite padd_cancel by auto using pneg_on_curve.
    now rewrite padd_neg_r. }
  destruct (point_eq_dec (padd Q R) (pneg P)) as [E | NP].
  { rewrite E, padd_neg_r. rewrite <- (pneg_involutive P), <- E, pneg_padd by assumption.
    rewrite (padd_comm c (padd _ _) Q), (padd_comm c (pneg Q)) by auto using pneg_on_curve, padd_on_curve.
    rewrite <- (pneg_involutive Q) at 1.
    rewrite (padd_comm c (pneg R)), padd_cancel by auto using pneg_on_curve. now apply (padd_neg_l c). }
  destruct P as [| x1 y1]; [reflexivity |]. destruct Q as [| x2 y2]; [reflexivity |].
  destruct R as [| x3 y3]; [now rewrite !padd_inf_r |].
  pose proof (slope_line c _ _ _ _ OP OQ NS) as Hl. pose proof (slope_line c _ _ _ _ OQ OR NT) as Hm.
  rewrite (padd_line _ _ _ _ NS) in *. rewrite (padd_line _ _ _ _ NT) in *.
  destruct (third _ x1 y1 x2) as [| x4 y4] eqn:E4; [discriminate |].
  destruct (third _ x2 y2 x3) as [| x5 y5] eqn:E5; [discriminate |].
  rewrite (padd_line _ _ _ _ NR), (padd_line _ _ _ _ NP).
  eapply assoc_lines; [exact Hl | exact Hm | exact (eq_sym E4) | exact (eq_sym E5) | exact NR | exact NP | |];
    now apply (slope_line c).
Qed.

(** ** Multiples *)

Fixpoint pmul (p : positive) (P : point) : point :=
  match p with
  | xH => P
  | xO q => let R := pmul q P in padd R R
  | xI q => let R := pmul q P in padd P (padd R R)
  end.

Definition smul (k : Z) (P : point) : point :=
  match k with
  | Z0 => Inf
  | Zpos p => pmul p P
  | Zneg p => pneg (pmul p P)
  end.

Section Multiples.
Variable P : point.
Hypothesis OP : on_curve c P.

Lemma pmul_on_curve p : on_curve c (pmul p P).
Proof. induction p as [p IH | p IH |]; cbn [pmul]; auto using padd_on_curve. Qed.

Lemma smul_on_curve k : on_curve c (smul k P).
Proof. destruct k; cbn [smul]; [exact I | | apply pneg_on_curve]; apply pmul_on_curve. Qed.

Lemma pmul_succ p : pmul (Pos.succ p) P = padd P (pmul p P).
Proof.
  pose proof pmul_on_curve as O. induction p as [p IH | p IH |]; cbn [pmul Pos.succ]; try reflexivity.
  rewrite IH, padd_assoc, (padd_comm c (pmul p P)), !padd_assoc by auto using padd_on_curve. reflexivity.
Qed.

Lemma smul_succ k : smul (Z.succ k) P = padd P (smul k P).
Proof.
  pose proof pmul_on_curve as O. destruct k as [| p | p].
  - now rewrite padd_inf_r.
  - rewrite <- Pos2Z.inj_succ. apply pmul_succ.
  - destruct (Pos.eq_dec p 1) as [-> | Hp].
    + cbn [smul pmul]. now rewrite padd_neg_r.
    + rewrite <- (Pos.succ_pred p Hp). set (q := Pos.pred p).
      replace (Z.succ (Z.neg (Pos.succ q))) with (Z.neg q) by lia.
      cbn [smul]. rewrite pmul_succ, pneg_padd by auto.
      rewrite <- (pneg_involutive P) at 2. now rewrite padd_cancel by auto using pneg_on_curve.
Qed.

Lemma smul_pred k : smul (Z.pred k) P = padd (pneg P) (smul k P).
Proof.
  rewrite <- (Z.succ_pred k) at 2. rewrite smul_succ. symmetry.
  apply padd_cancel; [assumption | apply smul_on_curve].
Qed.

Lemma smul_add j k : smul (j + k) P = padd (smul j P) (smul k P).
Proof.
  pose proof smul_on_curve as O. induction j as [| j IH | j IH] using Z.peano_ind.
  - reflexivity.
  - rewrite Z.add_succ_l, !smul_succ, IH. symmetry. apply padd_assoc; auto.
  - rewrite Z.add_pred_l, !smul_pred, IH. symmetry. apply padd_assoc; auto using pneg_on_curve.
Qed.

Lemma smul_opp k : smul (- k) P = pneg (smul k P).
Proof. destruct k; cbn [smul Z.opp]; [reflexivity .. |]. symmetry. apply pneg_involutive. Qed.
End Multiples.

Lemma smul_inf k : smul k Inf = Inf.
Proof.
  assert (H : forall p, pmul p Inf = Inf) by (induction p as [p IH | p IH |]; cbn [pmul]; now rewrite ?IH).
  destruct k; cbn [smul]; now rewrite ?H.
Qed.

Lemma smul_mul P j k : on_curve c P -> smul (j * k) P = smul j (smul k P).
Proof.
  intros OP. pose proof (smul_on_curve P OP k) as O. induction j as [| j IH | j IH] using Z.peano_ind.
  - reflexivity.
  - rewrite Z.mul_succ_l, Z.add_comm, smul_add, smul_succ, IH by assumption. reflexivity.
  - rewrite Z.mul_pred_l, <- Z.add_opp_r, Z.add_comm, smul_add, smul_pred, IH, smul_opp by assumption. reflexivity.
Qed.

Lemma padd_swap P Q R S : on_curve c P -> on_curve c Q -> on_curve c R -> on_curve c S ->
  padd (padd P Q) (padd R S) = padd (padd P R) (padd Q S).
Proof.
  intros OP OQ OR OS. rewrite !padd_assoc by auto using padd_on_curve. f_equal.
  rewrite <- !padd_assoc, (padd_comm c Q R) by assumption. reflexivity.
Qed.

Lemma smul_padd k P Q : on_curve c P -> on_curve c Q -> smul k (padd P Q) = padd (smul k P) (smul k Q).
Proof.
  intros OP OQ. pose proof (padd_on_curve c _ _ OP OQ) as OS.
  pose proof (smul_on_curve P OP) as OP'. pose proof (smul_on_curve Q OQ) as OQ'.
  induction k as [| k IH | k IH] using Z.peano_ind; [reflexivity | |].
  - rewrite !smul_succ, IH by assumption. now apply padd_swap.
  - rewrite !smul_pred, IH, pneg_padd by assumption. apply padd_swap; auto using pneg_on_curve.
Qed.

(** Multiples only depend on the scalar modulo an annihilator. *)
Lemma smul_mod n P k : n <> 0 -> on_curve c P -> smul n P = Inf -> smul (k mod n) P = smul k P.
Proof.
  intros N OP Hn. rewrite (Z.div_mod k n N) at 2.
  rewrite smul_add, (Z.mul_comm n), smul_mul, Hn, smul_inf by assumption. reflexivity.
Qed.
End Group.

(** * The curve of the program *)

Definition curve_b : F := F_of_Z 7.
Definition secp (P : point) : Prop := on_curve curve_b P.

Lemma curve_b_nz : curve_b <> 0%F.
Proof. apply F_of_Z_nz. split; reflexivity. Qed.

Definition third_exp : Z := (secp_p - 1) / 3.

(** [-7] is not a cube, so no point of the curve has ordinate zero. *)
Lemma minus7_not_cube (x : F) : (x ^ 3 <> - curve_b)%F.
Proof.
  intros E. assert (E3 : 3 * third_exp = Z.pred secp_p) by (vm_compute; reflexivity).
  assert (Hx : x <> 0%F).
  { intros ->. apply curve_b_nz. replace curve_b with (- - curve_b)%F by ring. rewrite <- E. ring. }
  pose proof (Zmod.fermat_nz x Hx prime_secp_p) as Fm.
  rewrite <- E3, Zmod.pow_mul_r_nonneg, E in Fm by (vm_compute; discriminate).
  apply (f_equal Zmod.to_Z) in Fm. rewrite Zmod.unsigned_pow_nonneg_r in Fm by (vm_compute; discriminate).
  assert (Hp : (powmod secp_p (Zmod.to_Z (- curve_b)%F) (Z.to_pos third_exp) =? Zmod.to_Z (m := secp_p) 1%F) = false)
    by (vm_compute; reflexivity).
  apply Z.eqb_neq in Hp. apply Hp. rewrite powmod_spec, Z2Pos.id by (vm_compute; congruence). exact Fm.
Qed.

Lemma secp_y_nz x y : secp (Aff x y) -> y <> 0%F.
Proof.
  unfold secp. cbn [on_curve]. intros E ->. apply (minus7_not_cube x).
  replace (x ^ 3)%F with (x ^ 3 + curve_b - curve_b)%F by ring. rewrite <- E. ring.
Qed.

(** * Isomorphic curves

    The maps [(x, y) -> (x * u^2, y * u^3)] between the curves
    [y^2 = x^3 + c] and [y^2 = x^3 + c * u^6], on which the multiplication
    code does its additions, and the order of points. *)

Definition pscale (u : F) (P : point) : point :=
  match P with
  | Inf => Inf
  | Aff x y => Aff (x * u ^ 2)%F (y * u ^ 3)%F
  end.

Section Iso.
Variable u : F.
Hypothesis Hu : u <> 0%F.

Lemma scale_inj k (x y : F) : k <> 0%F -> (x * k = y * k)%F -> x = y.
Proof. intros Hk E. apply (F_cancel k _ _ Hk). now rewrite !(Zmod.mul_comm k). Qed.

Lemma u2_nz : (u ^ 2 <> 0)%F.
Proof. replace (u ^ 2)%F with (u * u)%F by ring. now apply F_mul_nz. Qed.

Lemma u3_nz : (u ^ 3 <> 0)%F.
Proof. replace (u ^ 3)%F with (u * u * u)%F by ring. auto using F_mul_nz. Qed.

Lemma pscale_inj P Q : pscale u P = pscale u Q -> P = Q.
Proof.
  destruct P as [| x y], Q as [| x' y']; cbn [pscale]; try discriminate; [reflexivity |].
  intros E. apply aff_inj in E as [Ex Ey]. apply scale_inj in Ex; [| exact u2_nz].
  apply scale_inj in Ey; [| exact u3_nz]. now subst.
Qed.

Lemma pscale_pneg P : pscale u (pneg P) = pneg (pscale u P).
Proof. destruct P; cbn [pscale pneg]; [reflexivity |]. f_equal. ring. Qed.

Lemma pscale_padd P Q : pscale u (padd P Q) = padd (pscale u P) (pscale u Q).
Proof.
  destruct P as [| x1 y1], Q as [| x2 y2]; try reflexivity.
  destruct (point_eq_dec (Aff x2 y2) (pneg (Aff x1 y1))) as [E | N].
  { rewrite E, pscale_pneg, !padd_neg_r. reflexivity. }
  assert (N' : pscale u (Aff x2 y2) <> pneg (pscale u (Aff x1 y1))).
  { rewrite <- pscale_pneg. intros E. now apply pscale_inj in E. }
  cbn [pscale] in *. rewrite !padd_line by assumption. unfold third, slope. pose proof F2_nz.
  destruct (eqb_F_spec x1 x2) as [<- | D].
  - rewrite Zmod.eqb_refl. assert (Hy : y1 <> 0%F \/ y1 = 0%F) by (destruct (F_eq_dec y1 0%F); auto).
    destruct Hy as [Hy | ->].
    + cbn [pscale]. f_equal; field; auto.
    + unfold Zmod.mdiv. replace (F_of_Z 2 * (0 * u ^ 3))%F with (0 : F)%F by ring.
      replace (F_of_Z 2 * 0)%F with (0 : F)%F by ring. rewrite Zmod.inv_0. cbn [pscale]. f_equal; ring.
  - destruct (eqb_F_spec (x1 * u ^ 2)%F (x2 * u ^ 2)%F) as [E | _]; [destruct D; now apply scale_inj in E; [| exact u2_nz] |].
    cbn [pscale]. assert (D' : (x2 - x1 <> 0)%F) by (apply F_sub_nz; congruence).
    assert (D2 : (x2 * u ^ 2 - x1 * u ^ 2 <> 0)%F).
    { replace (x2 * u ^ 2 - x1 * u ^ 2)%F with ((x2 - x1) * u ^ 2)%F by ring. apply F_mul_nz; [exact D' | exact u2_nz]. }
    f_equal; field; auto.
Qed.

Lemma pscale_on_curve c P : on_curve c P -> on_curve (c * u ^ 6)%F (pscale u P).
Proof.
  destruct P as [| x y]; cbn [pscale on_curve]; [trivial |]. intros E.
  transitivity (y ^ 2 * u ^ 6)%F; [ring |]. rewrite E. ring.
Qed.

Lemma pscale_smul k P : pscale u (smul k P) = smul k (pscale u P).
Proof.
  assert (H : forall p, pscale u (pmul p P) = pmul p (pscale u P)).
  { induction p as [p IH | p IH |]; cbn [pmul]; rewrite ?pscale_padd, ?IH; reflexivity. }
  destruct k; cbn [smul]; [reflexivity | apply H |]. now rewrite pscale_pneg, H.
Qed.
End Iso.

(** * Order *)

(** A point annihilated by the prime group order has exactly that order. *)
Lemma order_exact P k : secp P -> P <> Inf -> smul secp_n P = Inf -> smul k P = Inf -> k mod secp_n = 0.
Proof.
  intros S N Hn Hk. destruct (Z.eq_dec (k mod secp_n) 0) as [E | NZ]; [exact E |]. exfalso. apply N.
  assert (Nz : Fn_of_Z k <> 0%F) by (intros Z; now apply Zmod.of_Z_nz in Z).
  set (j := Zmod.to_Z (Zmod.inv (Fn_of_Z k))).
  assert (E : (j * k) mod secp_n = 1).
  { assert (M : (Zmod.inv (Fn_of_Z k) * Fn_of_Z k = 1)%F) by (field; exact Nz).
    rewrite <- (Zmod.of_Z_unsigned (Zmod.inv (Fn_of_Z k))) in M. fold j in M. unfold Fn_of_Z in M.
    rewrite <- Zmod.of_Z_mul in M. apply (f_equal Zmod.to_Z) in M. now rewrite Zmod.unsigned_of_Z in M. }
  change P with (smul 1 P). rewrite <- E, (smul_mod curve_b curve_b_nz) by (try exact S; try exact Hn; discriminate).
  rewrite (smul_mul curve_b curve_b_nz), Hk by exact S. apply smul_inf.
Qed.

Lemma small_multiple_finite P k : secp P -> P <> Inf -> smul secp_n P = Inf -> 0 < k < secp_n -> smul k P <> Inf.
Proof.
  intros S N Hn Hk E. apply (order_exact P k S N Hn) in E. rewrite Z.mod_small in E; lia.
Qed.
