(* ===== verification/FieldSpec.v ===== *)
(** The interface between the field representations and the code above them.

    [field.h] declares the operations every representation offers, and which
    representation is compiled is a build choice.  [FieldImpl] is that list of
    operations; [FieldLaws] is what the comments of [field.h] promise about
    them: each element stands for a residue modulo the prime and has a
    magnitude that bounds how far its limbs are from normalised.  The code of
    [field_impl.h] and [group_impl.h] is modelled and proved over any
    implementation of the interface. *)

From Stdlib Require Import ZArith Lia List Bool Zmod Field.
From S2P Require Import Prelude Limbs Fp.
Import ListNotations.
Open Scope Z_scope.

Class FieldImpl : Type := {
  fe : Type;
  fe_storage : Type;
  fe_const : Z -> Z -> Z -> Z -> Z -> Z -> Z -> Z -> fe;
  fe_normalize : fe -> fe;
  fe_normalize_weak : fe -> fe;
  fe_normalize_var : fe -> fe;
  fe_normalizes_to_zero : fe -> Z;
  fe_normalizes_to_zero_var : fe -> Z;
  fe_set_int : Z -> fe;
  fe_clear : fe;
  fe_is_zero : fe -> Z;
  fe_is_odd : fe -> Z;
  fe_cmp_var : fe -> fe -> Z;
  fe_set_b32 : list Z -> fe * Z;
  fe_get_b32 : fe -> list Z;
  fe_negate : fe -> Z -> fe;
  fe_mul_int : fe -> Z -> fe;
  fe_add : fe -> fe -> fe;
  fe_mul : fe -> fe -> fe;
  fe_sqr : fe -> fe;
  fe_to_storage : fe -> fe_storage;
  fe_from_storage : fe_storage -> fe;
  fe_storage_cmov : fe_storage -> fe_storage -> Z -> fe_storage;
  fe_cmov : fe -> fe -> Z -> fe
}.

(** [mag m a]: the magnitude of [a] is at most [m].  [norm a]: [a] is
    normalised.  [fv a]: the residue [a] stands for.  [st_val s]: the integer
    a stored element holds. *)
Class FieldLaws (I : FieldImpl) : Type := {
  mag : Z -> fe -> Prop;
  norm : fe -> Prop;
  fv : fe -> F;
  st_ok : fe_storage -> Prop;
  st_val : fe_storage -> Z;
  mag_weaken : forall m m' a, m <= m' -> mag m a -> mag m' a;
  norm_mag : forall a, norm a -> mag 1 a;
  norm_inj : forall a b, norm a -> norm b -> fv a = fv b -> a = b;
  const_ok : forall d7 d6 d5 d4 d3 d2 d1 d0,
    limbs_lt 32 [d0; d1; d2; d3; d4; d5; d6; d7] ->
    let v := limbs_val 32 [d0; d1; d2; d3; d4; d5; d6; d7] in
    v < secp_p ->
    norm (fe_const d7 d6 d5 d4 d3 d2 d1 d0) /\ fv (fe_const d7 d6 d5 d4 d3 d2 d1 d0) = F_of_Z v;
  normalize_ok : forall a, mag 31 a -> norm (fe_normalize a) /\ fv (fe_normalize a) = fv a;
  normalize_weak_ok : forall a, mag 31 a -> mag 1 (fe_normalize_weak a) /\ fv (fe_normalize_weak a) = fv a;
  normalize_var_ok : forall a, mag 31 a -> norm (fe_normalize_var a) /\ fv (fe_normalize_var a) = fv a;
  normalizes_to_zero_ok : forall a, mag 31 a ->
    fe_normalizes_to_zero a = b2z (Zmod.eqb (fv a) Zmod.zero);
  normalizes_to_zero_var_ok : forall a, mag 31 a ->
    fe_normalizes_to_zero_var a = b2z (Zmod.eqb (fv a) Zmod.zero);
  set_int_ok : forall z, 0 <= z < 2 ^ 26 -> norm (fe_set_int z) /\ fv (fe_set_int z) = F_of_Z z;
  clear_ok : norm fe_clear /\ fv fe_clear = Zmod.zero;
  is_zero_ok : forall a, norm a -> fe_is_zero a = b2z (Zmod.eqb (fv a) Zmod.zero);
  is_odd_ok : forall a, norm a -> fe_is_odd a = Zmod.to_Z (fv a) mod 2;
  cmp_var_ok : forall a b, norm a -> norm b ->
    fe_cmp_var a b = match Zmod.to_Z (fv a) ?= Zmod.to_Z (fv b) with Gt => 1 | Lt => -1 | Eq => 0 end;
  set_b32_ok : forall b, limbs_lt 8 b -> length b = 32%nat ->
    let r := fst (fe_set_b32 b) in
    snd (fe_set_b32 b) = b2z (be_val b <? secp_p) /\ mag 1 r /\ fv r = F_of_Z (be_val b) /\
    (be_val b < secp_p -> norm r);
  get_b32_ok : forall a, norm a -> fe_get_b32 a = be_bytes 32 (Zmod.to_Z (fv a));
  negate_ok : forall a m k, 0 <= m -> m <= k <= 31 -> mag m a ->
    mag (k + 1) (fe_negate a k) /\ fv (fe_negate a k) = Zmod.opp (fv a);
  mul_int_ok : forall a m k, 0 <= m -> 0 <= k -> m * k <= 32 -> mag m a ->
    mag (m * k) (fe_mul_int a k) /\ fv (fe_mul_int a k) = Zmod.mul (F_of_Z k) (fv a);
  add_ok : forall a b m m', 0 <= m -> 0 <= m' -> m + m' <= 32 -> mag m a -> mag m' b ->
    mag (m + m') (fe_add a b) /\ fv (fe_add a b) = Zmod.add (fv a) (fv b);
  mul_ok : forall a b, mag 8 a -> mag 8 b ->
    mag 1 (fe_mul a b) /\ fv (fe_mul a b) = Zmod.mul (fv a) (fv b);
  sqr_ok : forall a, mag 8 a -> mag 1 (fe_sqr a) /\ fv (fe_sqr a) = Zmod.mul (fv a) (fv a);
  to_storage_ok : forall a, norm a -> st_ok (fe_to_storage a) /\ st_val (fe_to_storage a) = Zmod.to_Z (fv a);
  from_storage_ok : forall s, st_ok s -> mag 1 (fe_from_storage s) /\
    fv (fe_from_storage s) = F_of_Z (st_val s) /\ (st_val s < secp_p -> norm (fe_from_storage s));
  storage_cmov_ok : forall r a b, st_ok r -> st_ok a -> fe_storage_cmov r a (b2z b) = if b then a else r;
  cmov_ok : forall r a b, mag 31 r -> mag 31 a -> fe_cmov r a (b2z b) = if b then a else r
}.

(** * Running field code

    [FeI x m v] says that [x] has magnitude at most [m] and stands for [v].
    Instance resolution computes the magnitude of an expression, and so checks
    that every operation is used within its limits. *)

Section Rules.
Context {I : FieldImpl} {L : FieldLaws I}.

Class FeI (x : fe) (m : Z) (v : F) : Prop := fe_is : mag m x /\ fv x = v.

Lemma feI_of_norm x : norm x -> FeI x 1 (fv x).
Proof. intros H. split; [now apply norm_mag | reflexivity]. Qed.

Lemma feI_weaken x m m' v : m <= m' -> FeI x m v -> FeI x m' v.
Proof. intros Hm [H E]. split; [now apply (mag_weaken m) | exact E]. Qed.

Lemma feI_mul a b m m' v v' : FeI a m v -> FeI b m' v' -> (m <=? 8) && (m' <=? 8) = true ->
  FeI (fe_mul a b) 1 (v * v')%F.
Proof.
  intros [Ha Ea] [Hb Eb] Hm. apply andb_true_iff in Hm as [Hm Hm']. rewrite Z.leb_le in Hm, Hm'.
  destruct (mul_ok a b) as [Hr Er]; [now apply (mag_weaken m) | now apply (mag_weaken m') |].
  split; [exact Hr | now rewrite Er, Ea, Eb].
Qed.

Lemma feI_sqr a m v : FeI a m v -> (m <=? 8) = true -> FeI (fe_sqr a) 1 (v * v)%F.
Proof.
  intros [Ha Ea] Hm. rewrite Z.leb_le in Hm.
  destruct (sqr_ok a) as [Hr Er]; [now apply (mag_weaken m) |].
  split; [exact Hr | now rewrite Er, Ea].
Qed.

Lemma feI_add a b m m' v v' : FeI a m v -> FeI b m' v' ->
  (0 <=? m) && (0 <=? m') && (m + m' <=? 32) = true -> FeI (fe_add a b) (m + m') (v + v')%F.
Proof.
  intros [Ha Ea] [Hb Eb] Hm. rewrite !andb_true_iff, !Z.leb_le in Hm.
  destruct (add_ok a b m m') as [Hr Er]; try lia; try assumption.
  split; [exact Hr | now rewrite Er, Ea, Eb].
Qed.

Lemma feI_negate a m k v : FeI a m v -> (0 <=? m) && (m <=? k) && (k <=? 31) = true ->
  FeI (fe_negate a k) (k + 1) (- v)%F.
Proof.
  intros [Ha Ea] Hm. rewrite !andb_true_iff, !Z.leb_le in Hm.
  destruct (negate_ok a m k) as [Hr Er]; try lia; try assumption.
  split; [exact Hr | now rewrite Er, Ea].
Qed.

Lemma feI_mul_int a m k v : FeI a m v -> (0 <=? m) && (0 <=? k) && (m * k <=? 32) = true ->
  FeI (fe_mul_int a k) (m * k) (F_of_Z k * v)%F.
Proof.
  intros [Ha Ea] Hm. rewrite !andb_true_iff, !Z.leb_le in Hm.
  destruct (mul_int_ok a m k) as [Hr Er]; try lia; try assumption.
  split; [exact Hr | now rewrite Er, Ea].
Qed.

Lemma feI_normalize_weak a m v : FeI a m v -> (m <=? 31) = true -> FeI (fe_normalize_weak a) 1 v.
Proof.
  intros [Ha Ea] Hm. rewrite Z.leb_le in Hm.
  destruct (normalize_weak_ok a) as [Hr Er]; [now apply (mag_weaken m) |].
  split; [exact Hr | now rewrite Er].
Qed.

Lemma feI_normalize a m v : FeI a m v -> (m <=? 31) = true ->
  FeI (fe_normalize a) 1 v /\ norm (fe_normalize a).
Proof.
  intros [Ha Ea] Hm. rewrite Z.leb_le in Hm.
  destruct (normalize_ok a) as [Hr Er]; [now apply (mag_weaken m) |].
  split; [split; [now apply norm_mag | now rewrite Er] | exact Hr].
Qed.

Lemma feI_normalize_var a m v : FeI a m v -> (m <=? 31) = true ->
  FeI (fe_normalize_var a) 1 v /\ norm (fe_normalize_var a).
Proof.
  intros [Ha Ea] Hm. rewrite Z.leb_le in Hm.
  destruct (normalize_var_ok a) as [Hr Er]; [now apply (mag_weaken m) |].
  split; [split; [now apply norm_mag | now rewrite Er] | exact Hr].
Qed.

Lemma feI_set_int z : (0 <=? z) && (z <? 2 ^ 26) = true -> FeI (fe_set_int z) 1 (F_of_Z z).
Proof.
  intros H. rewrite andb_true_iff, Z.leb_le, Z.ltb_lt in H.
  destruct (set_int_ok z H) as [Hn E]. split; [now apply norm_mag | exact E].
Qed.

Lemma feI_clear : FeI fe_clear 1 0%F.
Proof. destruct clear_ok as [Hn E]. split; [now apply norm_mag | exact E]. Qed.

Lemma feI_zero a m v : FeI a m v -> (m <=? 31) = true ->
  fe_normalizes_to_zero a = b2z (Zmod.eqb v 0) /\ fe_normalizes_to_zero_var a = b2z (Zmod.eqb v 0).
Proof.
  intros [Ha Ea] Hm. rewrite Z.leb_le in Hm. rewrite <- Ea.
  split; [apply normalizes_to_zero_ok | apply normalizes_to_zero_var_ok]; now apply (mag_weaken m).
Qed.

Lemma feI_cmov r a m m' v v' b : FeI r m v -> FeI a m' v' -> (m <=? 31) && (m' <=? 31) = true ->
  FeI (fe_cmov r a (b2z b)) (Z.max m m') (if b then v' else v).
Proof.
  intros [Hr Er] [Ha Ea] Hm. rewrite andb_true_iff, !Z.leb_le in Hm.
  rewrite cmov_ok by (eapply mag_weaken; [| eassumption]; lia).
  destruct b; (split; [eapply mag_weaken; [| eassumption]; lia | assumption]).
Qed.
Lemma feI_conv x m m' v v' : FeI x m v -> (m <=? m') = true -> v = v' -> FeI x m' v'.
Proof. intros H Hm <-. apply (feI_weaken x m); [lia | exact H]. Qed.

Lemma mag_8 x m v : FeI x m v -> (m <=? 8) = true -> mag 8 x.
Proof. intros [H _] Hm. apply (mag_weaken m); [lia | exact H]. Qed.

End Rules.

#[export] Hint Mode FeI + + + - - : typeclass_instances.
#[export] Hint Extern 2 (FeI (fe_mul _ _) _ _) =>
  (eapply feI_mul; [typeclasses eauto .. | reflexivity]) : typeclass_instances.
#[export] Hint Extern 2 (FeI (fe_sqr _) _ _) =>
  (eapply feI_sqr; [typeclasses eauto | reflexivity]) : typeclass_instances.
#[export] Hint Extern 2 (FeI (fe_add _ _) _ _) =>
  (eapply feI_add; [typeclasses eauto .. | reflexivity]) : typeclass_instances.
#[export] Hint Extern 2 (FeI (fe_negate _ _) _ _) =>
  (eapply feI_negate; [typeclasses eauto | reflexivity]) : typeclass_instances.
#[export] Hint Extern 2 (FeI (fe_mul_int _ _) _ _) =>
  (eapply feI_mul_int; [typeclasses eauto | reflexivity]) : typeclass_instances.
#[export] Hint Extern 2 (FeI (fe_normalize_weak _) _ _) =>
  (eapply feI_normalize_weak; [typeclasses eauto | reflexivity]) : typeclass_instances.
#[export] Hint Extern 2 (FeI (fe_set_int _) _ _) =>
  (eapply feI_set_int; reflexivity) : typeclass_instances.
#[export] Hint Extern 2 (FeI fe_clear _ _) => (exact feI_clear) : typeclass_instances.
#[export] Hint Extern 2 (FeI (fe_cmov _ _ _) _ _) =>
  (eapply feI_cmov; [typeclasses eauto .. | reflexivity]) : typeclass_instances.

(** Evaluate the magnitude of a [FeI] hypothesis. *)
Ltac fe_norm_mag H :=
  lazymatch type of H with
  | FeI ?x ?m ?v => let m' := eval vm_compute in m in change (FeI x m' v) in H
  end.

(** One statement that computes a field element: its value gets a name. *)
Ltac fe_step :=
  lazymatch goal with
  | |- wp (let x := ?e in @?k x) ?Q =>
      first
        [ is_var e; change (wp (k e) Q); cbv beta
        | let y := fresh x in let V := fresh "v" x in let H := fresh "H" x in let E := fresh "E" x in
          eassert (FeI e _ _) as H by typeclasses eauto; fe_norm_mag H;
          refine (wp_let e k Q _); intros y E; rewrite <- E in H; clear E;
          lazymatch type of H with
          | FeI _ _ ?v => remember v as V eqn:E in H
          end; cbv beta ]
  end.

(** Compute the magnitude and the value of an expression; the equation with
    the expected value is left. *)
Ltac fe_is := eapply feI_conv; [typeclasses eauto | reflexivity |].

(** Values and magnitudes of the elements computed so far. *)
Ltac fe_vals := repeat match goal with H : FeI ?x _ _ |- context [fv ?x] => rewrite (proj2 H) end.
Ltac fe_mag := match goal with H : FeI ?x _ _ |- mag 8 ?x => exact (mag_8 _ _ _ H eq_refl) end.
