(* ===== verification/FieldVal.v ===== *)
(** Field representations on integers.

    A limb representation is verified on integers: [val a] is the integer the
    limbs of [a] make, and each operation is described modulo the prime.
    [FieldVal] collects these facts; the laws of the interface, which speak of
    residues, follow from them once for every representation. *)

From Stdlib Require Import ZArith Lia List Bool Zmod.
From S2P Require Import Prelude Limbs Fp FieldSpec.
Import ListNotations.
Open Scope Z_scope.

Class FieldVal (I : FieldImpl) : Type := {
  vmag : Z -> fe -> Prop;
  vnorm : fe -> Prop;
  val : fe -> Z;
  vst_ok : fe_storage -> Prop;
  vst_val : fe_storage -> Z;
  val_mag_weaken : forall m m' a, m <= m' -> vmag m a -> vmag m' a;
  val_norm_mag : forall a, vnorm a -> vmag 1 a;
  val_norm : forall a, vnorm a -> 0 <= val a < secp_p;
  val_norm_inj : forall a b, vnorm a -> vnorm b -> val a = val b -> a = b;
  val_const : forall d7 d6 d5 d4 d3 d2 d1 d0, limbs_lt 32 [d0; d1; d2; d3; d4; d5; d6; d7] ->
    let v := limbs_val 32 [d0; d1; d2; d3; d4; d5; d6; d7] in v < secp_p ->
    vnorm (fe_const d7 d6 d5 d4 d3 d2 d1 d0) /\ val (fe_const d7 d6 d5 d4 d3 d2 d1 d0) = v;
  val_normalize : forall a, vmag 31 a -> vnorm (fe_normalize a) /\ val (fe_normalize a) = val a mod secp_p;
  val_normalize_weak : forall a, vmag 31 a ->
    vmag 1 (fe_normalize_weak a) /\ val (fe_normalize_weak a) mod secp_p = val a mod secp_p;
  val_normalize_var : forall a, vmag 31 a -> vnorm (fe_normalize_var a) /\ val (fe_normalize_var a) = val a mod secp_p;
  val_normalizes_to_zero : forall a, vmag 31 a -> fe_normalizes_to_zero a = b2z (val a mod secp_p =? 0);
  val_normalizes_to_zero_var : forall a, vmag 31 a -> fe_normalizes_to_zero_var a = b2z (val a mod secp_p =? 0);
  val_set_int : forall z, 0 <= z < 2 ^ 26 -> vnorm (fe_set_int z) /\ val (fe_set_int z) = z;
  val_clear : vnorm fe_clear /\ val fe_clear = 0;
  val_is_zero : forall a, vnorm a -> fe_is_zero a = b2z (val a =? 0);
  val_is_odd : forall a, vnorm a -> fe_is_odd a = val a mod 2;
  val_cmp_var : forall a b, vnorm a -> vnorm b ->
    fe_cmp_var a b = match val a ?= val b with Gt => 1 | Lt => -1 | Eq => 0 end;
  val_set_b32 : forall b, limbs_lt 8 b -> length b = 32%nat ->
    let r := fst (fe_set_b32 b) in
    snd (fe_set_b32 b) = b2z (be_val b <? secp_p) /\ vmag 1 r /\ val r = be_val b /\ (be_val b < secp_p -> vnorm r);
  val_get_b32 : forall a, vnorm a -> fe_get_b32 a = be_bytes 32 (val a);
  val_negate : forall a m, 0 <= m <= 31 -> vmag m a ->
    vmag (m + 1) (fe_negate a m) /\ val (fe_negate a m) = 2 * (m + 1) * secp_p - val a;
  val_mul_int : forall a m k, 0 <= m -> 0 <= k -> m * k <= 32 -> vmag m a ->
    vmag (m * k) (fe_mul_int a k) /\ val (fe_mul_int a k) = val a * k;
  val_add : forall a b m m', 0 <= m -> 0 <= m' -> m + m' <= 32 -> vmag m a -> vmag m' b ->
    vmag (m + m') (fe_add a b) /\ val (fe_add a b) = val a + val b;
  val_mul : forall a b, vmag 8 a -> vmag 8 b ->
    vmag 1 (fe_mul a b) /\ val (fe_mul a b) mod secp_p = (val a * val b) mod secp_p;
  val_sqr : forall a, vmag 8 a -> vmag 1 (fe_sqr a) /\ val (fe_sqr a) mod secp_p = (val a * val a) mod secp_p;
  val_to_storage : forall a, vnorm a -> vst_ok (fe_to_storage a) /\ vst_val (fe_to_storage a) = val a;
  val_from_storage : forall s, vst_ok s -> vmag 1 (fe_from_storage s) /\
    val (fe_from_storage s) = vst_val s /\ (vst_val s < secp_p -> vnorm (fe_from_storage s));
  val_storage_cmov : forall r a b, vst_ok r -> vst_ok a -> fe_storage_cmov r a (b2z b) = if b then a else r;
  val_cmov : forall r a b, vmag 31 r -> vmag 31 a -> fe_cmov r a (b2z b) = if b then a else r
}.

Section Laws.
Context {I : FieldImpl} (V : FieldVal I).

(** The residue of an element. *)
Definition val_res (a : fe) : F := F_of_Z (val a).

Lemma val_res_eq a v : val a mod secp_p = v mod secp_p -> val_res a = F_of_Z v.
Proof. apply F_of_Z_eq. Qed.

Lemma val_res_norm a : vnorm a -> Zmod.to_Z (val_res a) = val a.
Proof. intros H. unfold val_res. rewrite F_to_of_Z. apply Z.mod_small, val_norm, H. Qed.

Lemma val_res_zero a : Zmod.eqb (val_res a) Zmod.zero = (val a mod secp_p =? 0).
Proof. unfold Zmod.eqb, val_res. now rewrite F_to_of_Z, Zmod.unsigned_0. Qed.

Lemma val_res_mod a v : val a = v mod secp_p -> val_res a = F_of_Z v.
Proof. intros E. unfold val_res. rewrite E. apply F_of_Z_mod. Qed.

Lemma norm_inj_law a b : vnorm a -> vnorm b -> val_res a = val_res b -> a = b.
Proof.
  intros Ha Hb E. apply val_norm_inj; trivial. now rewrite <- (val_res_norm a), <- (val_res_norm b), E.
Qed.

(** A fact about an element and its value, as one about its residue. *)
Lemma res_of_val (P : Prop) a v : P /\ val a = v -> P /\ val_res a = F_of_Z v.
Proof. intros [H E]. split; [exact H |]. unfold val_res. now rewrite E. Qed.

Lemma normalize_law a : vmag 31 a -> vnorm (fe_normalize a) /\ val_res (fe_normalize a) = val_res a.
Proof. intros H. destruct (val_normalize a H). split; [assumption | now apply val_res_mod]. Qed.

Lemma normalize_var_law a : vmag 31 a -> vnorm (fe_normalize_var a) /\ val_res (fe_normalize_var a) = val_res a.
Proof. intros H. destruct (val_normalize_var a H). split; [assumption | now apply val_res_mod]. Qed.

Lemma normalize_weak_law a : vmag 31 a -> vmag 1 (fe_normalize_weak a) /\ val_res (fe_normalize_weak a) = val_res a.
Proof. intros H. destruct (val_normalize_weak a H). split; [assumption | now apply val_res_eq]. Qed.

Lemma is_zero_law a : vnorm a -> fe_is_zero a = b2z (Zmod.eqb (val_res a) Zmod.zero).
Proof. intros H. rewrite val_res_zero, Z.mod_small by now apply val_norm. now apply val_is_zero. Qed.

Lemma cmp_var_law a b : vnorm a -> vnorm b ->
  fe_cmp_var a b = match Zmod.to_Z (val_res a) ?= Zmod.to_Z (val_res b) with Gt => 1 | Lt => -1 | Eq => 0 end.
Proof. intros Ha Hb. rewrite !val_res_norm by assumption. now apply val_cmp_var. Qed.

Lemma set_b32_law b : limbs_lt 8 b -> length b = 32%nat ->
  let r := fst (fe_set_b32 b) in
  snd (fe_set_b32 b) = b2z (be_val b <? secp_p) /\ vmag 1 r /\ val_res r = F_of_Z (be_val b) /\ (be_val b < secp_p -> vnorm r).
Proof. intros Hb Hl. destruct (val_set_b32 b Hb Hl) as (H1 & H2 & E & H3). unfold val_res. rewrite E. auto. Qed.

Lemma negate_law a m k : 0 <= m -> m <= k <= 31 -> vmag m a ->
  vmag (k + 1) (fe_negate a k) /\ val_res (fe_negate a k) = Zmod.opp (val_res a).
Proof.
  intros Hm Hk H. destruct (val_negate a k) as [Hn E]; [lia | now apply (val_mag_weaken m); [lia |] |].
  split; [exact Hn |]. unfold val_res at 2. unfold F_of_Z. rewrite <- Zmod.of_Z_opp. apply F_of_Z_eq.
  apply (mod_eq_of _ _ (2 * (k + 1))); [discriminate | lia].
Qed.

Lemma mul_int_law a m k : 0 <= m -> 0 <= k -> m * k <= 32 -> vmag m a ->
  vmag (m * k) (fe_mul_int a k) /\ val_res (fe_mul_int a k) = Zmod.mul (F_of_Z k) (val_res a).
Proof.
  intros Hm Hk Hmk H. destruct (val_mul_int a m k Hm Hk Hmk H) as [Hn E].
  split; [exact Hn |]. unfold val_res, F_of_Z. rewrite E, Z.mul_comm. apply Zmod.of_Z_mul.
Qed.

Lemma add_law a b m m' : 0 <= m -> 0 <= m' -> m + m' <= 32 -> vmag m a -> vmag m' b ->
  vmag (m + m') (fe_add a b) /\ val_res (fe_add a b) = Zmod.add (val_res a) (val_res b).
Proof.
  intros Hm Hm' Hs Ha Hb. destruct (val_add a b m m' Hm Hm' Hs Ha Hb) as [Hn E].
  split; [exact Hn |]. unfold val_res, F_of_Z. rewrite E. apply Zmod.of_Z_add.
Qed.

Lemma mul_law a b : vmag 8 a -> vmag 8 b -> vmag 1 (fe_mul a b) /\ val_res (fe_mul a b) = Zmod.mul (val_res a) (val_res b).
Proof.
  intros Ha Hb. destruct (val_mul a b Ha Hb) as [Hn E].
  split; [exact Hn |]. unfold val_res, F_of_Z. rewrite <- Zmod.of_Z_mul. now apply F_of_Z_eq.
Qed.

Lemma sqr_law a : vmag 8 a -> vmag 1 (fe_sqr a) /\ val_res (fe_sqr a) = Zmod.mul (val_res a) (val_res a).
Proof.
  intros Ha. destruct (val_sqr a Ha) as [Hn E].
  split; [exact Hn |]. unfold val_res, F_of_Z. rewrite <- Zmod.of_Z_mul. now apply F_of_Z_eq.
Qed.

Lemma from_storage_law s : vst_ok s -> vmag 1 (fe_from_storage s) /\
  val_res (fe_from_storage s) = F_of_Z (vst_val s) /\ (vst_val s < secp_p -> vnorm (fe_from_storage s)).
Proof. intros H. destruct (val_from_storage s H) as (H1 & E & H2). unfold val_res. rewrite E. auto. Qed.

Definition laws_of_val : FieldLaws I.
Proof.
  refine {| mag := vmag; norm := vnorm; fv := val_res; st_ok := vst_ok; st_val := vst_val |}.
  - exact val_mag_weaken.
  - exact val_norm_mag.
  - exact norm_inj_law.
  - intros d7 d6 d5 d4 d3 d2 d1 d0 H v Hv. now apply res_of_val, val_const.
  - exact normalize_law.
  - exact normalize_weak_law.
  - exact normalize_var_law.
  - intros a H. rewrite val_res_zero. now apply val_normalizes_to_zero.
  - intros a H. rewrite val_res_zero. now apply val_normalizes_to_zero_var.
  - intros z H. now apply res_of_val, val_set_int.
  - exact (res_of_val _ _ _ val_clear).
  - exact is_zero_law.
  - intros a H. rewrite val_res_norm by exact H. now apply val_is_odd.
  - exact cmp_var_law.
  - exact set_b32_law.
  - intros a H. rewrite val_res_norm by exact H. now apply val_get_b32.
  - exact negate_law.
  - exact mul_int_law.
  - exact add_law.
  - exact mul_law.
  - exact sqr_law.
  - intros a H. rewrite val_res_norm by exact H. now apply val_to_storage.
  - exact from_storage_law.
  - exact val_storage_cmov.
  - exact val_cmov.
Defined.
End Laws.
