(* ===== verification/FieldRef.v ===== *)
(** A reference implementation of the field interface: elements are integers
    below the prime.  It shows that the interface has a model without limbs,
    and it is the instance on which concrete points are computed. *)

From Stdlib Require Import ZArith Lia List Bool Zmod.
From S2P Require Import Prelude Limbs Primes Fp FieldSpec.
Import ListNotations.
Open Scope Z_scope.

(** [2^256 - p]. *)
Definition ref_K : Z := 0x1000003D1.

Definition ref_fold (z : Z) : Z := Z.land z (Z.ones 256) + ref_K * Z.shiftr z 256.

(** The residue of a product, by two folds and a subtraction. *)
Definition ref_red (z : Z) : Z :=
  let z := ref_fold (ref_fold z) in
  if z <? secp_p then z else z - secp_p.

Lemma ref_fold_mod z : 0 <= z -> ref_fold z mod secp_p = z mod secp_p.
Proof.
  intros Hz. symmetry. apply (mod_eq_of _ _ (Z.shiftr z 256)); [discriminate |].
  unfold ref_fold. rewrite (split_bits 256 z) at 1 by lia. unfold secp_p, ref_K. lia.
Qed.

Lemma ref_fold_bound z B : 0 <= z < 2 ^ 256 * B -> 0 <= ref_fold z < 2 ^ 256 + ref_K * B.
Proof.
  intros Hz. unfold ref_fold. rewrite Z.land_ones, Z.shiftr_div_pow2 by lia.
  pose proof (Z.mod_pos_bound z (2 ^ 256) ltac:(lia)).
  pose proof (Z.div_pos z (2 ^ 256) ltac:(lia) ltac:(lia)).
  assert (z / 2 ^ 256 < B) by (apply Z.div_lt_upper_bound; lia). unfold ref_K. lia.
Qed.

Lemma ref_red_ok z : 0 <= z < 2 ^ 512 -> ref_red z = z mod secp_p.
Proof.
  intros Hz. pose proof (ref_fold_bound z (2 ^ 256) ltac:(lia)) as B1.
  pose proof (ref_fold_bound (ref_fold z) (2 ^ 34) ltac:(unfold ref_K in *; lia)) as B2.
  rewrite <- ref_fold_mod, <- ref_fold_mod by lia. unfold ref_red. set (y := ref_fold (ref_fold z)) in *.
  unfold ref_K in B2. destruct (Z.ltb_spec y secp_p); unfold secp_p in *.
  - apply (mod_of_reduced _ _ 0); lia.
  - apply (mod_of_reduced _ _ 1); lia.
Qed.

Definition ref_ok (a : Z) : Prop := 0 <= a < secp_p.
Definition ref_mag (m a : Z) : Prop := ref_ok a.
Definition ref_st (s : Z) : Prop := 0 <= s < 2 ^ 256.

#[export] Instance field_ref : FieldImpl := {
  fe := Z;
  fe_storage := Z;
  fe_const d7 d6 d5 d4 d3 d2 d1 d0 := limbs_val 32 [d0; d1; d2; d3; d4; d5; d6; d7];
  fe_normalize a := a;
  fe_normalize_weak a := a;
  fe_normalize_var a := a;
  fe_normalizes_to_zero a := b2z (a =? 0);
  fe_normalizes_to_zero_var a := b2z (a =? 0);
  fe_set_int a := a;
  fe_clear := 0;
  fe_is_zero a := b2z (a =? 0);
  fe_is_odd a := a mod 2;
  fe_cmp_var a b := match a ?= b with Gt => 1 | Lt => -1 | Eq => 0 end;
  fe_set_b32 b := (be_val b mod secp_p, b2z (be_val b <? secp_p));
  fe_get_b32 a := be_bytes 32 a;
  fe_negate a _ := if a =? 0 then 0 else secp_p - a;
  fe_mul_int a k := if k <? 2 ^ 256 then ref_red (k * a) else (k * a) mod secp_p;
  fe_add a b := let s := a + b in if s <? secp_p then s else s - secp_p;
  fe_mul a b := ref_red (a * b);
  fe_sqr a := ref_red (a * a);
  fe_to_storage a := a;
  fe_from_storage s := s mod secp_p;
  fe_storage_cmov r a flag := if flag =? 0 then r else a;
  fe_cmov r a flag := if flag =? 0 then r else a
}.

(** * The laws *)

Lemma ref_to_Z a : ref_ok a -> Zmod.to_Z (F_of_Z a) = a.
Proof. intros H. rewrite F_to_of_Z. now apply Z.mod_small. Qed.

Lemma ref_zero a : ref_ok a -> b2z (a =? 0) = b2z (Zmod.eqb (F_of_Z a) Zmod.zero).
Proof. intros H. unfold Zmod.eqb. now rewrite ref_to_Z, Zmod.unsigned_0. Qed.

(** A value reduced modulo the prime. *)
Lemma ref_mod a v : a = v mod secp_p -> ref_ok a /\ F_of_Z a = F_of_Z v.
Proof.
  intros ->. split; [apply Z.mod_pos_bound; reflexivity | apply F_of_Z_mod].
Qed.

Lemma ref_bound_512 a b : ref_ok a -> ref_ok b -> 0 <= a * b < 2 ^ 512.
Proof. unfold ref_ok, secp_p. intros Ha Hb. nia. Qed.

Lemma ref_mul_law a b : ref_ok a -> ref_ok b ->
  ref_ok (ref_red (a * b)) /\ F_of_Z (ref_red (a * b)) = Zmod.mul (F_of_Z a) (F_of_Z b).
Proof.
  intros Ha Hb. destruct (ref_mod _ _ (ref_red_ok _ (ref_bound_512 a b Ha Hb))) as [H E].
  split; [exact H |]. rewrite E. apply Zmod.of_Z_mul.
Qed.

Lemma ref_negate_law a : ref_ok a -> let r := if a =? 0 then 0 else secp_p - a in
  ref_ok r /\ F_of_Z r = Zmod.opp (F_of_Z a).
Proof.
  intros Ha r. destruct (ref_mod r (- a)) as [H E].
  - unfold r, ref_ok in *. destruct (Z.eqb_spec a 0) as [-> | N]; [reflexivity |].
    apply (mod_of_reduced _ _ (-1)); lia.
  - split; [exact H |]. rewrite E. apply Zmod.of_Z_opp.
Qed.

Lemma ref_add_law a b : ref_ok a -> ref_ok b -> let s := a + b in
  let r := if s <? secp_p then s else s - secp_p in
  ref_ok r /\ F_of_Z r = Zmod.add (F_of_Z a) (F_of_Z b).
Proof.
  intros Ha Hb s r. destruct (ref_mod r s) as [H E].
  - unfold r, s, ref_ok in *. destruct (Z.ltb_spec (a + b) secp_p);
      [apply (mod_of_reduced _ _ 0) | apply (mod_of_reduced _ _ 1)]; lia.
  - split; [exact H |]. rewrite E. apply Zmod.of_Z_add.
Qed.

Lemma ref_mul_int_law k a : 0 <= k -> ref_ok a ->
  let r := if k <? 2 ^ 256 then ref_red (k * a) else (k * a) mod secp_p in
  ref_ok r /\ F_of_Z r = Zmod.mul (F_of_Z k) (F_of_Z a).
Proof.
  intros Hk Ha r. destruct (ref_mod r (k * a)) as [H E].
  - unfold r. destruct (Z.ltb_spec k (2 ^ 256)); [| reflexivity].
    apply ref_red_ok. unfold ref_ok, secp_p in Ha. nia.
  - split; [exact H |]. rewrite E. apply Zmod.of_Z_mul.
Qed.

#[export] Instance field_ref_laws : FieldLaws field_ref.
Proof.
  unshelve refine {| mag := ref_mag : Z -> @fe field_ref -> Prop; norm := ref_ok : @fe field_ref -> Prop;
    fv := F_of_Z : @fe field_ref -> F; st_ok := ref_st : @fe_storage field_ref -> Prop;
    st_val := id : @fe_storage field_ref -> Z |};
    cbn [fe fe_storage fe_const fe_normalize fe_normalize_weak fe_normalize_var fe_normalizes_to_zero
      fe_normalizes_to_zero_var fe_set_int fe_clear fe_is_zero fe_is_odd fe_cmp_var fe_set_b32 fe_get_b32
      fe_negate fe_mul_int fe_add fe_mul fe_sqr fe_to_storage fe_from_storage fe_storage_cmov fe_cmov field_ref];
    unfold ref_mag, id; intros; try (split; [assumption | reflexivity]); try now apply ref_zero.
  - assumption.
  - assumption.
  - match goal with E : F_of_Z ?a = F_of_Z ?b |- _ => rewrite <- (ref_to_Z a), <- (ref_to_Z b), E by assumption end.
    reflexivity.
  - split; [| reflexivity]. split; [| assumption]. apply (limbs_val_bound 32); [lia | assumption].
  - split; [| reflexivity]. unfold ref_ok, secp_p. lia.
  - split; [| reflexivity]. unfold ref_ok, secp_p. lia.
  - now rewrite ref_to_Z.
  - now rewrite !ref_to_Z.
  - cbn [fst snd]. destruct (ref_mod _ _ (eq_refl (be_val b mod secp_p))). auto.
  - now rewrite ref_to_Z.
  - now apply ref_negate_law.
  - now apply ref_mul_int_law.
  - now apply ref_add_law.
  - now apply ref_mul_law.
  - now apply ref_mul_law.
  - rewrite ref_to_Z by assumption. split; [| reflexivity]. unfold ref_ok, ref_st, secp_p in *. lia.
  - destruct (ref_mod _ _ (eq_refl (s mod secp_p))). auto.
  - now destruct b.
  - now destruct b.
Defined.
