(* ===== verification/FieldGen.v ===== *)
(** The field code of [field_impl.h], over any representation: equality,
    square root and inverse by addition chains, batch inversion. *)

From Stdlib Require Import ZArith Lia List Bool Zmod Field.
From S2P Require Import Prelude Limbs Primes Fp FieldSpec.
Import ListNotations.
Open Scope Z_scope.

Section Code.
Context {I : FieldImpl}.

Definition secp256k1_fe_equal (a b : fe) : Z :=
  let na := fe_negate a 1 in
  let na := fe_add na b in
  fe_normalizes_to_zero na.

Definition secp256k1_fe_equal_var (a b : fe) : Z :=
  let na := fe_negate a 1 in
  let na := fe_add na b in
  fe_normalizes_to_zero_var na.

(** [for (j = 0; j < n; j++) secp256k1_fe_sqr(&x, &x)]. *)
Definition fe_sqr_n (n : nat) (x : fe) : fe := Nat.iter n fe_sqr x.

(** Returns the root written to [*r] and the return value. *)
Definition secp256k1_fe_sqrt (a : fe) : fe * Z :=
  let x2 := fe_sqr a in
  let x2 := fe_mul x2 a in
  let x3 := fe_sqr x2 in
  let x3 := fe_mul x3 a in
  let x6 := x3 in let x6 := fe_sqr_n 3 x6 in let x6 := fe_mul x6 x3 in
  let x9 := x6 in let x9 := fe_sqr_n 3 x9 in let x9 := fe_mul x9 x3 in
  let x11 := x9 in let x11 := fe_sqr_n 2 x11 in let x11 := fe_mul x11 x2 in
  let x22 := x11 in let x22 := fe_sqr_n 11 x22 in let x22 := fe_mul x22 x11 in
  let x44 := x22 in let x44 := fe_sqr_n 22 x44 in let x44 := fe_mul x44 x22 in
  let x88 := x44 in let x88 := fe_sqr_n 44 x88 in let x88 := fe_mul x88 x44 in
  let x176 := x88 in let x176 := fe_sqr_n 88 x176 in let x176 := fe_mul x176 x88 in
  let x220 := x176 in let x220 := fe_sqr_n 44 x220 in let x220 := fe_mul x220 x44 in
  let x223 := x220 in let x223 := fe_sqr_n 3 x223 in let x223 := fe_mul x223 x3 in
  let t1 := x223 in
  let t1 := fe_sqr_n 23 t1 in
  let t1 := fe_mul t1 x22 in
  let t1 := fe_sqr_n 6 t1 in
  let t1 := fe_mul t1 x2 in
  let t1 := fe_sqr t1 in
  let r := fe_sqr t1 in
  let t1 := fe_sqr r in
  (r, secp256k1_fe_equal t1 a).

Definition secp256k1_fe_inv (a : fe) : fe :=
  let x2 := fe_sqr a in
  let x2 := fe_mul x2 a in
  let x3 := fe_sqr x2 in
  let x3 := fe_mul x3 a in
  let x6 := x3 in let x6 := fe_sqr_n 3 x6 in let x6 := fe_mul x6 x3 in
  let x9 := x6 in let x9 := fe_sqr_n 3 x9 in let x9 := fe_mul x9 x3 in
  let x11 := x9 in let x11 := fe_sqr_n 2 x11 in let x11 := fe_mul x11 x2 in
  let x22 := x11 in let x22 := fe_sqr_n 11 x22 in let x22 := fe_mul x22 x11 in
  let x44 := x22 in let x44 := fe_sqr_n 22 x44 in let x44 := fe_mul x44 x22 in
  let x88 := x44 in let x88 := fe_sqr_n 44 x88 in let x88 := fe_mul x88 x44 in
  let x176 := x88 in let x176 := fe_sqr_n 88 x176 in let x176 := fe_mul x176 x88 in
  let x220 := x176 in let x220 := fe_sqr_n 44 x220 in let x220 := fe_mul x220 x44 in
  let x223 := x220 in let x223 := fe_sqr_n 3 x223 in let x223 := fe_mul x223 x3 in
  let t1 := x223 in
  let t1 := fe_sqr_n 23 t1 in
  let t1 := fe_mul t1 x22 in
  let t1 := fe_sqr_n 5 t1 in
  let t1 := fe_mul t1 a in
  let t1 := fe_sqr_n 3 t1 in
  let t1 := fe_mul t1 x2 in
  let t1 := fe_sqr_n 2 t1 in
  fe_mul a t1.

(** [USE_FIELD_INV_BUILTIN]. *)
Definition secp256k1_fe_inv_var (a : fe) : fe := secp256k1_fe_inv a.

Definition nth_fe (l : list fe) (i : nat) : fe := nth i l fe_clear.

(** [r[0] = a[0]], then the prefix products up to index [k]. *)
Fixpoint inv_all_forward (a r : list fe) (k : nat) : list fe :=
  match k with
  | O => upd 0 (nth_fe a 0) r
  | S i =>
      let r := inv_all_forward a r i in
      upd (S i) (fe_mul (nth_fe r i) (nth_fe a (S i))) r
  end.

(** [while (i > 0)], then [r[0] = u]. *)
Fixpoint inv_all_backward (a r : list fe) (u : fe) (i : nat) : list fe :=
  match i with
  | O => upd 0 u r
  | S i' =>
      let r := upd (S i') (fe_mul (nth_fe r i') u) r in
      let u := fe_mul u (nth_fe a (S i')) in
      inv_all_backward a r u i'
  end.

(** [r] is the output array before the call, as long as [a]. *)
Definition secp256k1_fe_inv_all_var (r a : list fe) : list fe :=
  match length a with
  | O => r
  | S i =>
      let r := inv_all_forward a r i in
      let u := secp256k1_fe_inv_var (nth_fe r i) in
      inv_all_backward a r u i
  end.

(** [USE_NUM_NONE]. *)
Definition secp256k1_fe_is_quad_var (a : fe) : Z := snd (secp256k1_fe_sqrt a).
End Code.

(** * Powers *)

Section Powers.
Context {I : FieldImpl} {L : FieldLaws I} (v : F).

(** [x] has magnitude at most [m] and stands for [v^e]. *)
Class FePow (x : fe) (m e : Z) : Prop := fe_pow : 0 <= e /\ FeI x m (v ^ e)%F.

Lemma fePow_base x m : FeI x m v -> FePow x m 1.
Proof. intros H. split; [lia |]. now rewrite Zmod.pow_1_r. Qed.

Lemma fePow_mul a b m m' e e' : FePow a m e -> FePow b m' e' -> (m <=? 8) && (m' <=? 8) = true ->
  FePow (fe_mul a b) 1 (e + e').
Proof.
  intros [He Ha] [He' Hb] Hm. split; [lia |].
  rewrite Zmod.pow_add_r_nonneg by lia. now apply (feI_mul a b m m').
Qed.

Lemma fePow_sqr a m e : FePow a m e -> (m <=? 8) = true -> FePow (fe_sqr a) 1 (2 * e).
Proof.
  intros [He Ha] Hm. split; [lia |]. rewrite <- Z.add_diag.
  rewrite Zmod.pow_add_r_nonneg by lia. now apply (feI_sqr a m).
Qed.

Lemma fePow_sqr_n a n e : FePow a 1 e -> FePow (fe_sqr_n n a) 1 (2 ^ Z.of_nat n * e).
Proof.
  intros Ha. unfold fe_sqr_n. induction n as [| n IH].
  - now rewrite Z.mul_1_l.
  - rewrite Nat2Z.inj_succ, Z.pow_succ_r, <- Z.mul_assoc by lia. now apply (fePow_sqr _ 1).
Qed.
End Powers.

#[export] Hint Mode FePow + + + + - - : typeclass_instances.
#[export] Hint Extern 2 (FePow _ (fe_mul _ _) _ _) =>
  (eapply fePow_mul; [typeclasses eauto .. | reflexivity]) : typeclass_instances.
#[export] Hint Extern 2 (FePow _ (fe_sqr _) _ _) =>
  (eapply fePow_sqr; [typeclasses eauto | reflexivity]) : typeclass_instances.
#[export] Hint Extern 2 (FePow _ (fe_sqr_n _ _) _ _) =>
  (eapply fePow_sqr_n; typeclasses eauto) : typeclass_instances.

(** One statement of an addition chain over [v]. *)
Ltac pow_step v :=
  lazymatch goal with
  | |- wp (let x := ?e in @?k x) ?Q =>
      first
        [ is_var e; change (wp (k e) Q); cbv beta
        | let y := fresh x in let H := fresh "H" x in let E := fresh "E" in
          eassert (FePow v e _ _) as H by typeclasses eauto;
          lazymatch type of H with
          | FePow _ _ ?m ?n => let n' := eval vm_compute in n in change (FePow v e m n') in H
          end;
          refine (wp_let e k Q _); intros y E; rewrite <- E in H; clear E; cbv beta ]
  end.

Section Specs.
Context {I : FieldImpl} {L : FieldLaws I}.

Lemma eqb_sub (v v' : F) : Zmod.eqb (- v + v')%F 0%F = Zmod.eqb v v'.
Proof.
  apply eq_true_iff_eq. rewrite !Zmod.eqb_eq. split; intros E.
  - replace v' with ((- v + v') + v)%F by ring. rewrite E. ring.
  - rewrite E. ring.
Qed.

Lemma fe_equal_ok a b v v' : FeI a 1 v -> FeI b 29 v' ->
  secp256k1_fe_equal a b = b2z (Zmod.eqb v v') /\ secp256k1_fe_equal_var a b = b2z (Zmod.eqb v v').
Proof.
  intros Ha Hb. unfold secp256k1_fe_equal, secp256k1_fe_equal_var.
  pose proof (_ : FeI (fe_add (fe_negate a 1) b) _ _) as H. rewrite <- eqb_sub.
  exact (feI_zero _ _ _ H eq_refl).
Qed.

(** [(p + 1) / 4]. *)
Definition sqrt_exp : Z := (secp_p + 1) / 4.

Lemma fe_sqrt_pow a v : FeI a 8 v ->
  FeI (fst (secp256k1_fe_sqrt a)) 1 (v ^ sqrt_exp)%F /\
  snd (secp256k1_fe_sqrt a) = b2z (Zmod.eqb (v ^ sqrt_exp * v ^ sqrt_exp)%F v).
Proof.
  intros Ha. pose proof (fePow_base v a 8 Ha).
  pattern (secp256k1_fe_sqrt a). apply wp_intro. cbv beta iota delta [secp256k1_fe_sqrt].
  repeat pow_step v. wp_done. cbn [fst snd].
  set (e := 28948022309329048855892746252171976963317496166410141009864396001977208667916) in *.
  assert (Es : sqrt_exp = e) by (vm_compute; reflexivity). rewrite Es.
  split; [exact (proj2 Hr) |].
  rewrite <- Zmod.pow_add_r_nonneg by (unfold e; lia).
  apply (fe_equal_ok t5 a _ _ (proj2 Ht5)), (feI_weaken a 8); [lia | exact Ha].
Qed.

Lemma fe_inv_pow a v : FeI a 8 v -> FeI (secp256k1_fe_inv a) 1 (v ^ (secp_p - 2))%F.
Proof.
  intros Ha. pose proof (fePow_base v a 8 Ha).
  pattern (secp256k1_fe_inv a). apply wp_intro. cbv beta iota delta [secp256k1_fe_inv].
  repeat pow_step v. wp_done.
  match goal with |- FeI ?x _ _ => eassert (R : FePow v x _ _) by typeclasses eauto end.
  destruct R as [_ R].
  match type of R with FeI _ _ (Zmod.pow v ?e) =>
    replace e with (secp_p - 2) in R by (vm_compute; reflexivity) end.
  exact R.
Qed.

(** The inverse, and zero for zero, as [Zmod.inv]. *)
Lemma fe_inv_ok a v : FeI a 8 v -> FeI (secp256k1_fe_inv a) 1 (Zmod.inv v).
Proof.
  intros Ha. destruct (F_eq_dec v 0%F) as [-> | Hv].
  - rewrite Zmod.inv_0. rewrite <- (Zmod.pow_0_l (secp_p - 2)) by discriminate. now apply fe_inv_pow.
  - rewrite <- (Zmod.fermat_inv v Hv prime_secp_p). now apply fe_inv_pow.
Qed.

(** * Square roots *)

Definition half_exp : Z := (secp_p - 1) / 2.

Lemma exps : sqrt_exp + sqrt_exp = Z.succ half_exp /\ half_exp * 2 = Z.pred secp_p /\
  sqrt_exp = sqrt_exp / 2 + sqrt_exp / 2 /\ 0 < sqrt_exp / 2 /\ 0 < half_exp /\ 0 < sqrt_exp.
Proof. vm_compute. auto 10. Qed.

Lemma sqrt_square (v : F) : (v ^ sqrt_exp * v ^ sqrt_exp = v * v ^ half_exp)%F.
Proof.
  destruct exps as (E & _ & _ & _ & ? & ?). rewrite <- Zmod.pow_add_r_nonneg, E by lia.
  apply Zmod.pow_succ_nonneg_r. lia.
Qed.

Lemma euler (v : F) : v <> 0%F -> (v ^ half_exp = 1)%F \/ (v ^ half_exp = - Zmod.one)%F.
Proof.
  intros Hv. destruct exps as (_ & E & _ & _ & ? & _).
  apply (Zmod.square_roots_1_prime prime_secp_p).
  rewrite <- Zmod.pow_mul_r_nonneg, E by lia. exact (Zmod.fermat_nz v Hv prime_secp_p).
Qed.

Lemma euler_square (w : F) : w <> 0%F -> ((w * w) ^ half_exp = 1)%F.
Proof.
  intros Hw. destruct exps as (_ & E & _ & _ & ? & _).
  rewrite <- Zmod.pow_2_r, <- Zmod.pow_mul_r_nonneg, Z.mul_comm, E by lia.
  exact (Zmod.fermat_nz w Hw prime_secp_p).
Qed.

Lemma two_nz : F_of_Z 2 <> 0%F.
Proof. apply F_of_Z_nz. split; reflexivity. Qed.

Lemma opp_eq_0 (v : F) : v = (- v)%F -> v = 0%F.
Proof.
  intros E. assert (H : (F_of_Z 2 * v = 0)%F).
  { replace (F_of_Z 2 * v)%F with (v + v)%F by ring. rewrite E at 2. ring. }
  apply F_mul_0 in H as [H | H]; [now apply two_nz in H | exact H].
Qed.

(** The root is one of [v] when [v] is a square, and of [-v] otherwise. *)
Lemma sqrt_exp_spec (v : F) :
  (v ^ sqrt_exp * v ^ sqrt_exp = v)%F /\ (exists w, w * w = v)%F \/
  (v ^ sqrt_exp * v ^ sqrt_exp = - v)%F /\ (v ^ sqrt_exp * v ^ sqrt_exp <> v)%F
  /\ ~ (exists w, w * w = v)%F.
Proof.
  destruct (F_eq_dec v 0%F) as [-> | Hv].
  - left. split; [| exists 0%F; ring]. rewrite sqrt_square. ring.
  - destruct (euler v Hv) as [E | E].
    + left. assert (S : (v ^ sqrt_exp * v ^ sqrt_exp = v)%F) by (rewrite sqrt_square, E; ring).
      split; [exact S | now exists (v ^ sqrt_exp)%F].
    + right. assert (S : (v ^ sqrt_exp * v ^ sqrt_exp = - v)%F) by (rewrite sqrt_square, E; ring).
      split; [exact S |]. split; [rewrite S; intros Q; now apply Hv, opp_eq_0 |].
      intros [w <-]. rewrite euler_square in E.
      * apply (Zmod.one_neq_zero (m := secp_p)); [discriminate |]. now apply opp_eq_0.
      * intros ->. apply Hv. ring.
Qed.

(** The root is itself a square. *)
Lemma sqrt_exp_even (v : F) : (v ^ sqrt_exp = v ^ (sqrt_exp / 2) * v ^ (sqrt_exp / 2))%F.
Proof.
  destruct exps as (_ & _ & E & ? & _). rewrite <- Zmod.pow_add_r_nonneg by lia. now rewrite <- E.
Qed.

Lemma fe_is_quad_ok a v : FeI a 8 v ->
  secp256k1_fe_is_quad_var a = b2z (Zmod.eqb (v ^ sqrt_exp * v ^ sqrt_exp)%F v).
Proof. intros H. apply (fe_sqrt_pow a v H). Qed.

(** * Batch inversion *)

Section InvAll.
Variable a : list fe.
Hypothesis Ha : Forall (fun x => mag 8 x /\ fv x <> 0%F) a.

(** Product of the first [i + 1] inputs. *)
Fixpoint prefix (i : nat) : F :=
  match i with
  | O => fv (nth_fe a 0)
  | S j => (prefix j * fv (nth_fe a (S j)))%F
  end.

Lemma inv_all_input i : (i < length a)%nat ->
  FeI (nth_fe a i) 8 (fv (nth_fe a i)) /\ fv (nth_fe a i) <> 0%F.
Proof.
  intros Hi. rewrite Forall_forall in Ha.
  destruct (Ha (nth_fe a i) (nth_In a fe_clear Hi)) as [Hm Hz]. repeat split; assumption.
Qed.

Lemma prefix_nz i : (i < length a)%nat -> prefix i <> 0%F.
Proof.
  induction i as [| i IH]; intros Hi; cbn [prefix].
  - now apply inv_all_input.
  - intros H. apply F_mul_0 in H as [H | H]; [apply IH in H; lia | now apply inv_all_input in H].
Qed.

Lemma forward_ok r k : length r = length a -> (k < length a)%nat ->
  length (inv_all_forward a r k) = length a /\
  forall i, (i <= k)%nat -> FeI (nth_fe (inv_all_forward a r k) i) 8 (prefix i).
Proof.
  intros Hr. induction k as [| k IH]; intros Hk; cbn [inv_all_forward].
  - split; [now rewrite length_upd |]. intros i Hi. assert (i = 0%nat) as -> by lia.
    unfold nth_fe at 1. rewrite nth_upd_eq by lia. now apply inv_all_input.
  - destruct (IH ltac:(lia)) as [HL HI]. set (r' := inv_all_forward a r k) in *.
    split; [now rewrite length_upd |]. intros i Hi. unfold nth_fe at 1.
    destruct (Nat.eq_dec i (S k)) as [-> | Hne].
    + rewrite nth_upd_eq by lia. apply (feI_weaken _ 1); [lia |]. cbn [prefix].
      apply (feI_mul _ _ 8 8); [apply HI; lia | now apply inv_all_input | reflexivity].
    + rewrite nth_upd_neq by lia. apply HI. lia.
Qed.

Lemma backward_ok k : (k < length a)%nat -> forall r u, length r = length a ->
  (forall i, (i <= k)%nat -> FeI (nth_fe r i) 8 (prefix i)) -> FeI u 8 (Zmod.inv (prefix k)) ->
  (k = 0%nat -> mag 1 u) ->
  length (inv_all_backward a r u k) = length a /\
  forall i, (i < length a)%nat ->
    if (i <=? k)%nat then FeI (nth_fe (inv_all_backward a r u k) i) 1 (Zmod.inv (fv (nth_fe a i)))
    else nth_fe (inv_all_backward a r u k) i = nth_fe r i.
Proof.
  induction k as [| k IH]; intros Hk r u Hr Hp Hu Hu1; cbn [inv_all_backward].
  - split; [now rewrite length_upd |]. intros i Hi. unfold nth_fe at 1 3. destruct i as [| i].
    + rewrite nth_upd_eq by lia. cbn [Nat.leb]. split; [now apply Hu1 | apply Hu].
    + rewrite nth_upd_neq by lia. reflexivity.
  - destruct (inv_all_input (S k) Hk) as [HaS HzS]. pose proof (prefix_nz k ltac:(lia)) as HzP.
    set (r' := upd (S k) (fe_mul (nth_fe r k) u) r).
    assert (Hu' : FeI (fe_mul u (nth_fe a (S k))) 1 (Zmod.inv (prefix k))).
    { replace (Zmod.inv (prefix k)) with (Zmod.inv (prefix (S k)) * fv (nth_fe a (S k)))%F
        by (cbn [prefix]; field; auto).
      now apply (feI_mul _ _ 8 8). }
    destruct (IH ltac:(lia) r' (fe_mul u (nth_fe a (S k)))) as [HL HI].
    + unfold r'. now rewrite length_upd.
    + intros i Hi. unfold r', nth_fe. rewrite nth_upd_neq by lia. apply Hp. lia.
    + apply (feI_weaken _ 1); [lia | exact Hu'].
    + intros _. apply Hu'.
    + split; [exact HL |]. intros i Hi. specialize (HI i Hi).
      destruct (Nat.leb_spec i k) as [Hik | Hik].
      * rewrite (proj2 (Nat.leb_le i (S k))) by lia. exact HI.
      * rewrite HI. unfold r', nth_fe. destruct (Nat.leb_spec i (S k)) as [Hik' | Hik'].
        -- assert (i = S k) as -> by lia. rewrite nth_upd_eq by lia. fold (nth_fe a (S k)).
           replace (Zmod.inv (fv (nth_fe a (S k)))) with (prefix k * Zmod.inv (prefix (S k)))%F
             by (cbn [prefix]; field; auto).
           apply (feI_mul _ _ 8 8); [apply Hp; lia | exact Hu | reflexivity].
        -- now rewrite nth_upd_neq by lia.
Qed.

Lemma inv_all_ok r : length r = length a ->
  length (secp256k1_fe_inv_all_var r a) = length a /\
  forall i, (i < length a)%nat ->
    FeI (nth_fe (secp256k1_fe_inv_all_var r a) i) 1 (Zmod.inv (fv (nth_fe a i))).
Proof.
  intros Hr. unfold secp256k1_fe_inv_all_var. destruct (length a) as [| k] eqn:El.
  - split; [exact Hr | intros i Hi; lia].
  - destruct (forward_ok r k ltac:(lia) ltac:(lia)) as [HL HI].
    pose proof (fe_inv_ok _ _ (HI k (Nat.le_refl k))) as Hu.
    destruct (backward_ok k ltac:(lia) (inv_all_forward a r k)
      (secp256k1_fe_inv_var (nth_fe (inv_all_forward a r k) k)) HL HI) as [HL' HI'].
    + apply (feI_weaken _ 1); [lia | exact Hu].
    + intros _. apply Hu.
    + split; [lia |]. intros i Hi. specialize (HI' i ltac:(lia)).
      now rewrite (proj2 (Nat.leb_le i k)) in HI' by lia.
Qed.
End InvAll.
End Specs.
