(* ===== verification/ScalarSpec.v ===== *)
(** The interface between the scalar representations and the code above them:
    the operations [scalar.h] declares and what its comments promise.  A scalar
    is an integer below the group order; representations are canonical. *)

From Stdlib Require Import ZArith Lia List Bool.
From S2P Require Import Prelude Limbs.
Import ListNotations.
Open Scope Z_scope.

Class ScalarImpl : Type := {
  scalar : Type;
  sc_const : Z -> Z -> Z -> Z -> Z -> Z -> Z -> Z -> scalar;
  sc_d0 : scalar -> Z;
  sc_clear : scalar;
  sc_set_int : Z -> scalar;
  sc_get_bits : scalar -> Z -> Z -> Z;
  sc_get_bits_var : scalar -> Z -> Z -> Z;
  sc_set_b32 : list Z -> scalar * Z;
  sc_get_b32 : scalar -> list Z;
  sc_add : scalar -> scalar -> scalar * Z;
  sc_cadd_bit : scalar -> Z -> Z -> scalar;
  sc_mul : scalar -> scalar -> scalar;
  sc_sqr : scalar -> scalar;
  sc_shr_int : scalar -> Z -> scalar * Z;
  sc_negate : scalar -> scalar;
  sc_is_zero : scalar -> Z;
  sc_is_one : scalar -> Z;
  sc_is_high : scalar -> Z;
  sc_cond_negate : scalar -> Z -> scalar * Z;
  sc_eq : scalar -> scalar -> Z;
  sc_split_128 : scalar -> scalar * scalar;
  sc_mul_shift_var : scalar -> scalar -> Z -> scalar
}.

(** [sv a] is the integer [a] stands for, [sok a] its invariant.  A scalar is
    determined by its integer. *)
Class ScalarLaws (I : ScalarImpl) : Type := {
  sok : scalar -> Prop;
  sv : scalar -> Z;
  sv_range : forall a, sok a -> 0 <= sv a < secp_n;
  sv_inj : forall a b, sok a -> sok b -> sv a = sv b -> a = b;
  sc_const_ok : forall d7 d6 d5 d4 d3 d2 d1 d0,
    limbs_lt 32 [d0; d1; d2; d3; d4; d5; d6; d7] ->
    let v := limbs_val 32 [d0; d1; d2; d3; d4; d5; d6; d7] in
    v < secp_n -> sok (sc_const d7 d6 d5 d4 d3 d2 d1 d0) /\ sv (sc_const d7 d6 d5 d4 d3 d2 d1 d0) = v;
  sc_d0_ok : forall a, sok a -> sc_d0 a mod 2 = sv a mod 2;
  sc_clear_ok : sok sc_clear /\ sv sc_clear = 0;
  sc_set_int_ok : forall v, 0 <= v < 2 ^ 32 -> sok (sc_set_int v) /\ sv (sc_set_int v) = v;
  sc_get_bits_ok : forall a offset count, sok a -> 0 <= offset -> 0 < count < 32 ->
    offset + count <= 256 -> (offset + count - 1) / 32 = offset / 32 ->
    sc_get_bits a offset count = (sv a / 2 ^ offset) mod 2 ^ count;
  sc_get_bits_var_ok : forall a offset count, sok a -> 0 <= offset -> 0 < count < 32 ->
    offset + count <= 256 -> sc_get_bits_var a offset count = (sv a / 2 ^ offset) mod 2 ^ count;
  sc_set_b32_ok : forall b, limbs_lt 8 b -> length b = 32%nat ->
    sok (fst (sc_set_b32 b)) /\ sv (fst (sc_set_b32 b)) = be_val b mod secp_n /\
    snd (sc_set_b32 b) = b2z (secp_n <=? be_val b);
  sc_get_b32_ok : forall a, sok a -> sc_get_b32 a = be_bytes 32 (sv a);
  sc_add_ok : forall a b, sok a -> sok b ->
    sok (fst (sc_add a b)) /\ sv (fst (sc_add a b)) = (sv a + sv b) mod secp_n /\
    snd (sc_add a b) = b2z (secp_n <=? sv a + sv b);
  sc_cadd_bit_ok : forall a bit flag, sok a -> 0 <= bit < 256 ->
    sv a + b2z flag * 2 ^ bit < secp_n ->
    sok (sc_cadd_bit a bit (b2z flag)) /\ sv (sc_cadd_bit a bit (b2z flag)) = sv a + b2z flag * 2 ^ bit;
  sc_mul_ok : forall a b, sok a -> sok b ->
    sok (sc_mul a b) /\ sv (sc_mul a b) = (sv a * sv b) mod secp_n;
  sc_sqr_ok : forall a, sok a -> sok (sc_sqr a) /\ sv (sc_sqr a) = (sv a * sv a) mod secp_n;
  sc_shr_int_ok : forall a n, sok a -> 0 < n < 16 ->
    sok (fst (sc_shr_int a n)) /\ sv (fst (sc_shr_int a n)) = sv a / 2 ^ n /\
    snd (sc_shr_int a n) = sv a mod 2 ^ n;
  sc_negate_ok : forall a, sok a -> sok (sc_negate a) /\ sv (sc_negate a) = (- sv a) mod secp_n;
  sc_is_zero_ok : forall a, sok a -> sc_is_zero a = b2z (sv a =? 0);
  sc_is_one_ok : forall a, sok a -> sc_is_one a = b2z (sv a =? 1);
  sc_is_high_ok : forall a, sok a -> sc_is_high a = b2z (secp_n / 2 <? sv a);
  sc_cond_negate_ok : forall a flag, sok a ->
    sok (fst (sc_cond_negate a (b2z flag))) /\
    sv (fst (sc_cond_negate a (b2z flag))) = (if flag then (- sv a) mod secp_n else sv a) /\
    snd (sc_cond_negate a (b2z flag)) = if flag then -1 else 1;
  sc_eq_ok : forall a b, sok a -> sok b -> sc_eq a b = b2z (sv a =? sv b);
  sc_split_128_ok : forall a, sok a ->
    sok (fst (sc_split_128 a)) /\ sv (fst (sc_split_128 a)) = sv a mod 2 ^ 128 /\
    sok (snd (sc_split_128 a)) /\ sv (snd (sc_split_128 a)) = sv a / 2 ^ 128;
  sc_mul_shift_var_ok : forall a b shift, sok a -> sok b -> 256 <= shift <= 512 ->
    sok (sc_mul_shift_var a b shift) /\
    sv (sc_mul_shift_var a b shift) = (sv a * sv b + 2 ^ (shift - 1)) / 2 ^ shift
}.
