(* ===== verification/ScalarWords.v ===== *)
(** What the scalar representations share: comparisons by flags, bit access,
    shifts across words and the rounded shift of a product, over words of any
    width [w].  [scalar_8x32_impl.h] has 32-bit words, [scalar_4x64_impl.h] has
    64-bit words. *)

From Stdlib Require Import ZArith Lia List Bool.
From S2P Require Import Prelude Limbs.
Import ListNotations.
Open Scope Z_scope.
Open Scope c_scope.

Lemma mod_n_bound v : 0 <= v mod secp_n < secp_n.
Proof. apply Z.mod_pos_bound. reflexivity. Qed.

Lemma rng_u64 x : Rng (u64 x) 0xFFFFFFFFFFFFFFFF.
Proof. unfold Rng, u64. pose proof (Z.mod_pos_bound x (2 ^ 64) eq_refl). lia. Qed.

(** The words of [a], with their ranges, from [H : length a = n /\ limbs_lt w a]. *)
Ltac sc_cases a H :=
  let L := fresh in let F := fresh in
  destruct H as [L F]; list_cases a L;
  repeat lazymatch goal with
         | F : limbs_lt _ (_ :: _) |- _ =>
             let R := fresh "R" in
             apply Forall_cons_iff in F; destruct F as [R F]; cbv beta in R
         | F : Forall _ (_ :: _) |- _ =>
             let R := fresh "R" in
             apply Forall_cons_iff in F; destruct F as [R F]; cbv beta in R
         end;
  repeat match goal with
         | R : 0 <= ?x < 2 ^ ?w |- _ =>
             let R' := fresh "R" in let m := eval vm_compute in (2 ^ w - 1) in
             assert (R' : Rng x m) by (unfold Rng; lia); clear R
         end.

(** Evaluate the products with the constant words. *)
Ltac const_words :=
  repeat match goal with
         | |- context [u32 (?o * ?n)] =>
             let v := eval vm_compute in (u32 (o * n)) in
             lazymatch isZcst v with true => change (u32 (o * n)) with v end
         | |- context [u64 (?o * ?n)] =>
             let v := eval vm_compute in (u64 (o * n)) in
             lazymatch isZcst v with true => change (u64 (o * n)) with v end
         end.

(** The words of a straight-line computation are in range. *)
Ltac sc_words := split; [reflexivity |]; repeat constructor; unfold Rng in *; lia.

(** * Comparisons

    [yes] and [no] record, after each word from the top, whether the words so
    far are above or below those of the constant. *)

Lemma b2z_andnot a b : b2z a .& Z.lnot (b2z b) = b2z (a && negb b).
Proof. now destruct a, b. Qed.

(** Two numbers with one more word below: the higher words decide first. *)
Lemma word_lt W H M x m : 0 <= x < W -> 0 <= m < W -> (x + W * H <? m + W * M) = (H <? M) || ((H =? M) && (x <? m)).
Proof. intros Hx Hm. apply eq_true_iff_eq. rewrite orb_true_iff, andb_true_iff, !Z.ltb_lt, Z.eqb_eq. nia. Qed.

Section Flags.
Variables w H M x m : Z.
Hypothesis Hx : 0 <= x < 2 ^ w.
Hypothesis Hm : 0 <= m < 2 ^ w.

Ltac flags := rewrite ?b2z_andnot, ?b2z_lor; f_equal; rewrite ?Z.gtb_ltb, ?Z.geb_leb, ?Z.leb_antisym, ?word_lt by assumption; lia.

(** A word of the constant with all bits set needs no test from above. *)
Lemma yes_keep : m = 2 ^ w - 1 -> b2z (H >? M) = b2z (x + 2 ^ w * H >? m + 2 ^ w * M).
Proof. intros E. flags. Qed.

Lemma no_top : b2z (H >? M) = 0 ->
  b2z (H <? M) .| b2z (x <? m) = b2z (x + 2 ^ w * H <? m + 2 ^ w * M).
Proof. destruct (Z.gtb_spec H M); [discriminate |]. intros _. flags. Qed.

Lemma no_step : b2z (H <? M) .| (b2z (x <? m) .& Z.lnot (b2z (H >? M))) =
  b2z (x + 2 ^ w * H <? m + 2 ^ w * M).
Proof. flags. Qed.

Lemma yes_step : b2z (H >? M) .| (b2z (x >? m) .& Z.lnot (b2z (x + 2 ^ w * H <? m + 2 ^ w * M))) =
  b2z (x + 2 ^ w * H >? m + 2 ^ w * M).
Proof. flags. Qed.

Lemma yes_last : b2z (H >? M) .| (b2z (x >=? m) .& Z.lnot (b2z (H <? M))) =
  b2z (m + 2 ^ w * M <=? x + 2 ^ w * H).
Proof. flags. Qed.

Lemma yes_last_gt : b2z (H >? M) .| (b2z (x >? m) .& Z.lnot (b2z (H <? M))) =
  b2z (m + 2 ^ w * M <? x + 2 ^ w * H).
Proof. flags. Qed.
End Flags.

Ltac flag_step lem :=
  lazymatch goal with
  | |- wp (let x := ?e in @?k x) ?Q =>
      refine (wp_let e k Q _); let y := fresh x in let E := fresh "E" in
      intros y E; cbv beta; rewrite lem in E by (unfold Rng in *; lia || assumption); subst y
  end.

(** A value [x + 2^256 * t] below twice the order is reduced by one conditional
    subtraction from [x]. *)
Lemma subtract_once x t : 0 <= x < 2 ^ 256 -> 0 <= t -> x + 2 ^ 256 * t < 2 * secp_n ->
  t + b2z (secp_n <=? x) = b2z (secp_n <=? x + 2 ^ 256 * t) /\
  (x - b2z (secp_n <=? x + 2 ^ 256 * t) * secp_n) mod 2 ^ 256 = (x + 2 ^ 256 * t) mod secp_n.
Proof.
  intros Hx Ht Hv. split.
  - unfold secp_n in *. assert (t = 0 \/ t = 1) as [-> | ->] by lia; zcases; cbn [b2z]; lia.
  - set (V := x + 2 ^ 256 * t) in *.
    transitivity (V - b2z (secp_n <=? V) * secp_n); zcases; cbn [b2z];
      [symmetry; apply (mod_of_reduced _ _ (- t)) .. | apply (mod_of_reduced _ _ 1)
      | apply (mod_of_reduced _ _ 0)]; unfold V, secp_n in *; lia.
Qed.

(** * Bits *)

Lemma land_low x count : 0 <= count -> x .& ((1 << count) - 1) = x mod 2 ^ count.
Proof.
  intros H. rewrite Z.shiftl_mul_pow2, Z.mul_1_l by lia.
  rewrite <- Z.land_ones, Z.ones_equiv by lia. reflexivity.
Qed.

Lemma lnot_word w x : 0 <= w -> 0 <= x < 2 ^ w -> Z.lnot x mod 2 ^ w = 2 ^ w - 1 - x.
Proof. intros Hw Hx. rewrite Z.lnot_eq_pred_opp. symmetry. apply (mod_of_reduced _ _ (-1)); lia. Qed.

Lemma lxor_ones w x : 0 <= w -> 0 <= x < 2 ^ w -> x .^ Z.ones w = 2 ^ w - 1 - x.
Proof.
  intros Hw Hx. assert (D : Z.ldiff x (Z.ones w) = 0) by (rewrite Z.ldiff_ones_r, Z.shiftr_div_pow2, Z.div_small, Z.shiftl_0_l by lia; reflexivity).
  rewrite Z.lxor_comm. replace (2 ^ w - 1) with (Z.ones w) by (rewrite Z.ones_equiv; lia).
  rewrite Z.sub_nocarry_ldiff by exact D. apply Z.bits_inj'; intros i Hi.
  rewrite Z.lxor_spec, Z.ldiff_spec. pose proof (f_equal (fun z => Z.testbit z i) D) as Di. cbv beta in Di.
  rewrite Z.ldiff_spec, Z.bits_0 in Di. now destruct (Z.testbit x i), (Z.testbit (Z.ones w) i).
Qed.

(** An offset as a word index and a shift. *)
Lemma offset_split b offset : 0 <= b -> 0 <= offset ->
  offset = 2 ^ b * (offset >> b) + (offset .& Z.ones b) /\ 0 <= offset .& Z.ones b < 2 ^ b /\ 0 <= offset >> b.
Proof.
  intros Hb Ho. pose proof (split_bits b offset Hb). split; [lia |].
  rewrite Z.land_ones, Z.shiftr_div_pow2 by exact Hb. assert (0 < 2 ^ b) by (apply Z.pow_pos_nonneg; lia).
  split; [now apply Z.mod_pos_bound | apply Z.div_pos; lia].
Qed.

(** * Numbers as words *)

Section Words.
Variables (w : Z) (l : list Z).
Hypothesis Hw : 0 < w.
Hypothesis Fl : limbs_lt w l.

Let V := limbs_val w l.

Lemma word_of_val i : (i < length l)%nat -> l.[i] = (V / 2 ^ (w * Z.of_nat i)) mod 2 ^ w.
Proof.
  intros Hi. rewrite <- (digits_limbs_val w l) at 1 by (lia || exact Fl). apply nth_digits; lia.
Qed.

(** The [count] bits from bit [s] of word [q]. *)
Lemma bits_in_word q s count : 0 <= q < Z.of_nat (length l) -> 0 <= s -> 0 < count -> s + count <= w ->
  (l.[Z.to_nat q] >> s) .& ((1 << count) - 1) = (V / 2 ^ (w * q + s)) mod 2 ^ count.
Proof.
  intros Hq Hs Hc Hsc. rewrite land_low by lia.
  rewrite word_of_val, Z2Nat.id, Z.shiftr_div_pow2, field_mod by lia. now rewrite div_div_pow by lia.
Qed.

(** A word read across words [q] and [q + 1]. *)
Lemma word_across q s : 0 <= q -> q + 1 < Z.of_nat (length l) -> 0 <= s < w ->
  (l.[Z.to_nat q] >> s) .| ((l.[Z.to_nat (q + 1)] << (w - s)) mod 2 ^ w) = (V / 2 ^ (w * q + s)) mod 2 ^ w.
Proof.
  intros Hq Hq' Hs. rewrite !word_of_val, !Z2Nat.id by lia.
  replace (w * (q + 1)) with (w * q + w) by lia. rewrite <- div_div_pow by lia.
  rewrite funnel, div_div_pow by lia. reflexivity.
Qed.
End Words.

Lemma words_split w n l : 0 <= w -> limbs_lt w l -> (n <= length l)%nat -> w * Z.of_nat n = 256 ->
  limbs_val w l = limbs_val w (firstn n l) + 2 ^ 256 * limbs_val w (skipn n l) /\
  0 <= limbs_val w (firstn n l) < 2 ^ 256 /\ 0 <= limbs_val w (skipn n l).
Proof.
  intros Hw F L En. pose proof (limbs_val_bound w (firstn n l) Hw (limbs_lt_firstn w l n F)) as B.
  rewrite length_firstn, Nat.min_l, En in B by lia.
  assert (Fs : limbs_lt w (skipn n l)).
  { rewrite <- (firstn_skipn n l) in F. exact (proj2 (proj1 (Forall_app _ _ _) F)). }
  pose proof (limbs_val_bound w (skipn n l) Hw Fs).
  split; [| split; [exact B | lia]].
  rewrite <- (firstn_skipn n l) at 1. rewrite limbs_val_app, length_firstn, Nat.min_l, En by lia. reflexivity.
Qed.

(** Folding the part above [2^256] down three times keeps the residue, and
    leaves a value below twice the order. *)
Lemma three_folds l l0 l1 m m0 m1 p p0 p1 r : 0 <= l < 2 ^ 512 ->
  l = l0 + 2 ^ 256 * l1 /\ 0 <= l0 < 2 ^ 256 /\ 0 <= l1 -> m = l0 + (2 ^ 256 - secp_n) * l1 ->
  m = m0 + 2 ^ 256 * m1 /\ 0 <= m0 < 2 ^ 256 /\ 0 <= m1 -> p = m0 + (2 ^ 256 - secp_n) * m1 ->
  p = p0 + 2 ^ 256 * p1 /\ 0 <= p0 < 2 ^ 256 /\ 0 <= p1 ->
  p1 <= 2 /\ (r = p0 + (2 ^ 256 - secp_n) * p1 -> r < 2 * secp_n /\ r mod secp_n = l mod secp_n).
Proof.
  intros Hl (El & Bl & Bl') Em (Em' & Bm & Bm') Ep (Ep' & Bp & Bp').
  split; [unfold secp_n in *; lia |]. intros Er. split; [unfold secp_n in *; lia |].
  apply (mod_eq_of _ _ (- (l1 + m1 + p1))); [discriminate | lia].
Qed.

(** A word shifted right, filled from the next one. *)
Lemma shr_word w x y n : 0 < n < w -> 0 <= x < 2 ^ w ->
  ((x >> n) + (y << (w - n)) mod 2 ^ w) mod 2 ^ w = x / 2 ^ n + 2 ^ (w - n) * (y mod 2 ^ n) /\
  0 <= x / 2 ^ n + 2 ^ (w - n) * (y mod 2 ^ n) < 2 ^ w.
Proof.
  intros Hn Hx. pose proof (div_lt x n (w - n) ltac:(lia) ltac:(lia)) as D.
  replace (n + (w - n)) with w in D by lia. specialize (D Hx).
  rewrite wrap_shl, Z.shiftr_div_pow2, Z.shiftl_mul_pow2 by lia. replace (w - (w - n)) with n by lia.
  pose proof (Z.mod_pos_bound y (2 ^ n) ltac:(apply Z.pow_pos_nonneg; lia)).
  assert (2 ^ (w - n) * 2 ^ n = 2 ^ w) by (rewrite <- Z.pow_add_r by lia; f_equal; lia).
  rewrite Z.mod_small by nia. nia.
Qed.

(** * Rounded shift of a product *)

(** The bit below the cut rounds to nearest. *)
Lemma round_shift V n : 0 < n -> V / 2 ^ n + (V / 2 ^ (n - 1)) mod 2 = (V + 2 ^ (n - 1)) / 2 ^ n.
Proof.
  intros Hn. assert (P : 0 < 2 ^ (n - 1)) by (apply Z.pow_pos_nonneg; lia).
  replace (2 ^ n) with (2 ^ (n - 1) * 2) by (rewrite Z.mul_comm, <- Z.pow_succ_r by lia; f_equal; lia).
  rewrite <- !Z.div_div by lia.
  replace ((V + 2 ^ (n - 1)) / 2 ^ (n - 1)) with (V / 2 ^ (n - 1) + 1).
  - set (y := V / 2 ^ (n - 1)). clearbody y. Z.div_mod_to_equations. lia.
  - rewrite <- (Z.mul_1_l (2 ^ (n - 1))) at 2. rewrite Z.div_add by lia. reflexivity.
Qed.

(** The rounding bit of a product of scalars, and the room to add it. *)
Lemma round_bit V shift : 0 <= V <= (secp_n - 1) * (secp_n - 1) -> 256 <= shift <= 512 -> exists f,
  (V / 2 ^ (shift - 1)) mod 2 = b2z f /\
  V / 2 ^ shift + b2z f * 2 ^ 0 = (V + 2 ^ (shift - 1)) / 2 ^ shift /\
  0 <= V / 2 ^ shift < 2 ^ 256 /\ V / 2 ^ shift + b2z f * 2 ^ 0 < 2 ^ 256.
Proof.
  intros HV Hs. exists (Z.odd (V / 2 ^ (shift - 1))). set (f := Z.odd _).
  assert (Ef : (V / 2 ^ (shift - 1)) mod 2 = b2z f) by apply Zmod_odd.
  pose proof (round_shift V shift ltac:(lia)) as R. rewrite Ef in R.
  assert (0 <= V / 2 ^ shift < 2 ^ 256 - 1).
  { assert (2 ^ 256 <= 2 ^ shift) by (apply Z.pow_le_mono_r; lia).
    split; [apply Z.div_pos; lia | apply Z.div_lt_upper_bound; [lia |]]. unfold secp_n in *. nia. }
  assert (0 <= b2z f <= 1) by (destruct f; cbn [b2z]; lia). rewrite Z.mul_1_r. repeat split; lia || assumption.
Qed.

(** Word [k] of a 512-bit product shifted right by [w * q + s]: zero from
    [2^512] on, and nothing to fill in from above the last word. *)
Lemma shifted_word w l q s k : 0 < w -> limbs_lt w l -> w * Z.of_nat (length l) = 512 -> 0 <= q -> 0 <= s < w -> 0 <= k ->
  (if w * q + s <? 512 - w * k then
     (l.[Z.to_nat (k + q)] >> s)
     .| (if (w * q + s <? 512 - w - w * k) && z2b s then (l.[Z.to_nat (k + 1 + q)] << (w - s)) mod 2 ^ w else 0)
   else 0) = (limbs_val w l / 2 ^ (w * q + s + w * k)) mod 2 ^ w.
Proof.
  intros Hw F L Hq Hs Hk. pose proof (limbs_val_bound w l ltac:(lia) F) as B. rewrite L in B.
  assert (Top : forall e, 512 <= e -> limbs_val w l / 2 ^ e = 0).
  { intros e He. apply Z.div_small. split; [lia |]. apply Z.lt_le_trans with (2 ^ 512); [lia | apply Z.pow_le_mono_r; lia]. }
  destruct (Z.ltb_spec (w * q + s) (512 - w * k)) as [H1 | H1]; [| now rewrite Top by lia].
  replace (w * q + s + w * k) with (w * (k + q) + s) by lia.
  replace (k + 1 + q) with (k + q + 1) by lia.
  destruct (Z.ltb_spec (w * q + s) (512 - w - w * k)) as [H2 | H2]; cbn [andb].
  - destruct (Z.eqb_spec s 0) as [-> | Hz]; unfold z2b.
    + cbn [Z.eqb negb]. rewrite Z.lor_0_r, Z.shiftr_0_r, Z.add_0_r, (word_of_val w), Z2Nat.id by (assumption || nia). reflexivity.
    + rewrite (proj2 (Z.eqb_neq s 0) Hz). cbn [negb]. apply word_across; (assumption || nia).
  - assert (Hlen : k + q + 1 = Z.of_nat (length l)) by nia.
    assert (B' : 0 <= limbs_val w l / 2 ^ (w * (k + q)) < 2 ^ w)
      by (apply div_lt; [nia | lia |]; replace (w * (k + q) + w) with 512 by nia; exact B).
    assert (B2 := div_lt (limbs_val w l / 2 ^ (w * (k + q))) s (w - s) ltac:(lia) ltac:(lia)).
    replace (s + (w - s)) with w in B2 by lia. specialize (B2 B').
    rewrite Z.lor_0_r, (word_of_val w), Z2Nat.id, Z.shiftr_div_pow2, (Z.mod_small _ (2 ^ w) B') by (assumption || nia).
    rewrite div_div_pow in * by nia. symmetry. apply Z.mod_small.
    assert (2 ^ (w - s) <= 2 ^ w) by (apply Z.pow_le_mono_r; lia). lia.
Qed.
