(* ===== verification/ScalarVal.v ===== *)
(** The scalar laws from facts about integers: what a representation proves of
    its code, as equations between scalars, and the laws of the interface that
    follow from them for every representation. *)

From Stdlib Require Import ZArith Lia List Bool.
From S2P Require Import Prelude Limbs ScalarSpec ScalarWords.
Import ListNotations.
Open Scope Z_scope.

(** [swf a]: the words of [a] are in range; [sval a] the integer they make up;
    [sof v] the words of an integer. *)
Class ScalarVal (I : ScalarImpl) : Type := {
  swf : scalar -> Prop;
  sval : scalar -> Z;
  sof : Z -> scalar;
  swf_bound : forall a, swf a -> 0 <= sval a < 2 ^ 256;
  swf_sof : forall v, swf (sof v);
  sval_sof : forall v, 0 <= v < 2 ^ 256 -> sval (sof v) = v;
  sof_sval : forall a, swf a -> a = sof (sval a);
  val_const : forall d7 d6 d5 d4 d3 d2 d1 d0, limbs_lt 32 [d0; d1; d2; d3; d4; d5; d6; d7] ->
    sc_const d7 d6 d5 d4 d3 d2 d1 d0 = sof (limbs_val 32 [d0; d1; d2; d3; d4; d5; d6; d7]);
  val_d0 : forall a, swf a -> sc_d0 a mod 2 = sval a mod 2;
  val_clear : sc_clear = sof 0;
  val_set_int : forall v, 0 <= v < 2 ^ 32 -> sc_set_int v = sof v;
  val_get_bits : forall a offset count, swf a -> 0 <= offset -> 0 < count < 32 ->
    offset + count <= 256 -> (offset + count - 1) / 32 = offset / 32 ->
    sc_get_bits a offset count = (sval a / 2 ^ offset) mod 2 ^ count;
  val_get_bits_var : forall a offset count, swf a -> 0 <= offset -> 0 < count < 32 ->
    offset + count <= 256 -> sc_get_bits_var a offset count = (sval a / 2 ^ offset) mod 2 ^ count;
  val_set_b32 : forall b, limbs_lt 8 b -> length b = 32%nat ->
    sc_set_b32 b = (sof (be_val b mod secp_n), b2z (secp_n <=? be_val b));
  val_get_b32 : forall a, swf a -> sc_get_b32 a = be_bytes 32 (sval a);
  val_add : forall a b, swf a -> sval a < secp_n -> swf b -> sval b < secp_n ->
    sc_add a b = (sof ((sval a + sval b) mod secp_n), b2z (secp_n <=? sval a + sval b));
  val_cadd_bit : forall a bit flag, swf a -> 0 <= bit < 256 -> sval a + b2z flag * 2 ^ bit < 2 ^ 256 ->
    sc_cadd_bit a bit (b2z flag) = sof (sval a + b2z flag * 2 ^ bit);
  val_mul : forall a b, swf a -> swf b -> sc_mul a b = sof ((sval a * sval b) mod secp_n);
  val_sqr : forall a, swf a -> sc_sqr a = sof ((sval a * sval a) mod secp_n);
  val_shr_int : forall a n, swf a -> 0 < n < 16 ->
    sc_shr_int a n = (sof (sval a / 2 ^ n), sval a mod 2 ^ n);
  val_negate : forall a, swf a -> sval a < secp_n -> sc_negate a = sof ((- sval a) mod secp_n);
  val_is_zero : forall a, swf a -> sc_is_zero a = b2z (sval a =? 0);
  val_is_one : forall a, swf a -> sc_is_one a = b2z (sval a =? 1);
  val_is_high : forall a, swf a -> sc_is_high a = b2z (secp_n / 2 <? sval a);
  val_cond_negate : forall a flag, swf a -> sval a < secp_n ->
    sc_cond_negate a (b2z flag) = if flag then (sof ((- sval a) mod secp_n), -1) else (a, 1);
  val_eq : forall a b, swf a -> swf b -> sc_eq a b = b2z (sval a =? sval b);
  val_split_128 : forall a, swf a ->
    sc_split_128 a = (sof (sval a mod 2 ^ 128), sof (sval a / 2 ^ 128));
  val_mul_shift_var : forall a b shift, swf a -> sval a < secp_n -> swf b -> sval b < secp_n ->
    256 <= shift <= 512 ->
    sc_mul_shift_var a b shift = sof ((sval a * sval b + 2 ^ (shift - 1)) / 2 ^ shift)
}.

Section Laws.
Context {I : ScalarImpl} (V : ScalarVal I).

(** The invariant of a scalar: reduced modulo the order. *)
Definition reduced (a : scalar) : Prop := swf a /\ sval a < secp_n.

Lemma reduced_range a : reduced a -> 0 <= sval a < secp_n.
Proof. intros [H Hn]. pose proof (swf_bound a H). lia. Qed.

Lemma reduced_inj a b : reduced a -> reduced b -> sval a = sval b -> a = b.
Proof. intros [Ha _] [Hb _] E. rewrite (sof_sval a Ha), (sof_sval b Hb), E. reflexivity. Qed.

Lemma reduced_sof v : 0 <= v < secp_n -> reduced (sof v) /\ sval (sof v) = v.
Proof.
  intros H. unfold reduced. rewrite sval_sof by (unfold secp_n in *; lia).
  split; [split; [apply swf_sof | lia] | reflexivity].
Qed.

Lemma reduced_mod v : reduced (sof (v mod secp_n)) /\ sval (sof (v mod secp_n)) = v mod secp_n.
Proof. apply reduced_sof, mod_n_bound. Qed.

Lemma cadd_law a bit flag : reduced a -> 0 <= bit < 256 -> sval a + b2z flag * 2 ^ bit < secp_n ->
  reduced (sc_cadd_bit a bit (b2z flag)) /\ sval (sc_cadd_bit a bit (b2z flag)) = sval a + b2z flag * 2 ^ bit.
Proof.
  intros Ha Hb Hv. pose proof (reduced_range a Ha).
  assert (0 <= b2z flag * 2 ^ bit) by (destruct flag; cbn [b2z]; pose proof (Z.pow_pos_nonneg 2 bit); lia).
  rewrite val_cadd_bit; [now apply reduced_sof; lia | apply Ha | exact Hb | unfold secp_n in *; lia].
Qed.

Lemma shr_law a n : reduced a -> 0 < n < 16 ->
  reduced (fst (sc_shr_int a n)) /\ sval (fst (sc_shr_int a n)) = sval a / 2 ^ n /\
  snd (sc_shr_int a n) = sval a mod 2 ^ n.
Proof.
  intros Ha Hn. pose proof (reduced_range a Ha). rewrite val_shr_int by (apply Ha || exact Hn).
  cbn [fst snd]. assert (0 < 2 ^ n) by (apply Z.pow_pos_nonneg; lia).
  destruct (reduced_sof (sval a / 2 ^ n)); [| auto].
  split; [apply Z.div_pos; lia |]. apply Z.le_lt_trans with (sval a); [| lia].
  apply Z.div_le_upper_bound; nia.
Qed.

Lemma split_law a : reduced a ->
  reduced (fst (sc_split_128 a)) /\ sval (fst (sc_split_128 a)) = sval a mod 2 ^ 128 /\
  reduced (snd (sc_split_128 a)) /\ sval (snd (sc_split_128 a)) = sval a / 2 ^ 128.
Proof.
  intros [H _]. pose proof (swf_bound a H). rewrite val_split_128 by exact H. cbn [fst snd].
  pose proof (Z.mod_pos_bound (sval a) (2 ^ 128) ltac:(lia)).
  assert (0 <= sval a / 2 ^ 128 < 2 ^ 128) by (split; [apply Z.div_pos | apply Z.div_lt_upper_bound]; lia).
  destruct (reduced_sof (sval a mod 2 ^ 128)); [unfold secp_n; lia |].
  destruct (reduced_sof (sval a / 2 ^ 128)); [unfold secp_n; lia |]. auto.
Qed.

Lemma mul_shift_law a b shift : reduced a -> reduced b -> 256 <= shift <= 512 ->
  reduced (sc_mul_shift_var a b shift) /\
  sval (sc_mul_shift_var a b shift) = (sval a * sval b + 2 ^ (shift - 1)) / 2 ^ shift.
Proof.
  intros Ha Hb Hs. rewrite val_mul_shift_var by (apply Ha || apply Hb || exact Hs). apply reduced_sof.
  pose proof (reduced_range a Ha). pose proof (reduced_range b Hb).
  assert (2 ^ 256 <= 2 ^ shift) by (apply Z.pow_le_mono_r; lia).
  assert (E : 2 ^ shift = 2 * 2 ^ (shift - 1)) by (rewrite <- Z.pow_succ_r by lia; f_equal; lia).
  split; [apply Z.div_pos; nia | apply Z.div_lt_upper_bound; [lia |]].
  assert (sval a * sval b <= (secp_n - 1) * (secp_n - 1)) by nia. unfold secp_n in *. nia.
Qed.

Lemma const_law d7 d6 d5 d4 d3 d2 d1 d0 : limbs_lt 32 [d0; d1; d2; d3; d4; d5; d6; d7] ->
  let v := limbs_val 32 [d0; d1; d2; d3; d4; d5; d6; d7] in v < secp_n ->
  reduced (sc_const d7 d6 d5 d4 d3 d2 d1 d0) /\ sval (sc_const d7 d6 d5 d4 d3 d2 d1 d0) = v.
Proof.
  intros H v Hv. rewrite val_const by exact H. apply reduced_sof. split; [| exact Hv].
  exact (proj1 (limbs_val_bound 32 _ ltac:(lia) H)).
Qed.

(** An operation whose result is the residue of an integer, with a flag. *)
Lemma residue_law (r : scalar * Z) v f : r = (sof (v mod secp_n), f) ->
  reduced (fst r) /\ sval (fst r) = v mod secp_n /\ snd r = f.
Proof. intros ->. destruct (reduced_mod v). auto. Qed.

Definition laws_of_sval : ScalarLaws I.
Proof.
  refine {| sok := reduced; sv := sval |}.
  - exact reduced_range.
  - exact reduced_inj.
  - exact const_law.
  - intros a [H _]. now apply val_d0.
  - rewrite val_clear. now apply reduced_sof.
  - intros v H. rewrite val_set_int by exact H. apply reduced_sof. unfold secp_n; lia.
  - intros a o c [H _]. now apply val_get_bits.
  - intros a o c [H _]. now apply val_get_bits_var.
  - intros b H L. now apply residue_law, val_set_b32.
  - intros a [H _]. now apply val_get_b32.
  - intros a b [Ha Na] [Hb Nb]. now apply residue_law, val_add.
  - exact cadd_law.
  - intros a b [Ha _] [Hb _]. rewrite val_mul by assumption. apply reduced_mod.
  - intros a [Ha _]. rewrite val_sqr by assumption. apply reduced_mod.
  - exact shr_law.
  - intros a [Ha Na]. rewrite val_negate by assumption. apply reduced_mod.
  - intros a [H _]. now apply val_is_zero.
  - intros a [H _]. now apply val_is_one.
  - intros a [H _]. now apply val_is_high.
  - intros a [] [Ha Na].
    + now apply residue_law, (val_cond_negate a true).
    + rewrite (val_cond_negate a false) by assumption. repeat split; assumption.
  - intros a b [Ha _] [Hb _]. now apply val_eq.
  - exact split_law.
  - exact mul_shift_law.
Defined.
End Laws.
