(* ===== verification/ScalarLow.v ===== *)
(** The scalar of [scalar_low.h] and [scalar_low_impl.h], which the exhaustive
    tests compile instead of the others: one [uint32_t] modulo a small group
    order, and the versions of the inverse and of the lambda split that
    [scalar_impl.h] has for it. *)

From Stdlib Require Import ZArith Lia List Bool.
From S2P Require Import Prelude Limbs.
Import ListNotations.
Open Scope Z_scope.
Open Scope c_scope.

Section Low.
(** The macros of the test program. *)
Variables EXHAUSTIVE_TEST_ORDER EXHAUSTIVE_TEST_LAMBDA : Z.

Definition secp256k1_scalar := Z.

Definition secp256k1_scalar_is_even (a : secp256k1_scalar) : Z := b2z (negb (z2b (a .& 1))).

Definition secp256k1_scalar_clear : secp256k1_scalar := 0.

Definition secp256k1_scalar_set_int (v : Z) : secp256k1_scalar := v.

Definition secp256k1_scalar_get_bits (a : secp256k1_scalar) (offset count : Z) : Z :=
  if offset <? 32 then (a >> offset) .& (u32 (1 << count) - 1) else 0.

Definition secp256k1_scalar_get_bits_var (a : secp256k1_scalar) (offset count : Z) : Z :=
  secp256k1_scalar_get_bits a offset count.

Definition secp256k1_scalar_check_overflow (a : secp256k1_scalar) : Z := b2z (a >=? EXHAUSTIVE_TEST_ORDER).

(** Returns the sum and the return value. *)
Definition secp256k1_scalar_add (a b : secp256k1_scalar) : secp256k1_scalar * Z :=
  let r := u32 (a + b) mod EXHAUSTIVE_TEST_ORDER in
  (r, b2z (r <? b)).

Definition secp256k1_scalar_cadd_bit (r : secp256k1_scalar) (bit flag : Z) : secp256k1_scalar :=
  if z2b flag && (bit <? 32) then u32 (r + (1 << bit)) else r.

(** [for (i = 0; i < 32; i++)], over the bytes. *)
Fixpoint set_b32_loop (base : Z) (b32 : list Z) (r : Z) : Z :=
  match b32 with
  | [] => r
  | b :: b32 => set_b32_loop base b32 (u32 (u32 (r * base) + b) mod EXHAUSTIVE_TEST_ORDER)
  end.

(** Returns the scalar and [*overflow]. *)
Definition secp256k1_scalar_set_b32 (b32 : list Z) : secp256k1_scalar * Z :=
  let base := 0x100 mod EXHAUSTIVE_TEST_ORDER in
  (set_b32_loop base (firstn 32 b32) 0, 0).

Definition secp256k1_scalar_get_b32 (a : secp256k1_scalar) : list Z :=
  repeat 0 28 ++ [u8 (a >> 24); u8 (a >> 16); u8 (a >> 8); u8 a].

Definition secp256k1_scalar_is_zero (a : secp256k1_scalar) : Z := b2z (a =? 0).

Definition secp256k1_scalar_negate (a : secp256k1_scalar) : secp256k1_scalar :=
  if a =? 0 then 0 else u32 (EXHAUSTIVE_TEST_ORDER - a).

Definition secp256k1_scalar_is_one (a : secp256k1_scalar) : Z := b2z (a =? 1).

Definition secp256k1_scalar_is_high (a : secp256k1_scalar) : Z := b2z (a >? EXHAUSTIVE_TEST_ORDER / 2).

(** Returns the scalar and the return value. *)
Definition secp256k1_scalar_cond_negate (r : secp256k1_scalar) (flag : Z) : secp256k1_scalar * Z :=
  (if z2b flag then secp256k1_scalar_negate r else r, if z2b flag then -1 else 1).

Definition secp256k1_scalar_mul (a b : secp256k1_scalar) : secp256k1_scalar :=
  u32 (a * b) mod EXHAUSTIVE_TEST_ORDER.

(** Returns the shifted scalar and the bits shifted off. *)
Definition secp256k1_scalar_shr_int (r : secp256k1_scalar) (n : Z) : secp256k1_scalar * Z :=
  (r >> n, r .& ((1 << n) - 1)).

Definition secp256k1_scalar_sqr (a : secp256k1_scalar) : secp256k1_scalar :=
  u32 (a * a) mod EXHAUSTIVE_TEST_ORDER.

(** Returns [r1] and [r2]. *)
Definition secp256k1_scalar_split_128 (a : secp256k1_scalar) : secp256k1_scalar * secp256k1_scalar := (a, 0).

Definition secp256k1_scalar_eq (a b : secp256k1_scalar) : Z := b2z (a =? b).

(** [for (i = 0; i < EXHAUSTIVE_TEST_ORDER; i++)], with [k] values of [i] left. *)
Fixpoint inverse_loop (k : nat) (i : Z) (x r : secp256k1_scalar) : secp256k1_scalar :=
  match k with
  | O => r
  | S k' => inverse_loop k' (i + 1) x (if u32 (i * x) mod EXHAUSTIVE_TEST_ORDER =? 1 then i else r)
  end.

Definition secp256k1_scalar_inverse (x : secp256k1_scalar) : secp256k1_scalar :=
  inverse_loop (Z.to_nat EXHAUSTIVE_TEST_ORDER) 0 x 0.

(** Returns [r1] and [r2]. *)
Definition secp256k1_scalar_split_lambda (a : secp256k1_scalar) : secp256k1_scalar * secp256k1_scalar :=
  let r2 := u32 (a + 5) mod EXHAUSTIVE_TEST_ORDER in
  let r1 := u32 (a + u32 (u32 (EXHAUSTIVE_TEST_ORDER - r2) * EXHAUSTIVE_TEST_LAMBDA)) mod EXHAUSTIVE_TEST_ORDER in
  (r1, r2).

(** * Correctness *)

Local Abbreviation q := EXHAUSTIVE_TEST_ORDER.

(** Products of scalars fit 32 bits. *)
Hypothesis q_small : 1 < q < 2 ^ 15.

Lemma low_mod v : 0 <= v mod q < q.
Proof. apply Z.mod_pos_bound. lia. Qed.

Lemma low_add a b : 0 <= a < q -> 0 <= b < q ->
  secp256k1_scalar_add a b = ((a + b) mod q, b2z (q <=? a + b)).
Proof.
  intros Ha Hb. unfold secp256k1_scalar_add. rewrite u32_id by lia. cbv zeta. do 2 f_equal.
  destruct (Z.leb_spec q (a + b)).
  - rewrite <- (mod_of_reduced (a + b) (a + b - q) 1 q) by lia. lia.
  - rewrite Z.mod_small by lia. lia.
Qed.

Lemma low_mul a b : 0 <= a < q -> 0 <= b < q -> secp256k1_scalar_mul a b = (a * b) mod q.
Proof. intros Ha Hb. unfold secp256k1_scalar_mul. rewrite u32_id by nia. reflexivity. Qed.

Lemma low_negate a : 0 <= a < q -> secp256k1_scalar_negate a = (- a) mod q.
Proof.
  intros Ha. unfold secp256k1_scalar_negate. destruct (Z.eqb_spec a 0) as [-> | N]; [reflexivity |].
  rewrite u32_id by lia. apply (mod_of_reduced _ _ (-1)); lia.
Qed.

Lemma low_set_b32 b : limbs_lt 8 b -> forall r, 0 <= r < q ->
  set_b32_loop (256 mod q) b r = (r * 2 ^ (8 * Z.of_nat (length b)) + be_val b) mod q.
Proof.
  induction 1 as [| x b Hx Hb IH]; intros r Hr; cbn [set_b32_loop length].
  - unfold be_val. cbn. rewrite Z.mul_1_r, Z.add_0_r. symmetry. now apply Z.mod_small.
  - pose proof (low_mod 256) as H2. rewrite (u32_id (r * _)), u32_id by nia. rewrite IH by apply low_mod.
    assert (E : be_val (x :: b) = x * 2 ^ (8 * Z.of_nat (length b)) + be_val b).
    { unfold be_val. cbn [rev]. rewrite limbs_val_app, length_rev by lia. cbn [limbs_val]. ring. }
    rewrite E. replace (8 * Z.of_nat (S (length b))) with (8 + 8 * Z.of_nat (length b)) by lia. rewrite Z.pow_add_r by lia.
    set (P := 2 ^ (8 * Z.of_nat (length b))). change (2 ^ 8) with 256.
    pose proof (Z.div_mod (r * (256 mod q) + x) q ltac:(lia)). pose proof (Z.div_mod 256 q ltac:(lia)).
    set (m := 256 mod q) in *. set (n := (r * m + x) mod q) in *. set (k := (r * m + x) / q) in *. set (j := 256 / q) in *.
    apply (mod_eq_of _ _ (- (k + r * j) * P)); [lia |]. replace n with (r * m + x - q * k) by lia. replace 256 with (q * j + m) by lia. ring.
Qed.

Lemma low_get_b32 a : 0 <= a < q -> secp256k1_scalar_get_b32 a = be_bytes 32 a.
Proof.
  intros Ha. unfold secp256k1_scalar_get_b32, u8. rewrite !Z.shiftr_div_pow2 by lia.
  set (l := repeat 0 28 ++ _). assert (F : limbs_lt 8 l).
  { apply Forall_app. split; [repeat constructor; lia |]. repeat constructor; apply Z.mod_pos_bound; lia. }
  rewrite <- (be_bytes_val l F). change (length l) with 32%nat. f_equal.
  unfold l, be_val. cbn [repeat app rev limbs_val]. Z.div_mod_to_equations. lia.
Qed.

Lemma inverse_loop_ok x k : 0 <= x < q -> forall i r, 0 <= i -> i + Z.of_nat k = q ->
  (forall j, 0 <= j < i -> (j * x) mod q = 1 -> j = r) -> (r = 0 \/ (r * x) mod q = 1) -> (forall j j', 0 <= j < q -> 0 <= j' < q -> (j * x) mod q = 1 -> (j' * x) mod q = 1 -> j = j') ->
  let v := inverse_loop k i x r in (forall j, 0 <= j < q -> (j * x) mod q = 1 -> j = v) /\ (v = 0 \/ (v * x) mod q = 1).
Proof.
  intros Hx. induction k as [| k IH]; intros i r Hi Hk HJ HR U; cbn [inverse_loop]; [split; [intros j Hj; apply HJ; lia | exact HR] |].
  rewrite u32_id by nia. destruct (Z.eqb_spec ((i * x) mod q) 1) as [E | E]; refine (IH (i + 1) _ ltac:(lia) ltac:(lia) _ _ U).
  - intros j Hj E'. apply U; (assumption || lia).
  - now right.
  - intros j Hj E'. destruct (Z.eq_dec j i) as [-> | Nj]; [contradiction | apply HJ; lia || assumption].
  - exact HR.
Qed.

(** The only inverse there is. *)
Lemma low_inverse x : Z.gcd x q = 1 -> 0 < x < q -> 0 < secp256k1_scalar_inverse x < q /\ (secp256k1_scalar_inverse x * x) mod q = 1.
Proof.
  intros P Hx. destruct (Z.gcd_bezout x q 1 P) as (a & b & Eb).
  assert (U : forall j j', 0 <= j < q -> 0 <= j' < q -> (j * x) mod q = 1 -> (j' * x) mod q = 1 -> j = j').
  { intros j j' Hj Hj' E E'. pose proof (Z.div_mod (j * x) q ltac:(lia)). pose proof (Z.div_mod (j' * x) q ltac:(lia)).
    assert (D : j - j' = (a * (j * x / q - j' * x / q) + (j - j') * b) * q).
    { transitivity ((j - j') * (a * x + b * q)); [rewrite Eb; ring |].
      transitivity (a * ((j - j') * x) + (j - j') * b * q); [ring |].
      replace ((j - j') * x) with ((j * x / q - j' * x / q) * q) by lia. ring. }
    set (m := a * _ + _) in D. assert (m = 0) by nia. lia. }
  destruct (inverse_loop_ok x (Z.to_nat q) ltac:(lia) 0 0 ltac:(lia) ltac:(lia) ltac:(lia) ltac:(auto) U) as [HJ HR].
  fold (secp256k1_scalar_inverse x) in *. set (v := secp256k1_scalar_inverse x) in *.
  assert (G : exists j, 0 <= j < q /\ (j * x) mod q = 1).
  { exists (a mod q). split; [apply low_mod |].
    rewrite Z.mul_mod_idemp_l by lia. replace (a * x) with (1 + (- b) * q) by lia. rewrite Z.mod_add by lia. apply Z.mod_small. lia. }
  destruct G as (j & Hj & Ej). rewrite <- (HJ j Hj Ej). split; [| exact Ej].
  assert (j <> 0) by (intros ->; rewrite Z.mul_0_l, Z.mod_0_l in Ej; lia). lia.
Qed.

Lemma low_split_lambda a : 0 <= EXHAUSTIVE_TEST_LAMBDA < q -> 0 <= a < q ->
  let '(r1, r2) := secp256k1_scalar_split_lambda a in (r1 + r2 * EXHAUSTIVE_TEST_LAMBDA) mod q = a mod q.
Proof.
  intros Hl Ha. unfold secp256k1_scalar_split_lambda. rewrite (u32_id (a + 5)) by lia. set (r2 := (a + 5) mod q).
  pose proof (low_mod (a + 5) : 0 <= r2 < q) as R2. rewrite (u32_id (q - r2)), (u32_id (_ * _)), u32_id by nia.
  rewrite Z.add_mod_idemp_l by lia. apply (mod_eq_of _ _ EXHAUSTIVE_TEST_LAMBDA); [lia | ring].
Qed.
End Low.
