(* ===== verification/ScalarGen.v ===== *)
(** The scalar code of [scalar_impl.h], over any representation: inversion by an
    addition chain, parity and the decomposition along the endomorphism. *)

From Stdlib Require Import ZArith Lia List Bool Zmod Field.
From S2P Require Import Prelude Limbs Primes Fp ScalarSpec.
Import ListNotations.
Open Scope Z_scope.
Open Scope c_scope.

Section Code.
Context {I : ScalarImpl}.

(** [for (i = 0; i < n; i++) secp256k1_scalar_sqr(&x, &x)]. *)
Definition sc_sqr_n (n : nat) (x : scalar) : scalar := Nat.iter n sc_sqr x.

(** The powers [x^(2^N - 1)]; the continuation takes the ones used later. *)
Definition scalar_inverse_powers (x : scalar)
  (k : scalar -> scalar -> scalar -> scalar -> scalar -> scalar -> scalar) : scalar :=
  let x2 := sc_sqr x in let x2 := sc_mul x2 x in
  let x3 := sc_sqr x2 in let x3 := sc_mul x3 x in
  let x4 := sc_sqr x3 in let x4 := sc_mul x4 x in
  let x6 := sc_sqr x4 in let x6 := sc_sqr x6 in let x6 := sc_mul x6 x2 in
  let x7 := sc_sqr x6 in let x7 := sc_mul x7 x in
  let x8 := sc_sqr x7 in let x8 := sc_mul x8 x in
  let x15 := sc_sqr x8 in let x15 := sc_sqr_n 6 x15 in let x15 := sc_mul x15 x7 in
  let x30 := sc_sqr x15 in let x30 := sc_sqr_n 14 x30 in let x30 := sc_mul x30 x15 in
  let x60 := sc_sqr x30 in let x60 := sc_sqr_n 29 x60 in let x60 := sc_mul x60 x30 in
  let x120 := sc_sqr x60 in let x120 := sc_sqr_n 59 x120 in let x120 := sc_mul x120 x60 in
  let x127 := sc_sqr x120 in let x127 := sc_sqr_n 6 x127 in let x127 := sc_mul x127 x7 in
  k x2 x3 x4 x6 x8 x127.

(** The final result from [t = x127]. *)
Definition scalar_inverse_accumulate (x x2 x3 x4 x6 x8 t : scalar) : scalar :=
  let t := sc_sqr_n 2 t in let t := sc_mul t x in
  let t := sc_sqr_n 4 t in let t := sc_mul t x3 in
  let t := sc_sqr_n 2 t in let t := sc_mul t x in
  let t := sc_sqr_n 2 t in let t := sc_mul t x in
  let t := sc_sqr_n 2 t in let t := sc_mul t x in
  let t := sc_sqr_n 4 t in let t := sc_mul t x3 in
  let t := sc_sqr_n 3 t in let t := sc_mul t x2 in
  let t := sc_sqr_n 4 t in let t := sc_mul t x3 in
  let t := sc_sqr_n 5 t in let t := sc_mul t x3 in
  let t := sc_sqr_n 4 t in let t := sc_mul t x2 in
  let t := sc_sqr_n 2 t in let t := sc_mul t x in
  let t := sc_sqr_n 2 t in let t := sc_mul t x in
  let t := sc_sqr_n 5 t in let t := sc_mul t x4 in
  let t := sc_sqr_n 2 t in let t := sc_mul t x in
  let t := sc_sqr_n 3 t in let t := sc_mul t x in
  let t := sc_sqr_n 4 t in let t := sc_mul t x in
  let t := sc_sqr_n 2 t in let t := sc_mul t x in
  let t := sc_sqr_n 10 t in let t := sc_mul t x3 in
  let t := sc_sqr_n 4 t in let t := sc_mul t x3 in
  let t := sc_sqr_n 9 t in let t := sc_mul t x8 in
  let t := sc_sqr_n 2 t in let t := sc_mul t x in
  let t := sc_sqr_n 3 t in let t := sc_mul t x in
  let t := sc_sqr_n 3 t in let t := sc_mul t x in
  let t := sc_sqr_n 5 t in let t := sc_mul t x4 in
  let t := sc_sqr_n 2 t in let t := sc_mul t x in
  let t := sc_sqr_n 5 t in let t := sc_mul t x2 in
  let t := sc_sqr_n 4 t in let t := sc_mul t x2 in
  let t := sc_sqr_n 2 t in let t := sc_mul t x in
  let t := sc_sqr_n 8 t in let t := sc_mul t x2 in
  let t := sc_sqr_n 3 t in let t := sc_mul t x2 in
  let t := sc_sqr_n 3 t in let t := sc_mul t x in
  let t := sc_sqr_n 6 t in let t := sc_mul t x in
  let t := sc_sqr_n 8 t in
  sc_mul t x6.

Definition secp256k1_scalar_inverse (x : scalar) : scalar :=
  scalar_inverse_powers x (fun x2 x3 x4 x6 x8 x127 => scalar_inverse_accumulate x x2 x3 x4 x6 x8 x127).

Definition secp256k1_scalar_is_even (a : scalar) : Z := b2z (negb (z2b (sc_d0 a .& 1))).

(** [USE_SCALAR_INV_BUILTIN]. *)
Definition secp256k1_scalar_inverse_var (x : scalar) : scalar := secp256k1_scalar_inverse x.

Definition minus_lambda : scalar := sc_const
  0xAC9C52B3 0x3FA3CF1F 0x5AD9E3FD 0x77ED9BA4 0xA880B9FC 0x8EC739C2 0xE0CFC810 0xB51283CF.
Definition minus_b1 : scalar := sc_const
  0x00000000 0x00000000 0x00000000 0x00000000 0xE4437ED6 0x010E8828 0x6F547FA9 0x0ABFE4C3.
Definition minus_b2 : scalar := sc_const
  0xFFFFFFFF 0xFFFFFFFF 0xFFFFFFFF 0xFFFFFFFE 0x8A280AC5 0x0774346D 0xD765CDA8 0x3DB1562C.
Definition g1 : scalar := sc_const
  0x00000000 0x00000000 0x00000000 0x00003086 0xD221A7D4 0x6BCDE86C 0x90E49284 0xEB153DAB.
Definition g2 : scalar := sc_const
  0x00000000 0x00000000 0x00000000 0x0000E443 0x7ED6010E 0x88286F54 0x7FA90ABF 0xE4C42212.

(** Returns [r1] and [r2]. *)
Definition secp256k1_scalar_split_lambda (a : scalar) : scalar * scalar :=
  let c1 := sc_mul_shift_var a g1 272 in
  let c2 := sc_mul_shift_var a g2 272 in
  let c1 := sc_mul c1 minus_b1 in
  let c2 := sc_mul c2 minus_b2 in
  let r2 := fst (sc_add c1 c2) in
  let r1 := sc_mul r2 minus_lambda in
  let r1 := fst (sc_add r1 a) in
  (r1, r2).
End Code.

(** * Powers *)

Section Powers.
Context {I : ScalarImpl} {L : ScalarLaws I} (v : Fn).

(** The residue of a scalar. *)
Definition sres (a : scalar) : Fn := Fn_of_Z (sv a).

Lemma sres_mul a b : sok a -> sok b -> sok (sc_mul a b) /\ sres (sc_mul a b) = (sres a * sres b)%F.
Proof.
  intros Ha Hb. destruct (sc_mul_ok a b Ha Hb) as [H E]. split; [exact H |].
  unfold sres, Fn_of_Z. now rewrite E, Zmod.of_Z_mod, Zmod.of_Z_mul.
Qed.

Lemma sres_sqr a : sok a -> sok (sc_sqr a) /\ sres (sc_sqr a) = (sres a * sres a)%F.
Proof.
  intros Ha. destruct (sc_sqr_ok a Ha) as [H E]. split; [exact H |].
  unfold sres, Fn_of_Z. now rewrite E, Zmod.of_Z_mod, Zmod.of_Z_mul.
Qed.

Lemma sres_add a b : sok a -> sok b ->
  sok (fst (sc_add a b)) /\ sres (fst (sc_add a b)) = (sres a + sres b)%F.
Proof.
  intros Ha Hb. destruct (sc_add_ok a b Ha Hb) as (H & E & _). split; [exact H |].
  unfold sres, Fn_of_Z. now rewrite E, Zmod.of_Z_mod, Zmod.of_Z_add.
Qed.

Lemma sres_negate a : sok a -> sok (sc_negate a) /\ sres (sc_negate a) = (- sres a)%F.
Proof.
  intros Ha. destruct (sc_negate_ok a Ha) as [H E]. split; [exact H |].
  unfold sres, Fn_of_Z. now rewrite E, Zmod.of_Z_mod, Zmod.of_Z_opp.
Qed.

Lemma sres_val a z : sok a -> sres a = Fn_of_Z z -> sv a = z mod secp_n.
Proof.
  intros Ha E. apply Zmod.of_Z_inj in E. rewrite Z.mod_small in E by now apply sv_range. exact E.
Qed.

Lemma Fn_inv_unique s w : (s * w) mod secp_n = 1 -> Fn_of_Z w = Zmod.inv (Fn_of_Z s).
Proof.
  intros Hw. assert (E : (Fn_of_Z s * Fn_of_Z w = 1)%F).
  { unfold Fn_of_Z. rewrite <- Zmod.of_Z_mul. change (1%F : Fn) with (Fn_of_Z 1). apply Zmod.of_Z_inj. rewrite Hw. reflexivity. }
  assert (N : Fn_of_Z s <> 0%F).
  { intros Q. rewrite Q in E. apply (Zmod.one_neq_zero (m := secp_n)); [discriminate |]. rewrite <- E. ring. }
  transitivity (Fn_of_Z s * Fn_of_Z w / Fn_of_Z s)%F; [now field | rewrite E; now field].
Qed.

(** [x] is a scalar that stands for [v^e]. *)
Class ScPow (x : scalar) (e : Z) : Prop := sc_pow : 0 <= e /\ sok x /\ sres x = (v ^ e)%F.

Lemma scPow_base x : sok x -> sres x = v -> ScPow x 1.
Proof. intros H E. repeat split; [lia | exact H | now rewrite Zmod.pow_1_r]. Qed.

Lemma scPow_mul a b e e' : ScPow a e -> ScPow b e' -> ScPow (sc_mul a b) (e + e').
Proof.
  intros (He & Ha & Ea) (He' & Hb & Eb). destruct (sres_mul a b Ha Hb) as [H E].
  repeat split; [lia | exact H |]. now rewrite E, Ea, Eb, Zmod.pow_add_r_nonneg by lia.
Qed.

Lemma scPow_sqr a e : ScPow a e -> ScPow (sc_sqr a) (2 * e).
Proof.
  intros (He & Ha & Ea). destruct (sres_sqr a Ha) as [H E].
  repeat split; [lia | exact H |]. rewrite <- Z.add_diag. now rewrite E, Ea, Zmod.pow_add_r_nonneg by lia.
Qed.

Lemma scPow_sqr_n a n e : ScPow a e -> ScPow (sc_sqr_n n a) (2 ^ Z.of_nat n * e).
Proof.
  intros Ha. unfold sc_sqr_n. induction n as [| n IH].
  - now rewrite Z.mul_1_l.
  - rewrite Nat2Z.inj_succ, Z.pow_succ_r, <- Z.mul_assoc by lia. now apply scPow_sqr.
Qed.
End Powers.

#[export] Hint Mode ScPow + + + + - : typeclass_instances.
#[export] Hint Resolve scPow_mul scPow_sqr scPow_sqr_n : typeclass_instances.

(** One statement of an addition chain over [v]. *)
Ltac sc_pow_step v :=
  lazymatch goal with
  | |- wp (let x := ?e in @?k x) ?Q =>
      let y := fresh x in let H := fresh "H" x in let E := fresh "E" in
      eassert (ScPow v e _) as H by typeclasses eauto;
      lazymatch type of H with
      | ScPow _ _ ?n => let n' := eval vm_compute in n in change (ScPow v e n') in H
      end;
      refine (wp_let e k Q _); intros y E; rewrite <- E in H; clear E; cbv beta
  end.

Section Specs.
Context {I : ScalarImpl} {L : ScalarLaws I}.

Lemma scalar_inverse_pow a : sok a ->
  ScPow (sres a) (secp256k1_scalar_inverse a) (secp_n - 2).
Proof.
  intros Ha. set (v := sres a). pose proof (scPow_base v a Ha eq_refl).
  pattern (secp256k1_scalar_inverse a). apply wp_intro.
  cbv beta iota delta [secp256k1_scalar_inverse scalar_inverse_powers scalar_inverse_accumulate].
  repeat sc_pow_step v. wp_done.
  match goal with |- ScPow _ ?x _ => eassert (R : ScPow v x _) by typeclasses eauto end.
  match type of R with ScPow _ _ ?e =>
    replace e with (secp_n - 2) in R by (vm_compute; reflexivity) end.
  exact R.
Qed.

Lemma scalar_inverse_ok a : sok a ->
  sok (secp256k1_scalar_inverse a) /\ sres (secp256k1_scalar_inverse a) = Zmod.inv (sres a).
Proof.
  intros Ha. destruct (scalar_inverse_pow a Ha) as (_ & H & E). split; [exact H |]. rewrite E.
  destruct (Z.eq_dec (sv a) 0) as [Hz | Hz].
  - unfold sres. rewrite Hz. change (Fn_of_Z 0) with (@Zmod.zero secp_n).
    rewrite Zmod.inv_0. apply Zmod.pow_0_l. discriminate.
  - apply Zmod.fermat_inv; [| exact prime_secp_n]. apply Zmod.of_Z_nz.
    pose proof (sv_range a Ha). rewrite Z.mod_small by lia. exact Hz.
Qed.

Lemma scalar_is_even_ok a : sok a -> secp256k1_scalar_is_even a = b2z (Z.even (sv a)).
Proof.
  intros Ha. unfold secp256k1_scalar_is_even. change 1 with (Z.ones 1) at 1.
  rewrite Z.land_ones by lia. change (2 ^ 1) with 2. rewrite sc_d0_ok, Zmod_even by exact Ha.
  destruct (Z.even (sv a)); reflexivity.
Qed.

(** * Decomposition along the endomorphism *)

(** The short lattice vectors [(a1, b1)], [(a2, b2)] of the comment. *)
Definition vec_a1 : Z := 0x3086D221A7D46BCDE86C90E49284EB15.
Definition vec_b1 : Z := - 0xE4437ED6010E88286F547FA90ABFE4C3.
Definition vec_a2 : Z := 0x0114CA50F7A8E2F3F657C1108D9D44CFD8.
Definition vec_b2 : Z := 0x3086D221A7D46BCDE86C90E49284EB15.

(** The integers the rounded quotients [c1], [c2] leave. *)
Definition split_k1 (a c1 c2 : Z) : Z := a - c1 * vec_a1 - c2 * vec_a2.
Definition split_k2 (c1 c2 : Z) : Z := - (c1 * vec_b1 + c2 * vec_b2).

(** [c = round(a * g / 2^272)]. *)
Definition split_c (a g : Z) : Z := (a * g + 2 ^ 271) / 2 ^ 272.

Definition val_g1 : Z := 0x3086D221A7D46BCDE86C90E49284EB153DAB.
Definition val_g2 : Z := 0xE4437ED6010E88286F547FA90ABFE4C42212.

Lemma split_small a : 0 <= a < secp_n ->
  let c1 := split_c a val_g1 in let c2 := split_c a val_g2 in
  Z.abs (split_k1 a c1 c2) < 2 ^ 128 /\ Z.abs (split_k2 c1 c2) < 2 ^ 128.
Proof.
  intros Ha c1 c2.
  pose proof (Z.div_mod (a * val_g1 + 2 ^ 271) (2 ^ 272) ltac:(lia)) as E1.
  pose proof (Z.mod_pos_bound (a * val_g1 + 2 ^ 271) (2 ^ 272) ltac:(lia)) as B1.
  pose proof (Z.div_mod (a * val_g2 + 2 ^ 271) (2 ^ 272) ltac:(lia)) as E2.
  pose proof (Z.mod_pos_bound (a * val_g2 + 2 ^ 271) (2 ^ 272) ltac:(lia)) as B2.
  fold (split_c a val_g1) in E1. fold (split_c a val_g2) in E2. fold c1 in E1. fold c2 in E2.
  clearbody c1 c2. revert E1 E2 B1 B2.
  generalize ((a * val_g1 + 2 ^ 271) mod 2 ^ 272) ((a * val_g2 + 2 ^ 271) mod 2 ^ 272).
  intros r1 r2 E1 E2 B1 B2.
  unfold split_k1, split_k2, vec_a1, vec_a2, vec_b1, vec_b2, val_g1, val_g2, secp_n in *.
  lia.
Qed.

(** The constants of the code are the documented ones. *)
Lemma split_constants :
  (sok minus_lambda /\ sv minus_lambda = (- lambda) mod secp_n) /\
  (sok minus_b1 /\ sv minus_b1 = (- vec_b1) mod secp_n) /\
  (sok minus_b2 /\ sv minus_b2 = (- vec_b2) mod secp_n) /\
  (sok g1 /\ sv g1 = val_g1) /\ (sok g2 /\ sv g2 = val_g2).
Proof.
  assert (W : forall d7 d6 d5 d4 d3 d2 d1 d0,
    forallb (fun d => (0 <=? d) && (d <? 2 ^ 32)) [d0; d1; d2; d3; d4; d5; d6; d7] = true ->
    limbs_lt 32 [d0; d1; d2; d3; d4; d5; d6; d7]).
  { intros * H. rewrite forallb_forall in H. apply Forall_forall. intros x Hx.
    specialize (H x Hx). lia. }
  unfold minus_lambda, minus_b1, minus_b2, g1, g2.
  repeat lazymatch goal with |- _ /\ _ => split end;
    lazymatch goal with
    | |- sok _ => apply sc_const_ok; [apply W; reflexivity | reflexivity]
    | |- sv _ = _ =>
        etransitivity;
        [apply sc_const_ok; [apply W; reflexivity | reflexivity] | vm_compute; reflexivity]
    end.
Qed.

(** The vectors are in the lattice of the pairs [(x, y)] with [x + y * lambda = 0 mod n]. *)
Definition lat1 : Z := - 0x4a5ac2bf7b5f37f9f1db10d7a2a9c981.
Definition lat2 : Z := 0xfce9b1dd4eb7dd2718a2906787061b2.

Lemma lattice : vec_a1 + vec_b1 * lambda = lat1 * secp_n /\ vec_a2 + vec_b2 * lambda = lat2 * secp_n.
Proof. split; vm_compute; reflexivity. Qed.

Lemma split_lambda_ok a : sok a ->
  let c1 := split_c (sv a) val_g1 in let c2 := split_c (sv a) val_g2 in
  let '(r1, r2) := secp256k1_scalar_split_lambda a in
  sok r1 /\ sok r2 /\ sv r1 = split_k1 (sv a) c1 c2 mod secp_n /\ sv r2 = split_k2 c1 c2 mod secp_n.
Proof.
  intros Ha c1 c2. destruct split_constants as ((Ol & El) & (O1 & E1) & (O2 & E2) & (Og1 & Eg1) & (Og2 & Eg2)).
  unfold secp256k1_scalar_split_lambda.
  destruct (sc_mul_shift_var_ok a g1 272 Ha Og1 ltac:(lia)) as [Oc1 Ec1].
  destruct (sc_mul_shift_var_ok a g2 272 Ha Og2 ltac:(lia)) as [Oc2 Ec2].
  rewrite Eg1 in Ec1. rewrite Eg2 in Ec2.
  change (sv (sc_mul_shift_var a g1 272) = c1) in Ec1. change (sv (sc_mul_shift_var a g2 272) = c2) in Ec2.
  set (x1 := sc_mul_shift_var a g1 272) in *. set (x2 := sc_mul_shift_var a g2 272) in *.
  destruct (sres_mul x1 minus_b1 Oc1 O1) as [Om1 Em1]. destruct (sres_mul x2 minus_b2 Oc2 O2) as [Om2 Em2].
  destruct (sres_add _ _ Om1 Om2) as [Or2 Er2]. set (r2 := fst (sc_add _ _)) in *.
  destruct (sres_mul r2 minus_lambda Or2 Ol) as [Om Em]. destruct (sres_add _ _ Om Ha) as [Or1 Er1].
  split; [exact Or1 |]. split; [exact Or2 |].
  rewrite Em, Er2, Em1, Em2 in Er1. rewrite Em1, Em2 in Er2. unfold sres in Er1, Er2 at 2 3 4 5.
  rewrite El, E1, E2, Ec1, Ec2 in Er1. rewrite E1, E2, Ec1, Ec2 in Er2.
  unfold Fn_of_Z in Er1, Er2. repeat rewrite Zmod.of_Z_mod in Er1.
  repeat rewrite Zmod.of_Z_mod in Er2. rewrite <- !Zmod.of_Z_mul, <- !Zmod.of_Z_add in Er2.
  rewrite <- !Zmod.of_Z_mul, <- !Zmod.of_Z_add, <- !Zmod.of_Z_mul, <- !Zmod.of_Z_add in Er1.
  destruct lattice as [L1 L2]. split.
  - apply sres_val; [exact Or1 |]. unfold sres, Fn_of_Z. rewrite Er1. apply Zmod.of_Z_inj.
    apply (mod_eq_of _ _ (c1 * lat1 + c2 * lat2)); [discriminate |].
    unfold split_k1. transitivity (sv a - c1 * vec_a1 - c2 * vec_a2 + c1 * (vec_a1 + vec_b1 * lambda) + c2 * (vec_a2 + vec_b2 * lambda)); [ring |].
    rewrite L1, L2. ring.
  - apply sres_val; [exact Or2 |]. rewrite Er2. unfold Fn_of_Z, split_k2. f_equal. ring.
Qed.

Lemma split_lambda_spec a : sok a ->
  let '(r1, r2) := secp256k1_scalar_split_lambda a in
  sok r1 /\ sok r2 /\ (sv r1 + lambda * sv r2) mod secp_n = sv a /\
  exists k1 k2, Z.abs k1 < 2 ^ 128 /\ Z.abs k2 < 2 ^ 128 /\ sv r1 = k1 mod secp_n /\ sv r2 = k2 mod secp_n.
Proof.
  intros Ha. pose proof (split_lambda_ok a Ha) as S. pose proof (sv_range a Ha) as Hr.
  destruct (split_small (sv a) Hr) as [B1 B2]. destruct (secp256k1_scalar_split_lambda a) as [r1 r2].
  destruct S as (O1 & O2 & E1 & E2). set (c1 := split_c (sv a) val_g1) in *. set (c2 := split_c (sv a) val_g2) in *.
  split; [exact O1 |]. split; [exact O2 |]. split.
  - rewrite E1, E2, Z.add_mod, Z.mul_mod_idemp_r, Z.mod_mod, <- Z.add_mod by discriminate.
    rewrite <- (Z.mod_small (sv a) secp_n Hr) at 2. destruct lattice as [L1 L2].
    apply (mod_eq_of _ _ (- (c1 * lat1 + c2 * lat2))); [discriminate |]. unfold split_k1, split_k2.
    transitivity (sv a - c1 * (vec_a1 + vec_b1 * lambda) - c2 * (vec_a2 + vec_b2 * lambda)); [ring |].
    rewrite L1, L2. ring.
  - exists (split_k1 (sv a) c1 c2), (split_k2 c1 c2). auto.
Qed.
End Specs.
