(* ===== verification/Num.v ===== *)
(** Big numbers on top of GMP, [num_gmp.h] and [num_gmp_impl.h], and the code
    that uses them when the library is built with [USE_NUM_GMP]: the inverses
    with [USE_FIELD_INV_NUM] and [USE_SCALAR_INV_NUM], and the test for squares.

    GMP is a parameter.  Its functions take arrays of limbs, least significant
    first, as lists with the length they are called with, and return what they
    write; [GMPLaws] is what the manual of the library says about them. *)

From Stdlib Require Import ZArith Lia List Bool Zmod.
From S2P Require Import Prelude Limbs Fp FieldSpec FieldGen ScalarSpec ScalarGen.
Import ListNotations.
Open Scope Z_scope.
Open Scope c_scope.

(** * GMP *)

Class GMP : Type := {
  GMP_NUMB_BITS : Z;
  (** The digits in base 256, most significant first. *)
  mpn_get_str : list Z -> list Z;
  mpn_set_str : list Z -> list Z;
  (** The words, and the carry or borrow. *)
  mpn_add : list Z -> list Z -> list Z * Z;
  mpn_sub : list Z -> list Z -> list Z * Z;
  mpn_mul : list Z -> list Z -> list Z;
  mpn_cmp : list Z -> list Z -> Z;
  mpn_rshift : list Z -> Z -> list Z * Z;
  (** Quotient and remainder. *)
  mpn_tdiv_qr : list Z -> list Z -> list Z * list Z;
  (** The divisor, and the first cofactor with its signed size. *)
  mpn_gcdext : list Z -> list Z -> list Z * list Z * Z;
  mpz_import : list Z -> Z;
  mpz_jacobi : Z -> Z -> Z
}.

Class GMPLaws (E : GMP) : Prop := {
  gmp_numb_bits : GMP_NUMB_BITS = 32 \/ GMP_NUMB_BITS = 64;
  mpn_get_str_ok : forall l, limbs_lt GMP_NUMB_BITS l -> l <> [] -> last l 0 <> 0 ->
    limbs_lt 8 (mpn_get_str l) /\ be_val (mpn_get_str l) = limbs_val GMP_NUMB_BITS l /\
    8 * Z.of_nat (length (mpn_get_str l)) <= GMP_NUMB_BITS * Z.of_nat (length l) + 8;
  mpn_set_str_ok : forall s, limbs_lt 8 s -> s <> [] ->
    limbs_lt GMP_NUMB_BITS (mpn_set_str s) /\ limbs_val GMP_NUMB_BITS (mpn_set_str s) = be_val s /\
    GMP_NUMB_BITS * Z.of_nat (length (mpn_set_str s)) < 8 * Z.of_nat (length s) + GMP_NUMB_BITS;
  mpn_add_ok : forall a b, limbs_lt GMP_NUMB_BITS a -> limbs_lt GMP_NUMB_BITS b -> (0 < length b <= length a)%nat ->
    let '(r, c) := mpn_add a b in
    length r = length a /\ limbs_lt GMP_NUMB_BITS r /\ 0 <= c <= 1 /\
    limbs_val GMP_NUMB_BITS r + 2 ^ (GMP_NUMB_BITS * Z.of_nat (length a)) * c = limbs_val GMP_NUMB_BITS a + limbs_val GMP_NUMB_BITS b;
  mpn_sub_ok : forall a b, limbs_lt GMP_NUMB_BITS a -> limbs_lt GMP_NUMB_BITS b -> (0 < length b <= length a)%nat ->
    let '(r, c) := mpn_sub a b in
    length r = length a /\ limbs_lt GMP_NUMB_BITS r /\ 0 <= c <= 1 /\
    limbs_val GMP_NUMB_BITS r - 2 ^ (GMP_NUMB_BITS * Z.of_nat (length a)) * c = limbs_val GMP_NUMB_BITS a - limbs_val GMP_NUMB_BITS b;
  mpn_mul_ok : forall a b, limbs_lt GMP_NUMB_BITS a -> limbs_lt GMP_NUMB_BITS b -> (0 < length b <= length a)%nat ->
    length (mpn_mul a b) = (length a + length b)%nat /\ limbs_lt GMP_NUMB_BITS (mpn_mul a b) /\
    limbs_val GMP_NUMB_BITS (mpn_mul a b) = limbs_val GMP_NUMB_BITS a * limbs_val GMP_NUMB_BITS b;
  mpn_cmp_ok : forall a b, limbs_lt GMP_NUMB_BITS a -> limbs_lt GMP_NUMB_BITS b -> length a = length b ->
    (mpn_cmp a b ?= 0) = (limbs_val GMP_NUMB_BITS a ?= limbs_val GMP_NUMB_BITS b);
  mpn_rshift_ok : forall a k, limbs_lt GMP_NUMB_BITS a -> 1 <= k < GMP_NUMB_BITS -> a <> [] ->
    length (fst (mpn_rshift a k)) = length a /\ limbs_lt GMP_NUMB_BITS (fst (mpn_rshift a k)) /\
    limbs_val GMP_NUMB_BITS (fst (mpn_rshift a k)) = limbs_val GMP_NUMB_BITS a / 2 ^ k;
  mpn_tdiv_qr_ok : forall a d, limbs_lt GMP_NUMB_BITS a -> limbs_lt GMP_NUMB_BITS d -> (0 < length d <= length a)%nat -> last d 0 <> 0 ->
    length (snd (mpn_tdiv_qr a d)) = length d /\ limbs_lt GMP_NUMB_BITS (snd (mpn_tdiv_qr a d)) /\
    limbs_val GMP_NUMB_BITS (snd (mpn_tdiv_qr a d)) = limbs_val GMP_NUMB_BITS a mod limbs_val GMP_NUMB_BITS d;
  mpn_gcdext_ok : forall a b, limbs_lt GMP_NUMB_BITS a -> limbs_lt GMP_NUMB_BITS b -> (0 < length b <= length a)%nat -> last b 0 <> 0 ->
    let '(g, s, sn) := mpn_gcdext a b in
    let u := limbs_val GMP_NUMB_BITS a in let v := limbs_val GMP_NUMB_BITS b in
    let S := Z.sgn sn * limbs_val GMP_NUMB_BITS s in
    limbs_lt GMP_NUMB_BITS g /\ limbs_val GMP_NUMB_BITS g = Z.gcd u v /\
    limbs_lt GMP_NUMB_BITS s /\ Z.of_nat (length s) = Z.abs sn /\ (s <> [] -> last s 0 <> 0) /\
    (exists T, Z.gcd u v = u * S + v * T) /\ (S = 1 \/ 2 * Z.gcd u v * Z.abs S < v);
  mpz_import_ok : forall l, limbs_lt GMP_NUMB_BITS l -> mpz_import l = limbs_val GMP_NUMB_BITS l;
  (** The Jacobi symbol for an odd prime is that of Legendre. *)
  mpz_jacobi_ok : forall a p, Z.prime p -> 2 < p ->
    (mpz_jacobi a p = 0 <-> a mod p = 0) /\
    (mpz_jacobi a p = 1 <-> a mod p <> 0 /\ exists x, (x * x) mod p = a mod p) /\
    (mpz_jacobi a p = -1 <-> ~ exists x, (x * x) mod p = a mod p)
}.

Section Code.
Context {E : GMP}.

(** * Numbers *)

Definition NUM_LIMBS : nat := Z.to_nat ((256 + GMP_NUMB_BITS - 1) / GMP_NUMB_BITS).

Record secp256k1_num : Type := Num { data : list Z; neg : bool; limbs : nat }.

(** The limbs in use. *)
Definition low (a : secp256k1_num) : list Z := firstn (limbs a) (data a).

(** Words written to the start of an array. *)
Definition put (w d : list Z) : list Z := w ++ skipn (length w) d.

(** [while (r->limbs > 1 && r->data[r->limbs-1]==0) r->limbs--;] *)
Fixpoint trim (n : nat) (d : list Z) : nat :=
  match n with
  | S (S _ as n') => if d.[n'] =? 0 then trim n' d else n
  | _ => n
  end.

Definition secp256k1_num_sanity (a : secp256k1_num) : bool :=
  (limbs a =? 1)%nat || ((1 <? limbs a)%nat && negb ((data a).[limbs a - 1] =? 0)).

Definition secp256k1_num_copy (a : secp256k1_num) : secp256k1_num := a.

(** [while (shift < len && tmp[shift] == 0) shift++;] *)
Fixpoint skip_zeros (tmp : list Z) : list Z :=
  match tmp with
  | x :: t => if x =? 0 then skip_zeros t else tmp
  | [] => []
  end.

(** [None] when there is not enough space: the code would write after [tmp] or
    before [r]. *)
Definition secp256k1_num_get_bin (rlen : nat) (a : secp256k1_num) : option (list Z) :=
  let tmp := if (1 <? limbs a)%nat || negb ((data a).[0] =? 0) then mpn_get_str (low a) else [] in
  if (65 <? length tmp)%nat then None else
  let tmp := skip_zeros tmp in
  if (length tmp <=? rlen)%nat then Some (repeat 0 (rlen - length tmp) ++ tmp) else None.

Definition secp256k1_num_set_bin (r : secp256k1_num) (a : list Z) : secp256k1_num :=
  let w := mpn_set_str a in
  let '(d, len) := if (length w =? 0)%nat then (upd 0 0 (data r), 1%nat) else (put w (data r), length w) in
  Num d false (trim len d).

Definition secp256k1_num_add_abs (r a b : secp256k1_num) : secp256k1_num :=
  let '(w, c) := mpn_add (low a) (low b) in
  let d := put w (data r) in
  if c =? 0 then Num d (neg r) (limbs a) else Num (upd (limbs a) c d) (neg r) (S (limbs a)).

Definition secp256k1_num_sub_abs (r a b : secp256k1_num) : secp256k1_num :=
  let '(w, _) := mpn_sub (low a) (low b) in
  let d := put w (data r) in
  Num d (neg r) (trim (limbs a) d).

Definition secp256k1_num_mod (r m : secp256k1_num) : secp256k1_num :=
  let r :=
    if (limbs m <=? limbs r)%nat then
      let d := put (snd (mpn_tdiv_qr (low r) (low m))) (data r) in
      Num d (neg r) (trim (limbs m) d)
    else r in
  if neg r && ((1 <? limbs r)%nat || negb ((data r).[0] =? 0)) then
    let r := secp256k1_num_sub_abs r m r in
    Num (data r) false (limbs r)
  else r.

(** [None] when the modulus is longer than the arrays [u] and [v]. *)
Definition secp256k1_num_mod_inverse (r a m : secp256k1_num) : option secp256k1_num :=
  if (NUM_LIMBS + 1 <? limbs m)%nat then None else
  let u := map (fun i => if (i <? limbs a)%nat then (data a).[i] else 0) (seq 0 (limbs m)) in
  let v := low m in
  let '(_, s, sn) := mpn_gcdext u v in
  let d := put s (data r) in
  let n := xorb (neg a) (neg m) in
  if sn <? 0 then
    let d := put (fst (mpn_sub (low m) (firstn (Z.to_nat (- sn)) d))) d in
    Some (Num d n (trim (limbs m) d))
  else Some (Num d n (Z.to_nat sn)).

Definition secp256k1_num_jacobi (a b : secp256k1_num) : Z :=
  let gb := mpz_import (low b) in
  let ga := mpz_import (low a) in
  let ga := if neg a then - ga else ga in
  mpz_jacobi ga gb.

Definition secp256k1_num_is_one (a : secp256k1_num) : bool := (limbs a =? 1)%nat && ((data a).[0] =? 1).

Definition secp256k1_num_is_zero (a : secp256k1_num) : bool := (limbs a =? 1)%nat && ((data a).[0] =? 0).

Definition secp256k1_num_is_neg (a : secp256k1_num) : bool := ((1 <? limbs a)%nat || negb ((data a).[0] =? 0)) && neg a.

Definition secp256k1_num_cmp (a b : secp256k1_num) : Z :=
  if (limbs b <? limbs a)%nat then 1
  else if (limbs a <? limbs b)%nat then -1
  else mpn_cmp (low a) (low b).

Definition secp256k1_num_eq (a b : secp256k1_num) : bool :=
  if (limbs b <? limbs a)%nat then false
  else if (limbs a <? limbs b)%nat then false
  else if xorb (neg a && negb (secp256k1_num_is_zero a)) (neg b && negb (secp256k1_num_is_zero b)) then false
  else mpn_cmp (low a) (low b) =? 0.

Definition with_neg (n : bool) (r : secp256k1_num) : secp256k1_num := Num (data r) n (limbs r).

Definition secp256k1_num_subadd (r a b : secp256k1_num) (bneg : bool) : secp256k1_num :=
  if negb (xorb (xorb (neg b) bneg) (neg a)) then
    let r := with_neg (neg a) r in
    if (limbs b <=? limbs a)%nat then secp256k1_num_add_abs r a b else secp256k1_num_add_abs r b a
  else if 0 <? secp256k1_num_cmp a b then secp256k1_num_sub_abs (with_neg (neg a) r) a b
  else secp256k1_num_sub_abs (with_neg (xorb (neg b) bneg) r) b a.

Definition secp256k1_num_add (r a b : secp256k1_num) : secp256k1_num := secp256k1_num_subadd r a b false.

Definition secp256k1_num_sub (r a b : secp256k1_num) : secp256k1_num := secp256k1_num_subadd r a b true.

Definition secp256k1_num_mul (r a b : secp256k1_num) : secp256k1_num :=
  if secp256k1_num_is_zero a || secp256k1_num_is_zero b then Num (upd 0 0 (data r)) false 1
  else
    let tmp := if (limbs b <=? limbs a)%nat then mpn_mul (low a) (low b) else mpn_mul (low b) (low a) in
    let n := (limbs a + limbs b)%nat in
    let n := if (1 <? n)%nat && (tmp.[n - 1] =? 0) then (n - 1)%nat else n in
    Num (put (firstn n tmp) (data r)) (xorb (neg a) (neg b)) n.

(** [for (i = 0; i < r->limbs; i++)], from [i] on for [k] rounds. *)
Fixpoint shift_loop (k i : nat) (n words : nat) (d : list Z) : list Z :=
  match k with
  | O => d
  | S k' =>
      let index := (i + words)%nat in
      let x := if (index <? n)%nat && (index <? 2 * NUM_LIMBS)%nat then d.[index] else 0 in
      shift_loop k' (S i) n words (upd i x d)
  end.

Definition secp256k1_num_shift (r : secp256k1_num) (bits : Z) : secp256k1_num :=
  let d := if bits mod GMP_NUMB_BITS =? 0 then data r else put (fst (mpn_rshift (low r) (bits mod GMP_NUMB_BITS))) (data r) in
  let d := if GMP_NUMB_BITS <=? bits then shift_loop (limbs r) 0 (limbs r) (Z.to_nat (bits / GMP_NUMB_BITS)) d else d in
  Num d (neg r) (trim (limbs r) d).

Definition secp256k1_num_negate (r : secp256k1_num) : secp256k1_num := with_neg (negb (neg r)) r.
End Code.

(** * The code that uses them

    [n] and [m] are what the stack holds in the numbers of these names. *)
Section Users.
Context {E : GMP} {I : FieldImpl} {J : ScalarImpl}.

Definition prime_bytes : list Z := [
  0xFF; 0xFF; 0xFF; 0xFF; 0xFF; 0xFF; 0xFF; 0xFF;
  0xFF; 0xFF; 0xFF; 0xFF; 0xFF; 0xFF; 0xFF; 0xFF;
  0xFF; 0xFF; 0xFF; 0xFF; 0xFF; 0xFF; 0xFF; 0xFF;
  0xFF; 0xFF; 0xFF; 0xFE; 0xFF; 0xFF; 0xFC; 0x2F].

Definition order_bytes : list Z := [
  0xFF; 0xFF; 0xFF; 0xFF; 0xFF; 0xFF; 0xFF; 0xFF;
  0xFF; 0xFF; 0xFF; 0xFF; 0xFF; 0xFF; 0xFF; 0xFE;
  0xBA; 0xAE; 0xDC; 0xE6; 0xAF; 0x48; 0xA0; 0x3B;
  0xBF; 0xD2; 0x5E; 0x8C; 0xD0; 0x36; 0x41; 0x41].

Definition negone : fe :=
  fe_const 0xFFFFFFFF 0xFFFFFFFF 0xFFFFFFFF 0xFFFFFFFF 0xFFFFFFFF 0xFFFFFFFF 0xFFFFFFFE 0xFFFFFC2E.

(** [None] when the [CHECK] fails and the program is aborted. *)
Definition secp256k1_fe_inv_var (n m : secp256k1_num) (a : fe) : option fe :=
  let c := fe_normalize_var a in
  let b := fe_get_b32 c in
  let n := secp256k1_num_set_bin n b in
  let m := secp256k1_num_set_bin m prime_bytes in
  let* n := secp256k1_num_mod_inverse n n m in
  let* b := secp256k1_num_get_bin 32 n in
  let r := fst (fe_set_b32 b) in
  let c := fe_mul c r in
  let c := fe_add c negone in
  if z2b (fe_normalizes_to_zero_var c) then Some r else None.

Definition secp256k1_fe_is_quad_var (n m : secp256k1_num) (a : fe) : bool :=
  let c := fe_normalize_var a in
  let b := fe_get_b32 c in
  let n := secp256k1_num_set_bin n b in
  let m := secp256k1_num_set_bin m prime_bytes in
  0 <=? secp256k1_num_jacobi n m.

Definition secp256k1_scalar_get_num (r : secp256k1_num) (a : scalar) : secp256k1_num :=
  let c := sc_get_b32 a in
  secp256k1_num_set_bin r c.

Definition secp256k1_scalar_order_get_num (r : secp256k1_num) : secp256k1_num := secp256k1_num_set_bin r order_bytes.

Definition secp256k1_scalar_inverse_var (n m : secp256k1_num) (x : scalar) : option scalar :=
  let t := x in
  let b := sc_get_b32 t in
  let n := secp256k1_num_set_bin n b in
  let m := secp256k1_scalar_order_get_num m in
  let* n := secp256k1_num_mod_inverse n n m in
  let* b := secp256k1_num_get_bin 32 n in
  let r := fst (sc_set_b32 b) in
  let t := sc_mul t r in
  if z2b (sc_is_one t) then Some r else None.
End Users.
