(* ===== verification/NumSpec.v ===== *)
(** Numbers on top of GMP: every function keeps the invariant of
    [secp256k1_num] and computes with the integers they stand for. *)

From Stdlib Require Import ZArith Lia List Bool Zmod Field.
From S2P Require Import Prelude Limbs Primes Fp FieldSpec FieldGen ScalarSpec ScalarGen Num.
Import ListNotations.
Open Scope Z_scope.
Open Scope c_scope.

Lemma limbs_top b l : 0 <= b -> limbs_lt b l -> l <> [] -> last l 0 <> 0 -> 2 ^ (b * Z.of_nat (length l - 1)) <= limbs_val b l.
Proof.
  intros Hb F N T. rewrite (app_removelast_last 0 N) in F |- *. apply Forall_app in F as [F1 F2]. inversion F2 as [| ? ? H2 _]; subst.
  rewrite limbs_val_app by exact Hb. rewrite length_app, Nat.add_sub. cbn [limbs_val]. pose proof (limbs_val_bound b _ Hb F1).
  pose proof (Z.pow_pos_nonneg 2 (b * Z.of_nat (length (removelast l))) ltac:(lia) ltac:(nia)). nia.
Qed.

Section Spec.
Context {E : GMP} {EL : GMPLaws E}.
Local Abbreviation B := (@GMP_NUMB_BITS E).
Local Abbreviation W := (limbs_val (@GMP_NUMB_BITS E)).
Local Abbreviation NL := (2 * NUM_LIMBS)%nat.

(** The absolute value and the value. *)
Definition num_abs (a : secp256k1_num) : Z := W (low a).
Definition num_val (a : secp256k1_num) : Z := if neg a then - num_abs a else num_abs a.

(** The array has its length and holds limbs, and the limbs in use have no
    leading zero. *)
Definition num_ok (a : secp256k1_num) : Prop :=
  length (data a) = NL /\ limbs_lt B (data a) /\ (1 <= limbs a <= NL)%nat /\ secp256k1_num_sanity a = true.

(** A number whose contents are not known yet. *)
Definition num_mem (a : secp256k1_num) : Prop := length (data a) = NL /\ limbs_lt B (data a).

Lemma numb_bits_pos : 0 < B.
Proof. destruct gmp_numb_bits as [-> | ->]; reflexivity. Qed.

Lemma B_nonneg : 0 <= B.
Proof. pose proof numb_bits_pos. lia. Qed.

(** The array of a number holds 512 bits. *)
Lemma num_limbs_bits : B * Z.of_nat NUM_LIMBS = 256.
Proof. unfold NUM_LIMBS. destruct gmp_numb_bits as [-> | ->]; reflexivity. Qed.

Lemma num_limbs_pos : (1 <= NUM_LIMBS)%nat /\ 256 <= B * Z.of_nat NUM_LIMBS < 256 + B.
Proof.
  pose proof numb_bits_pos as HB. unfold NUM_LIMBS. pose proof (Z.div_mod (256 + B - 1) B ltac:(lia)) as D. pose proof (Z.mod_pos_bound (256 + B - 1) B HB).
  assert (Q : 0 < (256 + B - 1) / B) by (apply Z.div_str_pos; lia). set (q := (256 + B - 1) / B) in *. rewrite Z2Nat.id by lia. split; [lia |]. nia.
Qed.

Lemma num_ok_mem a : num_ok a -> num_mem a.
Proof. intros (H1 & H2 & _). now split. Qed.

(** * Arrays *)

Lemma length_low a : num_ok a -> length (low a) = limbs a.
Proof. intros (L & _ & R & _). unfold low. rewrite length_firstn. lia. Qed.

Lemma low_lt a : num_ok a -> limbs_lt B (low a).
Proof. intros (_ & H & _). now apply limbs_lt_firstn. Qed.

Lemma abs_bound a : num_ok a -> 0 <= num_abs a < 2 ^ (B * Z.of_nat (limbs a)).
Proof. intros H. rewrite <- (length_low a H). apply limbs_val_bound; [apply B_nonneg | now apply low_lt]. Qed.

Lemma length_put w d : (length w <= length d)%nat -> length (put w d) = length d.
Proof. intros H. unfold put. rewrite length_app, length_skipn. lia. Qed.

Lemma put_lt w d : limbs_lt B w -> limbs_lt B d -> limbs_lt B (put w d).
Proof. intros Hw Hd. apply Forall_app. split; [exact Hw |]. rewrite <- (firstn_skipn (length w) d) in Hd. now apply Forall_app in Hd. Qed.

Lemma firstn_put w d n : n = length w -> firstn n (put w d) = w.
Proof. intros ->. unfold put. now rewrite firstn_app, firstn_all, Nat.sub_diag, firstn_O, app_nil_r. Qed.

Lemma upd_lt i x d : limbs_lt B d -> 0 <= x < 2 ^ B -> limbs_lt B (upd i x d).
Proof. intros Hd Hx. revert i. induction Hd as [| h t Hh Ht IH]; intros [| i]; cbn; constructor; try assumption. apply IH. Qed.

Lemma trim_ok d : forall n, (1 <= n <= length d)%nat ->
  (1 <= trim n d <= n)%nat /\ W (firstn (trim n d) d) = W (firstn n d) /\ ((trim n d = 1)%nat \/ d.[trim n d - 1] <> 0).
Proof.
  induction n as [| n IH]; intros H; [lia |]. destruct n as [| n]; [cbn; split; [lia |]; split; [reflexivity | now left] |].
  change (trim (S (S n)) d) with (if d.[S n] =? 0 then trim (S n) d else S (S n)). destruct (Z.eqb_spec (d.[S n]) 0) as [Z0 | N0].
  - destruct (IH ltac:(lia)) as (R & V & T). split; [lia |]. split; [| exact T].
    rewrite V, (limbs_val_firstn_S B d (S n)), Z0 by (apply B_nonneg || lia). ring.
  - split; [lia |]. split; [reflexivity |]. right. now rewrite Nat.sub_succ, Nat.sub_0_r.
Qed.

Lemma firstn_upd {A : Type} i (x : A) : forall l n, (n <= i)%nat -> firstn n (upd i x l) = firstn n l.
Proof.
  induction i as [| i IH]; intros [| h l] [| n] H; try reflexivity; [lia |]. cbn. f_equal. apply IH. lia.
Qed.

(** Numbers as the functions build them. *)
Lemma trimmed_ok d s n : length d = NL -> limbs_lt B d -> (1 <= n <= NL)%nat ->
  num_ok (Num d s (trim n d)) /\ num_abs (Num d s (trim n d)) = W (firstn n d).
Proof.
  intros L F Hn. destruct (trim_ok d n ltac:(lia)) as (R & V & T). split; [| exact V]. split; [exact L |]. split; [exact F |]. cbn [limbs data].
  split; [lia |]. unfold secp256k1_num_sanity. cbn [limbs data]. destruct (Nat.eqb_spec (trim n d) 1) as [| N1]; [reflexivity |]. cbn [orb].
  rewrite (proj2 (Nat.ltb_lt _ _)) by lia. destruct T as [T | T]; [contradiction |]. apply Z.eqb_neq in T. now rewrite T.
Qed.

(** * Sizes *)

Lemma last_nth (l : list Z) : last l 0 = nth (length l - 1) l 0.
Proof.
  induction l as [| x l IH]; [reflexivity |]. destruct l as [| y l]; [reflexivity |]. change (last (x :: y :: l) 0) with (last (y :: l) 0). rewrite IH.
  cbn [length]. now rewrite !Nat.sub_succ, !Nat.sub_0_r.
Qed.

Lemma nth_low a i : (i < limbs a)%nat -> nth i (low a) 0 = (data a).[i].
Proof. intros H. unfold low. rewrite nth_firstn. now apply Nat.ltb_lt in H as ->. Qed.

Lemma top_split a k : num_ok a -> limbs a = S k -> num_abs a = W (firstn k (data a)) + 2 ^ (B * Z.of_nat k) * (data a).[k].
Proof. intros (L & _ & R & _) K. unfold num_abs, low. rewrite K. apply limbs_val_firstn_S; [apply B_nonneg | lia]. Qed.

Lemma data_range a k : num_ok a -> 0 <= (data a).[k] < 2 ^ B.
Proof.
  intros (_ & F & _). destruct (Nat.ltb_spec k (length (data a))) as [H | H].
  - exact (proj1 (Forall_nth _ _) F k 0 H).
  - rewrite nth_overflow by lia. split; [lia | apply Z.pow_pos_nonneg; [lia | apply B_nonneg]].
Qed.

Lemma abs_lower a k : num_ok a -> limbs a = S (S k) -> 2 ^ (B * Z.of_nat (S k)) <= num_abs a.
Proof.
  intros H K. rewrite (top_split a (S k) H K). pose proof (data_range a (S k) H) as R. pose proof H as (L & F & _ & S0).
  unfold secp256k1_num_sanity in S0. rewrite K in S0. cbn [Nat.eqb Nat.ltb Nat.leb orb andb] in S0. rewrite Nat.sub_succ, Nat.sub_0_r in S0.
  apply negb_true_iff, Z.eqb_neq in S0. pose proof (limbs_val_bound B (firstn (S k) (data a)) B_nonneg (limbs_lt_firstn _ _ _ F)).
  pose proof (Z.pow_pos_nonneg 2 (B * Z.of_nat (S k)) ltac:(lia) ltac:(pose proof B_nonneg; nia)). nia.
Qed.

Lemma limbs_mono a b : num_ok a -> num_ok b -> (limbs b < limbs a)%nat -> num_abs b < num_abs a.
Proof.
  intros Ha Hb H. pose proof (abs_bound b Hb) as Rb. destruct (limbs a) as [| [| k]] eqn:K; try (destruct Hb as (_ & _ & ? & _); lia).
  pose proof (abs_lower a k Ha K) as La. assert (2 ^ (B * Z.of_nat (limbs b)) <= 2 ^ (B * Z.of_nat (S k))); [| lia].
  apply Z.pow_le_mono_r; [lia |]. apply Z.mul_le_mono_nonneg_l; [apply B_nonneg | lia].
Qed.

Lemma nonzero_test a : num_ok a -> ((1 <? limbs a)%nat || negb ((data a).[0] =? 0)) = negb (num_abs a =? 0).
Proof.
  intros H. pose proof H as (_ & _ & R & _). destruct (limbs a) as [| [| k]] eqn:K; [lia | |].
  - rewrite (top_split a 0 H K). cbn [firstn limbs_val Nat.ltb Nat.leb orb]. change (B * Z.of_nat 0) with (B * 0). rewrite Z.mul_0_r.
    now rewrite Z.add_0_l, Z.mul_1_l.
  - pose proof (abs_lower a k H K) as Lo. pose proof (Z.pow_pos_nonneg 2 (B * Z.of_nat (S k)) ltac:(lia) ltac:(pose proof B_nonneg; nia)).
    symmetry. apply negb_true_iff, Z.eqb_neq. lia.
Qed.

Lemma num_is_zero_ok a : num_ok a -> secp256k1_num_is_zero a = (num_abs a =? 0).
Proof.
  intros H. pose proof (nonzero_test a H) as T. pose proof H as (_ & _ & R & _). unfold secp256k1_num_is_zero.
  destruct (num_abs a =? 0); cbn [negb] in T.
  - apply orb_false_iff in T as [T1 T2]. apply Nat.ltb_ge in T1. apply negb_false_iff in T2. rewrite T2. now replace (limbs a) with 1%nat by lia.
  - destruct (Nat.eqb_spec (limbs a) 1) as [K |]; [| reflexivity]. rewrite K in T. cbn [Nat.ltb Nat.leb orb andb] in *. now apply negb_true_iff.
Qed.

Lemma num_is_neg_ok a : num_ok a -> secp256k1_num_is_neg a = (num_val a <? 0).
Proof.
  intros H. unfold secp256k1_num_is_neg, num_val. rewrite nonzero_test by exact H. pose proof (abs_bound a H).
  destruct (neg a); destruct (Z.eqb_spec (num_abs a) 0); cbn [negb andb]; symmetry; (apply Z.ltb_lt || apply Z.ltb_ge); lia.
Qed.

Lemma num_is_one_ok a : num_ok a -> secp256k1_num_is_one a = (num_abs a =? 1).
Proof.
  intros H. pose proof H as (_ & _ & R & _). unfold secp256k1_num_is_one. destruct (limbs a) as [| [| k]] eqn:K; [lia | |].
  - rewrite (top_split a 0 H K). cbn [firstn limbs_val Nat.eqb andb]. change (B * Z.of_nat 0) with (B * 0). rewrite Z.mul_0_r.
    now rewrite Z.add_0_l, Z.mul_1_l.
  - cbn [Nat.eqb andb]. pose proof (abs_lower a k H K) as Lo. symmetry. apply Z.eqb_neq.
    assert (2 ^ 1 <= 2 ^ (B * Z.of_nat (S k))) by (apply Z.pow_le_mono_r; [lia |]; pose proof numb_bits_pos; nia). lia.
Qed.

Lemma low_last a : num_ok a -> num_abs a <> 0 -> last (low a) 0 <> 0.
Proof.
  intros H N. rewrite last_nth, length_low by exact H. pose proof H as (_ & _ & R & S0). rewrite nth_low by lia.
  unfold secp256k1_num_sanity in S0. destruct (Nat.eqb_spec (limbs a) 1) as [K | K].
  - rewrite K. rewrite (top_split a 0 H K) in N. cbn [firstn limbs_val] in N. change (B * Z.of_nat 0) with (B * 0) in N. rewrite Z.mul_0_r in N.
    cbn [Nat.sub]. lia.
  - cbn [orb] in S0. apply andb_true_iff in S0 as [_ S0]. now apply negb_true_iff, Z.eqb_neq in S0.
Qed.

(** * Bytes *)

Lemma num_skip_zeros_ok t : limbs_lt 8 t ->
  limbs_lt 8 (skip_zeros t) /\ be_val (skip_zeros t) = be_val t /\
  (skip_zeros t <> [] -> 2 ^ (8 * (Z.of_nat (length (skip_zeros t)) - 1)) <= be_val t).
Proof.
  induction t as [| x t IH]; intros H; [split; [exact H |]; split; [reflexivity | intros N; now destruct N] |]. cbn [skip_zeros].
  pose proof (Forall_inv H) as Hx. cbv beta in Hx. pose proof (Forall_inv_tail H) as Ht. destruct (Z.eqb_spec x 0) as [-> | N].
  - destruct (IH Ht) as (F & V & L). rewrite be_val_cons, Z.mul_0_l, Z.add_0_l. auto.
  - split; [exact H |]. split; [reflexivity |]. intros _. rewrite be_val_cons. pose proof (be_val_bound t Ht). cbn [length].
    replace (Z.of_nat (S (length t)) - 1) with (Z.of_nat (length t)) by lia.
    pose proof (Z.pow_pos_nonneg 2 (8 * Z.of_nat (length t)) ltac:(lia) ltac:(lia)). nia.
Qed.

(** The bytes that are printed have no leading zero. *)
Lemma num_bytes a : num_ok a -> exists t, limbs_lt 8 t /\ be_val t = num_abs a /\
  (t <> [] -> 2 ^ (8 * (Z.of_nat (length t) - 1)) <= num_abs a) /\
  forall n, secp256k1_num_get_bin n a = if (length t <=? n)%nat then Some (repeat 0 (n - length t) ++ t) else None.
Proof.
  intros H. unfold secp256k1_num_get_bin. rewrite nonzero_test by exact H. set (tmp := if negb (num_abs a =? 0) then _ else _).
  assert (T : limbs_lt 8 tmp /\ be_val tmp = num_abs a /\ 8 * Z.of_nat (length tmp) <= B * Z.of_nat (length (low a)) + 8).
  { unfold tmp. destruct (Z.eqb_spec (num_abs a) 0) as [-> | N]; cbn [negb]; [split; [constructor | split; [reflexivity |]]; pose proof B_nonneg; cbn [length]; nia |].
    apply mpn_get_str_ok; [now apply low_lt | | now apply low_last]. intros E0. apply N. unfold num_abs. now rewrite E0. }
  destruct T as (F & V & Lt). pose proof num_limbs_bits. pose proof B_nonneg. rewrite length_low in Lt by exact H.
  rewrite (proj2 (Nat.ltb_ge 65 (length tmp))) by (destruct H as (_ & _ & ? & _); nia). destruct (num_skip_zeros_ok tmp F) as (F' & V' & L). rewrite V in V', L. exists (skip_zeros tmp). auto.
Qed.

Lemma num_get_bin_ok n a : num_ok a -> num_abs a < 2 ^ (8 * Z.of_nat n) -> secp256k1_num_get_bin n a = Some (be_bytes n (num_abs a)).
Proof.
  intros H R. destruct (num_bytes a H) as (t & F' & V' & L & ->). assert (Lt : (length t <= n)%nat).
  { destruct t as [| x t]; [cbn; lia |]. specialize (L ltac:(discriminate)). apply Nat.le_ngt. intros G.
    assert (2 ^ (8 * Z.of_nat n) <= 2 ^ (8 * (Z.of_nat (length (x :: t)) - 1))) by (apply Z.pow_le_mono_r; lia). lia. }
  rewrite (proj2 (Nat.leb_le _ _) Lt). f_equal. set (p := repeat 0 (n - length t) ++ t).
  assert (Fp : limbs_lt 8 p) by (apply Forall_app; split; [apply Forall_forall; intros x Hx; apply repeat_spec in Hx; subst; lia | exact F']).
  assert (Lp : length p = n) by (unfold p; rewrite length_app, repeat_length; lia).
  rewrite <- Lp, <- (be_bytes_val p Fp), <- V', length_be_bytes. unfold p. now rewrite be_val_zeros.
Qed.

Lemma num_get_bin_short n a : num_ok a -> 2 ^ (8 * Z.of_nat n) <= num_abs a -> secp256k1_num_get_bin n a = None.
Proof.
  intros H R. destruct (num_bytes a H) as (t & F' & V' & _ & ->). destruct (Nat.leb_spec (length t) n) as [G | G]; [| reflexivity].
  pose proof (be_val_bound t F') as Rt. assert (2 ^ (8 * Z.of_nat (length t)) <= 2 ^ (8 * Z.of_nat n)) by (apply Z.pow_le_mono_r; lia). lia.
Qed.

Lemma num_set_bin_ok r s : num_mem r -> limbs_lt 8 s -> (0 < length s <= 64)%nat ->
  num_ok (secp256k1_num_set_bin r s) /\ num_abs (secp256k1_num_set_bin r s) = be_val s /\ neg (secp256k1_num_set_bin r s) = false.
Proof.
  intros [L F] Hs Ls. unfold secp256k1_num_set_bin. destruct (mpn_set_str_ok s Hs ltac:(destruct s; [cbn in Ls; lia | discriminate])) as (Fw & Vw & Lw).
  set (w := mpn_set_str s) in *. pose proof num_limbs_pos as [P1 P2]. pose proof numb_bits_pos as HB.
  assert (Lw' : (length w <= NL)%nat) by nia. destruct (Nat.eqb_spec (length w) 0) as [Z0 | N0].
  - destruct (trimmed_ok (upd 0 0 (data r)) false 1) as [H1 H2]; [now rewrite length_upd | | lia |].
    + apply upd_lt; [exact F | split; [lia | apply Z.pow_pos_nonneg; lia]].
    + split; [exact H1 |]. split; [| reflexivity]. rewrite H2, <- Vw. destruct w; [| discriminate]. destruct (data r); [cbn in L; lia |]. cbn [upd firstn limbs_val]. ring.
  - destruct (trimmed_ok (put w (data r)) false (length w)) as [H1 H2]; [rewrite length_put; lia | now apply put_lt | lia |].
    split; [exact H1 |]. split; [| reflexivity]. now rewrite H2, firstn_put.
Qed.

(** * Comparisons *)

Lemma num_cmp_ok a b : num_ok a -> num_ok b -> (secp256k1_num_cmp a b ?= 0) = (num_abs a ?= num_abs b).
Proof.
  intros Ha Hb. unfold secp256k1_num_cmp. destruct (Nat.ltb_spec (limbs b) (limbs a)) as [H | H].
  - symmetry. apply Z.compare_gt_iff. now apply limbs_mono.
  - destruct (Nat.ltb_spec (limbs a) (limbs b)) as [H' | H']; [symmetry; apply Z.compare_lt_iff; now apply limbs_mono |].
    apply mpn_cmp_ok; try now apply low_lt. rewrite !length_low by assumption. lia.
Qed.

Lemma num_eq_ok a b : num_ok a -> num_ok b -> secp256k1_num_eq a b = (num_val a =? num_val b).
Proof.
  intros Ha Hb. pose proof (num_cmp_ok a b Ha Hb) as C. unfold secp256k1_num_eq, secp256k1_num_cmp in *.
  pose proof (abs_bound a Ha) as Ra. pose proof (abs_bound b Hb) as Rb. rewrite !num_is_zero_ok by assumption. unfold num_val.
  assert (Q : num_abs a <> num_abs b -> false = ((if neg a then - num_abs a else num_abs a) =? (if neg b then - num_abs b else num_abs b))).
  { intros N. symmetry. apply Z.eqb_neq. destruct (neg a), (neg b); lia. }
  destruct (Nat.ltb_spec (limbs b) (limbs a)) as [H | H]; [apply Q; pose proof (limbs_mono a b Ha Hb H); lia |].
  destruct (Nat.ltb_spec (limbs a) (limbs b)) as [H' | H']; [apply Q; pose proof (limbs_mono b a Hb Ha H'); lia |].
  destruct (Z.compare_spec (num_abs a) (num_abs b)) as [M | M | M].
  - apply Z.compare_eq_iff in C. rewrite C, M. destruct (Z.eqb_spec (num_abs b) 0), (neg a), (neg b); cbn [negb andb xorb]; symmetry; (apply Z.eqb_eq || apply Z.eqb_neq); lia.
  - destruct (xorb _ _); [apply Q; lia |]. rewrite Z.compare_lt_iff in C. rewrite <- Q by lia. apply Z.eqb_neq. lia.
  - destruct (xorb _ _); [apply Q; lia |]. rewrite Z.compare_gt_iff in C. rewrite <- Q by lia. apply Z.eqb_neq. lia.
Qed.

(** * Arithmetic *)

Lemma sanity_of d s n : (1 <= n)%nat -> (n = 1%nat \/ d.[n - 1] <> 0) -> secp256k1_num_sanity (Num d s n) = true.
Proof.
  intros Hn T. unfold secp256k1_num_sanity. cbn [limbs data]. destruct (Nat.eqb_spec n 1) as [| N1]; [reflexivity |]. cbn [orb].
  rewrite (proj2 (Nat.ltb_lt _ _)) by lia. destruct T as [T | T]; [contradiction |]. apply Z.eqb_neq in T. now rewrite T.
Qed.

(** A number of [n] limbs whose value does not fit in fewer. *)
Lemma sized_ok d s n : length d = NL -> limbs_lt B d -> (1 <= n <= NL)%nat ->
  (n = 1%nat \/ 2 ^ (B * Z.of_nat (n - 1)) <= W (firstn n d)) -> num_ok (Num d s n).
Proof.
  intros L F Hn T. split; [exact L |]. split; [exact F |]. split; [exact Hn |]. apply sanity_of; [lia |]. destruct T as [T | T]; [now left | right].
  intros Z0. destruct n as [| n]; [lia |]. rewrite Nat.sub_succ, Nat.sub_0_r in *. rewrite (limbs_val_firstn_S B d n B_nonneg ltac:(lia)), Z0 in T.
  pose proof (limbs_val_bound B (firstn n d) B_nonneg (limbs_lt_firstn _ _ _ F)) as R. rewrite length_firstn in R. replace (Nat.min n (length d)) with n in R by lia. lia.
Qed.

Lemma abs_size a n : num_ok a -> limbs a = n -> (n = 1%nat \/ 2 ^ (B * Z.of_nat (n - 1)) <= num_abs a).
Proof.
  intros H <-. pose proof H as (_ & _ & R & _). destruct (limbs a) as [| [| k]] eqn:K; [lia | now left | right].
  rewrite Nat.sub_succ, Nat.sub_0_r. exact (abs_lower a k H K).
Qed.

Lemma num_add_abs_ok r a b : num_mem r -> num_ok a -> num_ok b -> (limbs b <= limbs a)%nat -> num_abs a + num_abs b < 2 ^ (B * Z.of_nat NL) ->
  let s := secp256k1_num_add_abs r a b in num_ok s /\ num_abs s = num_abs a + num_abs b /\ neg s = neg r.
Proof.
  intros [L F] Ha Hb Hl R. unfold secp256k1_num_add_abs. pose proof Ha as (_ & _ & Ka & _). pose proof Hb as (_ & _ & Kb & _).
  pose proof (mpn_add_ok (low a) (low b) (low_lt a Ha) (low_lt b Hb) ltac:(rewrite !length_low by assumption; lia)) as A.
  destruct (mpn_add (low a) (low b)) as [w c]. rewrite length_low in A by exact Ha. destruct A as (Lw & Fw & Hc & V).
  change (W (low a)) with (num_abs a) in V. change (W (low b)) with (num_abs b) in V. pose proof (abs_bound b Hb) as Rb.
  assert (Ld : length (put w (data r)) = NL) by (rewrite length_put; lia). assert (Fd : limbs_lt B (put w (data r))) by now apply put_lt.
  pose proof (Z.pow_pos_nonneg 2 (B * Z.of_nat (limbs a)) ltac:(lia) ltac:(pose proof B_nonneg; nia)) as Pp.
  cbv zeta. destruct (Z.eqb_spec c 0) as [C0 | C1].
  - rewrite C0, Z.mul_0_r, Z.add_0_r in V. assert (E1 : W (firstn (limbs a) (put w (data r))) = num_abs a + num_abs b) by now rewrite firstn_put.
    split; [| split; [exact E1 | reflexivity]]. apply sized_ok; [exact Ld | exact Fd | exact Ka |]. rewrite E1.
    destruct (abs_size a _ Ha eq_refl) as [| S0]; [now left | right; lia].
  - assert (c = 1) by lia. subst c. pose proof (limbs_val_bound B w B_nonneg Fw) as Rw.
    assert (Hn : (limbs a < NL)%nat).
    { destruct (Nat.eq_dec (limbs a) NL) as [Q |]; [| lia]. rewrite Q in V. lia. }
    assert (E1 : W (firstn (S (limbs a)) (upd (limbs a) 1 (put w (data r)))) = num_abs a + num_abs b).
    { rewrite (limbs_val_firstn_S B _ (limbs a) B_nonneg) by (rewrite length_upd; lia). rewrite nth_upd_eq by lia. rewrite <- V. f_equal.
      f_equal. rewrite firstn_upd by lia. now apply firstn_put. }
    split; [| split; [exact E1 | reflexivity]]. apply sized_ok; [now rewrite length_upd | | lia |].
    + apply upd_lt; [exact Fd | split; [lia |]]. apply Z.pow_gt_1; [lia | apply numb_bits_pos].
    + right. rewrite E1, <- V, Nat.sub_succ, Nat.sub_0_r. lia.
Qed.

Lemma num_sub_abs_ok r a b : num_mem r -> num_ok a -> num_ok b -> num_abs b <= num_abs a ->
  let s := secp256k1_num_sub_abs r a b in num_ok s /\ num_abs s = num_abs a - num_abs b /\ neg s = neg r.
Proof.
  intros [L F] Ha Hb Hm. unfold secp256k1_num_sub_abs. pose proof Ha as (_ & _ & Ka & _). pose proof Hb as (_ & _ & Kb & _).
  assert (Hl : (limbs b <= limbs a)%nat) by (apply Nat.le_ngt; intros G; pose proof (limbs_mono b a Hb Ha G); lia).
  pose proof (mpn_sub_ok (low a) (low b) (low_lt a Ha) (low_lt b Hb) ltac:(rewrite !length_low by assumption; lia)) as A.
  destruct (mpn_sub (low a) (low b)) as [w c]. rewrite length_low in A by exact Ha. destruct A as (Lw & Fw & Hc & V).
  change (W (low a)) with (num_abs a) in V. change (W (low b)) with (num_abs b) in V. pose proof (abs_bound a Ha). pose proof (abs_bound b Hb).
  pose proof (limbs_val_bound B w B_nonneg Fw) as Rw. rewrite Lw in Rw. assert (c = 0) by nia. subst c.
  destruct (trimmed_ok (put w (data r)) (neg r) (limbs a)) as [H1 H2]; [rewrite length_put; lia | now apply put_lt | exact Ka |].
  split; [exact H1 |]. split; [| reflexivity]. rewrite H2, firstn_put by lia. lia.
Qed.

(** Sums and differences of signed numbers that fit. *)
Lemma num_subadd_ok r a b (bneg : bool) : num_mem r -> num_ok a -> num_ok b -> num_abs a + num_abs b < 2 ^ (B * Z.of_nat NL) ->
  let s := secp256k1_num_subadd r a b bneg in
  num_ok s /\ num_val s = num_val a + (if bneg then - num_val b else num_val b).
Proof.
  intros Hr Ha Hb R. unfold secp256k1_num_subadd, num_val. cbv zeta. pose proof (num_cmp_ok a b Ha Hb) as C.
  assert (Hr' : forall n, num_mem (with_neg n r)) by (intros n; exact Hr).
  destruct (xorb (xorb (neg b) bneg) (neg a)) eqn:X; cbn [negb].
  - destruct (Z.ltb_spec 0 (secp256k1_num_cmp a b)) as [G | G].
    + assert (M : num_abs b < num_abs a) by (rewrite (proj2 (Z.compare_gt_iff _ _) G) in C; symmetry in C; now apply Z.compare_gt_iff in C).
      destruct (num_sub_abs_ok _ a b (Hr' (neg a)) Ha Hb ltac:(lia)) as (K & V & S). split; [exact K |]. rewrite V, S. cbn [with_neg neg].
      destruct (neg a), (neg b), bneg; try discriminate X; lia.
    + assert (M : num_abs a <= num_abs b) by (apply Z.le_ngt; intros Q; rewrite (proj2 (Z.compare_gt_iff _ _) Q) in C; apply Z.compare_gt_iff in C; lia).
      destruct (num_sub_abs_ok _ b a (Hr' (xorb (neg b) bneg)) Hb Ha M) as (K & V & S). split; [exact K |]. rewrite V, S. cbn [with_neg neg].
      destruct (neg a), (neg b), bneg; try discriminate X; cbn [xorb]; lia.
  - destruct (Nat.leb_spec (limbs b) (limbs a)) as [G | G].
    + destruct (num_add_abs_ok _ a b (Hr' (neg a)) Ha Hb G R) as (K & V & S). split; [exact K |]. rewrite V, S. cbn [with_neg neg].
      destruct (neg a), (neg b), bneg; try discriminate X; lia.
    + destruct (num_add_abs_ok _ b a (Hr' (neg a)) Hb Ha ltac:(lia) ltac:(lia)) as (K & V & S). split; [exact K |]. rewrite V, S. cbn [with_neg neg].
      destruct (neg a), (neg b), bneg; try discriminate X; lia.
Qed.

Lemma size_le n m x : 2 ^ (B * Z.of_nat (n - 1)) <= x -> x < 2 ^ (B * Z.of_nat m) -> (n <= m \/ n = 0)%nat.
Proof.
  intros H1 H2. assert (H : 2 ^ (B * Z.of_nat (n - 1)) < 2 ^ (B * Z.of_nat m)) by lia. apply Z.pow_lt_mono_r_iff in H; [| lia | pose proof B_nonneg; nia].
  pose proof B_nonneg. nia.
Qed.

Lemma zero_ok r : num_mem r -> num_ok (Num (upd 0 0 (data r)) false 1) /\ num_abs (Num (upd 0 0 (data r)) false 1) = 0.
Proof.
  intros [L F]. pose proof num_limbs_pos as [Np _]. split.
  - apply sized_ok; [now rewrite length_upd | | lia | now left]. apply upd_lt; [exact F |].
    split; [lia | apply Z.pow_pos_nonneg; [lia | apply B_nonneg]].
  - unfold num_abs, low. cbn [limbs data]. destruct (data r); [cbn in L; lia | cbn; ring].
Qed.

Lemma mul_lower a b : num_ok a -> num_ok b -> num_abs a <> 0 -> num_abs b <> 0 -> 2 ^ (B * Z.of_nat (limbs a + limbs b - 2)) <= num_abs a * num_abs b.
Proof.
  intros Ha Hb Za Zb. pose proof (abs_bound a Ha). pose proof (abs_bound b Hb).
  assert (Q : forall x, num_ok x -> num_abs x <> 0 -> 2 ^ (B * Z.of_nat (limbs x - 1)) <= num_abs x).
  { intros x Hx Zx. pose proof (abs_bound x Hx). destruct (abs_size x _ Hx eq_refl) as [K | K]; [| exact K]. rewrite K. cbn. rewrite Z.mul_0_r. change (2 ^ 0) with 1. lia. }
  pose proof Ha as (_ & _ & Ka & _). pose proof Hb as (_ & _ & Kb & _).
  replace (limbs a + limbs b - 2)%nat with ((limbs a - 1) + (limbs b - 1))%nat by lia.
  rewrite Nat2Z.inj_add, Z.mul_add_distr_l, Z.pow_add_r by (pose proof B_nonneg; nia).
  apply Z.mul_le_mono_nonneg; try (apply Q; assumption); apply Z.pow_nonneg; lia.
Qed.

Lemma num_mul_ok r a b : num_mem r -> num_ok a -> num_ok b -> num_abs a * num_abs b < 2 ^ (B * Z.of_nat NL) ->
  num_ok (secp256k1_num_mul r a b) /\ num_val (secp256k1_num_mul r a b) = num_val a * num_val b.
Proof.
  intros [L F] Ha Hb R. unfold secp256k1_num_mul. rewrite !num_is_zero_ok by assumption.
  destruct ((num_abs a =? 0) || (num_abs b =? 0)) eqn:Z0.
  { destruct (zero_ok r (conj L F)) as [K V]. split; [exact K |]. unfold num_val. rewrite V. cbn [neg].
    apply orb_true_iff in Z0 as [Q | Q]; apply Z.eqb_eq in Q; rewrite Q; destruct (neg a), (neg b); lia. }
  apply orb_false_iff in Z0 as [Za Zb]. apply Z.eqb_neq in Za, Zb. pose proof Ha as (_ & _ & Ka & _). pose proof Hb as (_ & _ & Kb & _).
  pose proof (mul_lower a b Ha Hb Za Zb) as ML.
  set (n := (limbs a + limbs b)%nat) in *. set (tmp := if (limbs b <=? limbs a)%nat then _ else _).
  assert (T : length tmp = n /\ limbs_lt B tmp /\ W tmp = num_abs a * num_abs b).
  { unfold tmp, n. destruct (Nat.leb_spec (limbs b) (limbs a)) as [G | G].
    - destruct (mpn_mul_ok (low a) (low b) (low_lt a Ha) (low_lt b Hb) ltac:(rewrite !length_low by assumption; lia)) as (T1 & T2 & T3).
      rewrite !length_low in T1 by assumption. now split.
    - destruct (mpn_mul_ok (low b) (low a) (low_lt b Hb) (low_lt a Ha) ltac:(rewrite !length_low by assumption; lia)) as (T1 & T2 & T3).
      rewrite !length_low in T1 by assumption. split; [lia |]. split; [exact T2 |]. rewrite T3. unfold num_abs. ring. }
  destruct T as (Lt & Ft & Vt). rewrite (proj2 (Nat.ltb_lt 1 n)) by (unfold n; lia). cbn [andb]. set (n' := if tmp.[n - 1] =? 0 then _ else _).
  assert (Q : W (firstn n' tmp) = num_abs a * num_abs b /\ (1 <= n' <= n)%nat /\ 2 ^ (B * Z.of_nat (n' - 1)) <= num_abs a * num_abs b).
  { unfold n'. destruct (Z.eqb_spec (tmp.[n - 1]) 0) as [T0 | T0].
    - split; [| split; [unfold n; lia | now replace (n - 1 - 1)%nat with (n - 2)%nat by lia]].
      rewrite <- Vt. rewrite <- (firstn_all tmp) at 2. rewrite Lt. replace n with (S (n - 1)) at 2 by (unfold n; lia).
      rewrite (limbs_val_firstn_S B tmp (n - 1) B_nonneg) by (unfold n in *; lia). rewrite T0. ring.
    - split; [rewrite <- Lt, firstn_all; exact Vt |]. split; [unfold n; lia |]. rewrite <- Vt, <- Lt. apply limbs_top; [apply B_nonneg | exact Ft | |].
      + intros Q. rewrite Q in Lt. cbn in Lt. unfold n in Lt. lia.
      + now rewrite last_nth, Lt. }
  destruct Q as (V & Rn & Sz). assert (n' <= NL)%nat by (destruct (size_le n' NL _ Sz R); lia).
  assert (Lf : length (firstn n' tmp) = n') by (rewrite length_firstn; lia).
  assert (E1 : W (firstn n' (put (firstn n' tmp) (data r))) = num_abs a * num_abs b) by now rewrite firstn_put.
  split.
  - apply sized_ok; [rewrite length_put; lia | apply put_lt; [now apply limbs_lt_firstn | exact F] | lia | right; now rewrite E1].
  - unfold num_val at 1. unfold num_abs, low. cbn [neg limbs data]. rewrite E1. unfold num_val. destruct (neg a), (neg b); cbn [xorb]; ring.
Qed.

Lemma mul_mod_neg x m : 0 < m -> x mod m <> 0 -> (- x) mod m = m - x mod m.
Proof. intros Hm N. now rewrite Z.mod_opp_l_nz by lia. Qed.

(** The remainder, in place, with the sign of the modulus ignored. *)
Lemma num_mod_ok r m : num_ok r -> num_ok m -> num_abs m <> 0 ->
  num_ok (secp256k1_num_mod r m) /\ num_val (secp256k1_num_mod r m) = num_val r mod num_abs m.
Proof.
  intros Hr Hm Nz. unfold secp256k1_num_mod. pose proof (abs_bound m Hm) as Rm. pose proof (abs_bound r Hr) as Rr. set (q := if (limbs m <=? limbs r)%nat then _ else _).
  assert (Q : num_ok q /\ num_abs q = num_abs r mod num_abs m /\ neg q = neg r).
  { unfold q. destruct (Nat.leb_spec (limbs m) (limbs r)) as [G | G].
    - pose proof Hr as (Lr & Fr & Kr & _). pose proof Hm as (_ & _ & Km & _).
      destruct (mpn_tdiv_qr_ok (low r) (low m) (low_lt r Hr) (low_lt m Hm) ltac:(rewrite !length_low by assumption; lia) (low_last m Hm Nz)) as (L & F & V).
      rewrite length_low in L by exact Hm. destruct (trimmed_ok (put (snd (mpn_tdiv_qr (low r) (low m))) (data r)) (neg r) (limbs m)) as [H1 H2];
        [rewrite length_put; lia | now apply put_lt | lia |].
      split; [exact H1 |]. split; [| reflexivity]. now rewrite H2, firstn_put by lia.
    - split; [exact Hr |]. split; [| reflexivity]. rewrite Z.mod_small; [reflexivity |]. pose proof (limbs_mono m r Hm Hr G). lia. }
  destruct Q as (Kq & Vq & Nq). rewrite nonzero_test, Vq, Nq by exact Kq. pose proof (Z.mod_pos_bound (num_abs r) (num_abs m) ltac:(lia)) as Rq.
  destruct (neg r) eqn:N; cbn [andb]; [| unfold num_val; rewrite Nq, Vq, N; now split].
  destruct (Z.eqb_spec (num_abs r mod num_abs m) 0) as [Z0 | Z0]; cbn [negb].
  - split; [exact Kq |]. unfold num_val. rewrite Nq, Vq, N, Z0. symmetry. now apply Z_mod_zero_opp_full.
  - destruct (num_sub_abs_ok q m q (num_ok_mem _ Kq) Hm Kq ltac:(lia)) as (K & V & _). split; [exact K |].
    change (num_val (Num (data (secp256k1_num_sub_abs q m q)) false (limbs (secp256k1_num_sub_abs q m q)))) with (num_abs (secp256k1_num_sub_abs q m q)).
    rewrite V, Vq. unfold num_val. rewrite N. now rewrite mul_mod_neg by lia.
Qed.

Lemma nth_map_seq (f : nat -> Z) n i : (i < n)%nat -> nth i (map f (seq 0 n)) 0 = f i.
Proof.
  intros H. rewrite (nth_indep _ 0 (f 0%nat)) by now rewrite length_map, length_seq. now rewrite map_nth, seq_nth.
Qed.

Lemma num_pad_ok a n : num_ok a -> (limbs a <= n)%nat ->
  let u := map (fun i => if (i <? limbs a)%nat then (data a).[i] else 0) (seq 0 n) in
  length u = n /\ limbs_lt B u /\ W u = num_abs a.
Proof.
  intros Ha Hn. cbv zeta. split; [now rewrite length_map, length_seq |]. pose proof (data_range a) as R. split.
  - apply Forall_forall. intros x Hx. apply in_map_iff in Hx as (i & <- & _). destruct (i <? limbs a)%nat; [now apply R |].
    split; [lia | apply Z.pow_pos_nonneg; [lia | apply B_nonneg]].
  - replace n with (limbs a + (n - limbs a))%nat by lia. rewrite seq_app, map_app, limbs_val_app by apply B_nonneg.
    assert (Z0 : forall k i, (limbs a <= i)%nat -> W (map (fun i => if (i <? limbs a)%nat then (data a).[i] else 0) (seq i k)) = 0).
    { induction k as [| k IH]; intros i Hi; [reflexivity |]. cbn [seq map limbs_val]. rewrite IH by lia. rewrite (proj2 (Nat.ltb_ge i (limbs a))) by lia. ring. }
    rewrite (Z0 (n - limbs a)%nat (0 + limbs a)%nat) by lia. rewrite Z.mul_0_r, Z.add_0_r. unfold num_abs. f_equal. apply nth_ext with 0 0; [now rewrite length_map, length_seq, length_low |].
    intros i Hi. rewrite length_map, length_seq in Hi. rewrite nth_low by exact Hi.
    rewrite nth_map_seq by exact Hi. now rewrite (proj2 (Nat.ltb_lt i (limbs a)) Hi).
Qed.

(** The inverse for a positive modulus, of a number below it. *)
Lemma num_mod_inverse_ok r a m : num_mem r -> num_ok a -> num_ok m -> neg m = false -> 1 < num_abs m -> num_abs a < num_abs m -> Z.gcd (num_abs a) (num_abs m) = 1 ->
  (limbs m <= NUM_LIMBS)%nat -> exists i, secp256k1_num_mod_inverse r a m = Some i /\
  num_ok i /\ num_abs i < num_abs m /\ neg i = neg a /\ (num_val i * num_val a) mod num_abs m = 1.
Proof.
  intros [Lr Fr] Ha Hm Nm M1 Am G Lm. unfold secp256k1_num_mod_inverse. rewrite (proj2 (Nat.ltb_ge _ _)) by lia. pose proof Hm as (_ & _ & Km & _). pose proof Ha as (_ & _ & Ka & _).
  assert (La : (limbs a <= limbs m)%nat) by (apply Nat.le_ngt; intros Q; pose proof (limbs_mono a m Ha Hm Q); lia).
  destruct (num_pad_ok a (limbs m) Ha La) as (Lu & Fu & Vu). set (u := map _ _) in *.
  pose proof (mpn_gcdext_ok u (low m) Fu (low_lt m Hm) ltac:(rewrite length_low by exact Hm; lia) (low_last m Hm ltac:(lia))) as X.
  destruct (mpn_gcdext u (low m)) as [[g s] sn]. cbv zeta in X. rewrite Vu in X. change (W (low m)) with (num_abs m) in X. rewrite G in X.
  destruct X as (_ & _ & Fs & Ls & Ts & [T HT] & B0). pose proof (limbs_val_bound B s B_nonneg Fs) as Rs.
  assert (Hs : s <> []) by (intros ->; cbn [limbs_val] in HT; rewrite !Z.mul_0_r in HT; destruct (Z.le_gt_cases T 0); nia).
  assert (Sn : sn <> 0) by (intros ->; destruct s; [now apply Hs | cbn in Ls; lia]).
  assert (Lp : (0 < length s)%nat) by (destruct s; [now destruct Hs | apply Nat.lt_0_succ]).
  pose proof (limbs_top B s B_nonneg Fs Hs (Ts Hs)) as Lo. pose proof (Z.pow_pos_nonneg 2 (B * Z.of_nat (length s - 1)) ltac:(lia) ltac:(pose proof B_nonneg; nia)).
  assert (Ws : W s < num_abs m) by (destruct (Z.sgn_spec sn) as [[? Q] | [[? Q] | [? Q]]]; rewrite Q in B0; lia).
  pose proof (abs_bound m Hm) as Rm. assert (Ln : (length s <= limbs m)%nat) by (destruct (size_le (length s) (limbs m) (W s) Lo ltac:(lia)); lia).
  assert (Neg : forall i, neg i = xorb (neg a) (neg m) -> (num_abs i * num_abs a) mod num_abs m = 1 -> neg i = neg a /\ (num_val i * num_val a) mod num_abs m = 1).
  { intros i Ni Vi. rewrite Nm, xorb_false_r in Ni. split; [exact Ni |]. rewrite <- Vi. unfold num_val. rewrite Ni. destruct (neg a); f_equal; ring. }
  destruct (Z.ltb_spec sn 0) as [S0 | S0].
  - rewrite firstn_put by lia. rewrite (proj2 (Z.sgn_neg_iff sn) S0) in HT.
    pose proof (mpn_sub_ok (low m) s (low_lt m Hm) Fs ltac:(rewrite length_low by exact Hm; lia)) as D.
    destruct (mpn_sub (low m) s) as [w c]. rewrite length_low in D by exact Hm. destruct D as (Lw & Fw & Hc & V). change (W (low m)) with (num_abs m) in V.
    pose proof (limbs_val_bound B w B_nonneg Fw) as Rw. rewrite Lw in Rw. assert (c = 0) by nia. subst c. cbn [fst].
    destruct (trimmed_ok (put w (put s (data r))) (xorb (neg a) (neg m)) (limbs m)) as [H1 H2]; [rewrite !length_put; rewrite ?length_put; lia | now repeat apply put_lt | lia |].
    rewrite firstn_put in H2 by lia. eexists. split; [reflexivity |]. split; [exact H1 |]. split; [rewrite H2; lia |]. apply Neg; [reflexivity |]. rewrite H2.
    replace (W w * num_abs a) with (1 + (num_abs a - T) * num_abs m) by nia. rewrite Z_mod_plus_full. apply Z.mod_small. lia.
  - replace (Z.to_nat sn) with (length s) by lia. rewrite (proj2 (Z.sgn_pos_iff sn)) in HT by lia.
    assert (E1 : W (firstn (length s) (put s (data r))) = W s) by now rewrite firstn_put.
    eexists. split; [reflexivity |]. split; [| split; [unfold num_abs at 1, low; cbn [limbs data]; lia |]].
    + apply sized_ok; [rewrite length_put; lia | now apply put_lt | lia | right; lia].
    + apply Neg; [reflexivity |]. unfold num_abs at 1, low. cbn [limbs data]. rewrite E1.
      replace (W s * num_abs a) with (1 + (- T) * num_abs m) by nia. rewrite Z_mod_plus_full. apply Z.mod_small. lia.
Qed.

Lemma num_jacobi_ok a b : num_ok a -> num_ok b -> secp256k1_num_jacobi a b = mpz_jacobi (num_val a) (num_abs b).
Proof. intros Ha Hb. unfold secp256k1_num_jacobi. now rewrite !mpz_import_ok by now apply low_lt. Qed.

Lemma shift_loop_nth n words j : forall k i d, length d = NL -> (i + k <= length d)%nat -> (n <= length d)%nat ->
  length (shift_loop k i n words d) = length d /\
  nth j (shift_loop k i n words d) 0 =
    if (i <=? j)%nat && (j <? i + k)%nat then (if (j + words <? n)%nat then d.[j + words] else 0) else d.[j].
Proof.
  induction k as [| k IH]; intros i d Ld H Hn.
  - split; [reflexivity |]. cbn [shift_loop]. replace ((i <=? j)%nat && (j <? i + 0)%nat) with false; [reflexivity |].
    symmetry. apply andb_false_iff. rewrite Nat.leb_gt, Nat.ltb_ge. lia.
  - cbn [shift_loop]. set (x := if _ && _ then _ else _). destruct (IH (S i) (upd i x d)) as [L V]; [now rewrite length_upd | rewrite length_upd; lia | now rewrite length_upd |].
    rewrite length_upd in L. split; [exact L |]. rewrite V. destruct (Nat.lt_trichotomy i j) as [C | [<- | C]].
    + replace (S i <=? j)%nat with true by (symmetry; apply Nat.leb_le; lia). replace (i <=? j)%nat with true by (symmetry; apply Nat.leb_le; lia).
      replace (S i + k)%nat with (i + S k)%nat by lia. cbn [andb]. destruct (j <? i + S k)%nat; rewrite !nth_upd_neq by lia; reflexivity.
    + replace (S i <=? i)%nat with false by (symmetry; apply Nat.leb_gt; lia). cbn [andb]. rewrite Nat.leb_refl, nth_upd_eq by lia.
      replace (i <? i + S k)%nat with true by (symmetry; apply Nat.ltb_lt; lia). cbn [andb]. unfold x.
      destruct (Nat.ltb_spec (i + words) n) as [Q | Q]; cbn [andb]; [| reflexivity]. now rewrite (proj2 (Nat.ltb_lt _ _)) by lia.
    + replace (S i <=? j)%nat with false by (symmetry; apply Nat.leb_gt; lia). replace (i <=? j)%nat with false by (symmetry; apply Nat.leb_gt; lia).
      cbn [andb]. now rewrite nth_upd_neq by lia.
Qed.

Lemma limbs_val_zeros k : W (repeat 0 k) = 0.
Proof. induction k as [| k IH]; [reflexivity |]. cbn [repeat limbs_val]. rewrite IH. ring. Qed.

(** The limbs move down by [words]. *)
Lemma shift_loop_ok n words d : length d = NL -> (n <= length d)%nat -> limbs_lt B d ->
  let e := shift_loop n 0 n words d in
  length e = length d /\ limbs_lt B e /\ W (firstn n e) = W (firstn n d) / 2 ^ (B * Z.of_nat words).
Proof.
  intros Ld Hn F. cbv zeta. assert (L : length (shift_loop n 0 n words d) = length d) by (apply (shift_loop_nth n words 0); lia).
  assert (V : forall j, nth j (shift_loop n 0 n words d) 0 = if (j <? n)%nat then (if (j + words <? n)%nat then d.[j + words] else 0) else d.[j]).
  { intros j. destruct (shift_loop_nth n words j n 0 d Ld ltac:(lia) Hn) as [_ ->]. now rewrite Nat.add_0_l, (proj2 (Nat.leb_le 0 j)) by lia. }
  assert (D : forall j, 0 <= d.[j] < 2 ^ B).
  { intros j. destruct (Nat.ltb_spec j (length d)) as [Q | Q]; [exact (proj1 (Forall_nth _ _) F j 0 Q) |]. rewrite nth_overflow by lia.
    split; [lia | apply Z.pow_pos_nonneg; [lia | apply B_nonneg]]. }
  split; [exact L |]. split.
  { apply Forall_nth. intros j x Hj. rewrite (nth_indep _ x 0), V by exact Hj. destruct (j <? n)%nat; [destruct (j + words <? n)%nat |]; try apply D.
    specialize (D 0%nat). lia. }
  assert (E1 : firstn n (shift_loop n 0 n words d) = skipn words (firstn n d) ++ repeat 0 (Nat.min words n)).
  { apply nth_ext with 0 0; [rewrite length_app, length_skipn, !length_firstn, repeat_length; lia |]. intros j Hj. rewrite length_firstn in Hj.
    rewrite nth_firstn, V, (proj2 (Nat.ltb_lt j n)) by lia. destruct (Nat.ltb_spec (j + words) n) as [Q | Q].
    - rewrite app_nth1 by (rewrite length_skipn, length_firstn; lia). rewrite nth_skipn, nth_firstn, Nat.add_comm. now rewrite (proj2 (Nat.ltb_lt _ _)) by lia.
    - rewrite app_nth2 by (rewrite length_skipn, length_firstn; lia). now rewrite nth_repeat. }
  rewrite E1, limbs_val_app by apply B_nonneg. rewrite limbs_val_zeros.
  rewrite Z.mul_0_r, Z.add_0_r. rewrite <- (firstn_skipn words (firstn n d)) at 2. rewrite limbs_val_app by apply B_nonneg.
  pose proof (limbs_lt_firstn B (firstn n d) words (limbs_lt_firstn B d n F)) as Fw. pose proof (limbs_val_bound B _ B_nonneg Fw) as R.
  rewrite length_firstn in R |- *. destruct (Nat.le_gt_cases words (length (firstn n d))) as [Q | Q].
  - rewrite (Nat.min_l _ _ Q) in R |- *. rewrite Z.mul_comm, Z.div_add by lia. now rewrite Z.div_small.
  - rewrite (skipn_all2 (firstn n d)) by lia. cbn [limbs_val]. rewrite Z.mul_0_r, Z.add_0_r. symmetry. apply Z.div_small. split; [lia |].
    eapply Z.lt_le_trans; [apply R |]. apply Z.pow_le_mono_r; [lia |]. pose proof B_nonneg. nia.
Qed.

Lemma num_shift_ok r bits : num_ok r -> 0 <= bits ->
  let s := secp256k1_num_shift r bits in num_ok s /\ num_abs s = num_abs r / 2 ^ bits /\ neg s = neg r.
Proof.
  intros Hr Hb. cbv zeta. unfold secp256k1_num_shift. pose proof Hr as (Lr & Fr & Kr & _). pose proof numb_bits_pos as Bp.
  set (k := bits mod B). set (d := if k =? 0 then _ else _). pose proof (Z.mod_pos_bound bits B Bp) as Rk. pose proof (Z.div_mod bits B ltac:(lia)) as DM. fold k in Rk, DM.
  assert (D : length d = NL /\ limbs_lt B d /\ W (firstn (limbs r) d) = num_abs r / 2 ^ k).
  { unfold d. destruct (Z.eqb_spec k 0) as [Q | K0]; [rewrite Q; change (2 ^ 0) with 1; now rewrite Z.div_1_r |].
    destruct (mpn_rshift_ok (low r) k (low_lt r Hr) ltac:(lia)) as (L & F & V).
    { intros Q. pose proof (length_low r Hr) as Ll. rewrite Q in Ll. cbn in Ll. lia. }
    rewrite length_low in L by exact Hr. split; [rewrite length_put; lia |]. split; [now apply put_lt |]. now rewrite firstn_put by lia. }
  destruct D as (Ld & Fd & Vd). set (e := if B <=? bits then _ else _).
  assert (Q : length e = NL /\ limbs_lt B e /\ W (firstn (limbs r) e) = num_abs r / 2 ^ bits).
  { unfold e. destruct (Z.leb_spec B bits) as [G | G].
    - destruct (shift_loop_ok (limbs r) (Z.to_nat (bits / B)) d Ld ltac:(lia) Fd) as (Le & Fe & Ve). rewrite Le, Ve, Vd. split; [exact Ld |]. split; [exact Fe |].
      assert (0 <= bits / B) by (apply Z.div_pos; lia). rewrite Z2Nat.id by assumption. rewrite div_div_pow by nia. do 2 f_equal. lia.
    - rewrite Vd. repeat split; try assumption. unfold k. now rewrite Z.mod_small by lia. }
  destruct Q as (Le & Fe & Ve). destruct (trimmed_ok e (neg r) (limbs r) Le Fe Kr) as [H1 H2]. split; [exact H1 |]. split; [now rewrite H2 | reflexivity].
Qed.

Lemma num_shift_val r bits : num_ok r -> 0 <= bits ->
  num_ok (secp256k1_num_shift r bits) /\ num_val (secp256k1_num_shift r bits) = Z.quot (num_val r) (2 ^ bits).
Proof.
  intros Hr Hb. destruct (num_shift_ok r bits Hr Hb) as (K & V & N). split; [exact K |]. unfold num_val. rewrite N, V.
  pose proof (abs_bound r Hr). pose proof (Z.pow_pos_nonneg 2 bits ltac:(lia) Hb).
  destruct (neg r); rewrite ?Z.quot_opp_l by lia; now rewrite Z.quot_div_nonneg by lia.
Qed.

Lemma abs_val a : num_ok a -> Z.abs (num_val a) = num_abs a.
Proof. intros H. pose proof (abs_bound a H). unfold num_val. destruct (neg a); lia. Qed.

Lemma num_negate_ok a : num_ok a -> num_ok (secp256k1_num_negate a) /\ num_val (secp256k1_num_negate a) = - num_val a.
Proof.
  intros H. split; [exact H |]. unfold num_val, secp256k1_num_negate. cbn [with_neg neg].
  change (num_abs (with_neg (negb (neg a)) a)) with (num_abs a). destruct (neg a); cbn [negb]; lia.
Qed.

(** * Inverses modulo a prime *)

(** A number of 256 bits has at most half of the limbs. *)
Lemma num_limbs_small a : num_ok a -> num_abs a < 2 ^ 256 -> (limbs a <= NUM_LIMBS)%nat.
Proof.
  intros H R. pose proof num_limbs_pos as [Np _]. destruct (abs_size a (limbs a) H eq_refl) as [| Lo]; [lia |].
  rewrite <- num_limbs_bits in R. destruct (size_le _ _ _ Lo R); lia.
Qed.

(** Zero has no inverse: what the code computes for it prints as 0 or 1. *)
Lemma num_mod_inverse_zero a m : num_ok a -> num_abs a = 0 -> num_ok m -> num_abs m <> 0 -> (limbs m <= NUM_LIMBS)%nat ->
  exists i v, secp256k1_num_mod_inverse a a m = Some i /\ secp256k1_num_get_bin 32 i = Some (be_bytes 32 v) /\ 0 <= v <= 1.
Proof.
  intros Ha A0 Hm M0 Lm. unfold secp256k1_num_mod_inverse. rewrite (proj2 (Nat.ltb_ge _ _)) by lia. pose proof Ha as (La & Fa & _). pose proof Hm as (_ & _ & Km & _). pose proof (abs_bound m Hm) as Rm.
  pose proof num_limbs_pos as [Np _]. pose proof numb_bits_pos as Bp.
  assert (L1 : (limbs a <= limbs m)%nat) by (apply Nat.le_ngt; intros Q; pose proof (limbs_mono a m Ha Hm Q); lia).
  destruct (num_pad_ok a (limbs m) Ha L1) as (Lu & Fu & Vu). set (u := map _ _) in *.
  pose proof (mpn_gcdext_ok u (low m) Fu (low_lt m Hm) ltac:(rewrite length_low by exact Hm; lia) (low_last m Hm M0)) as X.
  destruct (mpn_gcdext u (low m)) as [[g s] sn]. cbv zeta in X. rewrite Vu, A0 in X. change (W (low m)) with (num_abs m) in X.
  rewrite Z.gcd_0_l, Z.abs_eq in X by lia. destruct X as (_ & _ & Fs & Ls & Ts & _ & B0). pose proof (limbs_val_bound B s B_nonneg Fs) as Rs.
  destruct s as [| x s].
  - cbn [length] in Ls. assert (sn = 0) by lia. subst sn. eexists _, 0. split; [reflexivity |]. split; [| lia]. cbn [Z.ltb Z.compare Z.to_nat]. unfold secp256k1_num_get_bin. cbn [limbs data].
    pose proof (nonzero_test a Ha) as T. rewrite A0 in T. apply orb_false_iff in T as [_ T]. change (put [] (data a)) with (data a). now rewrite T.
  - set (l := x :: s) in *. pose proof (limbs_top B l B_nonneg Fs ltac:(discriminate) (Ts ltac:(discriminate))) as Lo.
    pose proof (Z.pow_pos_nonneg 2 (B * Z.of_nat (length l - 1)) ltac:(lia) ltac:(nia)).
    assert (Q : 0 < sn /\ W l = 1) by (destruct (Z.sgn_spec sn) as [[? Q] | [[? Q] | [? Q]]]; rewrite Q in B0; [| cbn in Ls; lia |]; destruct B0; nia).
    destruct Q as [S0 W1]. rewrite (proj2 (Z.ltb_ge sn 0)) by lia. replace (Z.to_nat sn) with (length l) by lia. eexists _, 1. split; [reflexivity |]. split; [| lia].
    assert (Ln : (length l <= 1)%nat).
    { destruct (size_le (length l) 1 1 ltac:(lia)) as [| Q]; [| assumption | cbn in Q; lia]. apply Z.pow_gt_1; lia. }
    assert (Lp : (1 <= length l)%nat) by (cbn; lia).
    assert (E1 : num_abs (Num (put l (data a)) (xorb (neg a) (neg m)) (length l)) = 1) by (unfold num_abs, low; cbn [limbs data]; now rewrite firstn_put).
    rewrite num_get_bin_ok, E1; [reflexivity | | rewrite E1; reflexivity]. apply sized_ok; [rewrite length_put; lia | now apply put_lt | lia | left; lia].
Qed.

(** The code the inverses share: through bytes to a number and back. *)
Lemma inverse_bytes n m q qb x : num_mem n -> num_mem m -> Z.prime q -> limbs_lt 8 qb -> length qb = 32%nat -> be_val qb = q -> 0 <= x < q ->
  let a := secp256k1_num_set_bin n (be_bytes 32 x) in
  exists i v, secp256k1_num_mod_inverse a a (secp256k1_num_set_bin m qb) = Some i /\ secp256k1_num_get_bin 32 i = Some (be_bytes 32 v) /\
    0 <= v < q /\ (x <> 0 -> (v * x) mod q = 1).
Proof.
  intros Hn Hm Pq Fq Lq Vq Rx. cbv zeta. pose proof (Z.prime_ge_2 q Pq) as Q2. pose proof (be_val_bound qb Fq) as Rq. rewrite Lq in Rq.
  destruct (num_set_bin_ok n (be_bytes 32 x) Hn (limbs_lt_be_bytes 32 x) ltac:(rewrite length_be_bytes; lia)) as (Ka & Va & Na).
  destruct (num_set_bin_ok m qb Hm Fq ltac:(lia)) as (Km & Vm & Nm). rewrite be_val_bytes, Z.mod_small in Va by lia. rewrite Vq in Vm.
  pose proof (num_limbs_small _ Km ltac:(lia)) as Lm. destruct (Z.eq_dec x 0) as [X0 | X0].
  - destruct (num_mod_inverse_zero _ _ Ka ltac:(lia) Km ltac:(lia) Lm) as (i & v & E0 & E1 & Rv). exists i, v. split; [exact E0 |]. split; [exact E1 |]. split; [lia | contradiction].
  - assert (G : Z.gcd x q = 1) by (rewrite Z.gcd_comm; apply Z.coprime_prime_small; [exact Pq | lia]).
    destruct (num_mod_inverse_ok (secp256k1_num_set_bin n (be_bytes 32 x)) _ _ (num_ok_mem _ Ka) Ka Km Nm) as (i & E0 & Ki & Ri & Ni & Vi); try (rewrite ?Va, ?Vm; lia).
    rewrite Vm in Ri, Vi. pose proof (abs_bound _ Ki). eexists _, _. split; [exact E0 |]. split; [apply num_get_bin_ok; [exact Ki | lia] |]. split; [lia |]. intros _.
    unfold num_val in Vi. now rewrite Ni, Na, Va in Vi.
Qed.
End Spec.

(** * The code that uses the numbers *)

Section Users.
Context {E : GMP} {EL : GMPLaws E} {I : FieldImpl} {L : FieldLaws I} {J : ScalarImpl} {M : ScalarLaws J}.

Lemma prime_bytes_ok : limbs_lt 8 prime_bytes /\ length prime_bytes = 32%nat /\ be_val prime_bytes = secp_p.
Proof. split; [repeat constructor; lia | split; vm_compute; reflexivity]. Qed.

Lemma order_bytes_ok : limbs_lt 8 order_bytes /\ length order_bytes = 32%nat /\ be_val order_bytes = secp_n.
Proof. split; [repeat constructor; lia | split; vm_compute; reflexivity]. Qed.

Lemma negone_ok : FeI negone 1 (F_of_Z (-1)).
Proof.
  destruct (const_ok 0xFFFFFFFF 0xFFFFFFFF 0xFFFFFFFF 0xFFFFFFFF 0xFFFFFFFF 0xFFFFFFFF 0xFFFFFFFE 0xFFFFFC2E) as [H V];
    [repeat constructor; lia | vm_compute; reflexivity |].
  split; [now apply norm_mag |]. unfold negone. rewrite V. apply F_of_Z_eq. vm_compute. reflexivity.
Qed.

(** The inverse, and an abort for zero. *)
Lemma fe_inv_num_ok n m a v : num_mem n -> num_mem m -> FeI a 31 v ->
  match secp256k1_fe_inv_var n m a with
  | Some r => v <> 0%F /\ norm r /\ fv r = Zmod.inv v
  | None => v = 0%F
  end.
Proof.
  intros Hn Hm Ha. unfold secp256k1_fe_inv_var. cbv zeta. destruct (feI_normalize_var a 31 v Ha eq_refl) as [Hc Nc]. set (c := fe_normalize_var a) in *.
  destruct prime_bytes_ok as (Fp & Lp & Vp). rewrite (get_b32_ok c Nc), (proj2 Hc).
  destruct (inverse_bytes n m secp_p prime_bytes (Zmod.to_Z v) Hn Hm prime_secp_p Fp Lp Vp (F_to_Z_bound v)) as (i & w & -> & Ew & Rw & Iw). cbn [bind]. rewrite Ew. cbn [bind].
  destruct (set_b32_ok (be_bytes 32 w) (limbs_lt_be_bytes 32 w) (length_be_bytes 32 w)) as (_ & Mr & Vr & Nr). set (r := fst (fe_set_b32 (be_bytes 32 w))) in *.
  rewrite be_val_bytes, Z.mod_small in Vr, Nr by (unfold secp_p in Rw; lia). specialize (Nr (proj2 Rw)).
  pose proof (feI_add _ _ _ _ _ _ (feI_mul c r 1 1 v (F_of_Z w) Hc (conj Mr Vr) eq_refl) negone_ok eq_refl) as Hs.
  rewrite (proj2 (feI_zero _ _ _ Hs eq_refl)). destruct (F_eq_dec v 0%F) as [V0 | V0].
  - rewrite V0. replace (0 * F_of_Z w + F_of_Z (-1))%F with (F_of_Z (-1)) by ring. reflexivity.
  - assert (P : (v * F_of_Z w = 1)%F).
    { rewrite <- (F_of_to_Z v). unfold F_of_Z. rewrite <- Zmod.of_Z_mul. change 1%F with (F_of_Z 1). apply F_of_Z_eq. rewrite Z.mul_comm. apply Iw.
      intros Z0. apply V0. rewrite <- (F_of_to_Z v), Z0. reflexivity. }
    rewrite P. change (Zmod.eqb (1 + F_of_Z (-1))%F 0%F) with true. cbn [b2z z2b Z.eqb negb]. split; [exact V0 |]. split; [exact Nr |]. rewrite Vr.
    replace (Zmod.inv v) with (Zmod.inv v * (v * F_of_Z w))%F by (rewrite P; ring). field. exact V0.
Qed.

Lemma scalar_inverse_num_ok n m x : num_mem n -> num_mem m -> sok x ->
  match secp256k1_scalar_inverse_var n m x with
  | Some r => sv x <> 0 /\ sok r /\ (sv x * sv r) mod secp_n = 1
  | None => sv x = 0
  end.
Proof.
  intros Hn Hm Hx. unfold secp256k1_scalar_inverse_var. cbv zeta. rewrite (sc_get_b32_ok x Hx). destruct order_bytes_ok as (Fo & Lo & Vo).
  destruct (inverse_bytes n m secp_n order_bytes (sv x) Hn Hm prime_secp_n Fo Lo Vo (sv_range x Hx)) as (i & w & Ei & Ew & Rw & Iw).
  unfold secp256k1_scalar_order_get_num. rewrite Ei. cbn [bind]. rewrite Ew. cbn [bind].
  destruct (sc_set_b32_ok (be_bytes 32 w) (limbs_lt_be_bytes 32 w) (length_be_bytes 32 w)) as (Or & Vr & _). set (r := fst (sc_set_b32 (be_bytes 32 w))) in *.
  rewrite be_val_bytes, (Z.mod_small w) in Vr by (unfold secp_n in Rw; lia). rewrite Z.mod_small in Vr by exact Rw.
  destruct (sc_mul_ok x r Hx Or) as [Om Vm]. rewrite (sc_is_one_ok _ Om), Vm, Vr.
  destruct (Z.eq_dec (sv x) 0) as [X0 | X0]; [now rewrite X0 |]. specialize (Iw X0). rewrite Z.mul_comm in Iw. rewrite Iw. cbn. split; [exact X0 |].
  split; [exact Or | now rewrite Vr].
Qed.

Lemma fe_is_quad_num_ok n m a v : num_mem n -> num_mem m -> FeI a 31 v ->
  secp256k1_fe_is_quad_var n m a = Zmod.eqb (v ^ sqrt_exp * v ^ sqrt_exp)%F v.
Proof.
  intros Hn Hm Ha. unfold secp256k1_fe_is_quad_var. cbv zeta. destruct (feI_normalize_var a 31 v Ha eq_refl) as [Hc Nc]. set (c := fe_normalize_var a) in *.
  destruct prime_bytes_ok as (Fp & Lp & Vp). rewrite (get_b32_ok c Nc), (proj2 Hc). pose proof (F_to_Z_bound v) as Rv.
  destruct (num_set_bin_ok n (be_bytes 32 (Zmod.to_Z v)) Hn (limbs_lt_be_bytes 32 _) ltac:(rewrite length_be_bytes; lia)) as (Ka & Va & Na).
  destruct (num_set_bin_ok m prime_bytes Hm Fp ltac:(lia)) as (Km & Vm & Nm). pose proof (eq_refl : (secp_p <? 2 ^ (8 * Z.of_nat 32)) = true) as P256. apply Z.ltb_lt in P256. rewrite be_val_bytes, Z.mod_small in Va by lia.
  rewrite num_jacobi_ok by assumption. unfold num_val. rewrite Na, Va, Vm, Vp.
  destruct (mpz_jacobi_ok (Zmod.to_Z v) secp_p prime_secp_p ltac:(reflexivity)) as (Q0 & Q1 & Q2). rewrite (Z.mod_small _ _ Rv) in *.
  assert (Sq : (exists x, (x * x) mod secp_p = Zmod.to_Z v) <-> exists w, (w * w = v)%F).
  { split; intros [x Hx].
    - exists (F_of_Z x). unfold F_of_Z. rewrite <- Zmod.of_Z_mul. rewrite <- (F_of_to_Z v). apply F_of_Z_eq. rewrite Hx. symmetry. now apply Z.mod_small.
    - exists (Zmod.to_Z x). rewrite <- Hx. symmetry. apply Zmod.unsigned_mul. }
  destruct (sqrt_exp_spec v) as [[Ev Hv] | (_ & Nv & Hv)].
  - rewrite Ev, Zmod.eqb_refl. apply Z.leb_le. destruct (Z.eq_dec (Zmod.to_Z v) 0) as [V0 | V0]; [rewrite (proj2 Q0 V0); lia |].
    rewrite (proj2 Q1 (conj V0 (proj2 Sq Hv))). lia.
  - rewrite (proj2 Q2) by (intros Q; now apply Hv, Sq). destruct (Zmod.eqb _ _) eqn:Q; [apply Zmod.eqb_eq in Q; contradiction | reflexivity].
Qed.
End Users.
