(* ===== verification/Group.v ===== *)
(** Group elements, [group.h] and [group_impl.h], over any field
    representation: the structures and every operation on them. *)

From Stdlib Require Import ZArith Lia List Bool.
From S2P Require Import Prelude Limbs Fp FieldSpec FieldGen.
Import ListNotations.
Open Scope Z_scope.

Section Code.
Context {I : FieldImpl}.

(** Affine coordinates. *)
Record ge : Type := Ge { ge_x : fe; ge_y : fe; ge_infinity : Z }.

(** Jacobian coordinates: the point is [(x / z^2, y / z^3)]. *)
Record gej : Type := Gej { gej_x : fe; gej_y : fe; gej_z : fe; gej_infinity : Z }.

Record ge_storage : Type := GeS { ges_x : fe_storage; ges_y : fe_storage }.

(** [SECP256K1_GE_CONST]. *)
Definition ge_const (a b c d e f g h i j k l m n o p : Z) : ge :=
  Ge (fe_const a b c d e f g h) (fe_const i j k l m n o p) 0.

Definition secp256k1_ge_const_g : ge := ge_const
  0x79BE667E 0xF9DCBBAC 0x55A06295 0xCE870B07
  0x029BFCDB 0x2DCE28D9 0x59F2815B 0x16F81798
  0x483ADA77 0x26A3C465 0x5DA4FBFC 0x0E1108A8
  0xFD17B448 0xA6855419 0x9C47D08F 0xFB10D4B8.

Definition CURVE_B : Z := 7.

Definition secp256k1_ge_set_gej_zinv (a : gej) (zi : fe) : ge :=
  let zi2 := fe_sqr zi in
  let zi3 := fe_mul zi2 zi in
  Ge (fe_mul (gej_x a) zi2) (fe_mul (gej_y a) zi3) (gej_infinity a).

Definition secp256k1_ge_set_xy (x y : fe) : ge := Ge x y 0.

Definition secp256k1_ge_is_infinity (a : ge) : Z := ge_infinity a.

Definition secp256k1_ge_neg (a : ge) : ge :=
  let ry := fe_normalize_weak (ge_y a) in
  let ry := fe_negate ry 1 in
  Ge (ge_x a) ry (ge_infinity a).

(** Both [*r] and [*a] are written. *)
Definition secp256k1_ge_set_gej (a : gej) : ge * gej :=
  let az := secp256k1_fe_inv (gej_z a) in
  let z2 := fe_sqr az in
  let z3 := fe_mul az z2 in
  let ax := fe_mul (gej_x a) z2 in
  let ay := fe_mul (gej_y a) z3 in
  let az := fe_set_int 1 in
  (Ge ax ay (gej_infinity a), Gej ax ay az (gej_infinity a)).

(** [r] is the output before the call: for infinity its coordinates stay. *)
Definition secp256k1_ge_set_gej_var (r : ge) (a : gej) : ge * gej :=
  if z2b (gej_infinity a) then (Ge (ge_x r) (ge_y r) (gej_infinity a), a)
  else
    let az := secp256k1_fe_inv_var (gej_z a) in
    let z2 := fe_sqr az in
    let z3 := fe_mul az z2 in
    let ax := fe_mul (gej_x a) z2 in
    let ay := fe_mul (gej_y a) z3 in
    let az := fe_set_int 1 in
    (Ge ax ay (gej_infinity a), Gej ax ay az (gej_infinity a)).

(** ** Tables *)

(** The [z] coordinates of the finite points, [az[count++] = a[i].z]. *)
Fixpoint all_gej_collect (a : list gej) : list fe :=
  match a with
  | [] => []
  | p :: t => if negb (z2b (gej_infinity p)) then gej_z p :: all_gej_collect t else all_gej_collect t
  end.

(** The second loop, with [azi] the inverses not used yet. *)
Fixpoint all_gej_distribute (r : list ge) (a : list gej) (azi : list fe) : list ge :=
  match r, a with
  | q :: r', p :: a' =>
      if negb (z2b (gej_infinity p))
      then secp256k1_ge_set_gej_zinv p (nth_fe azi 0) :: all_gej_distribute r' a' (tl azi)
      else Ge (ge_x q) (ge_y q) (gej_infinity p) :: all_gej_distribute r' a' azi
  | _, _ => r
  end.

(** [r] is the output array before the call, as long as [a]; [mem] is the
    content of the freshly allocated [azi]. *)
Definition secp256k1_ge_set_all_gej_var (mem : list fe) (r : list ge) (a : list gej) : list ge :=
  let az := all_gej_collect a in
  let azi := secp256k1_fe_inv_all_var mem az in
  all_gej_distribute r a azi.

Definition gej_clear_val : gej := Gej fe_clear fe_clear fe_clear 0.
Definition nth_gej (l : list gej) (i : nat) : gej := nth i l gej_clear_val.
Definition nth_ge (l : list ge) (i : nat) : ge := nth i l (Ge fe_clear fe_clear 0).
Definition nth_ges (l : list ge_storage) (i : nat) : ge_storage :=
  nth i l (GeS (fe_to_storage fe_clear) (fe_to_storage fe_clear)).

(** [while (i > 0)] of [secp256k1_ge_set_table_gej_var]. *)
Fixpoint table_gej_loop (r : list ge) (a : list gej) (zr : list fe) (zi : fe) (i : nat) : list ge :=
  match i with
  | O => r
  | S i' =>
      let zi := fe_mul zi (nth_fe zr i) in
      let r := upd i' (secp256k1_ge_set_gej_zinv (nth_gej a i') zi) r in
      table_gej_loop r a zr zi i'
  end.

Definition secp256k1_ge_set_table_gej_var (r : list ge) (a : list gej) (zr : list fe) : list ge :=
  match length a with
  | O => r
  | S i =>
      let zi := secp256k1_fe_inv (gej_z (nth_gej a i)) in
      let r := upd i (secp256k1_ge_set_gej_zinv (nth_gej a i) zi) r in
      table_gej_loop r a zr zi i
  end.

(** [while (i > 0)] of [secp256k1_ge_globalz_set_table_gej]. *)
Fixpoint globalz_loop (len : nat) (r : list ge) (a : list gej) (zr : list fe) (zs : fe) (i : nat) : list ge :=
  match i with
  | O => r
  | S i' =>
      let zs := if negb (Nat.eqb i (len - 1)) then fe_mul zs (nth_fe zr i) else zs in
      let r := upd i' (secp256k1_ge_set_gej_zinv (nth_gej a i') zs) r in
      globalz_loop len r a zr zs i'
  end.

(** Returns the table and the common [z]; [globalz] is its value before. *)
Definition secp256k1_ge_globalz_set_table_gej (len : nat) (r : list ge) (globalz : fe) (a : list gej)
    (zr : list fe) : list ge * fe :=
  match len with
  | O => (r, globalz)
  | S i =>
      let r := upd i (Ge (gej_x (nth_gej a i)) (gej_y (nth_gej a i)) 0) r in
      let globalz := gej_z (nth_gej a i) in
      let zs := nth_fe zr i in
      (globalz_loop len r a zr zs i, globalz)
  end.

Definition secp256k1_gej_set_infinity : gej := Gej fe_clear fe_clear fe_clear 1.

Definition secp256k1_gej_clear : gej := Gej fe_clear fe_clear fe_clear 0.

Definition secp256k1_ge_clear : ge := Ge fe_clear fe_clear 0.

Definition secp256k1_ge_set_xquad (x : fe) : ge * Z :=
  let x2 := fe_sqr x in
  let x3 := fe_mul x x2 in
  let c := fe_set_int CURVE_B in
  let c := fe_add c x3 in
  let s := secp256k1_fe_sqrt c in
  (Ge x (fst s) 0, snd s).

Definition secp256k1_ge_set_xo_var (x : fe) (odd : Z) : ge * Z :=
  let '(r, ret) := secp256k1_ge_set_xquad x in
  if negb (z2b ret) then (r, 0)
  else
    let ry := fe_normalize_var (ge_y r) in
    let ry := if negb (fe_is_odd ry =? odd) then fe_negate ry 1 else ry in
    (Ge (ge_x r) ry (ge_infinity r), 1).

Definition secp256k1_gej_set_ge (a : ge) : gej := Gej (ge_x a) (ge_y a) (fe_set_int 1) (ge_infinity a).

Definition secp256k1_gej_eq_x_var (x : fe) (a : gej) : Z :=
  let r := fe_sqr (gej_z a) in
  let r := fe_mul r x in
  let r2 := gej_x a in
  let r2 := fe_normalize_weak r2 in
  secp256k1_fe_equal_var r r2.

Definition secp256k1_gej_neg (a : gej) : gej :=
  let ry := fe_normalize_weak (gej_y a) in
  let ry := fe_negate ry 1 in
  Gej (gej_x a) ry (gej_z a) (gej_infinity a).

Definition secp256k1_gej_is_infinity (a : gej) : Z := gej_infinity a.

Definition secp256k1_gej_is_valid_var (a : gej) : Z :=
  if z2b (gej_infinity a) then 0
  else
    let y2 := fe_sqr (gej_y a) in
    let x3 := fe_sqr (gej_x a) in
    let x3 := fe_mul x3 (gej_x a) in
    let z2 := fe_sqr (gej_z a) in
    let z6 := fe_sqr z2 in
    let z6 := fe_mul z6 z2 in
    let z6 := fe_mul_int z6 CURVE_B in
    let x3 := fe_add x3 z6 in
    let x3 := fe_normalize_weak x3 in
    secp256k1_fe_equal_var y2 x3.

Definition secp256k1_ge_is_valid_var (a : ge) : Z :=
  if z2b (ge_infinity a) then 0
  else
    let y2 := fe_sqr (ge_y a) in
    let x3 := fe_sqr (ge_x a) in
    let x3 := fe_mul x3 (ge_x a) in
    let c := fe_set_int CURVE_B in
    let x3 := fe_add x3 c in
    let x3 := fe_normalize_weak x3 in
    secp256k1_fe_equal_var y2 x3.

(** ** Addition

    [r] is the output before the call: where the code only sets the infinity
    flag, the coordinates stay.  [rzr] is [None] for a null pointer and
    [Some z] for a pointer to a cell holding [z]; the cell after the call is
    returned.  The output may be one of the inputs: no coordinate of an input
    is read after the same coordinate of the output is written. *)

(** [if (rzr != NULL) *rzr = v]. *)
Definition set_rzr (rzr : option fe) (v : fe) : option fe :=
  match rzr with
  | None => None
  | Some _ => Some v
  end.

Definition secp256k1_gej_double_var (r a : gej) (rzr : option fe) : gej * option fe :=
  if z2b (gej_infinity a)
  then (Gej (gej_x r) (gej_y r) (gej_z r) (gej_infinity a), set_rzr rzr (fe_set_int 1))
  else
    let zr := gej_y a in
    let zr := fe_normalize_weak zr in
    let zr := fe_mul_int zr 2 in
    let rz := fe_mul (gej_z a) (gej_y a) in
    let rz := fe_mul_int rz 2 in
    let t1 := fe_sqr (gej_x a) in
    let t1 := fe_mul_int t1 3 in
    let t2 := fe_sqr t1 in
    let t3 := fe_sqr (gej_y a) in
    let t3 := fe_mul_int t3 2 in
    let t4 := fe_sqr t3 in
    let t4 := fe_mul_int t4 2 in
    let t3 := fe_mul t3 (gej_x a) in
    let rx := t3 in
    let rx := fe_mul_int rx 4 in
    let rx := fe_negate rx 4 in
    let rx := fe_add rx t2 in
    let t2 := fe_negate t2 1 in
    let t3 := fe_mul_int t3 6 in
    let t3 := fe_add t3 t2 in
    let ry := fe_mul t1 t3 in
    let t2 := fe_negate t4 2 in
    let ry := fe_add ry t2 in
    (Gej rx ry rz (gej_infinity a), set_rzr rzr zr).

Definition secp256k1_gej_double_nonzero (r a : gej) (rzr : option fe) : gej * option fe :=
  secp256k1_gej_double_var r a rzr.

(** The end of the three additions with a special case for equal abscissas:
    [h = u2 - u1] is not zero, [i = s2 - s1]. *)
Definition add_finish (u1 s1 h i rz : fe) : gej :=
  let i2 := fe_sqr i in
  let h2 := fe_sqr h in
  let h3 := fe_mul h h2 in
  let t := fe_mul u1 h2 in
  let rx := t in
  let rx := fe_mul_int rx 2 in
  let rx := fe_add rx h3 in
  let rx := fe_negate rx 3 in
  let rx := fe_add rx i2 in
  let ry := fe_negate rx 5 in
  let ry := fe_add ry t in
  let ry := fe_mul ry i in
  let h3 := fe_mul h3 s1 in
  let h3 := fe_negate h3 1 in
  let ry := fe_add ry h3 in
  Gej rx ry rz 0.

Definition secp256k1_gej_add_var (r a b : gej) (rzr : option fe) : gej * option fe :=
  if z2b (gej_infinity a) then (b, rzr)
  else if z2b (gej_infinity b) then (a, set_rzr rzr (fe_set_int 1))
  else
    let z22 := fe_sqr (gej_z b) in
    let z12 := fe_sqr (gej_z a) in
    let u1 := fe_mul (gej_x a) z22 in
    let u2 := fe_mul (gej_x b) z12 in
    let s1 := fe_mul (gej_y a) z22 in
    let s1 := fe_mul s1 (gej_z b) in
    let s2 := fe_mul (gej_y b) z12 in
    let s2 := fe_mul s2 (gej_z a) in
    let h := fe_negate u1 1 in
    let h := fe_add h u2 in
    let i := fe_negate s1 1 in
    let i := fe_add i s2 in
    if z2b (fe_normalizes_to_zero_var h) then
      if z2b (fe_normalizes_to_zero_var i)
      then secp256k1_gej_double_var (Gej (gej_x r) (gej_y r) (gej_z r) 0) a rzr
      else (Gej (gej_x r) (gej_y r) (gej_z r) 1, set_rzr rzr (fe_set_int 0))
    else
      let hz := fe_mul h (gej_z b) in
      let rz := fe_mul (gej_z a) hz in
      (add_finish u1 s1 h i rz, set_rzr rzr hz).

Definition secp256k1_gej_add_ge_var (r a : gej) (b : ge) (rzr : option fe) : gej * option fe :=
  if z2b (gej_infinity a) then (secp256k1_gej_set_ge b, rzr)
  else if z2b (ge_infinity b) then (a, set_rzr rzr (fe_set_int 1))
  else
    let z12 := fe_sqr (gej_z a) in
    let u1 := fe_normalize_weak (gej_x a) in
    let u2 := fe_mul (ge_x b) z12 in
    let s1 := fe_normalize_weak (gej_y a) in
    let s2 := fe_mul (ge_y b) z12 in
    let s2 := fe_mul s2 (gej_z a) in
    let h := fe_negate u1 1 in
    let h := fe_add h u2 in
    let i := fe_negate s1 1 in
    let i := fe_add i s2 in
    if z2b (fe_normalizes_to_zero_var h) then
      if z2b (fe_normalizes_to_zero_var i)
      then secp256k1_gej_double_var (Gej (gej_x r) (gej_y r) (gej_z r) 0) a rzr
      else (Gej (gej_x r) (gej_y r) (gej_z r) 1, set_rzr rzr (fe_set_int 0))
    else
      let rz := fe_mul (gej_z a) h in
      (add_finish u1 s1 h i rz, set_rzr rzr h).

Definition secp256k1_gej_add_zinv_var (r a : gej) (b : ge) (bzinv : fe) : gej :=
  if z2b (ge_infinity b) then a
  else if z2b (gej_infinity a) then
    let bzinv2 := fe_sqr bzinv in
    let bzinv3 := fe_mul bzinv2 bzinv in
    Gej (fe_mul (ge_x b) bzinv2) (fe_mul (ge_y b) bzinv3) (fe_set_int 1) (ge_infinity b)
  else
    let az := fe_mul (gej_z a) bzinv in
    let z12 := fe_sqr az in
    let u1 := fe_normalize_weak (gej_x a) in
    let u2 := fe_mul (ge_x b) z12 in
    let s1 := fe_normalize_weak (gej_y a) in
    let s2 := fe_mul (ge_y b) z12 in
    let s2 := fe_mul s2 az in
    let h := fe_negate u1 1 in
    let h := fe_add h u2 in
    let i := fe_negate s1 1 in
    let i := fe_add i s2 in
    if z2b (fe_normalizes_to_zero_var h) then
      if z2b (fe_normalizes_to_zero_var i)
      then fst (secp256k1_gej_double_var (Gej (gej_x r) (gej_y r) (gej_z r) 0) a None)
      else Gej (gej_x r) (gej_y r) (gej_z r) 1
    else
      let rz := fe_mul (gej_z a) h in
      add_finish u1 s1 h i rz.

Definition add_ge_fe_1 : fe := fe_const 0 0 0 0 0 0 0 1.

Definition secp256k1_gej_add_ge (a : gej) (b : ge) : gej :=
  let zz := fe_sqr (gej_z a) in
  let u1 := fe_normalize_weak (gej_x a) in
  let u2 := fe_mul (ge_x b) zz in
  let s1 := fe_normalize_weak (gej_y a) in
  let s2 := fe_mul (ge_y b) zz in
  let s2 := fe_mul s2 (gej_z a) in
  let t := fe_add u1 u2 in
  let m := fe_add s1 s2 in
  let rr := fe_sqr t in
  let m_alt := fe_negate u2 1 in
  let tt := fe_mul u1 m_alt in
  let rr := fe_add rr tt in
  let degenerate := Z.land (fe_normalizes_to_zero m) (fe_normalizes_to_zero rr) in
  let rr_alt := s1 in
  let rr_alt := fe_mul_int rr_alt 2 in
  let m_alt := fe_add m_alt u1 in
  let rr_alt := fe_cmov rr_alt rr (b2z (negb (z2b degenerate))) in
  let m_alt := fe_cmov m_alt m (b2z (negb (z2b degenerate))) in
  let n := fe_sqr m_alt in
  let q := fe_mul n t in
  let n := fe_sqr n in
  let n := fe_cmov n m degenerate in
  let t := fe_sqr rr_alt in
  let rz := fe_mul (gej_z a) m_alt in
  let infinity := fe_normalizes_to_zero rz * (1 - gej_infinity a) in
  let rz := fe_mul_int rz 2 in
  let q := fe_negate q 1 in
  let t := fe_add t q in
  let t := fe_normalize_weak t in
  let rx := t in
  let t := fe_mul_int t 2 in
  let t := fe_add t q in
  let t := fe_mul t rr_alt in
  let t := fe_add t n in
  let ry := fe_negate t 3 in
  let ry := fe_normalize_weak ry in
  let rx := fe_mul_int rx 4 in
  let ry := fe_mul_int ry 4 in
  let rx := fe_cmov rx (ge_x b) (gej_infinity a) in
  let ry := fe_cmov ry (ge_y b) (gej_infinity a) in
  let rz := fe_cmov rz add_ge_fe_1 (gej_infinity a) in
  Gej rx ry rz infinity.

(** ** Rescaling, storage, the endomorphism *)

Definition secp256k1_gej_rescale (r : gej) (s : fe) : gej :=
  let zz := fe_sqr s in
  let rx := fe_mul (gej_x r) zz in
  let ry := fe_mul (gej_y r) zz in
  let ry := fe_mul ry s in
  let rz := fe_mul (gej_z r) s in
  Gej rx ry rz (gej_infinity r).

Definition secp256k1_ge_to_storage (a : ge) : ge_storage :=
  let x := fe_normalize (ge_x a) in
  let y := fe_normalize (ge_y a) in
  GeS (fe_to_storage x) (fe_to_storage y).

Definition secp256k1_ge_from_storage (a : ge_storage) : ge :=
  Ge (fe_from_storage (ges_x a)) (fe_from_storage (ges_y a)) 0.

Definition secp256k1_ge_storage_cmov (r a : ge_storage) (flag : Z) : ge_storage :=
  GeS (fe_storage_cmov (ges_x r) (ges_x a) flag) (fe_storage_cmov (ges_y r) (ges_y a) flag).

(** [USE_ENDOMORPHISM]. *)
Definition mul_lambda_beta : fe := fe_const
  0x7ae96a2b 0x657c0710 0x6e64479e 0xac3434e9 0x9cf04975 0x12f58995 0xc1396c28 0x719501ee.

Definition secp256k1_ge_mul_lambda (a : ge) : ge :=
  Ge (fe_mul (ge_x a) mul_lambda_beta) (ge_y a) (ge_infinity a).

Definition secp256k1_gej_has_quad_y_var (a : gej) : Z :=
  if z2b (gej_infinity a) then 0
  else
    let yz := fe_mul (gej_y a) (gej_z a) in
    secp256k1_fe_is_quad_var yz.
End Code.
