(* ===== verification/GroupSpec.v ===== *)
(** What the group code computes: every operation of [Group.v] against the
    affine law of [Curve.v]. *)

From Stdlib Require Import ZArith Lia List Bool Zmod Field.
From S2P Require Import Prelude Limbs Primes Fp Curve CurveGroup FieldSpec FieldGen Group.
Import ListNotations.
Open Scope Z_scope.

Section Specs.
Context {I : FieldImpl} {L : FieldLaws I}.

(** * The point an element stands for *)

Definition ge_pt (a : ge) : point :=
  if z2b (ge_infinity a) then Inf else Aff (fv (ge_x a)) (fv (ge_y a)).

Definition gej_pt (a : gej) : point :=
  if z2b (gej_infinity a) then Inf
  else Aff (fv (gej_x a) / fv (gej_z a) ^ 2)%F (fv (gej_y a) / fv (gej_z a) ^ 3)%F.

(** Magnitudes the multiplications accept, a boolean flag, and a [z] that is
    not zero. *)
Definition ge_wf (a : ge) : Prop :=
  mag 8 (ge_x a) /\ mag 8 (ge_y a) /\ Rng (ge_infinity a) 1.

Definition gej_wf (a : gej) : Prop :=
  mag 8 (gej_x a) /\ mag 8 (gej_y a) /\ mag 8 (gej_z a) /\ Rng (gej_infinity a) 1 /\
  (gej_infinity a = 0 -> fv (gej_z a) <> 0%F).

(** What an output may hold before a call: any coordinates of these magnitudes. *)
Definition gej_mem (a : gej) : Prop := mag 8 (gej_x a) /\ mag 8 (gej_y a) /\ mag 8 (gej_z a).

Lemma gej_wf_mem a : gej_wf a -> gej_mem a.
Proof. intros (? & ? & ? & _). now repeat split. Qed.

(** No doubling of a point with ordinate zero. *)
Definition y_nz (P : point) : Prop :=
  match P with
  | Inf => True
  | Aff _ y => y <> 0%F
  end.

Lemma secp_y_nz_pt P : secp P -> y_nz P.
Proof. destruct P; [trivial |]. apply secp_y_nz. Qed.

(** What a cell of [rzr] holds: the ratio of the [z] coordinates. *)
Definition rzr_ok (a r : gej) (rzr : option fe) : Prop :=
  match rzr with
  | None => True
  | Some z => mag 8 z /\ fv (gej_z r) = (fv z * fv (gej_z a))%F
  end.

Lemma div_nz (x z : F) : (x / z <> 0)%F -> x <> 0%F.
Proof. intros H ->. apply H. unfold Zmod.mdiv. ring. Qed.

Lemma z2b_0 z : Rng z 1 -> z2b z = false -> z = 0.
Proof. unfold z2b, Rng. destruct (Z.eqb_spec z 0); cbn; [trivial | discriminate]. Qed.

(** Feed the coordinates of a finite element to [fe_step]. *)
Lemma gej_wf_inv a : gej_wf a -> z2b (gej_infinity a) = false ->
  FeI (gej_x a) 8 (fv (gej_x a)) /\ FeI (gej_y a) 8 (fv (gej_y a)) /\ FeI (gej_z a) 8 (fv (gej_z a)) /\
  fv (gej_z a) <> 0%F /\ gej_infinity a = 0.
Proof.
  intros (Hx & Hy & Hz & Hi & Hnz) E. apply (z2b_0 _ Hi) in E. repeat split; auto.
Qed.

Lemma gej_pt_fin rx ry rz : gej_pt (Gej rx ry rz 0) = Aff (fv rx / fv rz ^ 2)%F (fv ry / fv rz ^ 3)%F.
Proof. reflexivity. Qed.

Lemma gej_result rx ry rz mx my mz vx vy vz : FeI rx mx vx -> FeI ry my vy -> FeI rz mz vz ->
  (mx <=? 8) && (my <=? 8) && (mz <=? 8) = true -> vz <> 0%F ->
  gej_wf (Gej rx ry rz 0) /\ gej_pt (Gej rx ry rz 0) = Aff (vx / vz ^ 2)%F (vy / vz ^ 3)%F.
Proof.
  intros Hx Hy Hz Hm Hnz. rewrite !andb_true_iff in Hm. destruct Hm as [[Mx My] Mz].
  pose proof (mag_8 _ _ _ Hx Mx). pose proof (mag_8 _ _ _ Hy My). pose proof (mag_8 _ _ _ Hz Mz).
  destruct Hx as [_ Ex], Hy as [_ Ey], Hz as [_ Ez]. unfold gej_wf, gej_pt, Rng.
  cbn [gej_x gej_y gej_z gej_infinity z2b negb Z.eqb]. rewrite Ex, Ey, Ez. repeat split; auto; lia.
Qed.

(** The code has built a finite element: its point, from the values of the
    coordinates, once the value of [z] is shown not to be zero. *)
Ltac gej_finish W P :=
  lazymatch goal with
  | |- context [gej_wf (Gej ?rx ?ry ?rz 0)] =>
      lazymatch goal with
      | Hx : FeI rx _ _ |- _ =>
          lazymatch goal with
          | Hy : FeI ry _ _ |- _ =>
              lazymatch goal with
              | Hz : FeI rz _ _ |- _ =>
                  edestruct (gej_result rx ry rz _ _ _ _ _ _ Hx Hy Hz eq_refl) as [W P]
              end
          end
      end
  end.

(** * Doubling *)

Lemma tangent_third (x y z : F) : y <> 0%F -> z <> 0%F ->
  padd (Aff (x / z ^ 2) (y / z ^ 3))%F (Aff (x / z ^ 2) (y / z ^ 3))%F =
  Aff ((F_of_Z 9 * x ^ 4 - F_of_Z 8 * x * y ^ 2) / (F_of_Z 2 * y * z) ^ 2)%F
      ((F_of_Z 36 * x ^ 3 * y ^ 2 - F_of_Z 27 * x ^ 6 - F_of_Z 8 * y ^ 4) / (F_of_Z 2 * y * z) ^ 3)%F.
Proof.
  intros Hy Hz. pose proof F2_nz. rewrite padd_line.
  - unfold third, slope. rewrite (proj2 (Zmod.eqb_eq _ _) eq_refl). f_equal; field; auto.
  - cbn [pneg]. intros E. apply aff_inj in E as [_ E]. apply Hy. apply opp_eq_0. 
    apply (F_cancel (1 / z ^ 3)%F).
    + intros E'. apply (Zmod.one_neq_zero (m := secp_p)); [discriminate |].
      replace 1%F with ((1 / z ^ 3) * z ^ 3)%F by now field. rewrite E'. ring.
    + transitivity (y / z ^ 3)%F; [now field |]. rewrite E. now field.
Qed.

Lemma gej_double_var_ok r a rzr : gej_mem r -> gej_wf a -> y_nz (gej_pt a) ->
  let p := secp256k1_gej_double_var r a rzr in
  gej_wf (fst p) /\ gej_pt (fst p) = padd (gej_pt a) (gej_pt a) /\
  (gej_infinity a = 0 -> gej_infinity (fst p) = 0 /\ rzr_ok a (fst p) (snd p)).
Proof.
  intros Hr Ha Hy p. subst p. destruct (z2b (gej_infinity a)) eqn:Ei.
  { unfold secp256k1_gej_double_var, gej_pt. rewrite Ei. cbn. rewrite Ei.
    destruct Ha as (_ & _ & _ & Hi & _). destruct Hr as (? & ? & ?).
    assert (gej_infinity a <> 0) by (intros E; rewrite E in Ei; discriminate).
    repeat split; try assumption; try apply Hi; contradiction. }
  destruct (gej_wf_inv a Ha Ei) as (Hx & Hya & Hz & Hnz & E0).
  unfold gej_pt in Hy. unfold gej_pt at 2 3. rewrite Ei in *. cbn [y_nz] in Hy. apply div_nz in Hy.
  unfold rzr_ok. revert Hx Hya Hz Hnz Hy.
  generalize (fv (gej_x a)) as X, (fv (gej_y a)) as Y, (fv (gej_z a)) as Z.
  intros X Y Z Hx Hya Hz Hnz Hy.
  pattern (secp256k1_gej_double_var r a rzr). apply wp_intro. cbv beta delta [secp256k1_gej_double_var].
  rewrite Ei, E0. repeat fe_step. wp_done. cbn [fst snd gej_infinity gej_x gej_y gej_z].
  gej_finish W P; [subst; auto 10 with fnz |].
  split; [exact W |]. rewrite P, tangent_third by assumption. split.
  - subst. f_equal; f_equal; ring.
  - intros _. split; [reflexivity |]. destruct rzr; cbn [set_rzr]; [| exact Logic.I].
    split; [fe_mag |]. fe_vals. subst. ring.
Qed.

(** * Addition *)

(** The two points over a common denominator [k]. *)
Section Scaled.
Variables c k U1 S1 U2 S2 : F.
Hypothesis Hk : k <> 0%F.
Let P := Aff (U1 / k ^ 2)%F (S1 / k ^ 3)%F.
Let Q := Aff (U2 / k ^ 2)%F (S2 / k ^ 3)%F.

Lemma scaled_x : (U1 / k ^ 2 = U2 / k ^ 2)%F -> U1 = U2.
Proof.
  intros E. transitivity (U1 / k ^ 2 * k ^ 2)%F; [now field |]. rewrite E. now field.
Qed.

Lemma scaled_chord : (- U1 + U2 <> 0)%F ->
  let H := (- U1 + U2)%F in let R := (- S1 + S2)%F in let X := (R ^ 2 - H ^ 3 - F_of_Z 2 * U1 * H ^ 2)%F in
  padd P Q = Aff (X / (k * H) ^ 2)%F ((R * (U1 * H ^ 2 - X) - S1 * H ^ 3) / (k * H) ^ 3)%F.
Proof.
  intros HH H R X. assert (D : (U2 - U1 <> 0)%F) by (intros E; apply HH; rewrite <- E; ring).
  assert (N : (U1 / k ^ 2)%F <> (U2 / k ^ 2)%F).
  { intros E. apply scaled_x in E. apply D. rewrite E. ring. }
  unfold P, Q. rewrite padd_line.
  - unfold third, slope. destruct (eqb_F_spec (U1 / k ^ 2) (U2 / k ^ 2)); [contradiction |]. unfold X, R, H. f_equal; field; auto.
  - intros E. apply aff_inj in E as [E _]. congruence.
Qed.

Lemma scaled_same : on_curve c P -> on_curve c Q -> U1 = U2 ->
  (S1 = S2 -> P = Q) /\ (S1 <> S2 -> padd P Q = Inf).
Proof.
  intros OP OQ EU. split; [intros ES; unfold P, Q; now rewrite EU, ES |].
  intros NS. assert (E : Q = pneg P); [| now rewrite E, padd_neg_r].
  unfold P, Q in *. cbn [on_curve pneg] in *. rewrite EU in *. rewrite <- OP in OQ. f_equal.
  apply F_square_eq in OQ as [E | E]; [| exact E]. destruct NS.
  transitivity (S1 / k ^ 3 * k ^ 3)%F; [now field |]. rewrite <- E. now field.
Qed.
End Scaled.

Lemma add_finish_ok u1 s1 h i rz U1 S1 H R Zr :
  FeI u1 1 U1 -> FeI s1 1 S1 -> FeI h 3 H -> FeI i 3 R -> FeI rz 1 Zr -> Zr <> 0%F ->
  let X := (R ^ 2 - H ^ 3 - F_of_Z 2 * U1 * H ^ 2)%F in
  gej_wf (add_finish u1 s1 h i rz) /\
  gej_pt (add_finish u1 s1 h i rz) = Aff (X / Zr ^ 2)%F ((R * (U1 * H ^ 2 - X) - S1 * H ^ 3) / Zr ^ 3)%F /\
  gej_z (add_finish u1 s1 h i rz) = rz.
Proof.
  intros Hu Hs Hh Hi Hz Hnz X. pattern (add_finish u1 s1 h i rz). apply wp_intro.
  cbv beta delta [add_finish]. repeat fe_step. wp_done. gej_finish W P; [assumption |].
  split; [exact W |]. split; [| reflexivity]. rewrite P. unfold X. subst. f_equal; f_equal; ring.
Qed.

(** What the three additions share from the test of [h] on. *)
Definition add_tail (r a : gej) (rzr : option fe) (u1 s1 h i rz zr : fe) : gej * option fe :=
  if z2b (fe_normalizes_to_zero_var h) then
    if z2b (fe_normalizes_to_zero_var i)
    then secp256k1_gej_double_var (Gej (gej_x r) (gej_y r) (gej_z r) 0) a rzr
    else (Gej (gej_x r) (gej_y r) (gej_z r) 1, set_rzr rzr (fe_set_int 0))
  else (add_finish u1 s1 h i rz, set_rzr rzr zr).

(** The result of an addition: the sum, and the ratio of the [z]s. *)
Definition add_result (a : gej) (P Q : point) (p : gej * option fe) : Prop :=
  gej_wf (fst p) /\ gej_pt (fst p) = padd P Q /\
  (gej_infinity (fst p) = 0 -> rzr_ok a (fst p) (snd p)).

Lemma gej_wf_flag r i : gej_mem r -> gej_wf (Gej (gej_x r) (gej_y r) (gej_z r) i) <->
  Rng i 1 /\ (i = 0 -> fv (gej_z r) <> 0%F).
Proof. intros (? & ? & ?). unfold gej_wf. cbn. tauto. Qed.

Lemma double_flag r i a rzr : z2b (gej_infinity a) = false ->
  secp256k1_gej_double_var (Gej (gej_x r) (gej_y r) (gej_z r) i) a rzr = secp256k1_gej_double_var r a rzr.
Proof. intros E. unfold secp256k1_gej_double_var. now rewrite E. Qed.

Lemma eqb_neg_add (x y : F) : Zmod.eqb (- x + y)%F 0%F = Zmod.eqb x y.
Proof. apply eqb_sub. Qed.

Lemma add_tail_ok c k r a rzr u1 s1 h i rz zr U1 S1 U2 S2 w :
  gej_mem r -> gej_wf a -> gej_infinity a = 0 -> y_nz (gej_pt a) -> k <> 0%F ->
  let Q := Aff (U2 / k ^ 2)%F (S2 / k ^ 3)%F in
  gej_pt a = Aff (U1 / k ^ 2)%F (S1 / k ^ 3)%F -> on_curve c (gej_pt a) -> on_curve c Q ->
  FeI u1 1 U1 -> FeI s1 1 S1 -> FeI h 3 (- U1 + U2)%F -> FeI i 3 (- S1 + S2)%F ->
  FeI rz 1 (k * (- U1 + U2))%F -> FeI zr 8 (w * (- U1 + U2))%F -> (k = w * fv (gej_z a))%F ->
  add_result a (gej_pt a) Q (add_tail r a rzr u1 s1 h i rz zr).
Proof.
  intros Hr Ha Ea Hy Hk Q EP OP OQ Hu Hs Hh Hi Hz Hv EV. unfold add_tail.
  destruct (feI_zero _ _ _ Hh eq_refl) as [_ ->]. destruct (feI_zero _ _ _ Hi eq_refl) as [_ ->].
  rewrite !b2z_b2z, !eqb_neg_add. rewrite EP in OP.
  destruct (eqb_F_spec U1 U2) as [EU | NU].
  - destruct (scaled_same c k U1 S1 U2 S2 Hk OP OQ EU) as [Same Opp].
    destruct (eqb_F_spec S1 S2) as [ES | NS].
    + fold Q in Same. rewrite <- (Same ES), <- EP. rewrite double_flag by now rewrite Ea.
      destruct (gej_double_var_ok r a rzr Hr Ha Hy) as (W & D & Z).
      split; [exact W |]. split; [exact D |]. intros _. now apply Z.
    + split; [apply gej_wf_flag; [exact Hr | unfold Rng; lia] |].
      split; [| discriminate]. rewrite EP. symmetry. now apply Opp.
  - assert (NH : (- U1 + U2 <> 0)%F).
    { intros E. apply NU. rewrite <- (Zmod.add_0_r U1), <- E. ring. }
    destruct (add_finish_ok u1 s1 h i rz _ _ _ _ _ Hu Hs Hh Hi Hz) as (W & D & Z).
    { now apply F_mul_nz. }
    split; [exact W |]. cbn [fst snd]. split.
    + rewrite D, EP. symmetry. now apply scaled_chord.
    + intros _. destruct rzr; cbn [set_rzr rzr_ok]; [| exact Logic.I]. rewrite Z.
      split; [now apply (mag_8 _ _ _ Hv) |]. fe_vals. rewrite EV. ring.
Qed.

Lemma gej_pt_inf a : z2b (gej_infinity a) = true -> gej_pt a = Inf.
Proof. unfold gej_pt. now intros ->. Qed.

Lemma ge_pt_inf a : z2b (ge_infinity a) = true -> ge_pt a = Inf.
Proof. unfold ge_pt. now intros ->. Qed.

Lemma one_is : FeI (fe_set_int 1) 1 1%F.
Proof. exact (feI_set_int 1 eq_refl). Qed.

(** Adding infinity on the right. *)
Lemma add_inf_r a rzr : gej_wf a -> add_result a (gej_pt a) Inf (a, set_rzr rzr (fe_set_int 1)).
Proof.
  intros Ha. split; [exact Ha |]. split; [now rewrite padd_inf_r |]. intros _.
  destruct rzr; cbn [set_rzr rzr_ok snd]; [| exact Logic.I]. pose proof one_is as H1.
  split; [exact (mag_8 _ _ _ H1 eq_refl) |]. fe_vals. cbn [fst]. ring.
Qed.

Lemma gej_add_var_ok c r a b rzr : gej_mem r -> gej_wf a -> gej_wf b ->
  (gej_infinity a <> 0 -> rzr = None) -> y_nz (gej_pt a) ->
  on_curve c (gej_pt a) -> on_curve c (gej_pt b) ->
  add_result a (gej_pt a) (gej_pt b) (secp256k1_gej_add_var r a b rzr).
Proof.
  intros Hr Ha Hb Hn Hy OA OB. unfold secp256k1_gej_add_var.
  destruct (z2b (gej_infinity a)) eqn:Ea.
  { rewrite (gej_pt_inf a Ea). split; [exact Hb |]. split; [reflexivity |]. intros _.
    rewrite Hn; [exact Logic.I |]. intros E. now rewrite E in Ea. }
  destruct (z2b (gej_infinity b)) eqn:Eb; [rewrite (gej_pt_inf b Eb); now apply add_inf_r |].
  destruct (gej_wf_inv a Ha Ea) as (Hax & Hay & Haz & Za & Ia).
  destruct (gej_wf_inv b Hb Eb) as (Hbx & Hby & Hbz & Zb & Ib).
  set (k := (fv (gej_z a) * fv (gej_z b))%F). assert (Hk : k <> 0%F) by now apply F_mul_nz.
  assert (EA : gej_pt a = Aff (fv (gej_x a) * fv (gej_z b) ^ 2 / k ^ 2)%F (fv (gej_y a) * fv (gej_z b) ^ 3 / k ^ 3)%F).
  { unfold gej_pt. rewrite Ea. unfold k. f_equal; field; auto. }
  assert (EB : gej_pt b = Aff (fv (gej_x b) * fv (gej_z a) ^ 2 / k ^ 2)%F (fv (gej_y b) * fv (gej_z a) ^ 3 / k ^ 3)%F).
  { unfold gej_pt. rewrite Eb. unfold k. f_equal; field; auto. }
  rewrite EB in *.
  refine (add_tail_ok c k r a rzr _ _ _ _ _ _ _ _ _ _ (fv (gej_z b))
    Hr Ha Ia Hy Hk EA OA OB _ _ _ _ _ _ _); try (fe_is; unfold k; ring). unfold k. ring.
Qed.

Lemma ge_wf_inv b : ge_wf b -> FeI (ge_x b) 8 (fv (ge_x b)) /\ FeI (ge_y b) 8 (fv (ge_y b)).
Proof. intros (Hx & Hy & _). now repeat split. Qed.

Lemma gej_set_ge_ok b : ge_wf b -> gej_wf (secp256k1_gej_set_ge b) /\ gej_pt (secp256k1_gej_set_ge b) = ge_pt b.
Proof.
  intros (Hx & Hy & Hi). pose proof one_is as H1.
  unfold secp256k1_gej_set_ge, gej_wf, gej_pt, ge_pt. cbn [gej_x gej_y gej_z gej_infinity].
  assert (N : (1 : F)%F <> 0%F) by (apply Zmod.one_neq_zero; discriminate).
  repeat split; auto; try apply Hi; [fe_mag | fe_vals; intros _; exact N |].
  destruct (z2b _); [reflexivity |]. fe_vals. f_equal; field; exact N.
Qed.

Lemma gej_add_ge_var_ok c r a b rzr : gej_mem r -> gej_wf a -> ge_wf b ->
  (gej_infinity a <> 0 -> rzr = None) -> y_nz (gej_pt a) ->
  on_curve c (gej_pt a) -> on_curve c (ge_pt b) ->
  add_result a (gej_pt a) (ge_pt b) (secp256k1_gej_add_ge_var r a b rzr).
Proof.
  intros Hr Ha Hb Hn Hy OA OB. unfold secp256k1_gej_add_ge_var.
  destruct (z2b (gej_infinity a)) eqn:Ea.
  { rewrite (gej_pt_inf a Ea). destruct (gej_set_ge_ok b Hb) as [W P]. split; [exact W |].
    split; [exact P |]. intros _. rewrite Hn; [exact Logic.I |]. intros E. now rewrite E in Ea. }
  destruct (z2b (ge_infinity b)) eqn:Eb; [rewrite (ge_pt_inf b Eb); now apply add_inf_r |].
  destruct (gej_wf_inv a Ha Ea) as (Hax & Hay & Haz & Za & Ia). destruct (ge_wf_inv b Hb) as [Hbx Hby].
  set (k := fv (gej_z a)) in *.
  assert (EA : gej_pt a = Aff (fv (gej_x a) / k ^ 2)%F (fv (gej_y a) / k ^ 3)%F).
  { unfold gej_pt. now rewrite Ea. }
  assert (EB : ge_pt b = Aff (fv (ge_x b) * k ^ 2 / k ^ 2)%F (fv (ge_y b) * k ^ 3 / k ^ 3)%F).
  { unfold ge_pt. rewrite Eb. f_equal; now field. }
  rewrite EB in *.
  refine (add_tail_ok c k r a rzr _ _ _ _ _ _ _ _ _ _ 1%F Hr Ha Ia Hy Za EA OA OB _ _ _ _ _ _ _);
    try (fe_is; ring). fold k. ring.
Qed.

(** [b] with its [z] inverse [bzinv]: the point [(x * bzinv^2, y * bzinv^3)]. *)
Definition zinv_pt (b : ge) (bzinv : fe) : point :=
  if z2b (ge_infinity b) then Inf else Aff (fv (ge_x b) * fv bzinv ^ 2)%F (fv (ge_y b) * fv bzinv ^ 3)%F.

Lemma gej_add_zinv_var_ok c r a b bzinv : gej_mem r -> gej_wf a -> ge_wf b -> mag 8 bzinv ->
  y_nz (gej_pt a) -> on_curve c (gej_pt a) -> on_curve c (zinv_pt b bzinv) ->
  gej_wf (secp256k1_gej_add_zinv_var r a b bzinv) /\
  gej_pt (secp256k1_gej_add_zinv_var r a b bzinv) = padd (gej_pt a) (zinv_pt b bzinv).
Proof.
  intros Hr Ha Hb Hm Hy OA OB. unfold secp256k1_gej_add_zinv_var, zinv_pt in *.
  destruct (z2b (ge_infinity b)) eqn:Eb; [now rewrite padd_inf_r |].
  destruct (ge_wf_inv b Hb) as [Hbx Hby]. assert (Hzi : FeI bzinv 8 (fv bzinv)) by now split.
  apply z2b_0 in Eb; [| apply Hb]. destruct (z2b (gej_infinity a)) eqn:Ea.
  { rewrite (gej_pt_inf a Ea), Eb. cbn [padd].
    eassert (Hx : FeI (fe_mul (ge_x b) (fe_sqr bzinv)) _ _) by typeclasses eauto.
    eassert (Hy' : FeI (fe_mul (ge_y b) (fe_mul (fe_sqr bzinv) bzinv)) _ _) by typeclasses eauto.
    assert (N : (1 : F)%F <> 0%F) by (apply Zmod.one_neq_zero; discriminate).
    destruct (gej_result _ _ _ _ _ _ _ _ _ Hx Hy' one_is eq_refl N) as [W P]. split; [exact W |].
    cbv zeta. rewrite P. f_equal; field; exact N. }
  destruct (gej_wf_inv a Ha Ea) as (Hax & Hay & Haz & Za & Ia). set (k := fv (gej_z a)) in *.
  assert (EA : gej_pt a = Aff (fv (gej_x a) / k ^ 2)%F (fv (gej_y a) / k ^ 3)%F).
  { unfold gej_pt. now rewrite Ea. }
  assert (EB : Aff (fv (ge_x b) * fv bzinv ^ 2)%F (fv (ge_y b) * fv bzinv ^ 3)%F =
    Aff (fv (ge_x b) * fv bzinv ^ 2 * k ^ 2 / k ^ 2)%F (fv (ge_y b) * fv bzinv ^ 3 * k ^ 3 / k ^ 3)%F).
  { f_equal; now field. }
  rewrite EB in *.
  set (az := fe_mul (gej_z a) bzinv). set (u1 := fe_normalize_weak (gej_x a)).
  set (s1 := fe_normalize_weak (gej_y a)). set (h := fe_add (fe_negate u1 1) (fe_mul (ge_x b) (fe_sqr az))).
  set (i := fe_add (fe_negate s1 1) (fe_mul (fe_mul (ge_y b) (fe_sqr az)) az)). cbv zeta.
  destruct (add_tail_ok c k r a None u1 s1 h i (fe_mul (gej_z a) h) h _ _ _ _ 1%F Hr Ha Ia Hy Za EA OA OB)
    as (W & P & _); unfold h, i, u1, s1, az; try (fe_is; ring); [fold k; ring |].
  clear - W P. unfold add_tail in W, P. destruct (z2b _); [destruct (z2b _) |]; now split.
Qed.

(** * Unified addition *)

(** The slope as [Ra / (Ma * k)], for the two choices of [Ra] and [Ma]. *)
Section Unified.
Variables c k U1 S1 U2 S2 : F.
Hypothesis Hk : k <> 0%F.
Let P := Aff (U1 / k ^ 2)%F (S1 / k ^ 3)%F.
Let Q := Aff (U2 / k ^ 2)%F (S2 / k ^ 3)%F.
Hypothesis OP : on_curve c P.
Hypothesis OQ : on_curve c Q.
Let T := (U1 + U2)%F.
Let M := (S1 + S2)%F.
Let R := (T ^ 2 - U1 * U2)%F.

Lemma unified_curve : ((S2 - S1) * M = (U2 - U1) * R)%F.
Proof.
  unfold P, Q in *. cbn [on_curve] in *.
  assert (E1 : (S1 ^ 2 = U1 ^ 3 + c * k ^ 6)%F).
  { transitivity ((S1 / k ^ 3) ^ 2 * k ^ 6)%F; [now field |]. rewrite OP. now field. }
  assert (E2 : (S2 ^ 2 = U2 ^ 3 + c * k ^ 6)%F).
  { transitivity ((S2 / k ^ 3) ^ 2 * k ^ 6)%F; [now field |]. rewrite OQ. now field. }
  transitivity (S2 ^ 2 - S1 ^ 2)%F; [unfold M; ring |]. rewrite E1, E2. unfold R, T. ring.
Qed.

Lemma unified_line Ra Ma : Ma <> 0%F -> Q <> pneg P ->
  (S2 - S1 = Ra / Ma * (U2 - U1))%F -> (Ra / Ma * M = R)%F ->
  padd P Q = Aff (F_of_Z 4 * (Ra ^ 2 - Ma ^ 2 * T) / (F_of_Z 2 * (k * Ma)) ^ 2)%F
    (- F_of_Z 4 * (Ra * (F_of_Z 2 * (Ra ^ 2 - Ma ^ 2 * T) - Ma ^ 2 * T) + M * Ma ^ 3) / (F_of_Z 2 * (k * Ma)) ^ 3)%F.
Proof.
  intros HM N A B. pose proof F2_nz as H2. unfold P, Q in *. rewrite (padd_by_line c (Ra / Ma / k)%F); auto.
  - unfold third. f_equal; [unfold T; field; auto |]. 
    assert (E2 : S2 = (S1 + Ra / Ma * (U2 - U1))%F) by (rewrite <- A; ring).
    unfold M, T. rewrite E2. field. auto.
  - split.
    + transitivity ((S2 - S1) / k ^ 3)%F; [now field |]. rewrite A. field. auto.
    + transitivity (Ra / Ma * M / k ^ 4)%F; [unfold M; field; auto |]. rewrite B. unfold R, T. now field.
Qed.

Lemma unified_opposite : U1 = U2 -> M = 0%F -> padd P Q = Inf.
Proof.
  intros EU EM. assert (E : Q = pneg P); [| now rewrite E, padd_neg_r]. unfold P, Q. cbn [pneg].
  rewrite EU. f_equal. replace S2 with (M - S1)%F by (unfold M; ring). rewrite EM. now field.
Qed.

Lemma unified_not_opposite : M <> 0%F \/ U1 <> U2 -> Q <> pneg P.
Proof.
  intros H E. unfold P, Q in E. cbn [pneg] in E. apply aff_inj in E as [EU ES]. destruct H as [H | H].
  - apply H. unfold M. replace S2 with (S2 / k ^ 3 * k ^ 3)%F by now field. rewrite ES. now field.
  - apply H. symmetry. now apply (scaled_x k U2 U1).
Qed.

Lemma unified_ok :
  let dg := Zmod.eqb M 0%F && Zmod.eqb R 0%F in
  let Ra := if dg then (F_of_Z 2 * S1)%F else R in
  let Ma := if dg then (- U2 + U1)%F else M in
  let N := if dg then M else (Ma ^ 4)%F in
  let X := (Ra ^ 2 - Ma ^ 2 * T)%F in
  padd P Q = if Zmod.eqb (k * Ma)%F 0%F then Inf
    else Aff (F_of_Z 4 * X / (F_of_Z 2 * (k * Ma)) ^ 2)%F
           (- F_of_Z 4 * (Ra * (F_of_Z 2 * X - Ma ^ 2 * T) + N) / (F_of_Z 2 * (k * Ma)) ^ 3)%F.
Proof.
  intros dg Ra Ma N X. pose proof unified_curve as EC.
  assert (Ek : Zmod.eqb (k * Ma)%F 0%F = Zmod.eqb Ma 0%F).
  { apply eq_true_iff_eq. rewrite !Zmod.eqb_eq, F_mul_0. tauto. }
  rewrite Ek. clear Ek. unfold X, N, Ma, Ra, dg. clear dg Ra Ma N X.
  destruct (eqb_F_spec M 0%F) as [EM | NM]; [destruct (eqb_F_spec R 0%F) as [ER | NR] |]; cbn [andb].
  - destruct (eqb_F_spec (- U2 + U1)%F 0%F) as [EU | NU].
    + apply unified_opposite; [| exact EM]. transitivity (U2 + (- U2 + U1))%F; [ring | rewrite EU; ring].
    + assert (ES : S2 = (- S1)%F) by (replace S2 with (M - S1)%F by (unfold M; ring); rewrite EM; ring).
      rewrite (unified_line (F_of_Z 2 * S1)%F _ NU).
      * do 3 f_equal. rewrite EM. ring.
      * apply unified_not_opposite. right. intros E. apply NU. rewrite E. ring.
      * rewrite ES. now field.
      * rewrite EM, ER. ring.
  - destruct (eqb_F_spec M 0%F) as [_ | C]; [| contradiction]. apply unified_opposite; [| exact EM].
    rewrite EM in EC. assert (Z : ((U2 - U1) * R = 0)%F) by (rewrite <- EC; ring).
    apply F_mul_0 in Z as [Z | Z]; [| contradiction]. transitivity (U2 - (U2 - U1))%F; [ring | rewrite Z; ring].
  - destruct (eqb_F_spec M 0%F) as [C | _]; [contradiction |]. rewrite (unified_line R M NM).
    + do 3 f_equal. ring.
    + apply unified_not_opposite. now left.
    + apply (F_cancel M _ _ NM). transitivity ((S2 - S1) * M)%F; [ring |]. rewrite EC. now field.
    + now field.
Qed.
End Unified.

Lemma fe_1_is : FeI add_ge_fe_1 1 1%F.
Proof.
  unfold add_ge_fe_1. destruct (const_ok 0 0 0 0 0 0 0 1) as [Hn E].
  - repeat constructor; lia.
  - reflexivity.
  - split; [now apply norm_mag | exact E].
Qed.

Lemma gej_add_ge_values a b X1 Y1 Z x2 y2 ai :
  FeI (gej_x a) 8 X1 -> FeI (gej_y a) 8 Y1 -> FeI (gej_z a) 8 Z -> FeI (ge_x b) 8 x2 -> FeI (ge_y b) 8 y2 ->
  gej_infinity a = b2z ai ->
  let U2 := (x2 * Z ^ 2)%F in let S2 := (y2 * Z ^ 3)%F in
  let T := (X1 + U2)%F in let M := (Y1 + S2)%F in let R := (T ^ 2 - X1 * U2)%F in
  let dg := Zmod.eqb M 0%F && Zmod.eqb R 0%F in
  let Ra := if dg then (F_of_Z 2 * Y1)%F else R in
  let Ma := if dg then (- U2 + X1)%F else M in
  let N := if dg then M else (Ma ^ 4)%F in
  let X := (Ra ^ 2 - Ma ^ 2 * T)%F in
  let r := secp256k1_gej_add_ge a b in
  FeI (gej_x r) 8 (if ai then x2 else F_of_Z 4 * X)%F /\
  FeI (gej_y r) 8 (if ai then y2 else - F_of_Z 4 * (Ra * (F_of_Z 2 * X - Ma ^ 2 * T) + N))%F /\
  FeI (gej_z r) 8 (if ai then 1 else F_of_Z 2 * (Z * Ma))%F /\
  gej_infinity r = b2z (Zmod.eqb (Z * Ma)%F 0%F && negb ai).
Proof.
  intros Hx Hy Hz Hbx Hby Ei U2 S2 T M R dg Ra Ma N X r. pose proof fe_1_is as H1.
  unfold r. pattern (secp256k1_gej_add_ge a b). apply wp_intro. cbv beta delta [secp256k1_gej_add_ge].
  rewrite Ei. do 12 fe_step. wp_name deg Edeg.
  rewrite (proj1 (feI_zero _ _ _ Hm eq_refl)), (proj1 (feI_zero _ _ _ Hrr0 eq_refl)), b2z_land in Edeg.
  assert (Em' : vm = M) by (unfold M, S2; subst; ring).
  assert (Er' : vrr0 = R) by (unfold R, T, U2; subst; ring).
  rewrite Em', Er' in Edeg. fold dg in Edeg. rewrite Edeg, b2z_b2z.
  do 11 fe_step. wp_name inf Einf. repeat fe_step. wp_done. cbn [gej_x gej_y gej_z gej_infinity].
  assert (EMa : vm_alt1 = Ma) by (unfold Ma, M, S2, U2; subst; destruct dg; cbn [negb]; ring).
  assert (ERa : vrr_alt0 = Ra) by (unfold Ra, R, T, U2; subst; destruct dg; cbn [negb]; ring).
  assert (ET : vt = T) by (unfold T, U2; subst vt vu1 vu2 vzz; ring).
  assert (EN' : vn1 = N) by (unfold N; rewrite En1, En0, En, Em', EMa; destruct dg; ring).
  assert (EX : vt2 = X) by (unfold X; rewrite Et2, Et1, Et0, Eq0, Eq, En, EMa, ERa, ET; ring).
  split; [| split; [| split]].
  - refine (feI_conv _ _ 8 _ _ Hrx0 eq_refl _). rewrite Erx0, Erx, EX. destruct ai; ring.
  - refine (feI_conv _ _ 8 _ _ Hry2 eq_refl _).
    rewrite Ery2, Ery1, Ery0, Ery, Et6, Et5, Et4, Et3, Eq0, Eq, En, EX, EMa, ERa, ET, EN'. destruct ai; ring.
  - refine (feI_conv _ _ 8 _ _ Hrz1 eq_refl _). rewrite Erz1, Erz0, Erz, EMa. destruct ai; ring.
  - rewrite Einf, (proj1 (feI_zero _ _ _ Hrz eq_refl)), Erz, EMa. now destruct (Zmod.eqb (Z * Ma)%F 0%F), ai.
Qed.

Lemma gej_add_ge_ok c a b : gej_wf a -> ge_wf b -> ge_infinity b = 0 ->
  on_curve c (gej_pt a) -> on_curve c (ge_pt b) ->
  gej_wf (secp256k1_gej_add_ge a b) /\ gej_pt (secp256k1_gej_add_ge a b) = padd (gej_pt a) (ge_pt b).
Proof.
  intros Ha Hb Eb OA OB. destruct (ge_wf_inv b Hb) as [Hbx Hby].
  assert (Hax : FeI (gej_x a) 8 (fv (gej_x a))) by (split; [apply Ha | reflexivity]).
  assert (Hay : FeI (gej_y a) 8 (fv (gej_y a))) by (split; [apply Ha | reflexivity]).
  assert (Haz : FeI (gej_z a) 8 (fv (gej_z a))) by (split; [apply Ha | reflexivity]).
  assert (Ei : gej_infinity a = b2z (gej_infinity a =? 1)) by (apply rng_b2z_of, Ha).
  pose proof (gej_add_ge_values a b _ _ _ _ _ _ Hax Hay Haz Hbx Hby Ei) as V. cbv zeta in V.
  assert (EB : ge_pt b = Aff (fv (ge_x b)) (fv (ge_y b))) by (unfold ge_pt; now rewrite Eb).
  assert (N1 : (1 : F)%F <> 0%F) by (apply Zmod.one_neq_zero; discriminate). set (r := secp256k1_gej_add_ge a b) in *.
  destruct (gej_infinity a =? 1) eqn:Ea; cbn [b2z negb andb] in V; rewrite ?andb_false_r, ?andb_true_r in V;
    destruct V as (Vx & Vy & Vz & Vi).
  - assert (PA : gej_pt a = Inf) by (unfold gej_pt; now rewrite Ei).
    destruct (gej_result _ _ _ _ _ _ _ _ _ Vx Vy Vz eq_refl N1) as [W P].
    change 0 with (b2z false) in W, P. rewrite <- Vi in W, P. destruct r. split; [exact W |].
    rewrite PA, EB. cbn [padd]. etransitivity; [exact P |]. f_equal; field; exact N1.
  - set (k := fv (gej_z a)) in *. assert (Za : k <> 0%F) by (apply Ha; exact Ei).
    assert (PA : gej_pt a = Aff (fv (gej_x a) / k ^ 2)%F (fv (gej_y a) / k ^ 3)%F) by (unfold gej_pt; now rewrite Ei).
    assert (PB : ge_pt b = Aff (fv (ge_x b) * k ^ 2 / k ^ 2)%F (fv (ge_y b) * k ^ 3 / k ^ 3)%F)
      by (rewrite EB; f_equal; now field).
    rewrite PA in *. rewrite PB in *. rewrite (unified_ok c k) by assumption. cbv zeta.
    lazymatch type of Vi with _ = b2z (Zmod.eqb ?z 0%F) => destruct (eqb_F_spec z 0%F) as [EZ | NZ] end; cbn [b2z] in Vi.
    + destruct r as [rx ry rz ri]. cbn [gej_x gej_y gej_z gej_infinity] in *. subst ri.
      split; [| reflexivity]. unfold gej_wf, Rng. cbn [gej_x gej_y gej_z gej_infinity].
      repeat split; try lia; [apply Vx | apply Vy | apply Vz].
    + edestruct (gej_result _ _ _ _ _ _ _ _ _ Vx Vy Vz eq_refl) as [W P]; [apply F_mul_nz; [exact F2_nz | exact NZ] |].
      destruct r as [rx ry rz ri]. cbn [gej_x gej_y gej_z gej_infinity] in *. subst ri. split; [exact W | exact P].
Qed.
End Specs.
