(* ===== verification/GroupOps.v ===== *)
(** The rest of [group_impl.h]: conversions, tables, negation, validity,
    decompression, storage. *)

From Stdlib Require Import ZArith Lia List Bool Zmod Field.
From S2P Require Import Prelude Limbs Primes Fp Curve CurveGroup FieldSpec FieldGen Group GroupSpec.
Import ListNotations.
Open Scope Z_scope.

Section Specs.
Context {I : FieldImpl} {L : FieldLaws I}.

Lemma one_nz : (1 : F)%F <> 0%F.
Proof. apply Zmod.one_neq_zero. discriminate. Qed.

(** The coordinates of any well-formed element. *)
Lemma gej_wf_mags a : gej_wf a ->
  FeI (gej_x a) 8 (fv (gej_x a)) /\ FeI (gej_y a) 8 (fv (gej_y a)) /\ FeI (gej_z a) 8 (fv (gej_z a)).
Proof. intros (Hx & Hy & Hz & _). now repeat split. Qed.

(** * Conversions *)

Lemma ge_set_gej_zinv_val a zi v : gej_wf a -> FeI zi 8 v ->
  let r := secp256k1_ge_set_gej_zinv a zi in
  FeI (ge_x r) 1 (fv (gej_x a) * v ^ 2)%F /\ FeI (ge_y r) 1 (fv (gej_y a) * v ^ 3)%F /\
  ge_infinity r = gej_infinity a.
Proof.
  intros Ha Hz. destruct (gej_wf_mags a Ha) as (Hx & Hy & _). unfold secp256k1_ge_set_gej_zinv.
  cbv zeta. cbn [ge_x ge_y ge_infinity]. split; [fe_is; ring |]. split; [fe_is; ring | reflexivity].
Qed.

Lemma ge_result r mx my vx vy : FeI (ge_x r) mx vx -> FeI (ge_y r) my vy -> (mx <=? 8) && (my <=? 8) = true ->
  ge_infinity r = 0 -> ge_wf r /\ ge_pt r = Aff vx vy.
Proof.
  intros Hx Hy Hm E. rewrite andb_true_iff in Hm. destruct Hm as [Mx My].
  unfold ge_wf, ge_pt. rewrite E. cbn [z2b negb Z.eqb].
  split; [| now rewrite (proj2 Hx), (proj2 Hy)].
  split; [exact (mag_8 _ _ _ Hx Mx) |]. split; [exact (mag_8 _ _ _ Hy My) | unfold Rng; lia].
Qed.

(** With [zi] the inverse of [z], the affine point. *)
Lemma ge_set_gej_zinv_ok a zi : gej_wf a -> FeI zi 8 (Zmod.inv (fv (gej_z a))) ->
  ge_wf (secp256k1_ge_set_gej_zinv a zi) /\ ge_pt (secp256k1_ge_set_gej_zinv a zi) = gej_pt a.
Proof.
  intros Ha Hz. destruct (ge_set_gej_zinv_val a zi _ Ha Hz) as (Hx & Hy & Hi).
  set (r := secp256k1_ge_set_gej_zinv a zi) in *. pose proof Ha as (_ & _ & _ & Hf & Hn).
  unfold ge_wf, ge_pt, gej_pt. rewrite Hi. split.
  - split; [exact (mag_8 _ _ _ Hx eq_refl) |]. split; [exact (mag_8 _ _ _ Hy eq_refl) | exact Hf].
  - destruct (z2b (gej_infinity a)) eqn:E; [reflexivity |]. apply (z2b_0 _ Hf) in E.
    rewrite (proj2 Hx), (proj2 Hy). f_equal; field; auto.
Qed.

Lemma ge_neg_ok a : ge_wf a -> ge_wf (secp256k1_ge_neg a) /\ ge_pt (secp256k1_ge_neg a) = pneg (ge_pt a).
Proof.
  intros Ha. destruct (ge_wf_inv a Ha) as [Hx Hy]. destruct Ha as (Mx & _ & Hi).
  eassert (H : FeI (fe_negate (fe_normalize_weak (ge_y a)) 1) _ _) by typeclasses eauto. fe_norm_mag H.
  unfold secp256k1_ge_neg, ge_wf, ge_pt. cbn [ge_x ge_y ge_infinity]. cbv zeta. split.
  - split; [exact Mx |]. split; [exact (mag_8 _ _ _ H eq_refl) | exact Hi].
  - destruct (z2b (ge_infinity a)); [reflexivity |]. now rewrite (proj2 H).
Qed.

Lemma gej_neg_ok a : gej_wf a -> gej_wf (secp256k1_gej_neg a) /\ gej_pt (secp256k1_gej_neg a) = pneg (gej_pt a).
Proof.
  intros Ha. destruct (gej_wf_mags a Ha) as (Hx & Hy & Hz). destruct Ha as (Mx & _ & Mz & Hi & Hn).
  eassert (H : FeI (fe_negate (fe_normalize_weak (gej_y a)) 1) _ _) by typeclasses eauto. fe_norm_mag H.
  unfold secp256k1_gej_neg, gej_wf, gej_pt. cbv zeta. cbn [gej_x gej_y gej_z gej_infinity]. split.
  - split; [exact Mx |]. split; [exact (mag_8 _ _ _ H eq_refl) |]. auto.
  - destruct (z2b (gej_infinity a)) eqn:E; [reflexivity |]. apply (z2b_0 _ Hi) in E. rewrite (proj2 H).
    cbn [pneg]. f_equal. field. auto.
Qed.

Lemma set_gej_coords a : gej_wf a ->
  let zi := secp256k1_fe_inv (gej_z a) in
  FeI (fe_mul (gej_x a) (fe_sqr zi)) 1 (fv (gej_x a) * Zmod.inv (fv (gej_z a)) ^ 2)%F /\
  FeI (fe_mul (gej_y a) (fe_mul zi (fe_sqr zi))) 1 (fv (gej_y a) * Zmod.inv (fv (gej_z a)) ^ 3)%F.
Proof.
  intros Ha zi. destruct (gej_wf_mags a Ha) as (Hx & Hy & Hz).
  pose proof (fe_inv_ok _ _ Hz) as Hzi. fold zi in Hzi. split; fe_is; ring.
Qed.

(** Both the affine result and the Jacobian input, now with [z = 1], stand for
    the input point. *)
Lemma ge_set_gej_ok a : gej_wf a ->
  let p := secp256k1_ge_set_gej a in
  ge_wf (fst p) /\ ge_pt (fst p) = gej_pt a /\ gej_wf (snd p) /\ gej_pt (snd p) = gej_pt a.
Proof.
  intros Ha p. destruct (set_gej_coords a Ha) as [Hx Hy]. pose proof one_is as H1.
  destruct Ha as (_ & _ & _ & Hf & Hn).
  unfold p, secp256k1_ge_set_gej, ge_wf, ge_pt, gej_wf, gej_pt. cbv zeta. cbn [fst snd ge_x ge_y ge_infinity gej_x gej_y gej_z gej_infinity].
  rewrite (proj2 Hx), (proj2 Hy), (proj2 H1). pose proof (mag_8 _ _ _ Hx eq_refl). pose proof (mag_8 _ _ _ Hy eq_refl).
  pose proof (mag_8 _ _ _ H1 eq_refl). pose proof one_nz. repeat split; auto; try apply Hf;
    (destruct (z2b (gej_infinity a)) eqn:E; [reflexivity |]); apply (z2b_0 _ Hf) in E; f_equal; field; auto.
Qed.

Lemma ge_set_gej_var_ok r a : ge_wf r -> gej_wf a ->
  let p := secp256k1_ge_set_gej_var r a in
  ge_wf (fst p) /\ ge_pt (fst p) = gej_pt a /\ gej_wf (snd p) /\ gej_pt (snd p) = gej_pt a.
Proof.
  intros Hr Ha p. destruct (z2b (gej_infinity a)) eqn:E.
  - unfold p, secp256k1_ge_set_gej_var. rewrite E. cbn [fst snd]. unfold ge_pt, gej_pt, ge_wf.
    cbn [ge_x ge_y ge_infinity]. rewrite E. repeat split; try apply Hr; try apply Ha.
  - assert (Ep : p = secp256k1_ge_set_gej a) by (unfold p, secp256k1_ge_set_gej_var; now rewrite E).
    rewrite Ep. now apply ge_set_gej_ok.
Qed.

(** * Validity *)

(** The comparison of the goal, from the values of its arguments. *)
Ltac equal_vals v w :=
  lazymatch goal with
  | |- context [secp256k1_fe_equal_var ?a ?b] => destruct (fe_equal_ok a b v w) as [_ ->]
  end.

Lemma ge_is_valid_ok a : ge_wf a ->
  secp256k1_ge_is_valid_var a = b2z (negb (z2b (ge_infinity a)) &&
    Zmod.eqb (fv (ge_y a) ^ 2)%F (fv (ge_x a) ^ 3 + curve_b)%F).
Proof.
  intros Ha. destruct (ge_wf_inv a Ha) as [Hx Hy]. unfold secp256k1_ge_is_valid_var.
  destruct (z2b (ge_infinity a)); [reflexivity |]. cbn [negb andb]. cbv zeta.
  change (fe_set_int CURVE_B) with (fe_set_int 7). apply fe_equal_ok; fe_is; unfold curve_b; ring.
Qed.

Lemma gej_is_valid_ok a : gej_wf a ->
  secp256k1_gej_is_valid_var a = 1 <-> gej_pt a <> Inf /\ secp (gej_pt a).
Proof.
  intros Ha. destruct (gej_wf_mags a Ha) as (Hx & Hy & Hz). unfold secp256k1_gej_is_valid_var, gej_pt, secp.
  destruct (z2b (gej_infinity a)) eqn:E; [split; [discriminate | intros [C _]; now contradiction C] |].
  apply (z2b_0 _ (proj1 (proj2 (proj2 (proj2 Ha))))) in E. assert (Hnz : fv (gej_z a) <> 0%F) by now apply Ha.
  cbv zeta. unfold CURVE_B.
  set (X := fv (gej_x a)) in *. set (Y := fv (gej_y a)) in *. set (Z := fv (gej_z a)) in *.
  equal_vals (Y ^ 2)%F (X ^ 3 + curve_b * Z ^ 6)%F; [fe_is; ring | fe_is; unfold curve_b; ring |].
  assert (EQ : Zmod.eqb (Y ^ 2)%F (X ^ 3 + curve_b * Z ^ 6)%F = true <-> on_curve curve_b (Aff (X / Z ^ 2)%F (Y / Z ^ 3)%F)).
  { rewrite Zmod.eqb_eq. cbn [on_curve]. split; intros H.
    - transitivity (Y ^ 2 / Z ^ 6)%F; [now field |]. rewrite H. now field.
    - transitivity ((Y / Z ^ 3) ^ 2 * Z ^ 6)%F; [now field |]. rewrite H. now field. }
  rewrite <- EQ. destruct (Zmod.eqb _ _); (split; [| intros [_ C]]); try discriminate; try reflexivity.
  intros _. split; [discriminate | reflexivity].
Qed.

Lemma gej_eq_x_ok x a v : FeI x 8 v -> gej_wf a -> gej_infinity a = 0 ->
  secp256k1_gej_eq_x_var x a = b2z (Zmod.eqb v (fv (gej_x a) / fv (gej_z a) ^ 2)%F).
Proof.
  intros Hv Ha E. destruct (gej_wf_mags a Ha) as (Hx & Hy & Hz). assert (Hnz : fv (gej_z a) <> 0%F) by now apply Ha.
  unfold secp256k1_gej_eq_x_var. cbv zeta. set (X := fv (gej_x a)) in *. set (Z := fv (gej_z a)) in *.
  equal_vals (Z ^ 2 * v)%F X; [fe_is; ring | fe_is; ring |]. f_equal.
  apply eq_true_iff_eq. rewrite !Zmod.eqb_eq. split.
  - intros <-. now field.
  - intros ->. now field.
Qed.

(** * Decompression *)

(** [y] is even or odd as a residue below the prime. *)
Definition parity (y : F) : Z := Zmod.to_Z y mod 2.

Lemma parity_opp (y : F) : y <> 0%F -> parity (- y)%F = 1 - parity y.
Proof.
  intros Hy. unfold parity. pose proof (F_to_Z_bound y) as B.
  assert (N : Zmod.to_Z y <> 0) by (intros E; apply Hy; rewrite <- (F_of_to_Z y), E; reflexivity).
  rewrite Zmod.unsigned_opp. replace (- Zmod.to_Z y) with (secp_p - Zmod.to_Z y + (-1) * secp_p) by ring.
  rewrite Z.mod_add by discriminate. rewrite (Z.mod_small (secp_p - Zmod.to_Z y)) by lia.
  assert (E : secp_p = 2 * (secp_p / 2) + 1) by (vm_compute; reflexivity).
  pose proof (Z.div_mod (Zmod.to_Z y) 2 ltac:(lia)). pose proof (Z.mod_pos_bound (Zmod.to_Z y) 2 ltac:(lia)).
  symmetry. apply (mod_of_reduced _ _ (secp_p / 2 - Zmod.to_Z y / 2)); lia.
Qed.

Lemma ge_set_xquad_ok x v : FeI x 8 v ->
  let p := secp256k1_ge_set_xquad x in
  (snd p = 1 /\ ge_wf (fst p) /\ FeI (ge_y (fst p)) 1 (fv (ge_y (fst p))) /\
   exists y, ge_pt (fst p) = Aff v y /\ secp (Aff v y) /\ exists w, (w * w = y)%F) \/
  (snd p = 0 /\ forall y, ~ secp (Aff v y)).
Proof.
  intros Hx p. unfold p, secp256k1_ge_set_xquad. cbv zeta. cbn [fst snd].
  set (c := fe_add _ _). assert (Hc : FeI c 8 (v ^ 3 + curve_b)%F).
  { unfold c, CURVE_B. fe_is. unfold curve_b. ring. }
  destruct (fe_sqrt_pow c _ Hc) as [Hr ->]. set (w := (v ^ 3 + curve_b)%F) in *.
  destruct (sqrt_exp_spec w) as [[E _] | (E & N & NS)].
  - left. rewrite E, Zmod.eqb_refl. cbn [b2z]. split; [reflexivity |].
    destruct (ge_result (Ge x (fst (secp256k1_fe_sqrt c)) 0) _ _ _ _ Hx Hr eq_refl eq_refl) as [W P].
    split; [exact W |]. cbn [ge_y]. split; [split; [apply Hr | reflexivity] |].
    exists (w ^ sqrt_exp)%F. split; [exact P |]. split.
    + unfold secp. cbn [on_curve]. rewrite <- Zmod.pow_2_r in E. exact E.
    + exists (w ^ (sqrt_exp / 2))%F. symmetry. apply sqrt_exp_even.
  - right. destruct (eqb_F_spec (w ^ sqrt_exp * w ^ sqrt_exp)%F w) as [C | _]; [contradiction |].
    split; [reflexivity |]. intros y Hy. apply NS. exists y. unfold secp in Hy. cbn [on_curve] in Hy.
    fold w in Hy. rewrite <- Hy. ring.
Qed.

(** Decompression finds the point of the abscissa with the ordinate of the
    wanted parity, or reports that there is none. *)
Lemma ge_set_xo_ok x v odd : FeI x 8 v -> 0 <= odd <= 1 ->
  let p := secp256k1_ge_set_xo_var x odd in
  (snd p = 1 /\ ge_wf (fst p) /\ exists y, ge_pt (fst p) = Aff v y /\ secp (Aff v y) /\ parity y = odd) \/
  (snd p = 0 /\ forall y, ~ secp (Aff v y)).
Proof.
  intros Hx Ho p. unfold p, secp256k1_ge_set_xo_var.
  destruct (ge_set_xquad_ok x v Hx) as [(R & W & Hm & y & P & S & _) | (R & N)];
    destruct (secp256k1_ge_set_xquad x) as [r ret]; cbn [fst snd] in *; rewrite R; [left | right; auto].
  change (negb (z2b 1)) with false. cbv iota zeta. split; [reflexivity |]. cbn [fst].
  assert (Ei : ge_infinity r = 0).
  { apply z2b_0; [apply W |]. unfold ge_pt in P. destruct (z2b (ge_infinity r)); [discriminate | reflexivity]. }
  unfold ge_pt in P. rewrite Ei in P. cbn [z2b Z.eqb negb] in P. apply aff_inj in P as [Px Py].
  rewrite Py in Hm. destruct (feI_normalize_var _ _ _ Hm eq_refl) as [Hn Nn].
  set (n := fe_normalize_var (ge_y r)) in *. pose proof (is_odd_ok n Nn) as Eo. rewrite (proj2 Hn) in Eo.
  assert (Hgx : FeI (ge_x r) 8 v) by (split; [apply W | exact Px]).
  pose proof (secp_y_nz _ _ S) as Yn. destruct (Z.eqb_spec (fe_is_odd n) odd) as [E | E]; cbn [negb].
  - destruct (ge_result (Ge (ge_x r) n (ge_infinity r)) _ _ _ _ Hgx Hn eq_refl Ei) as [W' P'].
    split; [exact W' |]. exists y. split; [exact P' |]. split; [exact S |]. unfold parity. now rewrite <- Eo.
  - eassert (Hneg : FeI (fe_negate n 1) _ _) by typeclasses eauto. fe_norm_mag Hneg.
    destruct (ge_result (Ge (ge_x r) (fe_negate n 1) (ge_infinity r)) _ _ _ _ Hgx Hneg eq_refl Ei) as [W' P'].
    split; [exact W' |]. exists (- y)%F. split; [exact P' |]. split; [exact (pneg_on_curve _ (Aff v y) S) |].
    rewrite parity_opp by exact Yn. unfold parity. pose proof (Z.mod_pos_bound (Zmod.to_Z y) 2 eq_refl). lia.
Qed.

(** * Storage, rescaling *)

Lemma ge_storage_ok a : ge_wf a -> ge_infinity a = 0 ->
  let s := secp256k1_ge_to_storage a in
  st_ok (ges_x s) /\ st_ok (ges_y s) /\ st_val (ges_x s) = Zmod.to_Z (fv (ge_x a)) /\
  st_val (ges_y s) = Zmod.to_Z (fv (ge_y a)) /\
  ge_wf (secp256k1_ge_from_storage s) /\ ge_pt (secp256k1_ge_from_storage s) = ge_pt a.
Proof.
  intros Ha Ei s. destruct (ge_wf_inv a Ha) as [Hx Hy].
  destruct (feI_normalize _ _ _ Hx eq_refl) as [Hnx Nx]. destruct (feI_normalize _ _ _ Hy eq_refl) as [Hny Ny].
  unfold s, secp256k1_ge_to_storage. cbv zeta. cbn [ges_x ges_y].
  destruct (to_storage_ok _ Nx) as [Sx Vx]. destruct (to_storage_ok _ Ny) as [Sy Vy].
  rewrite (proj2 Hnx) in Vx. rewrite (proj2 Hny) in Vy.
  destruct (from_storage_ok _ Sx) as (Mx & Fx & _). destruct (from_storage_ok _ Sy) as (My & Fy & _).
  rewrite Vx, F_of_to_Z in Fx. rewrite Vy, F_of_to_Z in Fy. do 4 (split; [assumption |]).
  unfold ge_pt at 2. rewrite Ei. cbn [z2b Z.eqb negb].
  exact (ge_result (Ge _ _ 0) _ _ _ _ (conj Mx Fx) (conj My Fy) eq_refl eq_refl).
Qed.

Lemma ge_storage_cmov_ok r a b : st_ok (ges_x r) -> st_ok (ges_y r) -> st_ok (ges_x a) -> st_ok (ges_y a) ->
  secp256k1_ge_storage_cmov r a (b2z b) = if b then a else r.
Proof.
  intros. unfold secp256k1_ge_storage_cmov. rewrite !storage_cmov_ok by assumption. now destruct b, r, a.
Qed.

Lemma gej_rescale_ok r s v : gej_wf r -> FeI s 8 v -> v <> 0%F ->
  gej_wf (secp256k1_gej_rescale r s) /\ gej_pt (secp256k1_gej_rescale r s) = gej_pt r.
Proof.
  intros Hr Hs Hv. destruct (gej_wf_mags r Hr) as (Hx & Hy & Hz). pose proof Hr as (_ & _ & _ & Hi & Hn).
  pattern (secp256k1_gej_rescale r s). apply wp_intro. cbv beta delta [secp256k1_gej_rescale].
  repeat fe_step. wp_done. unfold gej_wf, gej_pt. cbn [gej_x gej_y gej_z gej_infinity]. split.
  - do 3 (split; [fe_mag |]). split; [exact Hi |]. intros E. fe_vals. subst. apply F_mul_nz; auto.
  - destruct (z2b (gej_infinity r)) eqn:E; [reflexivity |]. apply (z2b_0 _ Hi) in E. fe_vals. subst.
    f_equal; field; auto.
Qed.

Lemma gej_set_infinity_ok : gej_wf secp256k1_gej_set_infinity /\ gej_pt secp256k1_gej_set_infinity = Inf.
Proof.
  destruct clear_ok as [Hn _]. apply norm_mag in Hn. apply (mag_weaken 1 8) in Hn; [| lia].
  split; [| reflexivity]. unfold gej_wf, secp256k1_gej_set_infinity, Rng. cbn. repeat split; auto; lia.
Qed.

(** * The endomorphism *)

Definition beta : F := F_of_Z 0x7ae96a2b657c07106e64479eac3434e99cf0497512f58995c1396c28719501ee.

Lemma beta_root : (beta ^ 2 = - beta - 1)%F.
Proof. apply Zmod.unsigned_inj. vm_compute. reflexivity. Qed.

Lemma beta_is : FeI mul_lambda_beta 1 beta.
Proof.
  unfold mul_lambda_beta.
  destruct (const_ok 0x7ae96a2b 0x657c0710 0x6e64479e 0xac3434e9 0x9cf04975 0x12f58995 0xc1396c28 0x719501ee) as [Hn E].
  - repeat constructor; lia.
  - vm_compute. reflexivity.
  - split; [now apply norm_mag |]. rewrite E. unfold beta. f_equal.
Qed.

Lemma ge_mul_lambda_ok a x y : ge_wf a -> ge_pt a = Aff x y ->
  ge_wf (secp256k1_ge_mul_lambda a) /\ ge_pt (secp256k1_ge_mul_lambda a) = Aff (beta * x)%F y.
Proof.
  intros Ha P. destruct (ge_wf_inv a Ha) as [Hx Hy]. pose proof beta_is as Hb.
  unfold ge_pt in P. destruct (z2b (ge_infinity a)) eqn:E; [discriminate |].
  apply (z2b_0 _ (proj2 (proj2 Ha))) in E. apply aff_inj in P as [Px Py]. rewrite Px in Hx. rewrite Py in Hy.
  apply (ge_result (secp256k1_ge_mul_lambda a) 1 8); [| exact Hy | reflexivity | exact E].
  unfold secp256k1_ge_mul_lambda. cbn [ge_x]. fe_is. ring.
Qed.

(** [phi (x, y) = (beta * x, y)] satisfies [phi^2 + phi + 1 = 0]. *)
Lemma beta_endo x y : secp (Aff x y) ->
  secp (Aff (beta * x)%F y) /\
  padd (padd (Aff (beta * (beta * x))%F y) (Aff (beta * x)%F y)) (Aff x y) = Inf.
Proof.
  intros S. pose proof (secp_y_nz _ _ S) as Yn. unfold secp in *. cbn [on_curve] in *. pose proof beta_root as B.
  assert (S1 : (y ^ 2 = (beta * x) ^ 3 + curve_b)%F) by (rewrite S; ring [B]). split; [exact S1 |].
  assert (N : Aff (beta * x)%F y <> pneg (Aff (beta * (beta * x))%F y)).
  { intros E. apply aff_inj in E as [_ E]. now apply Yn, opp_eq_0. }
  rewrite (padd_by_line curve_b 0%F) by (try exact N; try exact S1; cbn [on_curve]; try (rewrite S; ring [B]);
    split; ring [B]).
  replace (third 0 (beta * (beta * x)) y (beta * x))%F with (pneg (Aff x y))
    by (unfold third; cbn [pneg]; f_equal; ring [B]).
  rewrite <- (pneg_involutive (Aff x y)) at 2. apply padd_neg_r.
Qed.

(** * The generator *)

Definition G : point :=
  Aff (F_of_Z 0x79BE667EF9DCBBAC55A06295CE870B07029BFCDB2DCE28D959F2815B16F81798)
      (F_of_Z 0x483ADA7726A3C4655DA4FBFC0E1108A8FD17B448A68554199C47D08FFB10D4B8).

Lemma G_on_curve : secp G.
Proof. unfold secp, G. cbn [on_curve]. apply Zmod.unsigned_inj. vm_compute. reflexivity. Qed.

Lemma ge_const_g_ok : ge_wf secp256k1_ge_const_g /\ ge_pt secp256k1_ge_const_g = G /\ ge_infinity secp256k1_ge_const_g = 0.
Proof.
  unfold secp256k1_ge_const_g, ge_const.
  destruct (const_ok 0x79BE667E 0xF9DCBBAC 0x55A06295 0xCE870B07 0x029BFCDB 0x2DCE28D9 0x59F2815B 0x16F81798) as [Nx Ex];
    [repeat constructor; lia | vm_compute; reflexivity |].
  destruct (const_ok 0x483ADA77 0x26A3C465 0x5DA4FBFC 0x0E1108A8 0xFD17B448 0xA6855419 0x9C47D08F 0xFB10D4B8) as [Ny Ey];
    [repeat constructor; lia | vm_compute; reflexivity |].
  match goal with |- ge_wf ?r /\ _ =>
    destruct (ge_result r _ _ _ _ (conj (norm_mag _ Nx) Ex) (conj (norm_mag _ Ny) Ey) eq_refl eq_refl) as [W P] end.
  split; [exact W |]. split; [| reflexivity]. rewrite P. unfold G. f_equal; f_equal; vm_compute; reflexivity.
Qed.

(** * Quadratic residues *)

Lemma has_quad_y_ok a x y : gej_wf a -> gej_pt a = Aff x y ->
  secp256k1_gej_has_quad_y_var a = 1 <-> (exists w, w * w = y)%F.
Proof.
  intros Ha P. destruct (gej_wf_mags a Ha) as (Hx & Hy & Hz). unfold secp256k1_gej_has_quad_y_var, gej_pt in *.
  destruct (z2b (gej_infinity a)) eqn:E; [discriminate |]. apply aff_inj in P as [_ P].
  apply (z2b_0 _ (proj1 (proj2 (proj2 (proj2 Ha))))) in E. assert (Hnz : fv (gej_z a) <> 0%F) by now apply Ha.
  cbv zeta. set (Y := fv (gej_y a)) in *. set (Z := fv (gej_z a)) in *.
  assert (Hm : FeI (fe_mul (gej_y a) (gej_z a)) 8 (Y * Z)%F) by (fe_is; ring).
  rewrite (fe_is_quad_ok _ _ Hm). destruct (sqrt_exp_spec (Y * Z)%F) as [[-> [w Ew]] | (_ & N & NS)].
  - rewrite Zmod.eqb_refl. split; [| reflexivity]. intros _. exists (w / Z ^ 2)%F. rewrite <- P.
    transitivity (w * w / Z ^ 4)%F; [now field |]. rewrite Ew. now field.
  - destruct (eqb_F_spec ((Y * Z) ^ sqrt_exp * (Y * Z) ^ sqrt_exp)%F (Y * Z)%F) as [C | _]; [contradiction |].
    split; [discriminate |]. intros [w Ew]. destruct NS. exists (w * Z ^ 2)%F.
    transitivity (w * w * Z ^ 4)%F; [ring |]. rewrite Ew, <- P. now field.
Qed.
End Specs.
