(* ===== verification/FieldBig.v ===== *)
(** A second reference implementation of the field interface, on the
    arbitrary-precision naturals of Bignums, for the computations that are too
    long for binary integers. *)

From Stdlib Require Import ZArith Lia List Bool Zmod.
From Bignums Require Import BigN.BigN.
From S2P Require Import Prelude Limbs Primes Fp FieldSpec FieldRef.
Import ListNotations.
Open Scope Z_scope.

Definition big_val (a : BigN.t) : Z := BigN.to_Z a.
Definition big_of (z : Z) : BigN.t := BigN.of_N (Z.to_N z).
Definition big_p : BigN.t := Eval vm_compute in big_of secp_p.

#[export] Instance field_big : FieldImpl := {
  fe := BigN.t;
  fe_storage := Z;
  fe_const d7 d6 d5 d4 d3 d2 d1 d0 := big_of (limbs_val 32 [d0; d1; d2; d3; d4; d5; d6; d7]);
  fe_normalize a := big_of (big_val a);
  fe_normalize_weak a := a;
  fe_normalize_var a := big_of (big_val a);
  fe_normalizes_to_zero a := b2z (BigN.eqb a BigN.zero);
  fe_normalizes_to_zero_var a := b2z (BigN.eqb a BigN.zero);
  fe_set_int a := big_of a;
  fe_clear := big_of 0;
  fe_is_zero a := b2z (BigN.eqb a BigN.zero);
  fe_is_odd a := big_val a mod 2;
  fe_cmp_var a b := match big_val a ?= big_val b with Gt => 1 | Lt => -1 | Eq => 0 end;
  fe_set_b32 b := (big_of (be_val b mod secp_p), b2z (be_val b <? secp_p));
  fe_get_b32 a := be_bytes 32 (big_val a);
  fe_negate a _ := if BigN.eqb a BigN.zero then a else BigN.sub big_p a;
  fe_mul_int a k := BigN.modulo (BigN.mul (big_of k) a) big_p;
  fe_add a b := let s := BigN.add a b in if BigN.ltb s big_p then s else BigN.sub s big_p;
  fe_mul a b := BigN.modulo (BigN.mul a b) big_p;
  fe_sqr a := BigN.modulo (BigN.mul a a) big_p;
  fe_to_storage a := big_val a;
  fe_from_storage s := big_of (s mod secp_p);
  fe_storage_cmov r a flag := if flag =? 0 then r else a;
  fe_cmov r a flag := if flag =? 0 then r else a
}.

(** * The laws *)

Lemma big_val_of z : 0 <= z -> big_val (big_of z) = z.
Proof. intros H. unfold big_val, big_of. rewrite BigN.spec_of_N. now apply Z2N.id. Qed.

Lemma big_p_val : big_val big_p = secp_p.
Proof. change big_p with (big_of secp_p). now apply big_val_of. Qed.

Definition big_ok (a : BigN.t) : Prop := ref_ok (big_val a).

(** Reduced, and in the form [big_of] gives. *)
Definition big_norm (a : BigN.t) : Prop := big_ok a /\ a = big_of (big_val a).

Lemma big_norm_of z : ref_ok z -> big_norm (big_of z) /\ F_of_Z (big_val (big_of z)) = F_of_Z z.
Proof.
  intros H. assert (E : big_val (big_of z) = z) by (apply big_val_of; apply H).
  split; [split |]; unfold big_ok; rewrite E; trivial.
Qed.

Lemma big_zero a : big_ok a -> b2z (BigN.eqb a BigN.zero) = b2z (Zmod.eqb (F_of_Z (big_val a)) Zmod.zero).
Proof. intros H. rewrite BigN.spec_eqb. change (BigN.to_Z BigN.zero) with 0. now apply ref_zero. Qed.

Lemma big_mod_law x v : big_val x = v mod secp_p -> big_ok x /\ F_of_Z (big_val x) = F_of_Z v.
Proof. apply ref_mod. Qed.

Lemma big_mul_law a b : big_ok (BigN.modulo (BigN.mul a b) big_p) /\
  F_of_Z (big_val (BigN.modulo (BigN.mul a b) big_p)) = Zmod.mul (F_of_Z (big_val a)) (F_of_Z (big_val b)).
Proof.
  destruct (big_mod_law (BigN.modulo (BigN.mul a b) big_p) (big_val a * big_val b)) as [H E].
  - unfold big_val. rewrite BigN.spec_modulo, BigN.spec_mul. now rewrite <- big_p_val.
  - split; [exact H |]. rewrite E. apply Zmod.of_Z_mul.
Qed.

Lemma big_negate_law a : big_ok a -> let r := if BigN.eqb a BigN.zero then a else BigN.sub big_p a in
  big_ok r /\ F_of_Z (big_val r) = Zmod.opp (F_of_Z (big_val a)).
Proof.
  intros Ha r. assert (E : big_val r = if big_val a =? 0 then 0 else secp_p - big_val a).
  { unfold r. rewrite BigN.spec_eqb. change (BigN.to_Z BigN.zero) with 0. fold (big_val a).
    destruct (Z.eqb_spec (big_val a) 0) as [Z | N]; [exact Z |]. unfold big_val. rewrite BigN.spec_sub.
    fold (big_val big_p) (big_val a). rewrite big_p_val. unfold big_ok, ref_ok in Ha. lia. }
  unfold big_ok. rewrite E. now apply ref_negate_law.
Qed.

Lemma big_add_law a b : big_ok a -> big_ok b -> let s := BigN.add a b in
  let r := if BigN.ltb s big_p then s else BigN.sub s big_p in
  big_ok r /\ F_of_Z (big_val r) = Zmod.add (F_of_Z (big_val a)) (F_of_Z (big_val b)).
Proof.
  intros Ha Hb s r. assert (Es : big_val s = big_val a + big_val b) by apply BigN.spec_add.
  assert (E : big_val r = if big_val a + big_val b <? secp_p then big_val a + big_val b else big_val a + big_val b - secp_p).
  { unfold r. rewrite BigN.spec_ltb. fold (big_val s) (big_val big_p). rewrite big_p_val, Es.
    destruct (Z.ltb_spec (big_val a + big_val b) secp_p); [exact Es |].
    assert (X : big_val (BigN.sub s big_p) = Z.max 0 (big_val s - big_val big_p)) by apply BigN.spec_sub.
    rewrite X, big_p_val, Es. lia. }
  unfold big_ok. rewrite E. now apply ref_add_law.
Qed.

Lemma big_reduced_law v : big_ok (big_of (v mod secp_p)) /\ F_of_Z (big_val (big_of (v mod secp_p))) = F_of_Z v /\
  big_norm (big_of (v mod secp_p)).
Proof.
  destruct (ref_mod _ v eq_refl) as [H E]. destruct (big_norm_of _ H) as [N V]. rewrite V, E.
  split; [apply N |]. now split.
Qed.

Lemma big_val_inj a b : big_norm a -> big_norm b -> F_of_Z (big_val a) = F_of_Z (big_val b) -> a = b.
Proof.
  intros [Ha Ea] [Hb Eb] E. rewrite Ea, Eb. f_equal. rewrite <- (ref_to_Z _ Ha), <- (ref_to_Z _ Hb). now rewrite E.
Qed.

#[export] Instance field_big_laws : FieldLaws field_big.
Proof.
  unshelve refine {| mag := (fun _ => big_ok) : Z -> @fe field_big -> Prop; norm := big_norm : @fe field_big -> Prop;
    fv := (fun a => F_of_Z (big_val a)) : @fe field_big -> F; st_ok := ref_st : @fe_storage field_big -> Prop;
    st_val := id : @fe_storage field_big -> Z |};
    cbn [fe fe_storage fe_const fe_normalize fe_normalize_weak fe_normalize_var fe_normalizes_to_zero
      fe_normalizes_to_zero_var fe_set_int fe_clear fe_is_zero fe_is_odd fe_cmp_var fe_set_b32 fe_get_b32
      fe_negate fe_mul_int fe_add fe_mul fe_sqr fe_to_storage fe_from_storage fe_storage_cmov fe_cmov field_big];
    unfold id; intros; try (split; [assumption | reflexivity]); try now apply big_zero.
  - assumption.
  - match goal with H : big_norm _ |- _ => apply H end.
  - now apply big_val_inj.
  - apply big_norm_of. split; [| assumption]. apply (limbs_val_bound 32); [lia | assumption].
  - now apply big_norm_of.
  - now apply big_norm_of.
  - apply big_norm_of. unfold ref_ok, secp_p. lia.
  - apply big_norm_of. unfold ref_ok, secp_p. lia.
  - apply big_zero. match goal with H : big_norm _ |- _ => apply H end.
  - match goal with H : big_norm _ |- _ => now rewrite (ref_to_Z _ (proj1 H)) end.
  - match goal with H : big_norm a, H' : big_norm b |- _ => now rewrite (ref_to_Z _ (proj1 H)), (ref_to_Z _ (proj1 H')) end.
  - cbn [fst snd]. destruct (big_reduced_law (be_val b)) as (? & ? & ?). auto.
  - match goal with H : big_norm _ |- _ => now rewrite (ref_to_Z _ (proj1 H)) end.
  - now apply big_negate_law.
  - rewrite <- (big_val_of k) at 3 by assumption. apply big_mul_law.
  - now apply big_add_law.
  - apply big_mul_law.
  - apply big_mul_law.
  - match goal with H : big_norm _ |- _ => destruct H as [H _]; rewrite (ref_to_Z _ H) end.
    split; [| reflexivity]. unfold big_ok, ref_ok, ref_st, secp_p in *. lia.
  - destruct (big_reduced_law s) as (? & ? & ?). auto.
  - now destruct b.
  - now destruct b.
Defined.
