(* ===== verification/GOrder.v ===== *)
(** The generator has order [secp_n]: the multiple [n * G] is computed with the
    Jacobian code itself on the reference field, and is infinity.  In the same
    way [lambda * G] is the image of [G] under [(x, y) -> (beta * x, y)]. *)

From Stdlib Require Import ZArith Lia List Bool Zmod.
From S2P Require Import Prelude Limbs Primes Fp Curve CurveGroup.
From S2P Require Import FieldSpec FieldGen FieldRef Group GroupSpec GroupOps.
Open Scope Z_scope.

(** Signed binary digits of the difference of two masks. *)
Section Digits.
Variables (naf_plus naf_minus : Z).

Definition naf_digit (i : nat) : Z :=
  b2z (Z.testbit naf_plus (Z.of_nat i)) - b2z (Z.testbit naf_minus (Z.of_nat i)).

Definition ref_g : ge := secp256k1_ge_const_g.
Definition ref_minus_g : ge := secp256k1_ge_neg ref_g.

(** One digit: double, then add or subtract the generator. *)
Definition naf_step (r : gej) (d : Z) : gej :=
  let r := fst (secp256k1_gej_double_var r r None) in
  if d =? 1 then fst (secp256k1_gej_add_ge_var r r ref_g None)
  else if d =? -1 then fst (secp256k1_gej_add_ge_var r r ref_minus_g None)
  else r.

(** The digits from position [i - 1] down to 0. *)
Fixpoint naf_mul (r : gej) (i : nat) : gej :=
  match i with
  | O => r
  | S j => naf_mul (naf_step r (naf_digit j)) j
  end.

Fixpoint naf_val (v : Z) (i : nat) : Z :=
  match i with
  | O => v
  | S j => naf_val (2 * v + naf_digit j) j
  end.

Definition at_multiple (r : gej) (v : Z) : Prop := gej_wf r /\ gej_pt r = smul v G.

Lemma G_multiple v : secp (smul v G).
Proof. apply smul_on_curve, G_on_curve. Qed.

Lemma at_multiple_add r g v d : at_multiple r v -> ge_wf g -> ge_pt g = smul d G ->
  at_multiple (fst (secp256k1_gej_add_ge_var r r g None)) (v + d).
Proof.
  intros [W P] Wg Pg. pose proof (G_multiple v) as S. pose proof (G_multiple d) as Sd.
  destruct (gej_add_ge_var_ok curve_b r r g None (gej_wf_mem _ W) W Wg) as (W' & P' & _); auto.
  - rewrite P. now apply secp_y_nz_pt.
  - now rewrite P.
  - now rewrite Pg.
  - split; [exact W' |]. rewrite P', P, Pg, (smul_add curve_b curve_b_nz) by exact G_on_curve. reflexivity.
Qed.

Lemma naf_step_ok r v d : at_multiple r v -> -1 <= d <= 1 -> at_multiple (naf_step r d) (2 * v + d).
Proof.
  intros [W P] Hd. pose proof (G_multiple v) as S.
  destruct (gej_double_var_ok r r None (gej_wf_mem _ W) W) as (Wd & Pd & _); [rewrite P; now apply secp_y_nz_pt |].
  destruct ge_const_g_ok as (Wg & Pg & _). destruct (ge_neg_ok _ Wg) as [Wn Pn]. rewrite Pg in Pn.
  assert (D : at_multiple (fst (secp256k1_gej_double_var r r None)) (2 * v)).
  { split; [exact Wd |]. rewrite Pd, P, <- Z.add_diag, (smul_add curve_b curve_b_nz) by exact G_on_curve. reflexivity. }
  unfold naf_step. cbv zeta. destruct (Z.eqb_spec d 1) as [-> | N1]; [now apply at_multiple_add |].
  destruct (Z.eqb_spec d (-1)) as [-> | N2]; [now apply at_multiple_add |].
  replace (2 * v + d) with (2 * v) by lia. exact D.
Qed.

Lemma naf_mul_ok i : forall r v, at_multiple r v -> at_multiple (naf_mul r i) (naf_val v i).
Proof.
  induction i as [| i IH]; intros r v H; [exact H |]. apply IH, naf_step_ok; [exact H |].
  unfold naf_digit. destruct (Z.testbit naf_plus _), (Z.testbit naf_minus _); cbn; lia.
Qed.

Lemma naf_run i : at_multiple (naf_mul secp256k1_gej_set_infinity i) (naf_val 0 i).
Proof. apply naf_mul_ok. exact gej_set_infinity_ok. Qed.
End Digits.

(** * The order of the generator *)

Definition n_plus : Z := 0x100000000000000000000000000000000000001080048a0400012809110404141.
Definition n_minus : Z := 0x1455124215100000440402204400a0000.

Lemma naf_result : gej_infinity (naf_mul n_plus n_minus secp256k1_gej_set_infinity 257) = 1.
Proof. vm_compute. reflexivity. Qed.

Lemma naf_value : naf_val n_plus n_minus 0 257 = secp_n.
Proof. vm_compute. reflexivity. Qed.

Lemma G_order : smul secp_n G = Inf.
Proof.
  destruct (naf_run n_plus n_minus 257) as [_ Q].
  rewrite naf_value in Q. rewrite <- Q. apply gej_pt_inf. rewrite naf_result. reflexivity.
Qed.

(** * The endomorphism on the generator *)

Definition lambda_plus : Z := 0x5404015100804100a5282002881284821240240a208208810002a08020240002.
Definition lambda_minus : Z := 0xa05404402410200002040000002028001201200000a20821000a0405004290.

Definition lambda_multiple : gej := naf_mul lambda_plus lambda_minus secp256k1_gej_set_infinity 256.

(** [lambda * G] minus the image of [G]. *)
Lemma lambda_difference : let r := lambda_multiple in
  gej_infinity (fst (secp256k1_gej_add_ge_var r r (secp256k1_ge_neg (secp256k1_ge_mul_lambda ref_g)) None)) = 1.
Proof. vm_compute. reflexivity. Qed.

Lemma lambda_value : naf_val lambda_plus lambda_minus 0 256 = lambda.
Proof. vm_compute. reflexivity. Qed.

(** [(x, y) -> (beta * x, y)]: [beta] is a square and its root a cube root of 1. *)
Definition phi : point -> point := pscale (beta ^ 2)%F.

Lemma beta_cube : (beta ^ 3 = 1)%F.
Proof. apply Zmod.unsigned_inj. vm_compute. reflexivity. Qed.

Lemma phi_aff x y : phi (Aff x y) = Aff (beta * x)%F y.
Proof. unfold phi, pscale. f_equal; ring [beta_cube]. Qed.

Lemma phi_secp P : secp P -> secp (phi P).
Proof.
  intros S. apply (pscale_on_curve (beta ^ 2)%F) in S. unfold secp.
  replace (curve_b * (beta ^ 2) ^ 6)%F with curve_b in S by ring [beta_cube]. exact S.
Qed.

Lemma ge_mul_lambda_phi {I : FieldImpl} {L : FieldLaws I} a P : ge_wf a -> ge_pt a = P -> P <> Inf ->
  ge_wf (secp256k1_ge_mul_lambda a) /\ ge_pt (secp256k1_ge_mul_lambda a) = phi P.
Proof. destruct P as [| x y]; [congruence |]. intros W E _. rewrite phi_aff. now apply ge_mul_lambda_ok. Qed.

Lemma padd_opp_inf P Q : secp P -> secp Q -> padd P (pneg Q) = Inf -> P = Q.
Proof.
  intros SP SQ E. rewrite <- (padd_inf_r P), <- (padd_neg_l curve_b Q SQ).
  rewrite <- (padd_assoc curve_b curve_b_nz), E by (auto using pneg_on_curve). reflexivity.
Qed.

(** A multiple of the generator that an addition of [- Q] takes to infinity is [Q]. *)
Lemma at_multiple_eq r v g Q : at_multiple r v -> ge_wf g -> ge_pt g = Q -> secp Q ->
  gej_infinity (fst (secp256k1_gej_add_ge_var r r (secp256k1_ge_neg g) None)) = 1 -> smul v G = Q.
Proof.
  intros [W P] Wg Pg SQ Z. pose proof (G_multiple v) as S. destruct (ge_neg_ok _ Wg) as [Wn Pn]. rewrite Pg in Pn.
  destruct (gej_add_ge_var_ok curve_b r r _ None (gej_wf_mem _ W) W Wn) as (_ & P' & _); auto.
  - rewrite P. now apply secp_y_nz_pt.
  - now rewrite P.
  - rewrite Pn. now apply pneg_on_curve.
  - rewrite gej_pt_inf in P' by (rewrite Z; reflexivity). rewrite P, Pn in P'. symmetry in P'. now apply padd_opp_inf.
Qed.

Lemma lambda_at : at_multiple lambda_multiple lambda.
Proof. unfold lambda_multiple. rewrite <- lambda_value. apply naf_run. Qed.

Lemma lambda_G : smul lambda G = phi G.
Proof.
  destruct ge_const_g_ok as (Wg & Pg & _). fold ref_g in Wg, Pg. destruct (ge_mul_lambda_phi ref_g G Wg Pg) as [Wl Pl]; [discriminate |].
  apply (at_multiple_eq lambda_multiple _ (secp256k1_ge_mul_lambda ref_g)); [exact lambda_at | exact Wl | exact Pl | exact (phi_secp G G_on_curve) |].
  exact lambda_difference.
Qed.
