(* ===== verification/Cofactor.v ===== *)
(** Every point of the curve is a multiple of the generator.

    Each abscissa carries at most two points, so there are at most [2p + 1] of
    them.  A point outside the multiples of [G] would give, with its negation,
    three disjoint cosets of [n] points each, because no point has order two.
    The code relies on it: a point that satisfies the curve equation is taken
    to be in the group of order [n]. *)

From Stdlib Require Import ZArith Lia List Bool Zmod Field.
From S2P Require Import Prelude Primes Fp Curve CurveGroup FieldGen GroupOps GOrder.
Import ListNotations.
Open Scope Z_scope.

Lemma NoDup_map_on {A B} (f : A -> B) l : NoDup l ->
  (forall x y, In x l -> In y l -> f x = f y -> x = y) -> NoDup (map f l).
Proof.
  induction 1 as [| x l Hx _ IH]; intros Hf; cbn [map]; constructor.
  - rewrite in_map_iff. intros (y & E & Hy). apply Hx. rewrite <- (Hf y x); cbn; auto.
  - apply IH. intros y z Hy Hz. apply Hf; now right.
Qed.

(** [0 .. n - 1], kept opaque: the list is never computed. *)
Lemma zrange_exists n : {l | NoDup l /\ (forall k, In k l <-> 0 <= k < n) /\ (0 <= n -> Z.of_nat (length l) = n)}.
Proof.
  exists (map Z.of_nat (seq 0 (Z.to_nat n))). split; [| split].
  - apply NoDup_map_on; [apply seq_NoDup | lia].
  - intros k. rewrite in_map_iff. split.
    + intros (i & <- & H). apply in_seq in H. lia.
    + intros H. exists (Z.to_nat k). split; [lia |]. apply in_seq. lia.
  - intros H. rewrite length_map, length_seq. lia.
Qed.

Definition zrange (n : Z) : list Z := proj1_sig (zrange_exists n).

Lemma in_zrange n k : In k (zrange n) <-> 0 <= k < n.
Proof. apply (proj2_sig (zrange_exists n)). Qed.

Lemma length_zrange n : 0 <= n -> Z.of_nat (length (zrange n)) = n.
Proof. apply (proj2_sig (zrange_exists n)). Qed.

Lemma NoDup_zrange n : NoDup (zrange n).
Proof. apply (proj2_sig (zrange_exists n)). Qed.

(** * At most [2p + 1] points *)

Definition all_F : list F := map F_of_Z (zrange secp_p).

Lemma in_all_F x : In x all_F.
Proof. rewrite <- (F_of_to_Z x). apply in_map, in_zrange, F_to_Z_bound. Qed.

Lemma NoDup_all_F : NoDup all_F.
Proof.
  apply NoDup_map_on; [apply NoDup_zrange |]. intros x y Hx Hy E. apply in_zrange in Hx, Hy.
  apply F_of_Z_eq in E. now rewrite !Z.mod_small in E.
Qed.

Definition above (x : F) : list F := filter (fun y => Zmod.eqb (y ^ 2) (x ^ 3 + curve_b))%F all_F.

Lemma in_above x y : In y (above x) <-> secp (Aff x y).
Proof. unfold above. rewrite filter_In, Zmod.eqb_eq. split; [now intros [_ H] | intros H; split; [apply in_all_F | exact H]]. Qed.

Lemma same_square (y z : F) : (y ^ 2 = z ^ 2)%F -> y <> z -> z = (- y)%F.
Proof.
  intros E N. assert (H : ((y - z) * (y + z) = 0)%F) by (transitivity (y ^ 2 - z ^ 2)%F; [ring | rewrite E; ring]).
  apply F_mul_0 in H as [H | H].
  - exfalso. apply N. transitivity (y - z + z)%F; [ring | rewrite H; ring].
  - transitivity (y + z - y)%F; [ring | rewrite H; ring].
Qed.

Lemma length_above x : (length (above x) <= 2)%nat.
Proof.
  assert (N : NoDup (above x)) by apply NoDup_filter, NoDup_all_F.
  assert (Q : forall y z, In y (above x) -> In z (above x) -> (y ^ 2 = z ^ 2)%F).
  { intros y z Hy Hz. apply (proj1 (in_above x _)) in Hy, Hz. unfold secp in *. cbn [on_curve] in *. congruence. }
  destruct (above x) as [| a [| b [| c l]]]; cbn [length]; try lia. exfalso.
  apply NoDup_cons_iff in N as [Na N]. apply NoDup_cons_iff in N as [Nb N]. cbn [In] in *.
  assert (Ea : b = (- a)%F) by (apply same_square; [apply Q; auto | intros E; apply Na; auto]).
  assert (Eb : c = (- a)%F) by (apply same_square; [apply Q; auto | intros E; apply Na; auto]).
  apply Nb. left. congruence.
Qed.

Definition all_points : list point := Inf :: flat_map (fun x => map (Aff x) (above x)) all_F.

Lemma in_all_points P : secp P -> In P all_points.
Proof.
  destruct P as [| x y]; intros H; [apply in_eq |]. apply in_cons, (proj2 (in_flat_map _ _ _)). exists x.
  split; [apply in_all_F |]. apply in_map. exact (proj2 (in_above x y) H).
Qed.

Lemma length_flat_map_le {A B} (f : A -> list B) k l :
  (forall x, (length (f x) <= k)%nat) -> (length (flat_map f l) <= k * length l)%nat.
Proof.
  intros H. induction l as [| x l IH]; cbn [flat_map length]; [lia |]. rewrite length_app. specialize (H x). nia.
Qed.

Lemma length_all_F : Z.of_nat (length all_F) = secp_p.
Proof. unfold all_F. rewrite length_map. apply length_zrange. discriminate. Qed.

Lemma length_all_points : Z.of_nat (length all_points) <= 2 * secp_p + 1.
Proof.
  pose proof (length_flat_map_le (fun x => map (Aff x) (above x)) 2 all_F
    (fun x => Nat.le_trans _ _ _ (Nat.eq_le_incl _ _ (length_map (Aff x) (above x))) (length_above x))) as H.
  pose proof length_all_F as E. unfold all_points. rewrite length_cons.
  generalize dependent (length (flat_map (fun x => map (Aff x) (above x)) all_F)).
  generalize dependent (length all_F). generalize secp_p. intros. lia.
Qed.

(** * Cosets *)

Lemma smul_G_inj j k : 0 <= j < secp_n -> 0 <= k < secp_n -> smul j G = smul k G -> j = k.
Proof.
  intros Hj Hk E. pose proof G_on_curve as S.
  assert (D : smul (j - k) G = Inf).
  { rewrite <- Z.add_opp_r, (smul_add curve_b curve_b_nz), smul_opp, E by exact S. apply padd_neg_r. }
  apply (order_exact G) in D; [| exact S | discriminate | exact G_order].
  rewrite <- Z.add_opp_r in D. apply Z.mod_divide in D as [q D]; [| discriminate].
  assert (q < 1) by nia. assert (-1 < q) by nia. assert (q = 0) by lia. subst q. lia.
Qed.

Definition coset (P : point) : list point := map (fun k => padd P (smul k G)) (zrange secp_n).

Lemma in_coset P Q : secp P -> In Q (coset P) -> exists k, Q = padd P (smul k G) /\ secp Q.
Proof.
  intros S H. apply in_map_iff in H as (k & <- & _). exists k. split; [reflexivity |].
  apply padd_on_curve; [exact S | apply G_multiple].
Qed.

Lemma NoDup_coset P : secp P -> NoDup (coset P).
Proof.
  intros S. apply NoDup_map_on; [apply NoDup_zrange |]. intros j k Hj Hk E. apply in_zrange in Hj, Hk.
  apply smul_G_inj; try assumption.
  rewrite <- (padd_cancel curve_b curve_b_nz P (smul j G)), E by (exact S || apply G_multiple).
  apply (padd_cancel curve_b curve_b_nz); [exact S | apply G_multiple].
Qed.

Lemma padd_sub P Q : secp P -> secp Q -> padd (padd P Q) (pneg Q) = P.
Proof.
  intros SP SQ. rewrite (padd_assoc curve_b curve_b_nz) by (try assumption; now apply pneg_on_curve).
  now rewrite padd_neg_r, padd_inf_r.
Qed.

(** Two points whose cosets meet differ by a multiple of [G]. *)
Lemma coset_meet P Q R : secp P -> secp Q -> In R (coset P) -> In R (coset Q) ->
  exists k, P = padd Q (smul k G).
Proof.
  intros SP SQ HP HQ. apply in_coset in HP as (j & EP & _), HQ as (k & EQ & _); try assumption.
  exists (k - j). pose proof (G_multiple j) as Sj. pose proof (G_multiple k) as Sk.
  rewrite <- Z.add_opp_r, (smul_add curve_b curve_b_nz), smul_opp by exact G_on_curve.
  rewrite <- (padd_assoc curve_b curve_b_nz) by (try assumption; now apply pneg_on_curve).
  rewrite <- EQ, EP. symmetry. now apply padd_sub.
Qed.

Lemma no_order_two P : secp P -> padd P P = Inf -> P = Inf.
Proof.
  destruct P as [| x y]; [reflexivity |]. intros S E. exfalso.
  pose proof (padd_sub (Aff x y) (Aff x y) S S) as H. rewrite E in H. cbn [padd pneg] in H.
  apply aff_inj in H as [_ H]. pose proof (secp_y_nz x y S) as N. apply N. now apply opp_eq_0.
Qed.

Lemma even_multiple k : exists m, smul k G = padd (smul m G) (smul m G).
Proof.
  assert (H : exists m, smul k G = smul (m + m) G).
  { destruct (Z.Even_or_Odd k) as [[m ->] | [m ->]]; [exists m; f_equal; lia |].
    exists (m + (secp_n + 1) / 2). replace (m + (secp_n + 1) / 2 + (m + (secp_n + 1) / 2)) with (2 * m + 1 + secp_n).
    - rewrite (smul_add curve_b curve_b_nz _ G_on_curve (2 * m + 1)), G_order, padd_inf_r. reflexivity.
    - assert (E : secp_n + 1 = 2 * ((secp_n + 1) / 2)) by reflexivity. lia. }
  destruct H as [m H]. exists m. rewrite H. apply (smul_add curve_b curve_b_nz), G_on_curve.
Qed.

Lemma half_multiple P k : secp P -> padd P P = smul k G -> exists m, P = smul m G.
Proof.
  intros S E. destruct (even_multiple k) as [m Em]. rewrite Em in E. exists m. pose proof (G_multiple m) as Sm.
  pose proof (pneg_on_curve curve_b _ Sm) as Sn.
  assert (T : padd P (pneg (smul m G)) = Inf).
  { apply no_order_two; [now apply padd_on_curve |].
    rewrite (padd_swap curve_b curve_b_nz), E by assumption.
    rewrite (padd_swap curve_b curve_b_nz), padd_neg_r by assumption. reflexivity. }
  rewrite <- (padd_sub P (pneg (smul m G))), T by assumption. now rewrite pneg_involutive.
Qed.

Lemma NoDup_app_3 {A} (l1 l2 l3 : list A) : NoDup l1 -> NoDup l2 -> NoDup l3 ->
  (forall x, In x l1 -> ~ In x l2) -> (forall x, In x l1 -> ~ In x l3) -> (forall x, In x l2 -> ~ In x l3) ->
  NoDup (l1 ++ l2 ++ l3).
Proof.
  intros. repeat (apply NoDup_app; try assumption). intros x Hx Hy. apply in_app_iff in Hy as [Hy | Hy]; firstorder.
Qed.

Lemma length_coset P : Z.of_nat (length (coset P)) = secp_n.
Proof. unfold coset. rewrite length_map. apply length_zrange. discriminate. Qed.

(** The curve has no point beside the multiples of [G]. *)
Lemma secp_cyclic P : secp P -> exists k, 0 <= k < secp_n /\ P = smul k G.
Proof.
  intros S. destruct (in_dec point_eq_dec P (coset Inf)) as [H | N].
  { apply in_map_iff in H as (k & <- & Hk). exists k. now apply in_zrange in Hk. }
  exfalso. assert (NM : ~ exists k, P = smul k G).
  { intros [k E]. apply N, in_map_iff. exists (k mod secp_n). split; [| now apply in_zrange, Z.mod_pos_bound].
    cbn [padd]. rewrite E. apply (smul_mod curve_b curve_b_nz); [discriminate | exact G_on_curve | exact G_order]. }
  pose proof (pneg_on_curve curve_b P S) as SN. assert (SI : secp Inf) by exact Logic.I.
  assert (D : NoDup (coset Inf ++ coset P ++ coset (pneg P))).
  { apply NoDup_app_3; try (now apply NoDup_coset); intros x H1 H2; apply NM.
    - destruct (coset_meet P Inf x S SI H2 H1) as [k E]. now exists k.
    - destruct (coset_meet (pneg P) Inf x SN SI H2 H1) as [k E]. cbn [padd] in E. exists (- k).
      rewrite smul_opp, <- E by exact G_on_curve. symmetry. apply pneg_involutive.
    - destruct (coset_meet P (pneg P) x S SN H1 H2) as [k E]. apply (half_multiple P k S).
      rewrite E at 2. rewrite <- (pneg_involutive P) at 1.
      apply (padd_cancel curve_b curve_b_nz); [exact SN | apply G_multiple]. }
  apply NoDup_incl_length with (l' := all_points) in D.
  - rewrite !length_app in D. pose proof length_all_points. pose proof (length_coset Inf).
    pose proof (length_coset P). pose proof (length_coset (pneg P)).
    assert (2 * secp_p + 1 < 3 * secp_n) by reflexivity. lia.
  - intros x Hx. apply in_all_points. rewrite !in_app_iff in Hx.
    destruct Hx as [Hx | [Hx | Hx]]; apply in_coset in Hx as (k & _ & O); assumption.
Qed.

Lemma secp_order P : secp P -> smul secp_n P = Inf.
Proof.
  intros S. destruct (secp_cyclic P S) as (k & _ & ->).
  rewrite <- (smul_mul curve_b curve_b_nz), Z.mul_comm, (smul_mul curve_b curve_b_nz), G_order by exact G_on_curve.
  apply smul_inf.
Qed.
