(* ===== verification/GroupTable.v ===== *)
(** Arrays of group elements: batch conversion to affine coordinates and the
    two conversions of a table with known [z] ratios. *)

From Stdlib Require Import ZArith Lia List Bool Zmod Field.
From S2P Require Import Prelude Limbs Primes Fp Curve CurveGroup FieldSpec FieldGen Group GroupSpec GroupOps.
Import ListNotations.
Open Scope Z_scope.

Section Tables.
Context {I : FieldImpl} {L : FieldLaws I}.

(** The affine element [g] is the Jacobian element [j]. *)
Definition same_pt (g : ge) (j : gej) : Prop := ge_wf g /\ ge_pt g = gej_pt j.

(** * Batch conversion *)

Lemma collect_ok a : Forall gej_wf a -> Forall (fun x => mag 8 x /\ fv x <> 0%F) (all_gej_collect a).
Proof.
  induction 1 as [| p t Hp _ IH]; cbn [all_gej_collect]; [constructor |].
  destruct (z2b (gej_infinity p)) eqn:E; cbn [negb]; [exact IH |]. constructor; [| exact IH].
  destruct (gej_wf_inv p Hp E) as (_ & _ & [Hz _] & Hn & _). now split.
Qed.

Lemma distribute_ok a : Forall gej_wf a -> forall r azi, length r = length a -> Forall ge_wf r ->
  Forall2 (fun zi z => FeI zi 1 (Zmod.inv (fv z))) azi (all_gej_collect a) ->
  Forall2 same_pt (all_gej_distribute r a azi) a.
Proof.
  induction 1 as [| p t Hp _ IH]; intros r azi Hl Hr Hz; destruct r as [| q r]; try discriminate; [constructor |].
  cbn [all_gej_distribute all_gej_collect length] in *. inversion Hr as [| ? ? Hq Hr']; subst.
  destruct (z2b (gej_infinity p)) eqn:E; cbn [negb] in *.
  - constructor; [| apply IH; auto]. unfold same_pt, ge_wf, ge_pt, gej_pt. cbn [ge_x ge_y ge_infinity].
    rewrite E. destruct Hp as (_ & _ & _ & Hf & _), Hq as (? & ? & _). auto.
  - inversion Hz as [| zi z azi' ? Hzi Hz']; subst. constructor; [| apply IH; auto].
    apply ge_set_gej_zinv_ok; [exact Hp |]. now apply (feI_weaken _ 1).
Qed.

Lemma ge_set_all_gej_ok mem r a : Forall gej_wf a -> Forall ge_wf r -> length r = length a ->
  length mem = length (all_gej_collect a) -> Forall2 same_pt (secp256k1_ge_set_all_gej_var mem r a) a.
Proof.
  intros Ha Hr Hl Hm. apply distribute_ok; try assumption.
  destruct (inv_all_ok _ (collect_ok a Ha) mem Hm) as [HL HI].
  set (azi := secp256k1_fe_inv_all_var mem _) in *. set (az := all_gej_collect a) in *. clearbody azi az.
  clear - HL HI. revert azi HL HI. induction az as [| z az IH]; intros azi HL HI; destruct azi as [| zi azi];
    try discriminate; constructor.
  - exact (HI 0%nat ltac:(cbn; lia)).
  - apply IH; [now injection HL |]. intros i Hi. exact (HI (S i) ltac:(cbn; lia)).
Qed.

(** * Tables with known ratios *)

(** The entries are finite and [zr[i]] is the quotient of the [z]s of entries
    [i] and [i - 1]. *)
Definition table_ok (a : list gej) (zr : list fe) : Prop :=
  (forall i, (i < length a)%nat -> gej_wf (nth_gej a i) /\ gej_infinity (nth_gej a i) = 0) /\
  (forall i, (S i < length a)%nat ->
     mag 8 (nth_fe zr (S i)) /\ fv (gej_z (nth_gej a (S i))) = (fv (nth_fe zr (S i)) * fv (gej_z (nth_gej a i)))%F).

Section Table.
Variables (a : list gej) (zr : list fe).
Hypothesis HT : table_ok a zr.
Let z (i : nat) : F := fv (gej_z (nth_gej a i)).

Lemma table_z_nz i : (i < length a)%nat -> z i <> 0%F.
Proof. intros Hi. destruct (proj1 HT i Hi) as [W E]. now apply W. Qed.

Lemma table_ratio i : (S i < length a)%nat -> FeI (nth_fe zr (S i)) 8 (z (S i) / z i)%F.
Proof.
  intros Hi. destruct (proj2 HT i Hi) as [M E]. split; [exact M |]. unfold z. rewrite E.
  pose proof (table_z_nz i ltac:(lia)). field. assumption.
Qed.

Lemma table_loop_ok i : forall r zi, (i < length a)%nat -> length r = length a ->
  FeI zi 8 (Zmod.inv (z i)) -> (forall j, (i <= j < length a)%nat -> same_pt (nth_ge r j) (nth_gej a j)) ->
  length (table_gej_loop r a zr zi i) = length a /\
  forall j, (j < length a)%nat -> same_pt (nth_ge (table_gej_loop r a zr zi i) j) (nth_gej a j).
Proof.
  induction i as [| i IH]; intros r zi Hi Hr Hz Hd; cbn [table_gej_loop].
  - split; [exact Hr |]. intros j Hj. apply Hd. lia.
  - assert (Hz' : FeI (fe_mul zi (nth_fe zr (S i))) 8 (Zmod.inv (z i))).
    { pose proof (table_ratio i Hi). fe_is. pose proof (table_z_nz i ltac:(lia)). pose proof (table_z_nz (S i) Hi).
      field. auto. }
    apply IH; [lia | now rewrite length_upd | exact Hz' |].
    intros j Hj. unfold nth_ge. destruct (Nat.eq_dec j i) as [-> | N].
    + rewrite nth_upd_eq by lia. apply ge_set_gej_zinv_ok; [apply HT; lia | exact Hz'].
    + rewrite nth_upd_neq by lia. apply Hd. lia.
Qed.

Lemma ge_set_table_ok r : length r = length a ->
  length (secp256k1_ge_set_table_gej_var r a zr) = length a /\
  forall j, (j < length a)%nat -> same_pt (nth_ge (secp256k1_ge_set_table_gej_var r a zr) j) (nth_gej a j).
Proof.
  intros Hr. unfold secp256k1_ge_set_table_gej_var. destruct (length a) as [| i] eqn:El.
  { split; [exact Hr | intros j Hj; lia]. }
  rewrite <- El in *. assert (Hi : (i < length a)%nat) by lia. destruct (proj1 HT i Hi) as [W E].
  destruct (gej_wf_mags _ W) as (_ & _ & Hz). apply fe_inv_ok in Hz. apply (feI_weaken _ 1 8) in Hz; [| lia].
  apply table_loop_ok; [exact Hi | now rewrite length_upd | exact Hz |].
  intros j Hj. assert (j = i) as -> by lia. unfold nth_ge. rewrite nth_upd_eq by lia. now apply ge_set_gej_zinv_ok.
Qed.

(** The affine element [g] over the common [z] coordinate [v] is [j]. *)
Definition over_z (v : F) (g : ge) (j : gej) : Prop :=
  ge_wf g /\ ge_infinity g = 0 /\ Aff (fv (ge_x g) / v ^ 2)%F (fv (ge_y g) / v ^ 3)%F = gej_pt j.

Lemma over_z_zinv zs k i : (i < length a)%nat -> k <> 0%F -> FeI zs 8 (k / z i)%F ->
  over_z k (secp256k1_ge_set_gej_zinv (nth_gej a i) zs) (nth_gej a i).
Proof.
  intros Hi Hk Hz. destruct (proj1 HT i Hi) as [W E]. destruct (ge_set_gej_zinv_val _ _ _ W Hz) as (Hx & Hy & Hf).
  rewrite E in Hf. pose proof (table_z_nz i Hi) as Hn. destruct (ge_result _ _ _ _ _ Hx Hy eq_refl Hf) as [W' _].
  split; [exact W' |]. split; [exact Hf |]. rewrite (proj2 Hx), (proj2 Hy).
  unfold gej_pt. rewrite E. cbn [z2b Z.eqb negb]. fold (z i). f_equal; field; auto.
Qed.

Lemma globalz_loop_ok i : forall r zs, (i < length a)%nat -> length r = length a ->
  let k := z (length a - 1) in
  (i = (length a - 1)%nat -> zs = nth_fe zr i) -> ((i < length a - 1)%nat -> FeI zs 8 (k / z i)%F) ->
  (forall j, (i <= j < length a)%nat -> over_z k (nth_ge r j) (nth_gej a j)) ->
  length (globalz_loop (length a) r a zr zs i) = length a /\
  forall j, (j < length a)%nat -> over_z k (nth_ge (globalz_loop (length a) r a zr zs i) j) (nth_gej a j).
Proof.
  induction i as [| i IH]; intros r zs Hi Hr k Hlast Hzs Hd; cbn [globalz_loop].
  - split; [exact Hr |]. intros j Hj. apply Hd. lia.
  - set (zs' := if negb (S i =? length a - 1)%nat then fe_mul zs (nth_fe zr (S i)) else zs). pose proof (table_z_nz (length a - 1) ltac:(lia)) as Hk. fold k in Hk.
    pose proof (table_ratio i Hi) as Hq. pose proof (table_z_nz i ltac:(lia)). pose proof (table_z_nz (S i) Hi).
    assert (Hz' : FeI zs' 8 (k / z i)%F).
    { unfold zs'. destruct (Nat.eqb_spec (S i) (length a - 1)) as [E | N]; cbn [negb].
      - rewrite (Hlast E). unfold k. rewrite <- E. exact Hq.
      - specialize (Hzs ltac:(lia)). fe_is. field. auto. }
    apply IH; [lia | now rewrite length_upd | lia | intros _; exact Hz' |].
    intros j Hj. unfold nth_ge. destruct (Nat.eq_dec j i) as [-> | N].
    + rewrite nth_upd_eq by lia. apply over_z_zinv; [lia | exact Hk | exact Hz'].
    + rewrite nth_upd_neq by lia. apply Hd. lia.
Qed.

(** Every entry over the [z] of the last one, without an inversion. *)
Lemma ge_globalz_ok r gz : length r = length a -> (0 < length a)%nat ->
  let p := secp256k1_ge_globalz_set_table_gej (length a) r gz a zr in
  length (fst p) = length a /\ snd p = gej_z (nth_gej a (length a - 1)) /\
  forall j, (j < length a)%nat -> over_z (fv (snd p)) (nth_ge (fst p) j) (nth_gej a j).
Proof.
  intros Hr Hl p. unfold p, secp256k1_ge_globalz_set_table_gej.
  destruct (length a) as [| i] eqn:El; [lia |]. cbn [fst snd]. replace (S i - 1)%nat with i by lia. rewrite <- El in *.
  assert (Hi : (i < length a)%nat) by lia. destruct (proj1 HT i Hi) as [W E].
  destruct (gej_wf_mags _ W) as (Hx & Hy & _). set (r' := upd i _ r).
  destruct (globalz_loop_ok i r' (nth_fe zr i)) as [HL HO]; try (unfold r'; rewrite length_upd; lia);
    replace (length a - 1)%nat with i in * by lia; try lia; try reflexivity.
  - intros j Hj. assert (j = i) as -> by lia. unfold r', nth_ge. rewrite nth_upd_eq by lia.
    destruct (ge_result (Ge (gej_x (nth_gej a i)) (gej_y (nth_gej a i)) 0) _ _ _ _ Hx Hy eq_refl eq_refl) as [W' _].
    split; [exact W' |]. split; [reflexivity |]. unfold gej_pt. now rewrite E.
  - split; [exact HL |]. split; [reflexivity | exact HO].
Qed.
End Table.
End Tables.
