(* ===== verification/Hash.v ===== *)
(** SHA-256, HMAC-SHA256 and the RFC 6979 generator, [hash.h] and
    [hash_impl.h], on a little-endian machine with a 64-bit [size_t]. *)

From Stdlib Require Import ZArith Lia List Bool.
From S2P Require Import Prelude Limbs.
Import ListNotations.
Open Scope Z_scope.

(** * SHA-256 *)

Definition Ch (x y z : Z) : Z := z .^ (x .& (y .^ z)).
Definition Maj (x y z : Z) : Z := (x .& y) .| (z .& (x .| y)).
Definition Sigma0 (x : Z) : Z := ((x >> 2) .| u32 (x << 30)) .^ ((x >> 13) .| u32 (x << 19)) .^ ((x >> 22) .| u32 (x << 10)).
Definition Sigma1 (x : Z) : Z := ((x >> 6) .| u32 (x << 26)) .^ ((x >> 11) .| u32 (x << 21)) .^ ((x >> 25) .| u32 (x << 7)).
Definition sigma0 (x : Z) : Z := ((x >> 7) .| u32 (x << 25)) .^ ((x >> 18) .| u32 (x << 14)) .^ (x >> 3).
Definition sigma1 (x : Z) : Z := ((x >> 17) .| u32 (x << 15)) .^ ((x >> 19) .| u32 (x << 13)) .^ (x >> 10).

(** The new values of [d] and [h]. *)
Definition Round (a b c d e f g h k w : Z) : Z * Z :=
  let t1 := u32 (h + Sigma1 e + Ch e f g + k + w) in
  let t2 := u32 (Sigma0 a + Maj a b c) in
  (u32 (d + t1), u32 (t1 + t2)).

Definition BE32 (p : Z) : Z :=
  ((p .& 0xFF) << 24) .| ((p .& 0xFF00) << 8) .| ((p .& 0xFF0000) >> 8) .| ((p .& 0xFF000000) >> 24).

(** The state words, the bytes of the buffer, and the number of bytes hashed. *)
Record sha256_t : Type := Sha256 { sha_s : list Z; sha_buf : list Z; sha_bytes : Z }.

(** [hash] is the structure before the call: its buffer stays. *)
Definition secp256k1_sha256_initialize (hash : sha256_t) : sha256_t :=
  Sha256 [0x6a09e667; 0xbb67ae85; 0x3c6ef372; 0xa54ff53a; 0x510e527f; 0x9b05688c; 0x1f83d9ab; 0x5be0cd19]
    (sha_buf hash) 0.

(** The first 16 rounds, on the words of [chunk]: returns the registers and the
    words [w0 .. w15]. *)
Definition sha256_rounds_0 (s chunk : list Z) : list Z * list Z :=
  let a := s.[0] in let b := s.[1] in let c := s.[2] in let d := s.[3] in
  let e := s.[4] in let f := s.[5] in let g := s.[6] in let h := s.[7] in
  let w0 := BE32 chunk.[0] in
  let '(d, h) := Round a b c d e f g h 0x428a2f98 w0 in
  let w1 := BE32 chunk.[1] in
  let '(c, g) := Round h a b c d e f g 0x71374491 w1 in
  let w2 := BE32 chunk.[2] in
  let '(b, f) := Round g h a b c d e f 0xb5c0fbcf w2 in
  let w3 := BE32 chunk.[3] in
  let '(a, e) := Round f g h a b c d e 0xe9b5dba5 w3 in
  let w4 := BE32 chunk.[4] in
  let '(h, d) := Round e f g h a b c d 0x3956c25b w4 in
  let w5 := BE32 chunk.[5] in
  let '(g, c) := Round d e f g h a b c 0x59f111f1 w5 in
  let w6 := BE32 chunk.[6] in
  let '(f, b) := Round c d e f g h a b 0x923f82a4 w6 in
  let w7 := BE32 chunk.[7] in
  let '(e, a) := Round b c d e f g h a 0xab1c5ed5 w7 in
  let w8 := BE32 chunk.[8] in
  let '(d, h) := Round a b c d e f g h 0xd807aa98 w8 in
  let w9 := BE32 chunk.[9] in
  let '(c, g) := Round h a b c d e f g 0x12835b01 w9 in
  let w10 := BE32 chunk.[10] in
  let '(b, f) := Round g h a b c d e f 0x243185be w10 in
  let w11 := BE32 chunk.[11] in
  let '(a, e) := Round f g h a b c d e 0x550c7dc3 w11 in
  let w12 := BE32 chunk.[12] in
  let '(h, d) := Round e f g h a b c d 0x72be5d74 w12 in
  let w13 := BE32 chunk.[13] in
  let '(g, c) := Round d e f g h a b c 0x80deb1fe w13 in
  let w14 := BE32 chunk.[14] in
  let '(f, b) := Round c d e f g h a b 0x9bdc06a7 w14 in
  let w15 := BE32 chunk.[15] in
  let '(e, a) := Round b c d e f g h a 0xc19bf174 w15 in
  ([a; b; c; d; e; f; g; h], [w0; w1; w2; w3; w4; w5; w6; w7; w8; w9; w10; w11; w12; w13; w14; w15]).

(** Each of the three following groups of 16 rounds, with its constants.
    The last group of the code uses, but does not store, its last two words. *)
Definition sha256_rounds (k0 k1 k2 k3 k4 k5 k6 k7 k8 k9 k10 k11 k12 k13 k14 k15 : Z) (s w : list Z) : list Z * list Z :=
  let a := s.[0] in let b := s.[1] in let c := s.[2] in let d := s.[3] in
  let e := s.[4] in let f := s.[5] in let g := s.[6] in let h := s.[7] in
  let w0 := w.[0] in let w1 := w.[1] in let w2 := w.[2] in let w3 := w.[3] in let w4 := w.[4] in let w5 := w.[5] in let w6 := w.[6] in let w7 := w.[7] in
  let w8 := w.[8] in let w9 := w.[9] in let w10 := w.[10] in let w11 := w.[11] in let w12 := w.[12] in let w13 := w.[13] in let w14 := w.[14] in let w15 := w.[15] in
  let w0 := u32 (w0 + (sigma1 w14 + w9 + sigma0 w1)) in
  let '(d, h) := Round a b c d e f g h k0 w0 in
  let w1 := u32 (w1 + (sigma1 w15 + w10 + sigma0 w2)) in
  let '(c, g) := Round h a b c d e f g k1 w1 in
  let w2 := u32 (w2 + (sigma1 w0 + w11 + sigma0 w3)) in
  let '(b, f) := Round g h a b c d e f k2 w2 in
  let w3 := u32 (w3 + (sigma1 w1 + w12 + sigma0 w4)) in
  let '(a, e) := Round f g h a b c d e k3 w3 in
  let w4 := u32 (w4 + (sigma1 w2 + w13 + sigma0 w5)) in
  let '(h, d) := Round e f g h a b c d k4 w4 in
  let w5 := u32 (w5 + (sigma1 w3 + w14 + sigma0 w6)) in
  let '(g, c) := Round d e f g h a b c k5 w5 in
  let w6 := u32 (w6 + (sigma1 w4 + w15 + sigma0 w7)) in
  let '(f, b) := Round c d e f g h a b k6 w6 in
  let w7 := u32 (w7 + (sigma1 w5 + w0 + sigma0 w8)) in
  let '(e, a) := Round b c d e f g h a k7 w7 in
  let w8 := u32 (w8 + (sigma1 w6 + w1 + sigma0 w9)) in
  let '(d, h) := Round a b c d e f g h k8 w8 in
  let w9 := u32 (w9 + (sigma1 w7 + w2 + sigma0 w10)) in
  let '(c, g) := Round h a b c d e f g k9 w9 in
  let w10 := u32 (w10 + (sigma1 w8 + w3 + sigma0 w11)) in
  let '(b, f) := Round g h a b c d e f k10 w10 in
  let w11 := u32 (w11 + (sigma1 w9 + w4 + sigma0 w12)) in
  let '(a, e) := Round f g h a b c d e k11 w11 in
  let w12 := u32 (w12 + (sigma1 w10 + w5 + sigma0 w13)) in
  let '(h, d) := Round e f g h a b c d k12 w12 in
  let w13 := u32 (w13 + (sigma1 w11 + w6 + sigma0 w14)) in
  let '(g, c) := Round d e f g h a b c k13 w13 in
  let w14 := u32 (w14 + (sigma1 w12 + w7 + sigma0 w15)) in
  let '(f, b) := Round c d e f g h a b k14 w14 in
  let w15 := u32 (w15 + (sigma1 w13 + w8 + sigma0 w0)) in
  let '(e, a) := Round b c d e f g h a k15 w15 in
  ([a; b; c; d; e; f; g; h], [w0; w1; w2; w3; w4; w5; w6; w7; w8; w9; w10; w11; w12; w13; w14; w15]).

Definition secp256k1_sha256_transform (s chunk : list Z) : list Z :=
  let '(r, w) := sha256_rounds_0 s chunk in
  let '(r, w) := sha256_rounds
    0xe49b69c1 0xefbe4786 0x0fc19dc6 0x240ca1cc 0x2de92c6f 0x4a7484aa 0x5cb0a9dc 0x76f988da
     0x983e5152 0xa831c66d 0xb00327c8 0xbf597fc7 0xc6e00bf3 0xd5a79147 0x06ca6351 0x14292967 r w in
  let '(r, w) := sha256_rounds
    0x27b70a85 0x2e1b2138 0x4d2c6dfc 0x53380d13 0x650a7354 0x766a0abb 0x81c2c92e 0x92722c85
     0xa2bfe8a1 0xa81a664b 0xc24b8b70 0xc76c51a3 0xd192e819 0xd6990624 0xf40e3585 0x106aa070 r w in
  let '(r, w) := sha256_rounds
    0x19a4c116 0x1e376c08 0x2748774c 0x34b0bcb5 0x391c0cb3 0x4ed8aa4a 0x5b9cca4f 0x682e6ff3
     0x748f82ee 0x78a5636f 0x84c87814 0x8cc70208 0x90befffa 0xa4506ceb 0xbef9a3f7 0xc67178f2 r w in
  [u32 (s.[0] + r.[0]); u32 (s.[1] + r.[1]); u32 (s.[2] + r.[2]); u32 (s.[3] + r.[3]);
   u32 (s.[4] + r.[4]); u32 (s.[5] + r.[5]); u32 (s.[6] + r.[6]); u32 (s.[7] + r.[7])].

(** [n] 32-bit words of memory, read little endian, and the bytes of words. *)
Fixpoint words_of (n : nat) (bytes : list Z) : list Z :=
  match n with
  | O => []
  | S m => limbs_val 8 (firstn 4 bytes) :: words_of m (skipn 4 bytes)
  end.

Definition bytes_of (words : list Z) : list Z := flat_map (digits 8 4) words.

(** [memcpy(dst + off, src, length src)]. *)
Definition memcpy_at (off : nat) (src dst : list Z) : list Z :=
  firstn off dst ++ src ++ skipn (off + length src) dst.

(** [while (bufsize + len >= 64)], with [len] the length of [data]; returns the
    state, the buffer, [bufsize] and the rest of [data].  Each iteration
    consumes data after the first, so [length data + 1] iterations are enough. *)
Fixpoint sha256_write_loop (fuel : nat) (s buf : list Z) (bufsize : nat) (data : list Z)
    : list Z * list Z * nat * list Z :=
  match fuel with
  | O => (s, buf, bufsize, data)
  | S fuel' =>
      if (64 <=? bufsize + length data)%nat then
        let buf := memcpy_at bufsize (firstn (64 - bufsize) data) buf in
        let data := skipn (64 - bufsize) data in
        let s := secp256k1_sha256_transform s (words_of 16 buf) in
        sha256_write_loop fuel' s buf 0 data
      else (s, buf, bufsize, data)
  end.

Definition size64 (z : Z) : Z := z mod 2 ^ 64.

Definition secp256k1_sha256_write (hash : sha256_t) (data : list Z) : sha256_t :=
  let bufsize := Z.to_nat (sha_bytes hash .& 0x3F) in
  let bytes := size64 (sha_bytes hash + Z.of_nat (length data)) in
  let '(s, buf, bufsize, data) :=
    sha256_write_loop (S (length data)) (sha_s hash) (sha_buf hash) bufsize data in
  let buf := if (0 <? length data)%nat then memcpy_at bufsize data buf else buf in
  Sha256 s buf bytes.

(** Returns the structure after the call and [out32]. *)
Definition secp256k1_sha256_finalize (hash : sha256_t) : sha256_t * list Z :=
  let pad := 0x80 :: repeat 0 63 in
  let sizedesc := [BE32 (sha_bytes hash >> 29); BE32 (size64 (sha_bytes hash << 3))] in
  let hash := secp256k1_sha256_write hash (firstn (Z.to_nat (1 + (119 - sha_bytes hash mod 64) mod 64)) pad) in
  let hash := secp256k1_sha256_write hash (bytes_of sizedesc) in
  let out := map BE32 (sha_s hash) in
  (Sha256 (repeat 0 8) (sha_buf hash) (sha_bytes hash), bytes_of out).

(** * HMAC *)

Record hmac_sha256_t : Type := Hmac { hmac_inner : sha256_t; hmac_outer : sha256_t }.

(** A structure of automatic storage: its content is not read before it is
    initialised. *)
Definition sha256_new : sha256_t := Sha256 (repeat 0 8) (repeat 0 64) 0.
Definition hmac_new : hmac_sha256_t := Hmac sha256_new sha256_new.

Definition secp256k1_hmac_sha256_initialize (hash : hmac_sha256_t) (key : list Z) : hmac_sha256_t :=
  let rkey :=
    if (length key <=? 64)%nat then key ++ repeat 0 (64 - length key)
    else
      let sha256 := secp256k1_sha256_initialize sha256_new in
      let sha256 := secp256k1_sha256_write sha256 key in
      let '(_, rkey) := secp256k1_sha256_finalize sha256 in
      rkey ++ repeat 0 32 in
  let outer := secp256k1_sha256_initialize (hmac_outer hash) in
  let rkey := map (fun b => b .^ 0x5c) rkey in
  let outer := secp256k1_sha256_write outer rkey in
  let inner := secp256k1_sha256_initialize (hmac_inner hash) in
  let rkey := map (fun b => b .^ (0x5c .^ 0x36)) rkey in
  let inner := secp256k1_sha256_write inner rkey in
  Hmac inner outer.

Definition secp256k1_hmac_sha256_write (hash : hmac_sha256_t) (data : list Z) : hmac_sha256_t :=
  Hmac (secp256k1_sha256_write (hmac_inner hash) data) (hmac_outer hash).

Definition secp256k1_hmac_sha256_finalize (hash : hmac_sha256_t) : hmac_sha256_t * list Z :=
  let '(inner, temp) := secp256k1_sha256_finalize (hmac_inner hash) in
  let outer := secp256k1_sha256_write (hmac_outer hash) temp in
  let '(outer, out32) := secp256k1_sha256_finalize outer in
  (Hmac inner outer, out32).

(** * RFC 6979 *)

Record rfc6979_t : Type := Rfc6979 { rng_v : list Z; rng_k : list Z; rng_retry : Z }.

Definition secp256k1_rfc6979_hmac_sha256_initialize (key : list Z) : rfc6979_t :=
  let zero := [0x00] in
  let one := [0x01] in
  let v := repeat 0x01 32 in
  let k := repeat 0x00 32 in
  let hmac := secp256k1_hmac_sha256_initialize hmac_new k in
  let hmac := secp256k1_hmac_sha256_write hmac v in
  let hmac := secp256k1_hmac_sha256_write hmac zero in
  let hmac := secp256k1_hmac_sha256_write hmac key in
  let '(hmac, k) := secp256k1_hmac_sha256_finalize hmac in
  let hmac := secp256k1_hmac_sha256_initialize hmac k in
  let hmac := secp256k1_hmac_sha256_write hmac v in
  let '(hmac, v) := secp256k1_hmac_sha256_finalize hmac in
  let hmac := secp256k1_hmac_sha256_initialize hmac k in
  let hmac := secp256k1_hmac_sha256_write hmac v in
  let hmac := secp256k1_hmac_sha256_write hmac one in
  let hmac := secp256k1_hmac_sha256_write hmac key in
  let '(hmac, k) := secp256k1_hmac_sha256_finalize hmac in
  let hmac := secp256k1_hmac_sha256_initialize hmac k in
  let hmac := secp256k1_hmac_sha256_write hmac v in
  let '(hmac, v) := secp256k1_hmac_sha256_finalize hmac in
  Rfc6979 v k 0.

(** [while (outlen > 0)]: returns [v] and the bytes written.  The length is
    converted to an [int]: [None] when that is negative, and [memcpy] would get
    its conversion to [size_t], or zero, and the loop would not end.  Otherwise an
    iteration writes at least one byte, so [outlen] of them are enough. *)
Fixpoint rfc6979_loop (fuel : nat) (k v : list Z) (outlen : nat) : option (list Z * list Z) :=
  match fuel with
  | O => None
  | S fuel' =>
      if (0 <? outlen)%nat then
        let now := s32 (Z.of_nat outlen) in
        let hmac := secp256k1_hmac_sha256_initialize hmac_new k in
        let hmac := secp256k1_hmac_sha256_write hmac v in
        let '(_, v) := secp256k1_hmac_sha256_finalize hmac in
        let now := if 32 <? now then 32 else now in
        if now <? 0 then None else
        let* (v', out) := rfc6979_loop fuel' k v (outlen - Z.to_nat now) in
        Some (v', firstn (Z.to_nat now) v ++ out)
      else Some (v, [])
  end.

Definition secp256k1_rfc6979_hmac_sha256_generate (rng : rfc6979_t) (outlen : nat) : option (rfc6979_t * list Z) :=
  let zero := [0x00] in
  let '(k, v) :=
    if z2b (rng_retry rng) then
      let hmac := secp256k1_hmac_sha256_initialize hmac_new (rng_k rng) in
      let hmac := secp256k1_hmac_sha256_write hmac (rng_v rng) in
      let hmac := secp256k1_hmac_sha256_write hmac zero in
      let '(hmac, k) := secp256k1_hmac_sha256_finalize hmac in
      let hmac := secp256k1_hmac_sha256_initialize hmac k in
      let hmac := secp256k1_hmac_sha256_write hmac (rng_v rng) in
      let '(hmac, v) := secp256k1_hmac_sha256_finalize hmac in
      (k, v)
    else (rng_k rng, rng_v rng) in
  let* (v, out) := rfc6979_loop (S outlen) k v outlen in
  Some (Rfc6979 v k 1, out).

Definition secp256k1_rfc6979_hmac_sha256_finalize (rng : rfc6979_t) : rfc6979_t :=
  Rfc6979 (repeat 0 32) (repeat 0 32) 0.
