(* ===== verification/HashSpec.v ===== *)
(** SHA-256 as FIPS 180-4 defines it, and the proof that one call of the
    unrolled transformation is its compression function. *)

From Stdlib Require Import ZArith Lia List Bool.
From S2P Require Import Prelude Limbs Hash.
Import ListNotations.
Open Scope Z_scope.

(** * FIPS 180-4 *)

Definition word (x : Z) : Prop := 0 <= x < 2 ^ 32.

Definition rotr (n x : Z) : Z := x / 2 ^ n + (x mod 2 ^ n) * 2 ^ (32 - n).

Definition fips_ch (x y z : Z) : Z := (x .& y) .^ (not32 x .& z).
Definition fips_maj (x y z : Z) : Z := (x .& y) .^ (x .& z) .^ (y .& z).
Definition fips_Sigma0 (x : Z) : Z := rotr 2 x .^ rotr 13 x .^ rotr 22 x.
Definition fips_Sigma1 (x : Z) : Z := rotr 6 x .^ rotr 11 x .^ rotr 25 x.
Definition fips_sigma0 (x : Z) : Z := rotr 7 x .^ rotr 18 x .^ (x / 2 ^ 3).
Definition fips_sigma1 (x : Z) : Z := rotr 17 x .^ rotr 19 x .^ (x / 2 ^ 10).

(** The constants are the first 32 bits of the fractional parts of the cube
    roots of the first 64 primes, and of the square roots of the first 8. *)
Fixpoint fips_root (k : Z) (bits : nat) (r n : Z) : Z :=
  match bits with
  | O => r
  | S b => let r' := r + 2 ^ Z.of_nat b in fips_root k b (if r' ^ k <=? n then r' else r) n
  end.

Definition fips_fraction (k p : Z) : Z := u32 (fips_root k 40 0 (p * 2 ^ (32 * k))).

Definition fips_primes : list Z :=
  filter (fun p => forallb (fun d => negb (p mod Z.of_nat d =? 0)) (seq 2 (Z.to_nat p - 2))) (map Z.of_nat (seq 2 310)).

Definition fips_K : list Z := Eval vm_compute in map (fips_fraction 3) fips_primes.
Definition fips_H0 : list Z := Eval vm_compute in map (fips_fraction 2) (firstn 8 fips_primes).

(** The message schedule: [W_t] for [t >= 16]. *)
Definition fips_next (W : list Z) : Z :=
  let t := length W in
  u32 (fips_sigma1 W.[t - 2] + W.[t - 7] + fips_sigma0 W.[t - 15] + W.[t - 16]).

Fixpoint fips_schedule (n : nat) (W : list Z) : list Z :=
  match n with
  | O => W
  | S m => fips_schedule m (W ++ [fips_next W])
  end.

Definition fips_round (st : list Z) (kw : Z * Z) : list Z :=
  match st with
  | [a; b; c; d; e; f; g; h] =>
      let T1 := h + fips_Sigma1 e + fips_ch e f g + fst kw + snd kw in
      let T2 := fips_Sigma0 a + fips_maj a b c in
      [u32 (T1 + T2); a; b; c; u32 (d + T1); e; f; g]
  | _ => st
  end.

Definition map2 {A B C} (f : A -> B -> C) (l : list A) (m : list B) : list C :=
  map (fun p => f (fst p) (snd p)) (combine l m).

Definition fips_compress (H M : list Z) : list Z :=
  map2 (fun x y => u32 (x + y)) H (fold_left fips_round (combine fips_K (fips_schedule 48 M)) H).

(** The 16 big-endian words of a block. *)
Fixpoint be_words (n : nat) (bytes : list Z) : list Z :=
  match n with
  | O => []
  | S m => be_val (firstn 4 bytes) :: be_words m (skipn 4 bytes)
  end.

(** Whole blocks, in order. *)
Fixpoint fips_blocks (n : nat) (H : list Z) (msg : list Z) : list Z :=
  match n with
  | O => H
  | S m => fips_blocks m (fips_compress H (be_words 16 (firstn 64 msg))) (skipn 64 msg)
  end.

Definition fips_pad (msg : list Z) : list Z :=
  let l := Z.of_nat (length msg) in
  msg ++ 0x80 :: repeat 0 (Z.to_nat ((55 - l) mod 64)) ++ be_bytes 8 (8 * l).

Definition fips_sha256 (msg : list Z) : list Z :=
  let p := fips_pad msg in
  flat_map (be_bytes 4) (fips_blocks (length p / 64) fips_H0 p).

(** * The word functions *)

Lemma testbit_word x i : word x -> 32 <= i -> Z.testbit x i = false.
Proof.
  intros Hx Hi. destruct (Z.eq_dec x 0) as [-> | N]; [apply Z.bits_0 |].
  apply Z.bits_above_log2; [apply Hx |]. apply Z.log2_lt_pow2; [unfold word in Hx; lia |].
  apply Z.lt_le_trans with (2 ^ 32); [apply Hx |]. apply Z.pow_le_mono_r; lia.
Qed.

Lemma word_u32 x : word (u32 x).
Proof. apply Z.mod_pos_bound. reflexivity. Qed.

Lemma not32_testbit x i : 0 <= i -> Z.testbit (not32 x) i = (i <? 32) && negb (Z.testbit x i).
Proof.
  intros Hi. unfold not32, u32. destruct (Z.ltb_spec i 32).
  - rewrite Z.mod_pow2_bits_low, Z.lnot_spec by lia. reflexivity.
  - now rewrite Z.mod_pow2_bits_high by lia.
Qed.

Lemma Ch_fips x y z : word z -> Ch x y z = fips_ch x y z.
Proof.
  intros Hz. unfold Ch, fips_ch. apply Z.bits_inj'. intros i Hi.
  rewrite !Z.lxor_spec, !Z.land_spec, !Z.lxor_spec, not32_testbit by lia.
  destruct (Z.ltb_spec i 32); [| rewrite (testbit_word z i) by assumption];
    destruct (Z.testbit x i), (Z.testbit y i), (Z.testbit z i); reflexivity.
Qed.

Lemma Maj_fips x y z : Maj x y z = fips_maj x y z.
Proof.
  unfold Maj, fips_maj. apply Z.bits_inj'. intros i Hi.
  rewrite Z.lor_spec, !Z.land_spec, Z.lor_spec, !Z.lxor_spec, !Z.land_spec.
  destruct (Z.testbit x i), (Z.testbit y i), (Z.testbit z i); reflexivity.
Qed.

Lemma rot_fips n x : 0 < n < 32 -> word x -> (x >> n) .| u32 (x << (32 - n)) = rotr n x.
Proof.
  intros Hn Hx. unfold rotr, u32. rewrite Z.shiftr_div_pow2, Z.shiftl_mul_pow2 by lia.
  assert (E : (x * 2 ^ (32 - n)) mod 2 ^ 32 = x mod 2 ^ n * 2 ^ (32 - n)).
  { replace (2 ^ 32) with (2 ^ n * 2 ^ (32 - n)) by (rewrite <- Z.pow_add_r by lia; f_equal; lia).
    apply Z.mul_mod_distr_r; lia. }
  rewrite E, <- Z.add_lor_land. set (l := Z.lor _ _). enough (Z.land (x / 2 ^ n) (x mod 2 ^ n * 2 ^ (32 - n)) = 0) by lia.
  apply Z.bits_inj'. intros i Hi.
  rewrite Z.land_spec, Z.bits_0, <- Z.shiftl_mul_pow2 by lia. destruct (Z.lt_ge_cases i (32 - n)) as [C | C].
  - rewrite Z.shiftl_spec_low by lia. apply andb_false_r.
  - rewrite <- Z.shiftr_div_pow2, Z.shiftr_spec, (testbit_word x) by (assumption || lia). reflexivity.
Qed.

Lemma Sigma0_fips x : word x -> Sigma0 x = fips_Sigma0 x.
Proof.
  intros H. unfold Sigma0, fips_Sigma0.
  now rewrite <- (rot_fips 2), <- (rot_fips 13), <- (rot_fips 22) by (assumption || lia).
Qed.

Lemma Sigma1_fips x : word x -> Sigma1 x = fips_Sigma1 x.
Proof.
  intros H. unfold Sigma1, fips_Sigma1.
  now rewrite <- (rot_fips 6), <- (rot_fips 11), <- (rot_fips 25) by (assumption || lia).
Qed.

Lemma sigma0_fips x : word x -> sigma0 x = fips_sigma0 x.
Proof.
  intros H. unfold sigma0, fips_sigma0. rewrite <- Z.shiftr_div_pow2 by lia.
  now rewrite <- (rot_fips 7), <- (rot_fips 18) by (assumption || lia).
Qed.

Lemma sigma1_fips x : word x -> sigma1 x = fips_sigma1 x.
Proof.
  intros H. unfold sigma1, fips_sigma1. rewrite <- Z.shiftr_div_pow2 by lia.
  now rewrite <- (rot_fips 17), <- (rot_fips 19) by (assumption || lia).
Qed.

Lemma u32_add_l x y : u32 (u32 x + y) = u32 (x + y).
Proof. apply Z.add_mod_idemp_l. discriminate. Qed.

Lemma u32_add_r x y : u32 (x + u32 y) = u32 (x + y).
Proof. apply Z.add_mod_idemp_r. discriminate. Qed.

(** One macro invocation is one round. *)
Lemma Round_fips a b c d e f g h k w d' h' : (d', h') = Round a b c d e f g h k w ->
  word a -> word e -> word g ->
  fips_round [a; b; c; d; e; f; g; h] (k, w) = [h'; a; b; c; d'; e; f; g] /\ word d' /\ word h'.
Proof.
  intros E Ha He Hg. injection E as Ed Eh. cbn [fips_round fst snd].
  rewrite (Sigma1_fips e He), (Sigma0_fips a Ha), (Ch_fips e f g Hg), Maj_fips in *.
  rewrite u32_add_r in Ed. rewrite u32_add_l, u32_add_r in Eh. subst d' h'.
  split; [reflexivity |]. split; apply word_u32.
Qed.

(** * The transformation *)

Lemma fips_round_step l k w K W st st' : fips_round st (k, w) = st' ->
  fold_left fips_round (combine K W) st' = l -> fold_left fips_round (combine (k :: K) (w :: W)) st = l.
Proof. intros <- <-. reflexivity. Qed.

Lemma fips_next_app W v : (16 <= length v)%nat -> fips_next (W ++ v) = fips_next v.
Proof.
  intros H. unfold fips_next. rewrite length_app.
  assert (N : forall i, (0 < i <= 16)%nat -> (W ++ v).[length W + length v - i] = v.[length v - i]).
  { intros i Hi. rewrite app_nth2 by lia. f_equal. lia. }
  now rewrite !N by lia.
Qed.

Lemma fips_schedule_step m W v w l : (16 <= length v)%nat -> fips_next v = w ->
  fips_schedule m (W ++ v ++ [w]) = l -> fips_schedule (S m) (W ++ v) = l.
Proof. intros H <- <-. cbn [fips_schedule]. now rewrite fips_next_app, app_assoc by exact H. Qed.

Lemma fips_next_of W w a b c d : word b -> word d ->
  w = u32 (a + (sigma1 b + c + sigma0 d)) -> u32 (fips_sigma1 b + c + fips_sigma0 d + a) = fips_next W ->
  word w /\ fips_next W = w.
Proof.
  intros Hb Hd -> <-. split; [apply word_u32 |]. rewrite sigma1_fips, sigma0_fips by assumption. f_equal. lia.
Qed.


Ltac sha_run :=
  repeat lazymatch goal with
  | |- wp (let x := ?e in _) _ => let y := fresh "w" in let E := fresh "E" in wp_name y E
  | |- wp (match ?r with _ => _ end) _ =>
      let d := fresh "d" in let h := fresh "h" in let E := fresh "R" in
      destruct r as [d h] eqn:E; symmetry in E
  end.

Lemma Round_word a b c d e f g h k w d' h' : (d', h') = Round a b c d e f g h k w -> word d' /\ word h'.
Proof. intros E. injection E as -> ->. split; apply word_u32. Qed.

Ltac round_words :=
  repeat first [apply Forall_nil | apply Forall_cons];
  match goal with
  | R : (?x, _) = Round _ _ _ _ _ _ _ _ _ _ |- word ?x => exact (proj1 (Round_word _ _ _ _ _ _ _ _ _ _ _ _ R))
  | R : (_, ?x) = Round _ _ _ _ _ _ _ _ _ _ |- word ?x => exact (proj2 (Round_word _ _ _ _ _ _ _ _ _ _ _ _ R))
  end.

(** Follow the recorded rounds with the reference ones. *)
Ltac sha_follow :=
  repeat lazymatch goal with
  | |- fold_left fips_round (combine (?k :: _) (?w :: _)) [?a; ?b; ?c; ?d; ?e; ?f; ?g; ?h] = _ =>
      lazymatch goal with
      | R : _ = Round a b c d e f g h k w |- _ =>
          let Q := fresh in
          destruct (Round_fips a b c d e f g h k w _ _ R) as (Q & ? & ?); [assumption .. |];
          refine (fips_round_step _ _ _ _ _ _ _ Q _); clear R Q
      end
  end.

Ltac split_words :=
  repeat match goal with H : Forall word (_ :: _) |- _ => apply Forall_cons_iff in H as [? H] end.

Lemma rounds_0_ok a b c d e f g h c0 c1 c2 c3 c4 c5 c6 c7 c8 c9 c10 c11 c12 c13 c14 c15 :
  let chunk := [c0; c1; c2; c3; c4; c5; c6; c7; c8; c9; c10; c11; c12; c13; c14; c15] in
  let s := [a; b; c; d; e; f; g; h] in
  let r := fold_left fips_round (combine (firstn 16 fips_K) (map BE32 chunk)) s in
  Forall word s -> Forall word (map BE32 chunk) ->
  sha256_rounds_0 s chunk = (r, map BE32 chunk) /\ length r = 8%nat /\ Forall word r.
Proof.
  intros chunk s r Ws Wc.
  pattern (sha256_rounds_0 s chunk). apply wp_intro. unfold r, s, chunk in *.
  cbv beta iota delta [sha256_rounds_0 nth map fips_K firstn] in *. split_words.
  do 8 (let y := fresh "r" in let E := fresh "E" in wp_name y E; subst y).
  sha_run. wp_done. subst.
  match goal with |- (?l, ?m) = (?f, ?m) /\ _ => assert (F : f = l) end.
  { sha_follow. reflexivity. }
  rewrite F. split; [reflexivity |]. split; [reflexivity | round_words].
Qed.

(** Follow the recorded words with the reference schedule. *)
Ltac sha_schedule :=
  repeat lazymatch goal with
  | |- fips_schedule (S _) (?W ++ ?v) = _ =>
      match goal with
      | E : ?x = u32 (?a + (sigma1 ?b + ?c + sigma0 ?d)), Hb : word ?b, Hd : word ?d |- _ =>
          let Q := fresh in
          destruct (fips_next_of v x a b c d Hb Hd E eq_refl) as [? Q];
          refine (fips_schedule_step _ W v x _ _ Q _); [cbn [length]; lia |];
          clear E Q; cbn [app]
      end
  end.

Definition rounds_with (k s w : list Z) : list Z * list Z :=
  sha256_rounds k.[0] k.[1] k.[2] k.[3] k.[4] k.[5] k.[6] k.[7] k.[8] k.[9] k.[10] k.[11] k.[12] k.[13] k.[14] k.[15] s w.

Lemma rounds_ok k0 k1 k2 k3 k4 k5 k6 k7 k8 k9 k10 k11 k12 k13 k14 k15 a b c d e f g h w0 w1 w2 w3 w4 w5 w6 w7 w8 w9 w10 w11 w12 w13 w14 w15 W :
  let k := [k0; k1; k2; k3; k4; k5; k6; k7; k8; k9; k10; k11; k12; k13; k14; k15] in
  let s := [a; b; c; d; e; f; g; h] in
  let w := [w0; w1; w2; w3; w4; w5; w6; w7; w8; w9; w10; w11; w12; w13; w14; w15] in
  Forall word s -> Forall word w ->
  let p := rounds_with k s w in
  (fips_schedule 16 (W ++ w) = W ++ w ++ snd p /\ length (snd p) = 16%nat /\ Forall word (snd p)) /\
  fold_left fips_round (combine k (snd p)) s = fst p /\ length (fst p) = 8%nat /\ Forall word (fst p).
Proof.
  intros k s w Ws Ww p. unfold p.
  pattern (rounds_with k s w). apply wp_intro. unfold k, s, w in Ws, Ww |- *.
  cbv beta iota delta [rounds_with sha256_rounds nth]. split_words.
  do 24 (let y := fresh "r" in let E := fresh "E" in wp_name y E; subst y).
  sha_run. wp_done. cbn [fst snd]. split.
  - split; [cbn [app]; sha_schedule; reflexivity |]. split; [reflexivity |].
    repeat first [apply Forall_nil | apply Forall_cons]; subst; apply word_u32.
  - split; [sha_follow; reflexivity |]. split; [reflexivity | round_words].
Qed.

Ltac explode l H :=
  match type of H with length l = _ =>
    repeat (destruct l as [| ? l]; [discriminate H |]; cbn [length] in H; apply eq_add_S in H);
    destruct l; [| discriminate H]; clear H
  end.

Lemma rounds_0_list s chunk : length s = 8%nat -> length chunk = 16%nat -> Forall word s -> Forall word (map BE32 chunk) ->
  let r := fold_left fips_round (combine (firstn 16 fips_K) (map BE32 chunk)) s in
  sha256_rounds_0 s chunk = (r, map BE32 chunk) /\ length r = 8%nat /\ Forall word r.
Proof. intros Ls Lc. explode s Ls. explode chunk Lc. apply rounds_0_ok. Qed.

Lemma rounds_list k s w W : length k = 16%nat -> length s = 8%nat -> length w = 16%nat -> Forall word s -> Forall word w ->
  let p := rounds_with k s w in
  (fips_schedule 16 (W ++ w) = W ++ w ++ snd p /\ length (snd p) = 16%nat /\ Forall word (snd p)) /\
  fold_left fips_round (combine k (snd p)) s = fst p /\ length (fst p) = 8%nat /\ Forall word (fst p).
Proof. intros Lk Ls Lw. explode k Lk. explode s Ls. explode w Lw. apply rounds_ok. Qed.

Lemma fips_schedule_add n m W : fips_schedule (n + m) W = fips_schedule m (fips_schedule n W).
Proof. revert W. induction n; intros W; cbn; auto. Qed.

Lemma combine_split {A B} (k k' : list A) (w w' : list B) : length k = length w ->
  combine (k ++ k') (w ++ w') = combine k w ++ combine k' w'.
Proof.
  revert w. induction k as [| x k IH]; intros [| y w] H; try discriminate; [reflexivity |].
  cbn [app combine]. now rewrite IH by now injection H.
Qed.

Lemma map2_8 (f : Z -> Z -> Z) s r : length s = 8%nat -> length r = 8%nat ->
  map2 f s r = [f s.[0] r.[0]; f s.[1] r.[1]; f s.[2] r.[2]; f s.[3] r.[3]; f s.[4] r.[4]; f s.[5] r.[5]; f s.[6] r.[6]; f s.[7] r.[7]].
Proof. intros Ls Lr. explode s Ls. explode r Lr. reflexivity. Qed.

Lemma transform_groups s chunk : secp256k1_sha256_transform s chunk =
  let '(r, w) := sha256_rounds_0 s chunk in
  let '(r, w) := rounds_with (firstn 16 (skipn 16 fips_K)) r w in
  let '(r, w) := rounds_with (firstn 16 (skipn 32 fips_K)) r w in
  let '(r, w) := rounds_with (skipn 48 fips_K) r w in
  [u32 (s.[0] + r.[0]); u32 (s.[1] + r.[1]); u32 (s.[2] + r.[2]); u32 (s.[3] + r.[3]);
   u32 (s.[4] + r.[4]); u32 (s.[5] + r.[5]); u32 (s.[6] + r.[6]); u32 (s.[7] + r.[7])].
Proof.
  repeat match goal with |- context [rounds_with ?k] => progress (let l := eval vm_compute in k in change k with l; unfold rounds_with at 1; cbn [nth]) end.
  unfold secp256k1_sha256_transform. reflexivity.
Qed.

(** The unrolled code computes the compression function. *)
Lemma transform_ok s chunk : length s = 8%nat -> length chunk = 16%nat -> Forall word s -> Forall word (map BE32 chunk) ->
  let r := secp256k1_sha256_transform s chunk in
  r = fips_compress s (map BE32 chunk) /\ length r = 8%nat /\ Forall word r.
Proof.
  intros Ls Lc Ws Wc r. unfold r. rewrite transform_groups.
  set (k1 := firstn 16 (skipn 16 fips_K)). set (k2 := firstn 16 (skipn 32 fips_K)). set (k3 := skipn 48 fips_K).
  set (k0 := firstn 16 fips_K). assert (EK : fips_K = k0 ++ k1 ++ k2 ++ k3) by reflexivity.
  destruct (rounds_0_list s chunk Ls Lc Ws Wc) as (E0 & L0 & W0). set (M := map BE32 chunk) in *.
  assert (LM : length M = 16%nat) by (unfold M; now rewrite length_map).
  rewrite E0. fold k0. fold k0 in L0, W0. set (r0 := fold_left fips_round (combine k0 M) s) in *.
  destruct (rounds_list k1 r0 M [] eq_refl L0 LM W0 Wc) as ((S1 & L1 & W1) & F1 & Q1 & V1).
  destruct (rounds_with k1 r0 M) as [r1 w1]. cbn [fst snd app] in *.
  destruct (rounds_list k2 r1 w1 M eq_refl Q1 L1 V1 W1) as ((S2 & L2 & W2) & F2 & Q2 & V2).
  destruct (rounds_with k2 r1 w1) as [r2 w2]. cbn [fst snd] in *.
  destruct (rounds_list k3 r2 w2 (M ++ w1) eq_refl Q2 L2 V2 W2) as ((S3 & L3 & W3) & F3 & Q3 & V3).
  destruct (rounds_with k3 r2 w2) as [r3 w3]. cbn [fst snd] in *.
  assert (ES : fips_schedule 48 M = M ++ w1 ++ w2 ++ w3).
  { change 48%nat with (16 + (16 + 16))%nat. rewrite !fips_schedule_add, S1, S2, (app_assoc M w1), S3. now rewrite <- app_assoc. }
  split; [| split; [reflexivity | repeat first [apply Forall_nil | apply Forall_cons]; apply word_u32]].
  unfold fips_compress. rewrite ES, EK, !combine_split, !fold_left_app by (rewrite ?LM, ?L1, ?L2; reflexivity).
  fold r0. rewrite F1, F2, F3. symmetry. now apply map2_8.
Qed.
