(* ===== verification/HashThm.v ===== *)
(** Hashing a message given in any pieces is SHA-256 of the message; HMAC and
    the RFC 6979 generator are the constructions of RFC 2104 and RFC 6979. *)

From Stdlib Require Import ZArith Lia List Bool.
From S2P Require Import Prelude Limbs Hash HashSpec.
Import ListNotations.
Open Scope Z_scope.

(** * Bytes and words *)

Lemma lor_low h l k : 0 <= k -> 0 <= l < 2 ^ k -> (h * 2 ^ k) .| l = h * 2 ^ k + l.
Proof.
  intros Hk Hl. rewrite <- Z.add_lor_land. enough (Z.land (h * 2 ^ k) l = 0) by lia.
  apply Z.bits_inj'. intros i Hi. rewrite Z.land_spec, Z.bits_0, <- Z.shiftl_mul_pow2 by lia.
  destruct (Z.lt_ge_cases i k) as [C | C]; [now rewrite Z.shiftl_spec_low by lia |].
  rewrite andb_comm. destruct (Z.eq_dec l 0) as [-> | N]; [now rewrite Z.bits_0 |].
  rewrite Z.bits_above_log2; [reflexivity | lia |]. apply Z.log2_lt_pow2; [lia |].
  apply Z.lt_le_trans with (2 ^ k); [lia | apply Z.pow_le_mono_r; lia].
Qed.

Lemma land_byte p j : 0 <= j -> p .& (0xFF << j) = (p / 2 ^ j) mod 2 ^ 8 * 2 ^ j.
Proof.
  intros Hj. rewrite <- Z.shiftl_mul_pow2, <- Z.shiftr_div_pow2, <- Z.land_ones by lia.
  apply Z.bits_inj'. intros i Hi. rewrite Z.land_spec. destruct (Z.lt_ge_cases i j) as [C | C].
  - rewrite !Z.shiftl_spec_low by lia. apply andb_false_r.
  - rewrite !Z.shiftl_spec, Z.land_spec, Z.shiftr_spec by lia. f_equal. f_equal. lia.
Qed.

Lemma BE32_spec p : let b i := (p / 2 ^ (8 * i)) mod 2 ^ 8 in
  BE32 p = be_val [b 0; b 1; b 2; b 3].
Proof.
  intros b. unfold BE32. assert (B : forall i, 0 <= b i < 2 ^ 8) by (intros i; now apply Z.mod_pos_bound).
  change 0xFF00 with (0xFF << 8). change 0xFF0000 with (0xFF << 16). change 0xFF000000 with (0xFF << 24).
  change (p .& 0xFF) with (p .& (0xFF << 0)). rewrite !land_byte by lia.
  change (2 ^ 8) with (2 ^ (8 * 1)) at 2. change (2 ^ 16) with (2 ^ (8 * 2)) at 1. change (2 ^ 24) with (2 ^ (8 * 3)) at 1.
  change (2 ^ 0) with (2 ^ (8 * 0)) at 1. fold (b 0) (b 1) (b 2) (b 3).
  rewrite !Z.shiftl_mul_pow2, !Z.shiftr_div_pow2 by lia.
  replace (b 2 * 2 ^ 16 / 2 ^ 8) with (b 2 * 2 ^ 8) by (change (2 ^ 16) with (2 ^ 8 * 2 ^ 8); now rewrite Z.mul_assoc, Z.div_mul by lia).
  rewrite Z.div_mul by lia.
  rewrite (Z.mul_1_r (b 0) : b 0 * 2 ^ 0 = b 0). 
  pose proof (B 0). pose proof (B 1). pose proof (B 2). pose proof (B 3).
  rewrite lor_low by lia.
  replace (b 0 * 2 ^ 24 + b 1 * 2 ^ 8 * 2 ^ 8) with ((b 0 * 2 ^ 8 + b 1) * 2 ^ 16) by ring. rewrite lor_low by lia.
  replace ((b 0 * 2 ^ 8 + b 1) * 2 ^ 16 + b 2 * 2 ^ 8) with (((b 0 * 2 ^ 8 + b 1) * 2 ^ 8 + b 2) * 2 ^ 8) by ring.
  rewrite lor_low by lia. unfold be_val. cbn [rev app limbs_val]. ring.
Qed.

Lemma BE32_le b : length b = 4%nat -> limbs_lt 8 b -> BE32 (limbs_val 8 b) = be_val b.
Proof.
  intros L H. rewrite BE32_spec. destruct b as [| b0 [| b1 [| b2 [| b3 [|]]]]]; try discriminate.
  unfold limbs_lt in H. repeat (apply Forall_cons_iff in H as [? H]). cbn [limbs_val].
  f_equal. repeat f_equal.
  all: change (2 ^ (8 * 0)) with 1; change (2 ^ (8 * 1)) with 256; change (2 ^ (8 * 2)) with 65536;
    change (2 ^ (8 * 3)) with 16777216; change (2 ^ 8) with 256 in *; Z.to_euclidean_division_equations; lia.
Qed.

Lemma limbs_lt_skipn b n l : limbs_lt b l -> limbs_lt b (skipn n l).
Proof. intros H. rewrite <- (firstn_skipn n l) in H. now apply Forall_app in H. Qed.

Lemma words_be n : forall l, length l = (4 * n)%nat -> limbs_lt 8 l ->
  map BE32 (words_of n l) = be_words n l /\ length (words_of n l) = n /\ Forall word (be_words n l).
Proof.
  induction n as [| n IH]; intros l L H; cbn [words_of be_words map length]; [auto |].
  destruct (IH (skipn 4 l)) as (E & Ln & W); [rewrite length_skipn; lia | now apply limbs_lt_skipn |].
  assert (L4 : length (firstn 4 l) = 4%nat) by (rewrite length_firstn; lia).
  pose proof (limbs_lt_firstn 8 l 4 H) as H4. rewrite BE32_le, E, Ln by assumption.
  split; [reflexivity |]. split; [reflexivity |]. constructor; [| exact W].
  pose proof (be_val_bound _ H4) as B. rewrite L4 in B. exact B.
Qed.

Lemma block_ok s buf : length s = 8%nat -> Forall word s -> length buf = 64%nat -> limbs_lt 8 buf ->
  let r := secp256k1_sha256_transform s (words_of 16 buf) in
  r = fips_compress s (be_words 16 buf) /\ length r = 8%nat /\ Forall word r.
Proof.
  intros Ls Ws Lb Hb. destruct (words_be 16 buf Lb Hb) as (E & Ln & W). rewrite <- E.
  apply transform_ok; try assumption. now rewrite E.
Qed.

(** * Writing *)

Lemma skipn_app_le {A} n (l l' : list A) : (n <= length l)%nat -> skipn n (l ++ l') = skipn n l ++ l'.
Proof. intros H. rewrite skipn_app. replace (n - length l)%nat with 0%nat by lia. reflexivity. Qed.

Lemma firstn_app_le {A} n (l l' : list A) : (n <= length l)%nat -> firstn n (l ++ l') = firstn n l.
Proof. intros H. rewrite firstn_app. replace (n - length l)%nat with 0%nat by lia. cbn. apply app_nil_r. Qed.

Lemma fips_blocks_app n : forall H m l, (64 * n <= length m)%nat -> fips_blocks n H (m ++ l) = fips_blocks n H m.
Proof.
  induction n as [| n IH]; intros H m l L; cbn [fips_blocks]; [reflexivity |].
  rewrite firstn_app_le, skipn_app_le, IH by (rewrite ?length_skipn; lia). reflexivity.
Qed.

Lemma fips_blocks_snoc n : forall H m,
  fips_blocks (S n) H m = fips_compress (fips_blocks n H m) (be_words 16 (firstn 64 (skipn (64 * n) m))).
Proof.
  induction n as [| n IH]; intros H m; [reflexivity |].
  change (fips_blocks (S (S n)) H m) with (fips_blocks (S n) (fips_compress H (be_words 16 (firstn 64 m))) (skipn 64 m)).
  rewrite IH, skipn_skipn. replace (64 * n + 64)%nat with (64 * S n)%nat by lia. reflexivity.
Qed.

Section Hashing.

(** The state words and the start of the buffer after the message [m]. *)
Record absorbed (m s buf : list Z) (bufsize : nat) : Prop := {
  abs_bytes : limbs_lt 8 m;
  abs_size : bufsize = (length m mod 64)%nat;
  abs_s : s = fips_blocks (length m / 64) fips_H0 m;
  abs_len : length s = 8%nat;
  abs_word : Forall word s;
  abs_buflen : length buf = 64%nat;
  abs_bufb : limbs_lt 8 buf;
  abs_buf : firstn bufsize buf = skipn (64 * (length m / 64)) m
}.

Lemma length_memcpy off src dst : (off + length src <= length dst)%nat -> length (memcpy_at off src dst) = length dst.
Proof. intros H. unfold memcpy_at. rewrite !length_app, length_firstn, length_skipn. lia. Qed.

Lemma limbs_lt_memcpy b off src dst : limbs_lt b src -> limbs_lt b dst -> limbs_lt b (memcpy_at off src dst).
Proof.
  intros Hs Hd. unfold memcpy_at, limbs_lt. rewrite !Forall_app.
  split; [now apply limbs_lt_firstn | split; [exact Hs | now apply limbs_lt_skipn]].
Qed.

(** Filling the buffer with what remains. *)
Lemma absorb_tail m s buf n data : absorbed m s buf n -> limbs_lt 8 data -> (n + length data < 64)%nat ->
  absorbed (m ++ data) s (memcpy_at n data buf) (n + length data).
Proof.
  intros [Hm Hn Hs Hl Hw Hbl Hbb Hb] Hd Lt. pose proof (Nat.div_mod_eq (length m) 64) as D.
  assert (Q : ((length m + length data) / 64 = length m / 64)%nat) by (symmetry; apply (Nat.div_unique _ _ _ (n + length data)); lia).
  assert (R : ((length m + length data) mod 64 = n + length data)%nat) by (symmetry; apply (Nat.mod_unique _ _ (length m / 64)); lia).
  constructor; rewrite ?length_app, ?Q, ?R; try assumption; try reflexivity.
  - now apply Forall_app.
  - rewrite fips_blocks_app by lia. exact Hs.
  - rewrite length_memcpy by lia. exact Hbl.
  - now apply limbs_lt_memcpy.
  - rewrite skipn_app_le, <- Hb by lia. unfold memcpy_at. rewrite app_assoc, firstn_app_le, firstn_all2; rewrite ?length_app, ?length_firstn; try lia. reflexivity.
Qed.

(** Completing a block. *)
Lemma absorb_block m s buf n data : absorbed m s buf n -> limbs_lt 8 data -> (64 <= n + length data)%nat ->
  let buf' := memcpy_at n (firstn (64 - n) data) buf in
  absorbed (m ++ firstn (64 - n) data) (secp256k1_sha256_transform s (words_of 16 buf')) buf' 0.
Proof.
  intros [Hm Hn Hs Hl Hw Hbl Hbb Hb] Hd Le buf'. pose proof (Nat.div_mod_eq (length m) 64) as D.
  pose proof (Nat.mod_upper_bound (length m) 64 ltac:(lia)) as U. set (q := (length m / 64)%nat) in *.
  set (d := firstn (64 - n) data). assert (Ld : length d = (64 - n)%nat) by (unfold d; rewrite length_firstn; lia).
  assert (Hd' : limbs_lt 8 d) by now apply limbs_lt_firstn.
  assert (Lb : length buf' = 64%nat) by (unfold buf'; rewrite length_memcpy; fold d; lia).
  assert (Bb : limbs_lt 8 buf') by now apply limbs_lt_memcpy.
  assert (Eb : buf' = skipn (64 * q) m ++ d).
  { unfold buf', memcpy_at. fold d. rewrite Hb, Ld, (skipn_all2 buf) by lia. now rewrite app_nil_r. }
  assert (Q : ((length m + (64 - n)) / 64 = S q)%nat) by (symmetry; apply (Nat.div_unique _ _ _ 0); lia).
  assert (R : ((length m + (64 - n)) mod 64 = 0)%nat) by (symmetry; apply (Nat.mod_unique _ _ (S q)); lia).
  destruct (block_ok s buf' Hl Hw Lb Bb) as (E & L8 & W8).
  constructor; rewrite ?length_app, ?Ld, ?Q, ?R; try assumption; try reflexivity.
  - apply Forall_app. split; assumption.
  - rewrite E, fips_blocks_snoc. rewrite fips_blocks_app by lia.
    rewrite <- Hs. rewrite skipn_app_le by lia. rewrite <- Eb. rewrite firstn_all2 by lia. reflexivity.
  - rewrite skipn_all2 by (rewrite length_app; lia). reflexivity.
Qed.

Lemma write_loop_ok fuel : forall m s buf n data, (length data < fuel)%nat -> absorbed m s buf n -> limbs_lt 8 data ->
  let '(s', buf', n', data') := sha256_write_loop fuel s buf n data in
  exists d, data = d ++ data' /\ absorbed (m ++ d) s' buf' n' /\ (n' + length data' < 64)%nat.
Proof.
  induction fuel as [| fuel IH]; intros m s buf n data Hf A Hd; [lia |]. cbn [sha256_write_loop].
  pose proof (Nat.mod_upper_bound (length m) 64 ltac:(lia)) as U. pose proof (abs_size _ _ _ _ A) as Hn.
  destruct (Nat.leb_spec 64 (n + length data)) as [Le | Lt].
  - pose proof (absorb_block m s buf n data A Hd Le) as A'. cbv zeta in A' |- *.
    specialize (IH _ _ _ _ (skipn (64 - n) data) ltac:(rewrite length_skipn; lia) A' (limbs_lt_skipn _ _ _ Hd)).
    destruct (sha256_write_loop fuel _ _ _ _) as [[[s' buf'] n'] data']. destruct IH as (d & E & A'' & Lt).
    exists (firstn (64 - n) data ++ d). rewrite <- !app_assoc, <- E in *. rewrite firstn_skipn. auto.
  - exists []. rewrite app_nil_r. auto.
Qed.

(** The structure after the message [m]. *)
Definition sha_of (h : sha256_t) (m : list Z) : Prop :=
  sha_bytes h = size64 (Z.of_nat (length m)) /\ absorbed m (sha_s h) (sha_buf h) (length m mod 64).

Lemma bufsize_mod m h : sha_of h m -> Z.to_nat (sha_bytes h .& 0x3F) = (length m mod 64)%nat.
Proof.
  intros [E _]. rewrite E. change 0x3F with (Z.ones 6). rewrite Z.land_ones by lia. unfold size64.
  rewrite Z.mod_mod_divide by (exists (2 ^ 58); reflexivity). change (2 ^ 6) with (Z.of_nat 64).
  rewrite <- Nat2Z.inj_mod. apply Nat2Z.id.
Qed.

Lemma sha_write_ok h m data : sha_of h m -> limbs_lt 8 data -> sha_of (secp256k1_sha256_write h data) (m ++ data).
Proof.
  intros H Hd. unfold secp256k1_sha256_write. rewrite (bufsize_mod m h H). destruct H as [E A].
  pose proof (write_loop_ok (S (length data)) m _ _ _ data ltac:(lia) A Hd) as W. cbv zeta.
  destruct (sha256_write_loop _ _ _ _ _) as [[[s buf] n] rest]. destruct W as (d & -> & A' & Lt).
  apply Forall_app in Hd as [_ Hr]. split; cbn [sha_bytes sha_s sha_buf].
  - rewrite E. unfold size64. rewrite Z.add_mod_idemp_l by lia. f_equal. rewrite !length_app. lia.
  - pose proof (absorb_tail _ _ _ _ rest A' Hr Lt) as A''. rewrite <- app_assoc in A''.
    rewrite <- (abs_size _ _ _ _ A''). destruct rest as [| x rest]; [| exact A''].
    cbn [length Nat.ltb Nat.leb] in *. rewrite !app_nil_r, Nat.add_0_r in *. exact A'.
Qed.

Lemma sha_init_ok h : length (sha_buf h) = 64%nat -> limbs_lt 8 (sha_buf h) -> sha_of (secp256k1_sha256_initialize h) [].
Proof.
  intros L H. split; [reflexivity |]. constructor; try reflexivity; try assumption; [constructor |].
  cbn [secp256k1_sha256_initialize sha_s]. repeat constructor; discriminate.
Qed.

(** * Finishing *)

Lemma digits_app b n m v : 0 <= b -> digits b (n + m) v = digits b n v ++ digits b m (v / 2 ^ (b * Z.of_nat n)).
Proof.
  intros Hb. revert v. induction n as [| n IH]; intros v; cbn [digits app Nat.add].
  - now rewrite Z.mul_0_r, Z.pow_0_r, Z.div_1_r.
  - rewrite IH, Z.div_div by lia. rewrite <- Z.pow_add_r by lia.
    replace (b + b * Z.of_nat n) with (b * Z.of_nat (S n)) by lia. reflexivity.
Qed.

Lemma bytes_BE32 p : digits 8 4 (BE32 p) = be_bytes 4 p.
Proof.
  rewrite BE32_spec. set (b := fun i => (p / 2 ^ (8 * i)) mod 2 ^ 8).
  assert (E : [b 0; b 1; b 2; b 3] = digits 8 4 p).
  { unfold b. cbn [digits]. rewrite !Z.div_div by lia. rewrite <- !Z.pow_add_r by lia. rewrite Z.div_1_r. reflexivity. }
  change [(p / 2 ^ (8 * 0)) mod 2 ^ 8; (p / 2 ^ (8 * 1)) mod 2 ^ 8; (p / 2 ^ (8 * 2)) mod 2 ^ 8; (p / 2 ^ (8 * 3)) mod 2 ^ 8]
    with [b 0; b 1; b 2; b 3]. rewrite E. unfold be_val, be_bytes.
  rewrite <- (length_digits 8 4 p) at 1. rewrite <- length_rev. apply digits_limbs_val; [lia |].
  apply Forall_rev, limbs_lt_digits. lia.
Qed.

Lemma bytes_of_BE32 l : bytes_of (map BE32 l) = flat_map (be_bytes 4) l.
Proof. unfold bytes_of. induction l as [| x l IH]; cbn [map flat_map]; [reflexivity |]. now rewrite bytes_BE32, IH. Qed.

Lemma sizedesc_ok l : 0 <= l < 2 ^ 61 -> bytes_of [BE32 (l >> 29); BE32 (size64 (l << 3))] = be_bytes 8 (8 * l).
Proof.
  intros H. change [BE32 (l >> 29); BE32 (size64 (l << 3))] with (map BE32 [l >> 29; size64 (l << 3)]).
  rewrite bytes_of_BE32. cbn [flat_map]. rewrite app_nil_r. unfold be_bytes, size64.
  change 8%nat with (4 + 4)%nat. rewrite digits_app, rev_app_distr by lia.
  rewrite Z.shiftl_mul_pow2, Z.shiftr_div_pow2, Z.mod_small by lia.
  f_equal; f_equal; f_equal; [| lia]. change (2 ^ (8 * Z.of_nat 4)) with (8 * 2 ^ 29). now rewrite Z.div_mul_cancel_l by lia.
Qed.

Lemma firstn_repeat {A} (x : A) n m : (n <= m)%nat -> firstn n (repeat x m) = repeat x n.
Proof. revert m. induction n as [| n IH]; intros [| m] H; cbn; try lia; [reflexivity | reflexivity |]. now rewrite IH by lia. Qed.

Lemma limbs_lt_repeat b n : 0 <= b -> limbs_lt b (repeat 0 n).
Proof. intros Hb. apply Forall_forall. intros x Hx. apply repeat_spec in Hx. subst x. lia. Qed.

Lemma pad_ok h m : sha_of h m -> Z.of_nat (length m) < 2 ^ 61 ->
  m ++ firstn (Z.to_nat (1 + (119 - sha_bytes h mod 64) mod 64)) (0x80 :: repeat 0 63) ++
  bytes_of [BE32 (sha_bytes h >> 29); BE32 (size64 (sha_bytes h << 3))] = fips_pad m.
Proof.
  intros [E _] Hl. unfold fips_pad. set (l := Z.of_nat (length m)) in *.
  assert (El : sha_bytes h = l) by (rewrite E; apply Z.mod_small; lia). rewrite El, sizedesc_ok by lia.
  assert (Ek : (119 - l mod 64) mod 64 = (55 - l) mod 64).
  { rewrite Zminus_mod_idemp_r. replace (119 - l) with (55 - l + 1 * 64) by ring. apply Z.mod_add. lia. }
  rewrite Ek. pose proof (Z.mod_pos_bound (55 - l) 64 ltac:(lia)).
  replace (Z.to_nat (1 + (55 - l) mod 64)) with (S (Z.to_nat ((55 - l) mod 64))) by lia.
  cbn [firstn]. rewrite firstn_repeat by lia. reflexivity.
Qed.

Definition sha_mem (h : sha256_t) : Prop := length (sha_buf h) = 64%nat /\ limbs_lt 8 (sha_buf h).

Lemma sha_of_mem h m : sha_of h m -> sha_mem h.
Proof. intros [_ A]. split; apply A. Qed.

Lemma fips_sha256_bytes m : limbs_lt 8 (fips_sha256 m).
Proof.
  unfold fips_sha256. apply Forall_flat_map, Forall_forall. intros x _. apply limbs_lt_be_bytes.
Qed.

Lemma sha_finalize_ok h m : sha_of h m -> Z.of_nat (length m) < 2 ^ 61 ->
  let '(h', out) := secp256k1_sha256_finalize h in
  out = fips_sha256 m /\ length out = 32%nat /\ sha_mem h'.
Proof.
  intros H Hl. unfold secp256k1_sha256_finalize. cbv zeta.
  pose proof (pad_ok h m H Hl) as P. set (pad := firstn _ _) in *. set (sd := bytes_of _) in *.
  assert (Hp : limbs_lt 8 pad) by (apply limbs_lt_firstn; constructor; [lia | now apply limbs_lt_repeat]).
  assert (Hs : limbs_lt 8 sd) by (apply Forall_flat_map, Forall_forall; intros x _; apply limbs_lt_digits; lia).
  pose proof (sha_write_ok _ _ _ (sha_write_ok h m pad H Hp) Hs) as H2. rewrite <- app_assoc, P in H2. set (h2 := secp256k1_sha256_write _ sd) in *. clearbody h2.
  destruct H2 as [_ A]. cbn [sha_buf]. rewrite bytes_of_BE32, (abs_s _ _ _ _ A).
  split; [reflexivity |]. split; [| split; apply A].
  rewrite (flat_map_constant_length (c := 4%nat)) by (intros; apply length_be_bytes).
  rewrite <- (abs_s _ _ _ _ A). now rewrite (abs_len _ _ _ _ A).
Qed.
End Hashing.

(** * HMAC, RFC 2104 *)

Definition hmac_key (key : list Z) : list Z :=
  if (length key <=? 64)%nat then key ++ repeat 0 (64 - length key) else fips_sha256 key ++ repeat 0 32.

Definition xor_pad (p : Z) (k : list Z) : list Z := map (fun b => b .^ p) k.

Definition rfc2104_hmac (key m : list Z) : list Z :=
  fips_sha256 (xor_pad 0x5c (hmac_key key) ++ fips_sha256 (xor_pad 0x36 (hmac_key key) ++ m)).

Definition hmac_mem (h : hmac_sha256_t) : Prop := sha_mem (hmac_inner h) /\ sha_mem (hmac_outer h).

(** The structure after the message [m] under [key]. *)
Definition hmac_of (h : hmac_sha256_t) (key m : list Z) : Prop :=
  sha_of (hmac_inner h) (xor_pad 0x36 (hmac_key key) ++ m) /\ sha_of (hmac_outer h) (xor_pad 0x5c (hmac_key key)).

Lemma sha_new_mem : sha_mem sha256_new.
Proof. split; [reflexivity | now apply limbs_lt_repeat]. Qed.

Lemma hmac_new_mem : hmac_mem hmac_new.
Proof. split; apply sha_new_mem. Qed.

Lemma limbs_lt_xor p k : 0 <= p < 2 ^ 8 -> limbs_lt 8 k -> limbs_lt 8 (xor_pad p k).
Proof.
  intros Hp Hk. apply Forall_map. eapply Forall_impl; [| exact Hk]. intros x Hx. cbn beta in Hx |- *.
  assert (N : 0 <= x .^ p) by (apply Z.lxor_nonneg; lia). split; [exact N |].
  destruct (Z.eq_dec (x .^ p) 0) as [-> | NZ]; [reflexivity |]. apply Z.log2_lt_pow2; [lia |].
  eapply Z.le_lt_trans; [apply Z.log2_lxor; lia |]. apply Z.max_lub_lt.
  - destruct (Z.eq_dec x 0) as [-> | ?]; [reflexivity | apply Z.log2_lt_pow2; lia].
  - destruct (Z.eq_dec p 0) as [-> | ?]; [reflexivity | apply Z.log2_lt_pow2; lia].
Qed.

Lemma sha256_once m : limbs_lt 8 m -> Z.of_nat (length m) < 2 ^ 61 ->
  snd (secp256k1_sha256_finalize (secp256k1_sha256_write (secp256k1_sha256_initialize sha256_new) m)) = fips_sha256 m /\
  length (fips_sha256 m) = 32%nat.
Proof.
  intros Hm Hl. pose proof (sha_init_ok sha256_new (proj1 sha_new_mem) (proj2 sha_new_mem)) as H0.
  pose proof (sha_write_ok _ _ m H0 Hm) as H1. cbn [app] in H1. pose proof (sha_finalize_ok _ _ H1 Hl) as H2.
  destruct (secp256k1_sha256_finalize _) as [h out]. destruct H2 as (E & L & _). cbn [snd]. subst out. now split.
Qed.

Lemma hmac_key_ok key : limbs_lt 8 key -> Z.of_nat (length key) < 2 ^ 61 ->
  limbs_lt 8 (hmac_key key) /\ length (hmac_key key) = 64%nat.
Proof.
  intros Hk Hl. unfold hmac_key, limbs_lt. destruct (Nat.leb_spec (length key) 64).
  - rewrite Forall_app, length_app, repeat_length. split; [split; [exact Hk | now apply limbs_lt_repeat] | lia].
  - rewrite Forall_app, length_app, repeat_length, (proj2 (sha256_once key Hk Hl)).
    split; [split; [apply fips_sha256_bytes | now apply limbs_lt_repeat] | lia].
Qed.

Lemma hmac_init_ok h key : hmac_mem h -> limbs_lt 8 key -> Z.of_nat (length key) < 2 ^ 61 ->
  hmac_of (secp256k1_hmac_sha256_initialize h key) key [].
Proof.
  intros [[Li Bi] [Lo Bo]] Hk Hl. unfold secp256k1_hmac_sha256_initialize.
  cbv zeta. match goal with |- context [if ?c then ?a else ?b] => replace (if c then a else b) with (hmac_key key) end.
  2: { unfold hmac_key. destruct (length key <=? 64)%nat; [reflexivity |].
    destruct (sha256_once key Hk Hl) as [Eo _]. destruct (secp256k1_sha256_finalize _) as [h' out]. cbn [snd] in Eo. now rewrite Eo. }
  destruct (hmac_key_ok key Hk Hl) as [Bk _]. split; cbn [hmac_inner hmac_outer].
  - rewrite map_map, app_nil_r. erewrite map_ext; [| intros a; rewrite Z.lxor_assoc, <- (Z.lxor_assoc 0x5c), Z.lxor_nilpotent, Z.lxor_0_l; reflexivity].
    apply (sha_write_ok _ []); [now apply sha_init_ok |]. now apply limbs_lt_xor.
  - apply (sha_write_ok _ []); [now apply sha_init_ok |]. now apply limbs_lt_xor.
Qed.

Lemma hmac_write_ok h key m data : hmac_of h key m -> limbs_lt 8 data ->
  hmac_of (secp256k1_hmac_sha256_write h data) key (m ++ data).
Proof.
  intros [Hi Ho] Hd. split; [| exact Ho]. cbn [secp256k1_hmac_sha256_write hmac_inner]. rewrite app_assoc.
  now apply sha_write_ok.
Qed.

Lemma hmac_finalize_ok h key m : hmac_of h key m -> limbs_lt 8 key -> Z.of_nat (length key) < 2 ^ 61 ->
  Z.of_nat (length m) < 2 ^ 60 ->
  let '(h', out) := secp256k1_hmac_sha256_finalize h in
  out = rfc2104_hmac key m /\ length out = 32%nat /\ limbs_lt 8 out /\ hmac_mem h'.
Proof.
  intros [Hi Ho] Hk Hkl Hl. destruct (hmac_key_ok key Hk Hkl) as [Bk Lk]. unfold secp256k1_hmac_sha256_finalize.
  pose proof (sha_finalize_ok _ _ Hi) as F. rewrite length_app in F. unfold xor_pad in F at 1. rewrite length_map, Lk in F.
  specialize (F ltac:(lia)). destruct (secp256k1_sha256_finalize (hmac_inner h)) as [hi temp]. destruct F as (Et & Lt & Mi).
  assert (Bt : limbs_lt 8 temp) by (rewrite Et; apply fips_sha256_bytes).
  pose proof (sha_write_ok _ _ temp Ho Bt) as W. pose proof (sha_finalize_ok _ _ W) as G.
  rewrite length_app, Lt in G. unfold xor_pad in G at 1. rewrite length_map, Lk in G. specialize (G ltac:(lia)). cbv zeta.
  destruct (secp256k1_sha256_finalize _) as [ho out]. destruct G as (Eo & Lo & Mo).
  split; [rewrite Eo, Et; reflexivity |]. split; [exact Lo |]. split; [rewrite Eo; apply fips_sha256_bytes | now split].
Qed.

(** * The generator of RFC 6979, section 3.2 *)

(** The generator's [V] and [K]; [retry] tells whether it has produced output. *)
Definition rfc6979_init (key : list Z) : list Z * list Z :=
  let V := repeat 1 32 in
  let K := repeat 0 32 in
  let K := rfc2104_hmac K (V ++ [0] ++ key) in
  let V := rfc2104_hmac K V in
  let K := rfc2104_hmac K (V ++ [1] ++ key) in
  let V := rfc2104_hmac K V in
  (V, K).

Definition rfc6979_next (V K : list Z) : list Z * list Z :=
  let K := rfc2104_hmac K (V ++ [0]) in
  (rfc2104_hmac K V, K).

(** [n] blocks: the last [V] and the concatenation. *)
Fixpoint rfc6979_blocks (n : nat) (V K : list Z) : list Z * list Z :=
  match n with
  | O => (V, [])
  | S m => let V := rfc2104_hmac K V in let '(V', T) := rfc6979_blocks m V K in (V', V ++ T)
  end.

Lemma hmac_run h key ps : hmac_mem h -> length key = 32%nat -> limbs_lt 8 key -> Forall (limbs_lt 8) ps ->
  Z.of_nat (length (concat ps)) < 2 ^ 60 ->
  let '(h', out) := secp256k1_hmac_sha256_finalize
    (fold_left secp256k1_hmac_sha256_write ps (secp256k1_hmac_sha256_initialize h key)) in
  out = rfc2104_hmac key (concat ps) /\ length out = 32%nat /\ limbs_lt 8 out /\ hmac_mem h'.
Proof.
  intros Hm Lk Hk Hp Hl. apply hmac_finalize_ok; try assumption; [| rewrite Lk; reflexivity].
  assert (W : forall h m, hmac_of h key m -> hmac_of (fold_left secp256k1_hmac_sha256_write ps h) key (m ++ concat ps)).
  { clear Hl. induction Hp as [| p ps Hp _ IH]; intros g m Hg; cbn [fold_left concat].
    - now rewrite app_nil_r.
    - rewrite app_assoc. apply IH. now apply hmac_write_ok. }
  apply (W _ []), hmac_init_ok; try assumption. rewrite Lk. reflexivity.
Qed.

Definition bytes32 (l : list Z) : Prop := length l = 32%nat /\ limbs_lt 8 l.

Definition hmac_out (p : hmac_sha256_t * list Z) (key m : list Z) : Prop :=
  snd p = rfc2104_hmac key m /\ bytes32 (snd p) /\ hmac_mem (fst p).

Lemma hmac_run_out h key ps : hmac_mem h -> bytes32 key -> Forall (limbs_lt 8) ps ->
  Z.of_nat (length (concat ps)) < 2 ^ 60 ->
  hmac_out (secp256k1_hmac_sha256_finalize (fold_left secp256k1_hmac_sha256_write ps (secp256k1_hmac_sha256_initialize h key)))
    key (concat ps).
Proof.
  intros Hm [Lk Hk] Hp Hl. pose proof (hmac_run h key ps Hm Lk Hk Hp Hl) as H.
  destruct (secp256k1_hmac_sha256_finalize _) as [h' out]. destruct H as (E & L & B & M). exact (conj E (conj (conj L B) M)).
Qed.

#[local] Abbreviation hmac_w := secp256k1_hmac_sha256_write.
#[local] Abbreviation hmac_i := secp256k1_hmac_sha256_initialize.
#[local] Abbreviation hmac_f := secp256k1_hmac_sha256_finalize.

Lemma hmac_1 h k v : hmac_mem h -> bytes32 k -> bytes32 v -> hmac_out (hmac_f (hmac_w (hmac_i h k) v)) k v.
Proof.
  intros Hm Hk [Lv Bv]. pose proof (hmac_run_out h k [v] Hm Hk) as H. cbn [fold_left concat] in H. rewrite app_nil_r in H.
  apply H; [constructor; [exact Bv | constructor] | rewrite Lv; reflexivity].
Qed.

Lemma hmac_2 h k v t : hmac_mem h -> bytes32 k -> bytes32 v -> 0 <= t < 2 ^ 8 ->
  hmac_out (hmac_f (hmac_w (hmac_w (hmac_i h k) v) [t])) k (v ++ [t]).
Proof.
  intros Hm Hk [Lv Bv] Ht. pose proof (hmac_run_out h k [v; [t]] Hm Hk) as H. cbn [fold_left concat app] in H.
  apply H; [constructor; [exact Bv | constructor; [constructor; [exact Ht | constructor] | constructor]] |].
  rewrite length_app, Lv. reflexivity.
Qed.

Lemma hmac_3 h k v t d : hmac_mem h -> bytes32 k -> bytes32 v -> 0 <= t < 2 ^ 8 -> limbs_lt 8 d -> Z.of_nat (length d) < 2 ^ 59 ->
  hmac_out (hmac_f (hmac_w (hmac_w (hmac_w (hmac_i h k) v) [t]) d)) k (v ++ [t] ++ d).
Proof.
  intros Hm Hk [Lv Bv] Ht Hd Ld. pose proof (hmac_run_out h k [v; [t]; d] Hm Hk) as H. cbn [fold_left concat] in H.
  rewrite app_nil_r in H. apply H.
  - constructor; [exact Bv | constructor; [constructor; [exact Ht | constructor] | constructor; [exact Hd | constructor]]].
  - rewrite !length_app, Lv. cbn [length]. lia.
Qed.

Lemma bytes32_const x : 0 <= x < 2 ^ 8 -> bytes32 (repeat x 32).
Proof.
  intros H. split; [reflexivity |]. apply Forall_forall. intros y Hy. apply repeat_spec in Hy. now subst y.
Qed.

Definition rfc_ok (r : rfc6979_t) : Prop := bytes32 (rng_v r) /\ bytes32 (rng_k r).

Lemma rfc6979_initialize_ok key : limbs_lt 8 key -> Z.of_nat (length key) < 2 ^ 59 ->
  let r := secp256k1_rfc6979_hmac_sha256_initialize key in
  (rng_v r, rng_k r) = rfc6979_init key /\ rng_retry r = 0 /\ rfc_ok r.
Proof.
  intros Hk Hl r. unfold r, secp256k1_rfc6979_hmac_sha256_initialize, rfc6979_init. cbv zeta.
  pose proof (bytes32_const 1 ltac:(lia)) as Bv. pose proof (bytes32_const 0 ltac:(lia)) as Bk. pose proof hmac_new_mem as M0.
  set (v0 := repeat 1 32) in *. set (k0 := repeat 0 32) in *. clearbody v0 k0.
  assert (T0 : 0 <= 0 < 2 ^ 8) by lia. assert (T1 : 0 <= 1 < 2 ^ 8) by lia.
  destruct (hmac_3 hmac_new k0 v0 0 key M0 Bk Bv T0 Hk Hl) as (E1 & B1 & M1).
  destruct (hmac_f _) as [h1 k1]. cbn [fst snd] in *.
  destruct (hmac_1 h1 k1 v0 M1 B1 Bv) as (E2 & B2 & M2).
  destruct (hmac_f _) as [h2 v1]. cbn [fst snd] in *.
  destruct (hmac_3 h2 k1 v1 1 key M2 B1 B2 T1 Hk Hl) as (E3 & B3 & M3).
  destruct (hmac_f _) as [h3 k2]. cbn [fst snd] in *.
  destruct (hmac_1 h3 k2 v1 M3 B3 B2) as (E4 & B4 & M4).
  destruct (hmac_f _) as [h4 v2]. cbn [fst snd rng_v rng_k rng_retry] in *.
  split; [| split; [reflexivity | exact (conj B4 B3)]].
  rewrite <- E1, <- E2, <- E3, <- E4. reflexivity.
Qed.

Lemma s32_small n : 0 <= n < 2 ^ 31 -> s32 n = n.
Proof. intros H. unfold s32. rewrite Z.mod_small; lia. Qed.

Lemma rfc6979_loop_ok fuel : forall k v n, (n < fuel)%nat -> Z.of_nat n < 2 ^ 31 -> bytes32 k -> bytes32 v ->
  exists v' out, rfc6979_loop fuel k v n = Some (v', out) /\
  let '(V, T) := rfc6979_blocks ((n + 31) / 32) v k in
  v' = V /\ out = firstn n T /\ length out = n /\ limbs_lt 8 out /\ bytes32 v'.
Proof.
  assert (Z0 : forall v k, rfc6979_blocks ((0 + 31) / 32) v k = (v, [])) by reflexivity.
  induction fuel as [| fuel IH]; intros k v n Hn Hb Bk Bv; [lia |]. cbn [rfc6979_loop].
  destruct n as [| n]; [rewrite Z0; exists v, []; repeat split; try constructor; apply Bv |].
  change (0 <? S n)%nat with true. cbv iota zeta. destruct (hmac_1 hmac_new k v hmac_new_mem Bk Bv) as (E1 & B1 & _).
  destruct (hmac_f _) as [h v1]. cbn [fst snd] in *. rewrite s32_small by lia.
  set (now := if 32 <? Z.of_nat (S n) then 32 else Z.of_nat (S n)).
  assert (Hnow : (now = 32 /\ 32 < Z.of_nat (S n)) \/ (now = Z.of_nat (S n) /\ Z.of_nat (S n) <= 32)) by (unfold now; destruct (Z.ltb_spec 32 (Z.of_nat (S n))); lia).
  clearbody now. rewrite (proj2 (Z.ltb_ge now 0)) by lia.
  assert (Eb : ((S n + 31) / 32 = S ((S n - Z.to_nat now + 31) / 32))%nat).
  { destruct Hnow as [[-> ?] | [-> ?]].
    - change (Z.to_nat 32) with 32%nat. replace (S n + 31)%nat with ((S n - 32 + 31) + 1 * 32)%nat by lia. rewrite Nat.div_add by lia. lia.
    - rewrite Nat2Z.id, Nat.sub_diag. change ((0 + 31) / 32)%nat with 0%nat. symmetry. apply (Nat.div_unique _ _ _ n); lia. }
  rewrite Eb. cbn [rfc6979_blocks]. rewrite <- E1.
  destruct (IH k v1 (S n - Z.to_nat now)%nat ltac:(lia) ltac:(lia) Bk B1) as (v' & out & -> & H). destruct (rfc6979_blocks _ v1 k) as [V T].
  destruct H as (EV & Eo & Lo & Bo & Bv'). destruct B1 as [L1 B1]. cbv zeta. eexists _, _. split; [reflexivity |].
  refine (conj EV (conj _ (conj _ (conj _ Bv')))).
  - rewrite Eo, firstn_app, L1. destruct Hnow as [[-> ?] | [-> ?]].
    + change (Z.to_nat 32) with 32%nat. rewrite !firstn_all2 with (l := v1) by lia. reflexivity.
    + rewrite Nat2Z.id, Nat.sub_diag. replace (S n - 32)%nat with 0%nat by lia. reflexivity.
  - rewrite length_app, length_firstn. lia.
  - apply Forall_app. split; [now apply limbs_lt_firstn | exact Bo].
Qed.

Lemma rfc6979_generate_ok r n : rfc_ok r -> Z.of_nat n < 2 ^ 31 ->
  exists r' out, secp256k1_rfc6979_hmac_sha256_generate r n = Some (r', out) /\
  let '(V, K) := if z2b (rng_retry r) then rfc6979_next (rng_v r) (rng_k r) else (rng_v r, rng_k r) in
  let '(V', T) := rfc6979_blocks ((n + 31) / 32) V K in
  rng_v r' = V' /\ rng_k r' = K /\ rng_retry r' = 1 /\ out = firstn n T /\
  length out = n /\ limbs_lt 8 out /\ rfc_ok r'.
Proof.
  intros [Bv Bk] Hn. unfold secp256k1_rfc6979_hmac_sha256_generate, rfc6979_next. cbv zeta. pose proof hmac_new_mem as M0.
  assert (Fin : forall k v, bytes32 k -> bytes32 v ->
    exists r' out, (let* (v, out) := rfc6979_loop (S n) k v n in Some (Rfc6979 v k 1, out)) = Some (r', out) /\
    let '(V', T) := rfc6979_blocks ((n + 31) / 32) v k in
    rng_v r' = V' /\ rng_k r' = k /\ rng_retry r' = 1 /\ out = firstn n T /\ length out = n /\ limbs_lt 8 out /\ rfc_ok r').
  { intros k v Hk Hv. destruct (rfc6979_loop_ok (S n) k v n ltac:(lia) Hn Hk Hv) as (v' & out & -> & H). eexists _, _. split; [reflexivity |].
    destruct (rfc6979_blocks _ v k) as [V' T].
    destruct H as (? & ? & ? & ? & ?). cbn [rng_v rng_k rng_retry]. unfold rfc_ok. cbn [rng_v rng_k]. auto 10. }
  destruct (z2b (rng_retry r)); [| now apply Fin].
  destruct (hmac_2 hmac_new (rng_k r) (rng_v r) 0 M0 Bk Bv ltac:(lia)) as (E1 & B1 & M1).
  destruct (hmac_f _) as [h1 k1]. cbn [fst snd] in *.
  destruct (hmac_1 h1 k1 (rng_v r) M1 B1 Bv) as (E2 & B2 & M2).
  destruct (hmac_f _) as [h2 v1]. cbn [fst snd] in *.
  rewrite <- E1, <- E2. now apply Fin.
Qed.

(** Lengths that become negative. *)
Lemma rfc6979_generate_long r n : 2 ^ 31 <= Z.of_nat n < 2 ^ 32 -> secp256k1_rfc6979_hmac_sha256_generate r n = None.
Proof.
  intros Hn. assert (F : forall k v, rfc6979_loop (S n) k v n = None).
  { intros k v. remember (S n) as fuel eqn:Ef. destruct fuel as [| fuel]; [discriminate |]. cbn [rfc6979_loop]. rewrite (proj2 (Nat.ltb_lt 0 n)) by lia. destruct (secp256k1_hmac_sha256_finalize _) as [h v1]. cbv zeta.
    assert (Es : s32 (Z.of_nat n) = Z.of_nat n - 2 ^ 32).
    { unfold s32. rewrite <- (Z.mod_unique (Z.of_nat n + 2 ^ 31) (2 ^ 32) 1 (Z.of_nat n - 2 ^ 31)); lia. }
    rewrite Es. rewrite (proj2 (Z.ltb_ge 32 _)) by lia. now rewrite (proj2 (Z.ltb_lt _ 0)) by lia. }
  unfold secp256k1_rfc6979_hmac_sha256_generate. cbv zeta. destruct (if z2b (rng_retry r) then _ else _) as [k v]. now rewrite F.
Qed.

(** * Results *)

(** C38. Whatever the pieces a message of fewer than 2^61 bytes is written in and
    whatever the buffer held before, the hash is SHA-256 of the message. *)
Theorem sha256_correct h ps : sha_mem h -> Forall (limbs_lt 8) ps -> Z.of_nat (length (concat ps)) < 2 ^ 61 ->
  snd (secp256k1_sha256_finalize (fold_left secp256k1_sha256_write ps (secp256k1_sha256_initialize h))) = fips_sha256 (concat ps).
Proof.
  intros [Lb Bb] Hp Hl. assert (W : forall g m, sha_of g m -> sha_of (fold_left secp256k1_sha256_write ps g) (m ++ concat ps)).
  { clear Hl. induction Hp as [| p ps Hp _ IH]; intros g m Hg; cbn [fold_left concat]; [now rewrite app_nil_r |].
    rewrite app_assoc. apply IH. now apply sha_write_ok. }
  pose proof (sha_finalize_ok _ _ (W _ _ (sha_init_ok h Lb Bb)) Hl) as H.
  destruct (secp256k1_sha256_finalize _) as [h' out]. apply H.
Qed.

Lemma sha256_correct_witness :
  snd (secp256k1_sha256_finalize (fold_left secp256k1_sha256_write [[97]; [98; 99]] (secp256k1_sha256_initialize sha256_new))) =
  fips_sha256 (concat [[97]; [98; 99]]).
Proof.
  apply (sha256_correct sha256_new [[97]; [98; 99]]); [exact sha_new_mem | repeat constructor; lia | reflexivity].
Defined.

(** C39. HMAC under a key of any length, with the message in any pieces, is the
    construction of RFC 2104 over SHA-256. *)
Theorem hmac_correct h key ps : hmac_mem h -> limbs_lt 8 key -> Z.of_nat (length key) < 2 ^ 61 ->
  Forall (limbs_lt 8) ps -> Z.of_nat (length (concat ps)) < 2 ^ 60 ->
  snd (secp256k1_hmac_sha256_finalize (fold_left secp256k1_hmac_sha256_write ps (secp256k1_hmac_sha256_initialize h key))) =
  rfc2104_hmac key (concat ps).
Proof.
  intros Hm Hk Lk Hp Hl.
  assert (W : forall g m, hmac_of g key m -> hmac_of (fold_left secp256k1_hmac_sha256_write ps g) key (m ++ concat ps)).
  { clear Hl. induction Hp as [| p ps Hp _ IH]; intros g m Hg; cbn [fold_left concat]; [now rewrite app_nil_r |].
    rewrite app_assoc. apply IH. now apply hmac_write_ok. }
  pose proof (hmac_finalize_ok _ _ _ (W _ _ (hmac_init_ok h key Hm Hk Lk)) Hk Lk Hl) as H.
  destruct (secp256k1_hmac_sha256_finalize _) as [h' out]. apply H.
Qed.

Lemma hmac_correct_witness :
  snd (secp256k1_hmac_sha256_finalize (fold_left secp256k1_hmac_sha256_write [[104; 105]]
    (secp256k1_hmac_sha256_initialize hmac_new (repeat 7 100)))) = rfc2104_hmac (repeat 7 100) (concat [[104; 105]]).
Proof.
  apply (hmac_correct hmac_new (repeat 7 100) [[104; 105]]); [exact hmac_new_mem | repeat constructor; lia | reflexivity |
    repeat constructor; lia | reflexivity].
Defined.

(** C40. The generator, seeded and then asked twice for output, follows section
    3.2 of RFC 6979: first the blocks of the initial state, and for the second
    request those of the state updated in between.  A request is for fewer than
    2^31 bytes; from there up to 2^32 the length is a negative [int] and the
    request has no result. *)
Theorem rfc6979_correct key n m : limbs_lt 8 key -> Z.of_nat (length key) < 2 ^ 59 -> Z.of_nat n < 2 ^ 31 -> Z.of_nat m < 2 ^ 31 ->
  let r := secp256k1_rfc6979_hmac_sha256_initialize key in
  let '(V0, K0) := rfc6979_init key in
  let '(V1, T1) := rfc6979_blocks ((n + 31) / 32) V0 K0 in
  let '(V2, K2) := rfc6979_next V1 K0 in
  (exists r1 out1 r2 out2,
    secp256k1_rfc6979_hmac_sha256_generate r n = Some (r1, out1) /\ secp256k1_rfc6979_hmac_sha256_generate r1 m = Some (r2, out2) /\
    out1 = firstn n T1 /\ length out1 = n /\
    out2 = firstn m (snd (rfc6979_blocks ((m + 31) / 32) V2 K2)) /\ length out2 = m) /\
  forall l, 2 ^ 31 <= Z.of_nat l < 2 ^ 32 -> secp256k1_rfc6979_hmac_sha256_generate r l = None.
Proof.
  intros Hk Hl Hn Hm r. destruct (rfc6979_initialize_ok key Hk Hl) as (E0 & R0 & H0). fold r in E0, R0, H0. clearbody r.
  destruct (rfc6979_generate_ok r n H0 Hn) as (r1 & out1 & Eg1 & G1). rewrite R0 in G1. change (z2b 0) with false in G1. cbv iota in G1.
  destruct (rfc6979_init key) as [V0 K0]. injection E0 as EV EK. rewrite EV, EK in G1. destruct (rfc6979_blocks _ V0 K0) as [V1 T1].
  destruct G1 as (E1 & E2 & E3 & E4 & E5 & _ & H1). destruct (rfc6979_generate_ok r1 m H1 Hm) as (r2 & out2 & Eg2 & G2).
  rewrite E3, E1, E2 in G2. change (z2b 1) with true in G2. cbv iota in G2. destruct (rfc6979_next V1 K0) as [V2 K2].
  destruct (rfc6979_blocks _ V2 K2) as [V3 T2]. cbn [snd]. destruct G2 as (_ & _ & _ & E6 & E7 & _).
  split; [exists r1, out1, r2, out2; auto 10 | intros l Hlen; now apply rfc6979_generate_long].
Qed.

Lemma rfc6979_correct_witness :
  exists r1 out1 r2 out2, secp256k1_rfc6979_hmac_sha256_generate (secp256k1_rfc6979_hmac_sha256_initialize [1; 2; 3]) 40 = Some (r1, out1) /\
  secp256k1_rfc6979_hmac_sha256_generate r1 32 = Some (r2, out2) /\ length out1 = 40%nat /\ length out2 = 32%nat.
Proof.
  pose proof (rfc6979_correct [1; 2; 3] 40 32 ltac:(repeat constructor; lia) eq_refl eq_refl eq_refl) as H. cbv zeta in H.
  destruct (rfc6979_init _) as [V0 K0]. destruct (rfc6979_blocks _ V0 K0) as [V1 T1]. destruct (rfc6979_next V1 K0) as [V2 K2].
  destruct H as [(r1 & o1 & r2 & o2 & G1 & G2 & _ & L1 & _ & L2) _]. exists r1, o1, r2, o2. auto.
Defined.
