(* ===== verification/Ecmult.v ===== *)
(** Multiplication [na * A + ng * G], [ecmult.h] and [ecmult_impl.h] without
    the endomorphism, over any field and scalar representation. *)

From Stdlib Require Import ZArith Lia List Bool.
From S2P Require Import Prelude Limbs Fp FieldSpec FieldGen Group ScalarSpec ScalarGen.
Import ListNotations.
Open Scope Z_scope.

Definition WINDOW_A : Z := 5.
Definition WINDOW_G : Z := 16.

Definition ECMULT_TABLE_SIZE (w : Z) : nat := Z.to_nat (1 << (w - 2)).

Section Code.
Context {I : FieldImpl} {J : ScalarImpl}.

(** * Tables of odd multiples *)

(** [for (i = 1; i < n; i++)], with [k] iterations left. *)
Fixpoint odd_multiples_loop (prej : list gej) (zr : list fe) (d_ge : ge) (i k : nat) : list gej * list fe :=
  match k with
  | O => (prej, zr)
  | S k' =>
      let '(p, z) := secp256k1_gej_add_ge_var (nth_gej prej i) (nth_gej prej (i - 1)) d_ge (Some (nth_fe zr i)) in
      let zri := match z with Some v => v | None => nth_fe zr i end in
      odd_multiples_loop (upd i p prej) (upd i zri zr) d_ge (S i) k'
  end.

(** [prej] and [zr] are the arrays before the call, of length [n]. *)
Definition secp256k1_ecmult_odd_multiples_table (n : nat) (prej : list gej) (zr : list fe) (a : gej)
    : list gej * list fe :=
  let d := fst (secp256k1_gej_double_var gej_clear_val a None) in
  let d_ge := Ge (gej_x d) (gej_y d) 0 in
  let a_ge := secp256k1_ge_set_gej_zinv a (gej_z d) in
  let prej := upd 0 (Gej (ge_x a_ge) (ge_y a_ge) (gej_z a) 0) prej in
  let zr := upd 0 (gej_z d) zr in
  let '(prej, zr) := odd_multiples_loop prej zr d_ge 1 (n - 1) in
  let last := nth_gej prej (n - 1) in
  (upd (n - 1) (Gej (gej_x last) (gej_y last) (fe_mul (gej_z last) (gej_z d)) (gej_infinity last)) prej, zr).

(** Local and freshly allocated arrays are written before they are read; the
    model starts them cleared. *)
Definition new_gej (n : nat) : list gej := repeat gej_clear_val n.
Definition new_ge (n : nat) : list ge := repeat secp256k1_ge_clear n.
Definition new_fe (n : nat) : list fe := repeat fe_clear n.

(** Returns [pre] and [globalz]. *)
Definition secp256k1_ecmult_odd_multiples_table_globalz_windowa (a : gej) : list ge * fe :=
  let n := ECMULT_TABLE_SIZE WINDOW_A in
  let '(prej, zr) := secp256k1_ecmult_odd_multiples_table n (new_gej n) (new_fe n) a in
  secp256k1_ge_globalz_set_table_gej n (new_ge n) fe_clear prej zr.

Definition secp256k1_ecmult_odd_multiples_table_storage_var (n : nat) (a : gej) : list ge_storage :=
  let '(prej, zr) := secp256k1_ecmult_odd_multiples_table n (new_gej n) (new_fe n) a in
  let prea := secp256k1_ge_set_table_gej_var (new_ge n) prej zr in
  map secp256k1_ge_to_storage prea.

Definition ECMULT_TABLE_GET_GE (pre : list ge) (n : Z) : ge :=
  if n >? 0 then nth_ge pre (Z.to_nat ((n - 1) / 2))
  else secp256k1_ge_neg (nth_ge pre (Z.to_nat ((- n - 1) / 2))).

Definition ECMULT_TABLE_GET_GE_STORAGE (pre : list ge_storage) (n : Z) : ge :=
  if n >? 0 then secp256k1_ge_from_storage (nth_ges pre (Z.to_nat ((n - 1) / 2)))
  else secp256k1_ge_neg (secp256k1_ge_from_storage (nth_ges pre (Z.to_nat ((- n - 1) / 2)))).

(** * The context *)

Record ecmult_context : Type := EcmultContext { pre_g : option (list ge_storage) }.

Definition secp256k1_ecmult_context_init : ecmult_context := EcmultContext None.

Definition secp256k1_ecmult_context_build (ctx : ecmult_context) : ecmult_context :=
  match pre_g ctx with
  | Some _ => ctx
  | None =>
      let gj := secp256k1_gej_set_ge secp256k1_ge_const_g in
      EcmultContext (Some (secp256k1_ecmult_odd_multiples_table_storage_var (ECMULT_TABLE_SIZE WINDOW_G) gj))
  end.

Definition secp256k1_ecmult_context_clone (src : ecmult_context) : ecmult_context :=
  match pre_g src with
  | None => EcmultContext None
  | Some t => EcmultContext (Some t)
  end.

Definition secp256k1_ecmult_context_is_built (ctx : ecmult_context) : Z :=
  match pre_g ctx with
  | Some _ => 1
  | None => 0
  end.

Definition secp256k1_ecmult_context_clear (ctx : ecmult_context) : ecmult_context :=
  secp256k1_ecmult_context_init.

(** * wNAF *)

(** [while (bit < len)]; every iteration advances [bit], so [len] iterations
    are enough. *)
Fixpoint wnaf_loop (fuel : nat) (s : scalar) (len w sign : Z) (wnaf : list Z) (bit carry last_set_bit : Z)
    : list Z * Z :=
  match fuel with
  | O => (wnaf, last_set_bit)
  | S fuel' =>
      if bit <? len then
        if sc_get_bits s bit 1 =? carry then wnaf_loop fuel' s len w sign wnaf (bit + 1) carry last_set_bit
        else
          let now := w in
          let now := if now >? len - bit then len - bit else now in
          let word := sc_get_bits_var s bit now + carry in
          let carry := (word >> (w - 1)) .& 1 in
          let word := word - (carry << w) in
          let wnaf := upd (Z.to_nat bit) (sign * word) wnaf in
          wnaf_loop fuel' s len w sign wnaf (bit + now) carry bit
      else (wnaf, last_set_bit)
  end.

(** Returns the digits and the number of set ones. *)
Definition secp256k1_ecmult_wnaf (len : Z) (a : scalar) (w : Z) : list Z * Z :=
  let s := a in
  let wnaf := repeat 0 (Z.to_nat len) in
  let neg := z2b (sc_get_bits s 255 1) in
  let s := if neg then sc_negate s else s in
  let sign := if neg then -1 else 1 in
  let '(wnaf, last_set_bit) := wnaf_loop (Z.to_nat len) s len w sign wnaf 0 0 (-1) in
  (wnaf, last_set_bit + 1).

(** * Multiplication *)

(** [if (i < bits && (n = wnaf[i]))]: add the entry for the digit. *)
Definition add_table (pre : list ge) (wnaf : list Z) (bits : Z) (i : nat) (r : gej) : gej :=
  let n := wnaf.[i] in
  if (Z.of_nat i <? bits) && z2b n
  then fst (secp256k1_gej_add_ge_var r r (ECMULT_TABLE_GET_GE pre n) None) else r.

Definition add_table_storage (pre : list ge_storage) (Zr : fe) (wnaf : list Z) (bits : Z) (i : nat) (r : gej) : gej :=
  let n := wnaf.[i] in
  if (Z.of_nat i <? bits) && z2b n
  then secp256k1_gej_add_zinv_var r r (ECMULT_TABLE_GET_GE_STORAGE pre n) Zr else r.

(** One iteration of the main loop, at position [i]. *)
Definition ecmult_step (pre_a : list ge) (Zr : fe) (pre_g : list ge_storage) (wnaf_na : list Z) (bits_na : Z)
    (wnaf_ng : list Z) (bits_ng : Z) (r : gej) (i : nat) : gej :=
  let r := fst (secp256k1_gej_double_var r r None) in
  let r := add_table pre_a wnaf_na bits_na i r in
  add_table_storage pre_g Zr wnaf_ng bits_ng i r.

(** [for (i = bits - 1; i >= 0; i--)]. *)
Fixpoint ecmult_loop (pre_a : list ge) (Zr : fe) (pre_g : list ge_storage) (wnaf_na : list Z) (bits_na : Z)
    (wnaf_ng : list Z) (bits_ng : Z) (r : gej) (i : nat) : gej :=
  match i with
  | O => r
  | S j =>
      let r := ecmult_step pre_a Zr pre_g wnaf_na bits_na wnaf_ng bits_ng r j in
      ecmult_loop pre_a Zr pre_g wnaf_na bits_na wnaf_ng bits_ng r j
  end.

Definition secp256k1_ecmult (pre_g : list ge_storage) (a : gej) (na ng : scalar) : gej :=
  let '(wnaf_na, bits_na) := secp256k1_ecmult_wnaf 256 na WINDOW_A in
  let bits := bits_na in
  let '(pre_a, Zr) := secp256k1_ecmult_odd_multiples_table_globalz_windowa a in
  let '(wnaf_ng, bits_ng) := secp256k1_ecmult_wnaf 256 ng WINDOW_G in
  let bits := if bits_ng >? bits then bits_ng else bits in
  let r := secp256k1_gej_set_infinity in
  let r := ecmult_loop pre_a Zr pre_g wnaf_na bits_na wnaf_ng bits_ng r (Z.to_nat bits) in
  if negb (z2b (gej_infinity r))
  then Gej (gej_x r) (gej_y r) (fe_mul (gej_z r) Zr) (gej_infinity r)
  else r.
End Code.
