(* ===== verification/EcmultWnaf.v ===== *)
(** The digits of [secp256k1_ecmult_wnaf]: their sum, their range and the
    count that is returned. *)

From Stdlib Require Import ZArith Lia List Bool.
From S2P Require Import Prelude Limbs Primes Fp FieldSpec FieldGen Group ScalarSpec ScalarGen Ecmult.
Import ListNotations.
Open Scope Z_scope.

(** The sum of [l[i] * 2^i], for signed digits. *)
Definition digits_sum (l : list Z) : Z := limbs_val 1 l.

Lemma digits_sum_upd i v : forall l, (i < length l)%nat ->
  digits_sum (upd i v l) = digits_sum l + (v - nth i l 0) * 2 ^ Z.of_nat i.
Proof.
  unfold digits_sum. induction i as [| i IH]; intros [| h t] Hi; cbn [length] in Hi; try lia; cbn [upd limbs_val nth].
  - rewrite Z.pow_0_r. lia.
  - rewrite IH by lia. rewrite Nat2Z.inj_succ, Z.pow_succ_r by lia. change (2 ^ 1) with 2. lia.
Qed.

Lemma digits_sum_repeat n : digits_sum (repeat 0 n) = 0.
Proof. unfold digits_sum. induction n as [| n IH]; cbn [repeat limbs_val]; [reflexivity |]. rewrite IH. lia. Qed.

Lemma nth_repeat_0 n i : nth i (repeat 0 n) 0 = 0.
Proof. revert i. induction n as [| n IH]; intros [| i]; cbn [repeat nth]; auto. Qed.

(** A digit of width [w]: zero, or odd and below [2^(w-1)] in absolute value. *)
Definition wnaf_digit (w d : Z) : Prop := d = 0 \/ (d mod 2 = 1 /\ Z.abs d < 2 ^ (w - 1)).

Section Wnaf.
Context {J : ScalarImpl} {L : ScalarLaws J}.
Variables (s : scalar) (len w sign : Z).
Hypothesis Hs : sok s.
Hypothesis Hlen : 0 < len <= 256.
Hypothesis Hw : 2 <= w < 32.
Hypothesis Hsign : sign = 1 \/ sign = -1.
Hypothesis Hsmall : sv s < 2 ^ (len - 1).

Lemma sv_nonneg : 0 <= sv s.
Proof. apply sv_range, Hs. Qed.

Lemma low_bits bit k : 0 <= bit -> 0 <= k ->
  sv s mod 2 ^ (bit + k) = sv s mod 2 ^ bit + 2 ^ bit * ((sv s / 2 ^ bit) mod 2 ^ k).
Proof. intros Hb Hk. rewrite Z.pow_add_r by lia. apply Z.rem_mul_r; lia. Qed.

Record wnaf_inv (wnaf : list Z) (bit carry last : Z) : Prop := {
  inv_len : length wnaf = Z.to_nat len;
  inv_bit : 0 <= bit <= len;
  inv_carry : 0 <= carry <= 1;
  inv_sum : digits_sum wnaf = sign * (sv s mod 2 ^ bit - carry * 2 ^ bit);
  inv_zero : forall i, bit <= Z.of_nat i -> nth i wnaf 0 = 0;
  inv_digit : forall i, wnaf_digit w (nth i wnaf 0);
  inv_last : -1 <= last < bit /\ forall i, last < Z.of_nat i -> nth i wnaf 0 = 0;
  inv_top : bit = len -> carry = 0;
  inv_end : forall i, nth i wnaf 0 <> 0 -> Z.of_nat i + w <= bit \/ bit = len;
  inv_gap : forall i j, (i < j)%nat -> nth i wnaf 0 <> 0 -> nth j wnaf 0 <> 0 -> Z.of_nat i + w <= Z.of_nat j
}.

Lemma wnaf_skip wnaf bit carry last : bit < len -> sc_get_bits s bit 1 = carry ->
  wnaf_inv wnaf bit carry last -> wnaf_inv wnaf (bit + 1) carry last.
Proof.
  intros Hb E V. destruct V as [V1 V2 V3 V4 V5 V6 [V7 V8] V9 V10 V11].
  rewrite sc_get_bits_ok in E; try assumption; try lia; [| now replace (bit + 1 - 1) with bit by lia].
  pose proof (low_bits bit 1 ltac:(lia) ltac:(lia)) as Lb. rewrite E in Lb.
  pose proof (Z.pow_succ_r 2 bit ltac:(lia)) as P2. replace (Z.succ bit) with (bit + 1) in P2 by lia.
  constructor; [assumption | lia | assumption | rewrite V4, Lb, P2; ring | | assumption | split; [lia | exact V8] | | | assumption].
  - intros i Hi. apply V5. lia.
  - intros T. assert (bit = len - 1) by lia. subst bit.
    rewrite Z.div_small in E by (pose proof sv_nonneg; lia). now rewrite <- E.
  - intros i Hi. destruct (V10 i Hi); lia.
Qed.

(** The word read at [bit]: odd after the carry is added, and split into a
    digit and the next carry. *)
Lemma wnaf_word bit carry now : 0 <= bit < len -> 0 <= carry <= 1 -> now = Z.min w (len - bit) ->
  sc_get_bits s bit 1 <> carry ->
  let v := (sv s / 2 ^ bit) mod 2 ^ now in let word := v + carry in
  let c' := (word >> (w - 1)) .& 1 in let d := word - (c' << w) in
  sc_get_bits_var s bit now = v /\ 0 <= c' <= 1 /\ d mod 2 = 1 /\ Z.abs d < 2 ^ (w - 1) /\
  (now < w -> c' = 0) /\ (bit + now = len -> c' = 0) /\ d = v + carry - c' * 2 ^ w.
Proof.
  intros Hb Hc Hn Hne v word c' d. pose proof sv_nonneg as Hp.
  rewrite sc_get_bits_ok in Hne; try assumption; try lia; [| now replace (bit + 1 - 1) with bit by lia].
  assert (Hv : 0 <= v < 2 ^ now) by (apply Z.mod_pos_bound; lia).
  assert (P1 : 2 ^ now = 2 * 2 ^ (now - 1)) by (rewrite <- Z.pow_succ_r by lia; f_equal; lia).
  assert (Pw : 2 ^ w = 2 * 2 ^ (w - 1)) by (rewrite <- Z.pow_succ_r by lia; f_equal; lia).
  assert (Pn : 2 ^ now <= 2 ^ w) by (apply Z.pow_le_mono_r; lia).
  assert (Hm : v mod 2 = (sv s / 2 ^ bit) mod 2).
  { unfold v. rewrite P1. apply Z.mod_mod_divide. exists (2 ^ (now - 1)). lia. }
  rewrite Z.pow_1_r in Hne. pose proof (Z.mod_pos_bound (sv s / 2 ^ bit) 2 ltac:(lia)) as Hbit.
  pose proof (Z.div_mod v 2 ltac:(lia)) as Dv.
  assert (Hwd : 0 < word < 2 ^ now /\ word mod 2 = 1).
  { unfold word. assert (carry = 1 - v mod 2) by lia.
    split; [lia |]. symmetry. apply (mod_of_reduced _ _ (v / 2)); lia. }
  destruct Hwd as [Hwd Hodd].
  assert (Ec : c' = word / 2 ^ (w - 1)).
  { change (Z.land (word >> (w - 1)) (Z.ones 1) = word / 2 ^ (w - 1)).
    rewrite Z.land_ones, Z.shiftr_div_pow2 by lia. apply Z.mod_small. split; [apply Z.div_pos; lia | apply Z.div_lt_upper_bound; lia]. }
  pose proof (Z.div_mod word (2 ^ (w - 1)) ltac:(lia)) as Dw.
  pose proof (Z.mod_pos_bound word (2 ^ (w - 1)) ltac:(lia)) as Bw.
  assert (Bc : 0 <= c' <= 1).
  { rewrite Ec. split; [apply Z.div_pos; lia |]. apply Z.lt_succ_r, Z.div_lt_upper_bound; lia. }
  assert (Ed : d = v + carry - c' * 2 ^ w) by (unfold d, word; rewrite Z.shiftl_mul_pow2 by lia; reflexivity).
  assert (Pw2 : 2 ^ (w - 1) = 2 * 2 ^ (w - 2)) by (rewrite <- Z.pow_succ_r by lia; f_equal; lia).
  split; [unfold v; apply sc_get_bits_var_ok; try assumption; lia |]. split; [exact Bc |].
  split; [| split; [| split; [| split]]].
  - rewrite Ed. fold word. rewrite <- Hodd. apply (mod_eq_of _ _ (- c' * 2 ^ (w - 1))); lia.
  - rewrite Ed. fold word. rewrite <- Ec in Dw.
    assert (word mod 2 ^ (w - 1) <> 0).
    { intros Z. rewrite Z, Pw2 in Dw. rewrite Dw in Hodd.
      replace (2 * 2 ^ (w - 2) * c' + 0) with (2 ^ (w - 2) * c' * 2) in Hodd by ring. now rewrite Z.mod_mul in Hodd by lia. }
    assert (c' = 0 \/ c' = 1) as [C | C] by lia; rewrite C in *; lia.
  - intros Hlt. assert (2 ^ now <= 2 ^ (w - 1)) by (apply Z.pow_le_mono_r; lia).
    rewrite Ec. apply Z.div_small. lia.
  - intros Hend. destruct (Z.lt_ge_cases now w) as [Hlt | Hge].
    + assert (2 ^ now <= 2 ^ (w - 1)) by (apply Z.pow_le_mono_r; lia). rewrite Ec. apply Z.div_small. lia.
    + assert (now = w) as -> by lia. rewrite Ec. apply Z.div_small.
      assert (sv s / 2 ^ bit < 2 ^ (w - 1)).
      { apply Z.div_lt_upper_bound; [lia |]. rewrite <- Z.pow_add_r by lia. replace (bit + (w - 1)) with (len - 1) by lia. exact Hsmall. }
      assert (v <= sv s / 2 ^ bit) by (apply Z.mod_le; [apply Z.div_pos; lia | lia]).
      unfold word in *. split; [lia |]. destruct (Z.eq_dec carry 1); [| lia].
      assert (v mod 2 = 0) by lia. lia.
  - exact Ed.
Qed.

Lemma wnaf_set wnaf bit carry last now d c' : 0 <= bit < len -> 0 < now <= len - bit ->
  now = w \/ c' = 0 /\ bit + now = len -> 0 <= c' <= 1 -> d mod 2 = 1 -> Z.abs d < 2 ^ (w - 1) ->
  (bit + now = len -> c' = 0) -> d = (sv s / 2 ^ bit) mod 2 ^ now + carry - c' * 2 ^ w ->
  wnaf_inv wnaf bit carry last -> wnaf_inv (upd (Z.to_nat bit) (sign * d) wnaf) (bit + now) c' bit.
Proof.
  intros Hb Hnow Hcase Hc' Hodd Habs Htop Ed V. destruct V as [V1 V2 V3 V4 V5 V6 [V7 V8] V9 V10 V11].
  pose proof (low_bits bit now ltac:(lia) ltac:(lia)) as Lb.
  assert (Hne : forall i, i <> Z.to_nat bit -> nth i (upd (Z.to_nat bit) (sign * d) wnaf) 0 = nth i wnaf 0)
    by (intros; apply nth_upd_neq; congruence).
  constructor.
  - now rewrite length_upd.
  - lia.
  - lia.
  - rewrite digits_sum_upd by lia. rewrite V4, V5, Lb, Z2Nat.id, Z.pow_add_r by lia.
    destruct Hcase as [-> | [-> _]]; rewrite Ed; ring.
  - intros i Hi. rewrite Hne by lia. apply V5. lia.
  - intros i. destruct (Nat.eq_dec i (Z.to_nat bit)) as [-> | Hi]; [| rewrite Hne by assumption; apply V6].
    rewrite nth_upd_eq by lia. right. split; [| destruct Hsign as [-> | ->]; lia].
    destruct Hsign as [-> | ->]; [now rewrite Z.mul_1_l |].
    rewrite <- Hodd. apply (mod_eq_of _ _ (- d)); lia.
  - split; [lia |]. intros i Hi. rewrite Hne by lia. apply V5. lia.
  - exact Htop.
  - intros i Hi. destruct (Nat.eq_dec i (Z.to_nat bit)) as [-> | N]; [lia |].
    rewrite Hne in Hi by exact N. destruct (V10 i Hi); lia.
  - intros i j Hij Hi Hj. destruct (Nat.eq_dec i (Z.to_nat bit)) as [-> | Ni].
    + rewrite Hne in Hj by lia. now rewrite V5 in Hj by lia.
    + rewrite Hne in Hi by exact Ni. destruct (Nat.eq_dec j (Z.to_nat bit)) as [-> | Nj].
      * destruct (V10 i Hi); lia.
      * rewrite Hne in Hj by exact Nj. now apply V11.
Qed.

Lemma wnaf_loop_ok fuel : forall wnaf bit carry last, len - bit <= Z.of_nat fuel ->
  wnaf_inv wnaf bit carry last ->
  let r := wnaf_loop fuel s len w sign wnaf bit carry last in
  wnaf_inv (fst r) len 0 (snd r).
Proof.
  induction fuel as [| fuel IH]; intros wnaf bit carry last Hf V; cbn [wnaf_loop].
  - pose proof (inv_bit _ _ _ _ V). assert (bit = len) by lia. subst bit. cbn [fst snd].
    now rewrite <- (inv_top _ _ _ _ V eq_refl).
  - pose proof (inv_bit _ _ _ _ V) as B. pose proof (inv_carry _ _ _ _ V) as Cr.
    destruct (Z.ltb_spec bit len) as [Hb | Hb].
    2: { assert (bit = len) by lia. subst bit. cbn [fst snd]. now rewrite <- (inv_top _ _ _ _ V eq_refl). }
    destruct (Z.eqb_spec (sc_get_bits s bit 1) carry) as [E | E].
    + apply IH; [lia |]. apply wnaf_skip; assumption.
    + cbv zeta. replace (if w >? len - bit then len - bit else w) with (Z.min w (len - bit)).
      2: { rewrite Z.gtb_ltb. destruct (Z.ltb_spec (len - bit) w); lia. }
      destruct (wnaf_word bit carry _ ltac:(lia) Cr eq_refl E) as (-> & W1 & W2 & W3 & W4 & W5 & W6).
      apply IH; [lia |].
      apply (wnaf_set _ _ carry last (Z.min w (len - bit))); try assumption; try lia.
Qed.
End Wnaf.

(** The integer of least absolute value that the digits stand for. *)
Definition signed (v : Z) : Z := v - (if 2 ^ 255 <=? v then secp_n else 0).

(** [n] and the sum of the digits differ by a multiple of the order: the digits
    are those of [n], or of [n - secp_n] when the top bit of [n] is set. *)
Definition wnaf_ok (len w : Z) (v : Z) (wnaf : list Z) (bits : Z) : Prop :=
  length wnaf = Z.to_nat len /\ 0 <= bits <= len /\
  digits_sum wnaf = signed v /\
  (forall i, wnaf_digit w (nth i wnaf 0)) /\
  (forall i, bits <= Z.of_nat i -> nth i wnaf 0 = 0) /\
  (forall i j, (i < j)%nat -> nth i wnaf 0 <> 0 -> nth j wnaf 0 <> 0 -> Z.of_nat i + w <= Z.of_nat j).

Lemma ecmult_wnaf_ok {J : ScalarImpl} {L : ScalarLaws J} a w len : sok a -> 2 <= w < 32 ->
  0 < len <= 256 -> Z.abs (signed (sv a)) < 2 ^ (len - 1) ->
  wnaf_ok len w (sv a) (fst (secp256k1_ecmult_wnaf len a w)) (snd (secp256k1_ecmult_wnaf len a w)).
Proof.
  intros Ha Hw Hlen Hfit. unfold signed in *. pose proof (sv_range _ Ha) as Ra. pose proof (sc_negate_ok _ Ha) as [Hn1 Hn2].
  assert (E255 : sc_get_bits a 255 1 = b2z (2 ^ 255 <=? sv a)).
  { rewrite sc_get_bits_ok by (assumption || lia || reflexivity).
    assert (secp_n < 2 ^ 256) by reflexivity. pose proof (Z.pow_succ_r 2 255 ltac:(lia)) as P. change (Z.succ 255) with 256 in P.
    destruct (Z.leb_spec (2 ^ 255) (sv a)); cbn [b2z].
    - rewrite <- (Z.div_unique (sv a) (2 ^ 255) 1 (sv a - 2 ^ 255)); [reflexivity | lia | lia].
    - now rewrite Z.div_small by lia. }
  assert (Small : 2 ^ 255 <= sv a -> sv (sc_negate a) = secp_n - sv a /\ 0 < secp_n - sv a).
  { intros Hb. assert (secp_n - 2 ^ 255 < 2 ^ 255) by reflexivity.
    assert (E : sv (sc_negate a) = secp_n - sv a); [| lia].
    rewrite Hn2. symmetry. apply (mod_of_reduced _ _ (-1)); lia. }
  unfold secp256k1_ecmult_wnaf. rewrite E255.
  assert (Run : forall s sign, sok s -> sign = 1 \/ sign = -1 -> sv s < 2 ^ (len - 1) ->
    sign * sv s = sv a - (if 2 ^ 255 <=? sv a then secp_n else 0) ->
    let r := wnaf_loop (Z.to_nat len) s len w sign (repeat 0 (Z.to_nat len)) 0 0 (-1) in
    wnaf_ok len w (sv a) (fst r) (snd r + 1)).
  { intros s sign Hs Hsg Hsm Ev r.
    assert (V : wnaf_inv s len w sign (fst r) len 0 (snd r)).
    { apply wnaf_loop_ok; try assumption; try lia. constructor.
      - now rewrite repeat_length.
      - lia.
      - lia.
      - rewrite digits_sum_repeat, Z.pow_0_r, Z.mod_1_r. lia.
      - intros. apply nth_repeat_0.
      - intros. left. apply nth_repeat_0.
      - split; [lia |]. intros. apply nth_repeat_0.
      - lia.
      - intros i N. now rewrite nth_repeat_0 in N.
      - intros i j _ N. now rewrite nth_repeat_0 in N. }
    destruct V as [V1 V2 V3 V4 V5 V6 [V7 V8] V9 V10 V11].
    split; [exact V1 |]. split; [lia |]. split; [| split; [exact V6 | split; [intros; apply V8; lia | exact V11]]].
    unfold signed. rewrite V4, <- Ev. pose proof (sv_range _ Hs). rewrite Z.mod_small; [ring |].
    assert (2 ^ (len - 1) <= 2 ^ len) by (apply Z.pow_le_mono_r; lia). lia. }
  destruct (Z.leb_spec (2 ^ 255) (sv a)) as [Hb | Hb]; cbn [b2z]; rewrite ?b2z_z2b; cbn [z2b].
  - destruct (Small Hb) as [S1 S2]. specialize (Run (sc_negate a) (-1) Hn1 ltac:(auto) ltac:(lia) ltac:(lia)).
    cbv zeta in Run |- *. destruct (wnaf_loop _ _ _ _ _ _ _ _ _). exact Run.
  - specialize (Run a 1 Ha ltac:(auto) ltac:(lia) ltac:(lia)).
    cbv zeta in Run |- *. destruct (wnaf_loop _ _ _ _ _ _ _ _ _). exact Run.
Qed.

(** 256 digits are always enough. *)
Lemma ecmult_wnaf_256 {J : ScalarImpl} {L : ScalarLaws J} a w : sok a -> 2 <= w < 32 ->
  wnaf_ok 256 w (sv a) (fst (secp256k1_ecmult_wnaf 256 a w)) (snd (secp256k1_ecmult_wnaf 256 a w)).
Proof.
  intros Ha Hw. pose proof (sv_range _ Ha). apply ecmult_wnaf_ok; try assumption; [lia |].
  unfold signed. change (256 - 1) with 255. assert (secp_n - 2 ^ 255 < 2 ^ 255) by reflexivity. destruct (Z.leb_spec (2 ^ 255) (sv a)); lia.
Qed.
