(* ===== verification/EcmultTable.v ===== *)
(** The tables of odd multiples: entry [i] is [(2 i + 1) A].

    The code adds on the curve whose points are scaled by the [z] of [2 A], so
    that [2 A] is affine there, and corrects only the last [z].  The proof
    follows it with [pscale]. *)

From Stdlib Require Import ZArith Lia List Bool Zmod Field.
From S2P Require Import Prelude Limbs Primes Fp Curve CurveGroup FieldSpec FieldGen.
From S2P Require Import Group GroupSpec GroupOps GOrder Cofactor GroupTable ScalarSpec ScalarGen Ecmult.
Import ListNotations.
Open Scope Z_scope.

Lemma multiple_finite P k : secp P -> P <> Inf -> 0 < k < secp_n -> smul k P <> Inf.
Proof. intros S N Hk. apply small_multiple_finite; try assumption. now apply secp_order. Qed.

Lemma smul_secp k P : secp P -> secp (smul k P).
Proof. intros S. now apply smul_on_curve. Qed.

Section OddMultiples.
Context {I : FieldImpl} {L : FieldLaws I}.

Lemma clear_mem : gej_mem gej_clear_val.
Proof.
  pose proof (norm_mag _ (proj1 clear_ok)) as H. apply (mag_weaken 1 8) in H; [| lia].
  unfold gej_mem, gej_clear_val. cbn. auto.
Qed.

Lemma finite_flag r : gej_wf r -> gej_pt r <> Inf -> gej_infinity r = 0.
Proof.
  intros W N. unfold gej_pt in N. destruct (z2b (gej_infinity r)) eqn:E; [congruence |].
  apply z2b_0; [apply W | exact E].
Qed.

Lemma pscale_finite u P : P <> Inf -> pscale u P <> Inf.
Proof. destruct P; [congruence | discriminate]. Qed.

(** ** The loop, on the scaled curve *)

Section Loop.
Variables (u : F) (A : point) (d_ge : ge).
Hypothesis Hu : u <> 0%F.
Hypothesis SA : secp A.
Hypothesis NA : A <> Inf.
Hypothesis Wd : ge_wf d_ge.
Hypothesis Pd : ge_pt d_ge = pscale u (smul 2 A).

Definition odd_entry (i : nat) (p : gej) : Prop :=
  gej_wf p /\ gej_infinity p = 0 /\ gej_pt p = pscale u (smul (2 * Z.of_nat i + 1) A).

Definition zr_entry (prej : list gej) (zr : list fe) (i : nat) : Prop :=
  mag 8 (nth_fe zr (S i)) /\ fv (gej_z (nth_gej prej (S i))) = (fv (nth_fe zr (S i)) * fv (gej_z (nth_gej prej i)))%F.

Lemma scaled_y_nz P : secp P -> y_nz (pscale u P).
Proof.
  intros S. destruct P as [| x y]; [exact Logic.I |]. cbn [pscale y_nz]. apply F_mul_nz; [now apply secp_y_nz in S | now apply u3_nz].
Qed.

Lemma odd_step r i p z : odd_entry i p -> gej_mem r -> 2 * Z.of_nat (S i) + 1 < secp_n ->
  let q := secp256k1_gej_add_ge_var r p d_ge (Some z) in
  odd_entry (S i) (fst q) /\ rzr_ok p (fst q) (snd q).
Proof.
  intros (W & E & P) Hr Hn q. set (k := 2 * Z.of_nat i + 1) in *.
  assert (S1 : secp (smul k A)) by now apply smul_secp.
  assert (S2 : secp (smul 2 A)) by now apply smul_secp.
  destruct (gej_add_ge_var_ok (curve_b * u ^ 6) r p d_ge (Some z)) as (Wq & Pq & Rq); try assumption.
  - congruence.
  - rewrite P. now apply scaled_y_nz.
  - rewrite P. now apply pscale_on_curve.
  - rewrite Pd. now apply pscale_on_curve.
  - fold q in Wq, Pq, Rq.
    rewrite P, Pd, <- pscale_padd, <- (smul_add curve_b curve_b_nz) in Pq by assumption.
    replace (k + 2) with (2 * Z.of_nat (S i) + 1) in Pq by lia.
    assert (F0 : gej_infinity (fst q) = 0).
    { apply finite_flag; [exact Wq |]. rewrite Pq. apply pscale_finite, multiple_finite; try assumption. lia. }
    split; [exact (conj Wq (conj F0 Pq)) | exact (Rq F0)].
Qed.

Lemma odd_loop k : forall i prej zr, (0 < i)%nat -> length prej = (i + k)%nat -> length zr = (i + k)%nat ->
  2 * Z.of_nat (i + k) < secp_n -> (forall j, (i <= j)%nat -> gej_mem (nth_gej prej j)) ->
  (forall j, (j < i)%nat -> odd_entry j (nth_gej prej j)) -> (forall j, (S j < i)%nat -> zr_entry prej zr j) ->
  let r := odd_multiples_loop prej zr d_ge i k in
  length (fst r) = (i + k)%nat /\ length (snd r) = (i + k)%nat /\
  (forall j, (j < i + k)%nat -> odd_entry j (nth_gej (fst r) j)) /\
  (forall j, (S j < i + k)%nat -> zr_entry (fst r) (snd r) j).
Proof.
  induction k as [| k IH]; intros i prej zr Hi Hl Hz Hn Hm He Hr; cbn [odd_multiples_loop fst snd].
  { rewrite Nat.add_0_r in *. auto. }
  destruct i as [| i]; [lia |]. replace (S i - 1)%nat with i by lia.
  destruct (odd_step (nth_gej prej (S i)) i (nth_gej prej i) (nth_fe zr (S i))) as [E R]; [apply He; lia | apply Hm; lia | lia |].
  destruct (secp256k1_gej_add_ge_var _ _ _ _) as [p z] eqn:Ep. cbn [fst snd] in E, R.
  assert (exists v, z = Some v) as [v ->].
  { destruct z as [v |]; [now exists v |]. exfalso. revert Ep. unfold secp256k1_gej_add_ge_var.
    destruct (He i ltac:(lia)) as (_ & -> & _). cbn [z2b Z.eqb negb].
    destruct (z2b (ge_infinity d_ge)); [discriminate |]. cbv zeta.
    destruct (z2b _); [destruct (z2b _) |]; cbn; try discriminate.
    unfold secp256k1_gej_double_var. destruct (He i ltac:(lia)) as (_ & -> & _). discriminate. }
  replace (S i + S k)%nat with (S (S i) + k)%nat in * by lia. unfold nth_gej, nth_fe in *.
  apply IH; try (rewrite length_upd; lia); try lia.
  - intros j Hj. unfold nth_gej. rewrite nth_upd_neq by lia. apply Hm. lia.
  - intros j Hj. unfold nth_gej. destruct (Nat.eq_dec j (S i)) as [-> | N].
    + now rewrite nth_upd_eq by lia.
    + rewrite nth_upd_neq by lia. apply He. lia.
  - intros j Hj. unfold zr_entry, nth_gej, nth_fe. rewrite (nth_upd_neq (S i) j) by lia.
    destruct (Nat.eq_dec j i) as [-> | N]; [now rewrite !nth_upd_eq by lia |].
    rewrite !nth_upd_neq by lia. apply Hr. lia.
Qed.
End Loop.

(** ** The table functions read [z] only in the last entry *)

Definition same_xy (p q : gej) : Prop :=
  gej_x p = gej_x q /\ gej_y p = gej_y q /\ gej_infinity p = gej_infinity q.

Lemma zinv_ext p q zi : same_xy p q -> secp256k1_ge_set_gej_zinv p zi = secp256k1_ge_set_gej_zinv q zi.
Proof. intros (Ex & Ey & Ei). unfold secp256k1_ge_set_gej_zinv. now rewrite Ex, Ey, Ei. Qed.

Section Ext.
Variables (a b : list gej) (zr : list fe).
Hypothesis Hl : length a = length b.
Hypothesis Hxy : forall j, (j < length a)%nat -> same_xy (nth_gej a j) (nth_gej b j).
Hypothesis Hlast : nth_gej a (length a - 1) = nth_gej b (length a - 1).

Lemma table_loop_ext i : (i <= length a)%nat -> forall r zi, table_gej_loop r a zr zi i = table_gej_loop r b zr zi i.
Proof.
  induction i as [| i IH]; intros Hi r zi; cbn [table_gej_loop]; [reflexivity |].
  cbv zeta. rewrite (zinv_ext _ _ _ (Hxy i ltac:(lia))). apply IH. lia.
Qed.

Lemma globalz_loop_ext n i : (i <= length a)%nat -> forall r zs, globalz_loop n r a zr zs i = globalz_loop n r b zr zs i.
Proof.
  induction i as [| i IH]; intros Hi r zs; cbn [globalz_loop]; [reflexivity |].
  cbv zeta. rewrite (zinv_ext _ _ _ (Hxy i ltac:(lia))). apply IH. lia.
Qed.

Lemma set_table_ext r : secp256k1_ge_set_table_gej_var r a zr = secp256k1_ge_set_table_gej_var r b zr.
Proof.
  pose proof (table_loop_ext (length a - 1) ltac:(lia)) as T. pose proof Hlast as HL.
  unfold secp256k1_ge_set_table_gej_var. rewrite <- Hl. destruct (length a) as [| n] eqn:E; [reflexivity |].
  replace (S n - 1)%nat with n in * by lia. rewrite HL. apply T.
Qed.

Lemma globalz_ext r gz : secp256k1_ge_globalz_set_table_gej (length a) r gz a zr =
  secp256k1_ge_globalz_set_table_gej (length a) r gz b zr.
Proof.
  pose proof (globalz_loop_ext (length a) (length a - 1) ltac:(lia)) as T. pose proof Hlast as HL.
  unfold secp256k1_ge_globalz_set_table_gej. destruct (length a) as [| n] eqn:E; [reflexivity |].
  replace (S n - 1)%nat with n in * by lia. rewrite HL. f_equal. apply T.
Qed.
End Ext.

(** ** The whole table *)

(** An entry moved back from the scaled curve. *)
Definition unscale (dz : fe) (p : gej) : gej := Gej (gej_x p) (gej_y p) (fe_mul (gej_z p) dz) (gej_infinity p).

Lemma unscale_ok u dz p P : FeI dz 8 u -> u <> 0%F -> gej_wf p -> gej_infinity p = 0 -> gej_pt p = pscale u P ->
  gej_wf (unscale dz p) /\ gej_infinity (unscale dz p) = 0 /\ gej_pt (unscale dz p) = P /\
  fv (gej_z (unscale dz p)) = (fv (gej_z p) * u)%F.
Proof.
  intros Hd Hu W E Ep. destruct (gej_wf_mags p W) as (Hx & Hy & Hz). pose proof W as (_ & _ & _ & _ & Nz). specialize (Nz E).
  eassert (Hm : FeI (fe_mul (gej_z p) dz) _ _) by typeclasses eauto.
  destruct (gej_result (gej_x p) (gej_y p) (fe_mul (gej_z p) dz) _ _ _ _ _ _ Hx Hy Hm eq_refl) as [W' P']; [now apply F_mul_nz |].
  unfold unscale. rewrite E. split; [exact W' |]. split; [reflexivity |]. split; [| exact (proj2 Hm)].
  rewrite P'. unfold gej_pt in Ep. rewrite E in Ep. cbn [z2b Z.eqb negb] in Ep.
  destruct P as [| x y]; [discriminate |]. cbn [pscale] in Ep. apply aff_inj in Ep as [E1 E2]. f_equal.
  - transitivity (fv (gej_x p) / fv (gej_z p) ^ 2 / u ^ 2)%F; [field; auto |]. rewrite E1. field. auto.
  - transitivity (fv (gej_y p) / fv (gej_z p) ^ 3 / u ^ 3)%F; [field; auto |]. rewrite E2. field. auto.
Qed.

Section Table.
Variables (a : gej) (n : nat).
Hypothesis Wa : gej_wf a.
Hypothesis SA : secp (gej_pt a).
Hypothesis NA : gej_pt a <> Inf.
Hypothesis Hn : (0 < n)%nat.
Hypothesis Hn' : 2 * Z.of_nat n < secp_n.
Let d := fst (secp256k1_gej_double_var gej_clear_val a None).

Lemma double_entry : gej_wf d /\ fv (gej_z d) <> 0%F /\ FeI (gej_z d) 8 (fv (gej_z d)) /\
  ge_wf (Ge (gej_x d) (gej_y d) 0) /\ ge_pt (Ge (gej_x d) (gej_y d) 0) = pscale (fv (gej_z d)) (smul 2 (gej_pt a)).
Proof.
  destruct (gej_double_var_ok gej_clear_val a None clear_mem Wa (secp_y_nz_pt _ SA)) as (W & P & Z). fold d in W, P, Z.
  destruct (Z (finite_flag a Wa NA)) as [F0 _]. pose proof W as (_ & _ & _ & _ & Nz). specialize (Nz F0).
  destruct (gej_wf_mags d W) as (Hx & Hy & Hz).
  destruct (ge_result (Ge (gej_x d) (gej_y d) 0) _ _ _ _ Hx Hy eq_refl eq_refl) as [W' P'].
  split; [exact W |]. split; [exact Nz |]. split; [exact Hz |]. split; [exact W' |]. rewrite P'.
  assert (E2 : smul 2 (gej_pt a) = gej_pt d).
  { rewrite P. change 2 with (1 + 1). rewrite (smul_add curve_b curve_b_nz) by exact SA. reflexivity. }
  rewrite E2. unfold gej_pt. rewrite F0. cbn [z2b Z.eqb negb pscale]. f_equal; field; exact Nz.
Qed.

Lemma first_entry : let g := secp256k1_ge_set_gej_zinv a (gej_z d) in
  odd_entry (fv (gej_z d)) (gej_pt a) 0 (Gej (ge_x g) (ge_y g) (gej_z a) 0).
Proof.
  intros g. destruct double_entry as (_ & Nz & Hz & _ & _). pose proof (finite_flag a Wa NA) as F0.
  destruct (ge_set_gej_zinv_val a _ _ Wa Hz) as (Hx & Hy & _). fold g in Hx, Hy.
  pose proof Wa as (_ & _ & _ & _ & Na). specialize (Na F0). destruct (gej_wf_mags a Wa) as (_ & _ & Hza).
  destruct (gej_result _ _ _ _ _ _ _ _ _ Hx Hy Hza eq_refl Na) as [W P].
  split; [exact W |]. split; [reflexivity |]. rewrite P. change (smul (2 * Z.of_nat 0 + 1) (gej_pt a)) with (gej_pt a).
  unfold gej_pt. rewrite F0. cbn [z2b Z.eqb negb pscale]. f_equal; field; exact Na.
Qed.

Lemma new_gej_mem k j : gej_mem (nth_gej (new_gej k) j).
Proof.
  unfold nth_gej, new_gej. revert j. induction k as [| k IH]; intros [| j]; cbn [repeat nth]; try apply clear_mem. apply IH.
Qed.

(** The code's arrays agree, as far as they are read, with a table of the odd
    multiples of the point. *)
Lemma odd_multiples_ok :
  let r := secp256k1_ecmult_odd_multiples_table n (new_gej n) (new_fe n) a in
  exists t, length t = n /\ length (fst r) = n /\ table_ok t (snd r) /\
    (forall j, (j < n)%nat -> gej_pt (nth_gej t j) = smul (2 * Z.of_nat j + 1) (gej_pt a)) /\
    (forall j, (j < n)%nat -> same_xy (nth_gej (fst r) j) (nth_gej t j)) /\
    nth_gej (fst r) (n - 1) = nth_gej t (n - 1).
Proof.
  intros r. unfold r, secp256k1_ecmult_odd_multiples_table. fold d. cbv zeta.
  destruct double_entry as (_ & Nz & Hz & Wd & Pd). set (dg := Ge _ _ 0) in *.
  pose proof first_entry as E0. cbv zeta in E0. set (p0 := Gej _ _ _ 0) in *.
  destruct (odd_loop (fv (gej_z d)) (gej_pt a) dg Nz SA NA Wd Pd (n - 1) 1 (upd 0 p0 (new_gej n)) (upd 0 (gej_z d) (new_fe n)))
    as (L1 & L2 & HE & HZ); try (rewrite length_upd; unfold new_gej, new_fe; rewrite repeat_length; lia); try lia.
  { intros j Hj. unfold nth_gej. rewrite nth_upd_neq by lia. apply new_gej_mem. }
  { intros j Hj. assert (j = 0)%nat as -> by lia. unfold nth_gej. rewrite nth_upd_eq; [exact E0 |].
    unfold new_gej. rewrite repeat_length. lia. }
  replace (1 + (n - 1))%nat with n in * by lia. destruct (odd_multiples_loop _ _ _ _ _) as [pj z]. cbn [fst snd] in *.
  assert (U : forall j, (j < n)%nat -> nth_gej (map (unscale (gej_z d)) pj) j = unscale (gej_z d) (nth_gej pj j)).
  { intros j Hj. unfold nth_gej. rewrite (nth_indep _ _ (unscale (gej_z d) gej_clear_val)) by (rewrite length_map; lia). apply map_nth. }
  assert (T : forall j, (j < n)%nat -> _) by (intros j Hj; destruct (HE j Hj) as (W & F0 & P); exact (unscale_ok _ _ _ _ Hz Nz W F0 P)).
  exists (map (unscale (gej_z d)) pj). rewrite length_map, length_upd. split; [exact L1 |]. split; [exact L1 |].
  split; [| split; [| split]].
  - split; rewrite length_map, L1; intros j Hj; rewrite !U by lia.
    + destruct (T j Hj) as (W & F0 & _). now split.
    + destruct (T j ltac:(lia)) as (_ & _ & _ & Z1), (T (S j) Hj) as (_ & _ & _ & Z2). destruct (HZ j Hj) as [M Q].
      split; [exact M |]. rewrite Z1, Z2, Q. ring.
  - intros j Hj. rewrite U by exact Hj. apply T, Hj.
  - intros j Hj. rewrite U by exact Hj. unfold nth_gej. destruct (Nat.eq_dec j (n - 1)) as [-> | N].
    + rewrite nth_upd_eq by lia. now repeat split.
    + rewrite nth_upd_neq by lia. now repeat split.
  - rewrite U by lia. unfold nth_gej. now rewrite nth_upd_eq by lia.
Qed.
End Table.
End OddMultiples.
