(* ===== verification/EcmultSpec.v ===== *)
(** Multiplication [na * A + ng * G] is the group's, whatever the scalars. *)

From Stdlib Require Import ZArith Lia List Bool Zmod Field.
From S2P Require Import Prelude Limbs Primes Fp Curve CurveGroup FieldSpec FieldGen.
From S2P Require Import Group GroupSpec GroupOps GOrder Cofactor GroupTable ScalarSpec ScalarGen Ecmult EcmultWnaf EcmultTable.
Import ListNotations.
Open Scope Z_scope.

Section Mult.
Context {I : FieldImpl} {L : FieldLaws I} {J : ScalarImpl} {M : ScalarLaws J}.

(** * The tables *)

(** Entry [j] is [(2 j + 1) P], scaled by [u]. *)
Definition pre_ok (u : F) (P : point) (n : nat) (pre : list ge) : Prop :=
  forall j, (j < n)%nat -> ge_wf (nth_ge pre j) /\ ge_infinity (nth_ge pre j) = 0 /\
    ge_pt (nth_ge pre j) = pscale u (smul (2 * Z.of_nat j + 1) P).

Definition pre_storage_ok (P : point) (n : nat) (pre : list ge_storage) : Prop :=
  length pre = n /\ forall j, (j < n)%nat -> let g := secp256k1_ge_from_storage (nth_ges pre j) in
    ge_wf g /\ ge_pt g = smul (2 * Z.of_nat j + 1) P.

Lemma globalz_windowa_ok a : gej_wf a -> secp (gej_pt a) -> gej_pt a <> Inf ->
  let p := secp256k1_ecmult_odd_multiples_table_globalz_windowa a in
  FeI (snd p) 8 (fv (snd p)) /\ fv (snd p) <> 0%F /\
  pre_ok (fv (snd p)) (gej_pt a) (ECMULT_TABLE_SIZE WINDOW_A) (fst p) /\ length (fst p) = ECMULT_TABLE_SIZE WINDOW_A.
Proof.
  intros W S N p. set (n := ECMULT_TABLE_SIZE WINDOW_A). assert (Hn : (0 < n)%nat) by (cbv; lia).
  destruct (odd_multiples_ok a n W S N Hn) as (t & Lt & Lr & HT & HP & Hxy & Hl); [reflexivity |].
  unfold p, secp256k1_ecmult_odd_multiples_table_globalz_windowa. fold n. cbv zeta.
  destruct (secp256k1_ecmult_odd_multiples_table _ _ _ a) as [pj zr]. cbn [fst snd] in *.
  rewrite <- Lr in Hxy, Hl. pose proof (globalz_ext pj t zr (eq_trans Lr (eq_sym Lt)) Hxy Hl (new_ge n) fe_clear) as X.
  rewrite Lr in X. rewrite X, <- Lt. clear X.
  destruct (ge_globalz_ok t zr HT (new_ge (length t)) fe_clear) as (Lg & E & HO); [apply repeat_length | lia |].
  destruct (secp256k1_ge_globalz_set_table_gej _ _ _ _ _) as [pre z]. cbn [fst snd] in *. subst z.
  destruct (proj1 HT (length t - 1)%nat) as [Wl El]; [lia |]. destruct (gej_wf_mags _ Wl) as (_ & _ & Hz).
  split; [exact Hz |]. assert (Nz : fv (gej_z (nth_gej t (length t - 1))) <> 0%F) by now apply Wl.
  split; [exact Nz |]. split; [| lia]. intros j Hj. destruct (HO j ltac:(lia)) as (Wg & Eg & Pg). split; [exact Wg |]. split; [exact Eg |].
  rewrite <- (HP j ltac:(lia)), <- Pg. unfold ge_pt. rewrite Eg. cbn [z2b Z.eqb negb pscale]. f_equal; field; exact Nz.
Qed.

Lemma storage_var_ok a n : gej_wf a -> secp (gej_pt a) -> gej_pt a <> Inf -> (0 < n)%nat -> 2 * Z.of_nat n < secp_n ->
  pre_storage_ok (gej_pt a) n (secp256k1_ecmult_odd_multiples_table_storage_var n a).
Proof.
  intros W S N Hn Hb. destruct (odd_multiples_ok a n W S N Hn Hb) as (t & Lt & Lr & HT & HP & Hxy & Hl).
  unfold secp256k1_ecmult_odd_multiples_table_storage_var. cbv zeta.
  destruct (secp256k1_ecmult_odd_multiples_table _ _ _ a) as [pj zr]. cbn [fst snd] in *.
  rewrite <- Lr in Hxy, Hl. rewrite (set_table_ext pj t zr (eq_trans Lr (eq_sym Lt)) Hxy Hl).
  destruct (ge_set_table_ok t zr HT (new_ge n)) as [Le He]; [rewrite Lt; apply repeat_length |].
  set (pre := secp256k1_ge_set_table_gej_var _ t zr) in *. split; [rewrite length_map; lia |]. intros j Hj.
  unfold nth_ges. rewrite (nth_indep _ _ (secp256k1_ge_to_storage (Ge fe_clear fe_clear 0))) by (rewrite length_map; lia).
  rewrite map_nth. fold (nth_ge pre j). destruct (He j ltac:(lia)) as [Wg Pg]. rewrite HP in Pg by exact Hj.
  assert (E : ge_infinity (nth_ge pre j) = 0).
  { apply z2b_0; [apply Wg |]. destruct (z2b _) eqn:E; [| reflexivity]. exfalso.
    apply (multiple_finite (gej_pt a) (2 * Z.of_nat j + 1)); try assumption; [lia |]. rewrite <- Pg. now apply ge_pt_inf. }
  destruct (ge_storage_ok _ Wg E) as (_ & _ & _ & _ & W' & P'). cbv zeta. split; [exact W' | congruence].
Qed.

(** * Table lookup by digit *)

Lemma digit_index w n d : wnaf_digit w d -> d <> 0 -> 2 <= w -> n = ECMULT_TABLE_SIZE w ->
  let j := Z.to_nat ((Z.abs d - 1) / 2) in (j < n)%nat /\ 2 * Z.of_nat j + 1 = Z.abs d.
Proof.
  intros [-> | [Ho Ha]] N Hw ->; [lia |]. cbv zeta.
  assert (Pw : 2 ^ (w - 1) = 2 * 2 ^ (w - 2)) by (rewrite <- Z.pow_succ_r by lia; f_equal; lia).
  assert (Hodd : Z.abs d = 2 * ((Z.abs d - 1) / 2) + 1).
  { assert (E : (Z.abs d - 1) mod 2 = 0).
    { apply Z.mod_divide; [lia |]. pose proof (Z.div_mod d 2 ltac:(lia)). rewrite Ho in *.
      destruct (Z.abs_eq_or_opp d) as [-> | ->]; [exists (d / 2); lia | exists (- (d / 2) - 1); lia]. }
    pose proof (Z.div_mod (Z.abs d - 1) 2 ltac:(lia)). lia. }
  unfold ECMULT_TABLE_SIZE. rewrite Z.shiftl_1_l. lia.
Qed.

Lemma smul_abs d P : smul d P = if d >? 0 then smul (Z.abs d) P else pneg (smul (Z.abs d) P).
Proof.
  rewrite Z.gtb_ltb. destruct (Z.ltb_spec 0 d); [now rewrite Z.abs_eq by lia |].
  rewrite Z.abs_neq, <- smul_opp by lia. f_equal. lia.
Qed.

Lemma table_get_ok u P w pre d : pre_ok u P (ECMULT_TABLE_SIZE w) pre -> wnaf_digit w d -> d <> 0 -> 2 <= w ->
  ge_wf (ECMULT_TABLE_GET_GE pre d) /\ ge_pt (ECMULT_TABLE_GET_GE pre d) = pscale u (smul d P).
Proof.
  intros H Hd N Hw. destruct (digit_index w _ d Hd N Hw eq_refl) as [Hj E]. destruct (H _ Hj) as (W & _ & Pt).
  rewrite E in Pt. rewrite (smul_abs d). unfold ECMULT_TABLE_GET_GE. rewrite Z.gtb_ltb in *. destruct (Z.ltb_spec 0 d).
  - rewrite Z.abs_eq in * by lia. auto.
  - rewrite (Z.abs_neq d) in * by lia. destruct (ge_neg_ok _ W) as [W' P']. split; [exact W' |].
    rewrite P', Pt. symmetry. apply pscale_pneg.
Qed.

Lemma table_get_storage_ok P w pre d : pre_storage_ok P (ECMULT_TABLE_SIZE w) pre -> wnaf_digit w d -> d <> 0 -> 2 <= w ->
  ge_wf (ECMULT_TABLE_GET_GE_STORAGE pre d) /\ ge_pt (ECMULT_TABLE_GET_GE_STORAGE pre d) = smul d P.
Proof.
  intros [_ H] Hd N Hw. destruct (digit_index w _ d Hd N Hw eq_refl) as [Hj E]. destruct (H _ Hj) as (W & Pt).
  rewrite E in Pt. rewrite (smul_abs d). unfold ECMULT_TABLE_GET_GE_STORAGE. rewrite Z.gtb_ltb in *. destruct (Z.ltb_spec 0 d).
  - rewrite Z.abs_eq in * by lia. auto.
  - rewrite (Z.abs_neq d) in * by lia. destruct (ge_neg_ok _ W) as [W' P']. split; [exact W' |]. now rewrite P', Pt.
Qed.

(** * The main loop *)

Lemma digits_sum_skipn l i : digits_sum (skipn i l) = nth i l 0 + 2 * digits_sum (skipn (S i) l).
Proof.
  unfold digits_sum. revert l. induction i as [| i IH]; intros [| h t]; try reflexivity.
  change (skipn (S i) (h :: t)) with (skipn i t). now rewrite IH.
Qed.

Lemma digits_sum_zero l : (forall i, nth i l 0 = 0) -> digits_sum l = 0.
Proof.
  unfold digits_sum. induction l as [| h t IH]; intros H; cbn [limbs_val]; [reflexivity |].
  rewrite (IH (fun i => H (S i))). pose proof (H 0%nat) as H0. cbn in H0. lia.
Qed.

Lemma digits_sum_end l i b : (forall j, b <= Z.of_nat j -> nth j l 0 = 0) -> b <= Z.of_nat i -> digits_sum (skipn i l) = 0.
Proof. intros H Hb. apply digits_sum_zero. intros j. rewrite nth_skipn. apply H. lia. Qed.

Lemma zinv_scaled g z : zinv_pt g z = pscale (fv z) (ge_pt g).
Proof. unfold zinv_pt, ge_pt. destruct (z2b (ge_infinity g)); reflexivity. Qed.

Lemma z2b_nz z : z2b z = true <-> z <> 0.
Proof. unfold z2b. destruct (Z.eqb_spec z 0); cbn; split; intros; congruence. Qed.

(** A point [P] is represented by [r] with coordinates scaled by [Zr]. *)
Section Scaled.
Variable Zr : fe.
Hypothesis HZ : FeI Zr 8 (fv Zr).
Hypothesis NZ : fv Zr <> 0%F.
Let c := (curve_b * fv Zr ^ 6)%F.

(** [r] stands for [P], scaled. *)
Definition acc_ok (r : gej) (P : point) : Prop := gej_wf r /\ secp P /\ gej_pt r = pscale (fv Zr) P.

Lemma acc_curve r P : acc_ok r P -> on_curve c (gej_pt r) /\ y_nz (gej_pt r).
Proof. intros (_ & S & ->). split; [now apply pscale_on_curve | now apply scaled_y_nz]. Qed.

Lemma acc_double r P : acc_ok r P -> acc_ok (fst (secp256k1_gej_double_var r r None)) (padd P P).
Proof.
  intros H. destruct (acc_curve r P H) as [O Y]. destruct H as (W & S & E).
  destruct (gej_double_var_ok r r None (gej_wf_mem _ W) W Y) as (W' & P' & _).
  split; [exact W' |]. split; [now apply padd_on_curve |]. rewrite P', E. symmetry. now apply pscale_padd.
Qed.

Lemma acc_add r P g Q : acc_ok r P -> ge_wf g -> secp Q -> ge_pt g = pscale (fv Zr) Q ->
  acc_ok (fst (secp256k1_gej_add_ge_var r r g None)) (padd P Q).
Proof.
  intros H Wg SQ Eg. destruct (acc_curve r P H) as [O Y]. destruct H as (W & S & E).
  destruct (gej_add_ge_var_ok c r r g None (gej_wf_mem _ W) W Wg) as (W' & P' & _); try assumption; [trivial | |].
  - rewrite Eg. now apply pscale_on_curve.
  - split; [exact W' |]. split; [now apply padd_on_curve |]. rewrite P', E, Eg. symmetry. now apply pscale_padd.
Qed.

Lemma acc_add_zinv r P g Q : acc_ok r P -> ge_wf g -> secp Q -> ge_pt g = Q ->
  acc_ok (secp256k1_gej_add_zinv_var r r g Zr) (padd P Q).
Proof.
  intros H Wg SQ Eg. destruct (acc_curve r P H) as [O Y]. destruct H as (W & S & E).
  assert (Ez : zinv_pt g Zr = pscale (fv Zr) Q) by now rewrite zinv_scaled, Eg.
  destruct (gej_add_zinv_var_ok c r r g Zr (gej_wf_mem _ W) W Wg (proj1 HZ)) as (W' & P'); try assumption.
  - rewrite Ez. now apply pscale_on_curve.
  - split; [exact W' |]. split; [now apply padd_on_curve |]. rewrite P', E, Ez. symmetry. now apply pscale_padd.
Qed.

(** The digits are below [bits], of width [w]. *)
Definition digits_ok (w : Z) (wnaf : list Z) (bits : Z) : Prop :=
  (forall i, wnaf_digit w (nth i wnaf 0)) /\ (forall i, bits <= Z.of_nat i -> nth i wnaf 0 = 0).

Lemma digits_cond w wnaf bits i : digits_ok w wnaf bits -> nth i wnaf 0 <> 0 -> (Z.of_nat i <? bits) && z2b (nth i wnaf 0) = true.
Proof.
  intros [_ H] N. rewrite (proj2 (z2b_nz _) N), andb_true_r. apply Z.ltb_lt.
  destruct (Z.lt_ge_cases (Z.of_nat i) bits) as [C | C]; [exact C | exfalso; now apply N, H].
Qed.

Lemma add_table_ok w pre wnaf bits i r P Q : acc_ok r P -> secp Q -> 2 <= w -> digits_ok w wnaf bits ->
  pre_ok (fv Zr) Q (ECMULT_TABLE_SIZE w) pre -> acc_ok (add_table pre wnaf bits i r) (padd P (smul (nth i wnaf 0) Q)).
Proof.
  intros H SQ Hw D HP. unfold add_table. cbv zeta. destruct (Z.eqb_spec (nth i wnaf 0) 0) as [E | N].
  - rewrite E. cbn [z2b Z.eqb negb smul]. rewrite andb_false_r, padd_inf_r. exact H.
  - rewrite (digits_cond w) by assumption. destruct (table_get_ok _ Q w pre _ HP (proj1 D i) N Hw) as [Wg Pg].
    apply acc_add; try assumption. now apply smul_secp.
Qed.

Lemma add_table_storage_ok w pre wnaf bits i r P Q : acc_ok r P -> secp Q -> 2 <= w -> digits_ok w wnaf bits ->
  pre_storage_ok Q (ECMULT_TABLE_SIZE w) pre -> acc_ok (add_table_storage pre Zr wnaf bits i r) (padd P (smul (nth i wnaf 0) Q)).
Proof.
  intros H SQ Hw D HP. unfold add_table_storage. cbv zeta. destruct (Z.eqb_spec (nth i wnaf 0) 0) as [E | N].
  - rewrite E. cbn [z2b Z.eqb negb smul]. rewrite andb_false_r, padd_inf_r. exact H.
  - rewrite (digits_cond w) by assumption. destruct (table_get_storage_ok Q w pre _ HP (proj1 D i) N Hw) as [Wg Pg].
    apply acc_add_zinv; try assumption. now apply smul_secp.
Qed.
End Scaled.

(** The combination a step adds to twice the accumulator. *)
Definition comb (A : point) (x y : Z) : point := padd (smul x A) (smul y G).

Lemma comb_secp A x y : secp A -> secp (comb A x y).
Proof. intros SA. apply padd_on_curve; [now apply smul_secp | apply G_multiple]. Qed.

Lemma comb_add A x y d e : secp A -> padd (comb A x y) (comb A d e) = comb A (x + d) (y + e).
Proof.
  intros SA. assert (Sk : forall k, on_curve curve_b (smul k A)) by (intros k; now apply smul_secp).
  assert (Sg : forall k, on_curve curve_b (smul k G)) by exact G_multiple. unfold comb.
  rewrite (padd_swap curve_b curve_b_nz) by (auto using padd_on_curve).
  now rewrite <- !(smul_add curve_b curve_b_nz) by (exact SA || exact G_on_curve).
Qed.

Lemma comb_left A d : comb A d 0 = smul d A.
Proof. unfold comb. cbn [smul]. apply padd_inf_r. Qed.

Lemma comb_right A e : comb A 0 e = smul e G.
Proof. reflexivity. Qed.

Section Loop.
Variables (pre_a : list ge) (Zr : fe) (pre_g : list ge_storage) (A : point).
Variables (wnaf_na wnaf_ng : list Z) (bits_na bits_ng : Z).
Hypothesis SA : secp A.
Hypothesis HZ : FeI Zr 8 (fv Zr).
Hypothesis NZ : fv Zr <> 0%F.
Hypothesis HA : pre_ok (fv Zr) A (ECMULT_TABLE_SIZE WINDOW_A) pre_a.
Hypothesis HG : pre_storage_ok G (ECMULT_TABLE_SIZE WINDOW_G) pre_g.
Hypothesis Dna : digits_ok WINDOW_A wnaf_na bits_na.
Hypothesis Dng : digits_ok WINDOW_G wnaf_ng bits_ng.

Lemma ecmult_step_ok r i x y : acc_ok Zr r (comb A x y) ->
  acc_ok Zr (ecmult_step pre_a Zr pre_g wnaf_na bits_na wnaf_ng bits_ng r i)
    (comb A (nth i wnaf_na 0 + 2 * x) (nth i wnaf_ng 0 + 2 * y)).
Proof.
  intros H. apply (acc_double Zr NZ) in H.
  apply (add_table_ok Zr NZ WINDOW_A pre_a wnaf_na bits_na i _ _ A) in H; try assumption; [| discriminate].
  apply (add_table_storage_ok Zr HZ NZ WINDOW_G pre_g wnaf_ng bits_ng i _ _ G) in H; try assumption; [| exact G_on_curve | discriminate].
  rewrite <- (comb_left A), <- (comb_right A), !comb_add in H by exact SA.
  replace (nth i wnaf_na 0 + 2 * x) with (x + x + nth i wnaf_na 0 + 0) by ring.
  replace (nth i wnaf_ng 0 + 2 * y) with (y + y + 0 + nth i wnaf_ng 0) by ring. exact H.
Qed.

Lemma ecmult_loop_ok i : forall r,
  acc_ok Zr r (comb A (digits_sum (skipn i wnaf_na)) (digits_sum (skipn i wnaf_ng))) ->
  acc_ok Zr (ecmult_loop pre_a Zr pre_g wnaf_na bits_na wnaf_ng bits_ng r i) (comb A (digits_sum wnaf_na) (digits_sum wnaf_ng)).
Proof.
  induction i as [| i IH]; intros r H; cbn [ecmult_loop]; [exact H |].
  apply IH. rewrite (digits_sum_skipn wnaf_na), (digits_sum_skipn wnaf_ng). now apply ecmult_step_ok.
Qed.
End Loop.

(** * The result *)

Lemma smul_signed v P : secp P -> smul (signed v) P = smul v P.
Proof.
  intros S. unfold signed. destruct (_ <=? _); [| now rewrite Z.sub_0_r].
  rewrite <- (smul_mod curve_b curve_b_nz secp_n P (v - secp_n)), <- (smul_mod curve_b curve_b_nz secp_n P v)
    by (discriminate || assumption || now apply secp_order).
  f_equal. apply (mod_eq_of _ _ (-1)); [discriminate | lia].
Qed.

Lemma acc_result r Zr P : FeI Zr 8 (fv Zr) -> fv Zr <> 0%F -> acc_ok Zr r P ->
  let q := if negb (z2b (gej_infinity r)) then Gej (gej_x r) (gej_y r) (fe_mul (gej_z r) Zr) (gej_infinity r) else r in
  gej_wf q /\ gej_pt q = P.
Proof.
  intros HZ NZ (W & S & E). destruct (z2b (gej_infinity r)) eqn:Ei; cbn [negb].
  - split; [exact W |]. rewrite (gej_pt_inf r Ei) in *. destruct P; [reflexivity | discriminate].
  - apply z2b_0 in Ei; [| apply W]. destruct (unscale_ok _ _ _ _ HZ NZ W Ei E) as (W' & _ & P' & _). now split.
Qed.

Lemma ecmult_ok pre_g a na ng : pre_storage_ok G (ECMULT_TABLE_SIZE WINDOW_G) pre_g ->
  gej_wf a -> secp (gej_pt a) -> gej_pt a <> Inf -> sok na -> sok ng ->
  gej_wf (secp256k1_ecmult pre_g a na ng) /\
  gej_pt (secp256k1_ecmult pre_g a na ng) = padd (smul (sv na) (gej_pt a)) (smul (sv ng) G).
Proof.
  intros HG W S N Hna Hng. unfold secp256k1_ecmult.
  pose proof (ecmult_wnaf_256 na WINDOW_A Hna ltac:(unfold WINDOW_A; lia)) as (L1 & B1 & S1 & D1 & Z1 & _).
  pose proof (ecmult_wnaf_256 ng WINDOW_G Hng ltac:(unfold WINDOW_G; lia)) as (L2 & B2 & S2 & D2 & Z2 & _).
  destruct (secp256k1_ecmult_wnaf 256 na WINDOW_A) as [wa ba], (secp256k1_ecmult_wnaf 256 ng WINDOW_G) as [wg bg].
  destruct (globalz_windowa_ok a W S N) as (HZ & NZ & HA & _).
  destruct (secp256k1_ecmult_odd_multiples_table_globalz_windowa a) as [pre_a Zr]. cbn [fst snd] in *. cbv zeta.
  replace (if bg >? ba then bg else ba) with (Z.max ba bg) by (rewrite Z.gtb_ltb; destruct (Z.ltb_spec ba bg); lia).
  destruct (acc_result (ecmult_loop pre_a Zr pre_g wa ba wg bg secp256k1_gej_set_infinity (Z.to_nat (Z.max ba bg))) Zr
    (comb (gej_pt a) (digits_sum wa) (digits_sum wg)) HZ NZ) as [Wr Pr].
  - apply ecmult_loop_ok; try assumption; try lia; try (split; assumption).
    rewrite (digits_sum_end wa _ ba Z1), (digits_sum_end wg _ bg Z2) by lia.
    destruct gej_set_infinity_ok as [Wi Pi]. split; [exact Wi |]. split; [exact Logic.I | exact Pi].
  - cbv zeta in Wr, Pr. split; [exact Wr |]. rewrite Pr. unfold comb.
    now rewrite S1, S2, !smul_signed by (exact S || exact G_on_curve).
Qed.

(** The table the context holds once built. *)
Lemma ecmult_context_ok : exists t,
  pre_g (secp256k1_ecmult_context_build secp256k1_ecmult_context_init) = Some t /\
  pre_storage_ok G (ECMULT_TABLE_SIZE WINDOW_G) t.
Proof.
  eexists. split; [reflexivity |]. destruct ge_const_g_ok as (W & P & _). destruct (gej_set_ge_ok _ W) as [W' P'].
  rewrite P in P'. rewrite <- P'. apply storage_var_ok; try assumption; try (rewrite P').
  - exact G_on_curve.
  - discriminate.
  - unfold ECMULT_TABLE_SIZE. change (1 << (WINDOW_G - 2)) with 16384. lia.
  - unfold ECMULT_TABLE_SIZE. change (1 << (WINDOW_G - 2)) with 16384. rewrite Z2Nat.id by lia. reflexivity.
Qed.
End Mult.
