(* ===== verification/EcmultGen.v ===== *)
(** Multiplication with the generator, [ecmult_gen.h] and
    [ecmult_gen_impl.h] without static precomputation, over any field and
    scalar representation. *)

From Stdlib Require Import ZArith Lia List Bool.
From S2P Require Import Prelude Limbs Fp FieldSpec FieldGen Group ScalarSpec ScalarGen Hash Ecmult.
Import ListNotations.
Open Scope Z_scope.

Section Code.
Context {I : FieldImpl} {J : ScalarImpl}.

Record ecmult_gen_context : Type := EcmultGenContext {
  gen_prec : option (list (list ge_storage));
  gen_blind : scalar;
  gen_initial : gej
}.

(** [ctx] is the structure before the call: only [prec] is written. *)
Definition secp256k1_ecmult_gen_context_init (ctx : ecmult_gen_context) : ecmult_gen_context :=
  EcmultGenContext None (gen_blind ctx) (gen_initial ctx).

Definition secp256k1_ecmult_gen_context_is_built (ctx : ecmult_gen_context) : Z :=
  match gen_prec ctx with
  | Some _ => 1
  | None => 0
  end.

Definition secp256k1_ecmult_gen_context_clone (dst src : ecmult_gen_context) : ecmult_gen_context :=
  match gen_prec src with
  | None => EcmultGenContext None (gen_blind dst) (gen_initial dst)
  | Some t => EcmultGenContext (Some t) (gen_blind src) (gen_initial src)
  end.

Definition secp256k1_ecmult_gen_context_clear (ctx : ecmult_gen_context) : ecmult_gen_context :=
  EcmultGenContext None sc_clear secp256k1_gej_clear.

(** * Multiplication *)

(** [for (i = 0; i < 16; i++)]: move the entry [bits] of the row to [adds]. *)
Fixpoint gen_select (adds : ge_storage) (row : list ge_storage) (i bits : Z) : ge_storage :=
  match row with
  | [] => adds
  | e :: row' => gen_select (secp256k1_ge_storage_cmov adds e (b2z (i =? bits))) row' (i + 1) bits
  end.

(** [for (j = 0; j < 64; j++)], over the rows from [j] on. *)
Fixpoint gen_loop (rows : list (list ge_storage)) (gnb : scalar) (j : Z) (adds : ge_storage) (r : gej) : gej :=
  match rows with
  | [] => r
  | row :: rows' =>
      let bits := sc_get_bits gnb (j * 4) 4 in
      let adds := gen_select adds row 0 bits in
      let add := secp256k1_ge_from_storage adds in
      let r := secp256k1_gej_add_ge r add in
      gen_loop rows' gnb (j + 1) adds r
  end.

(** [prec] is [*ctx->prec]. *)
Definition ecmult_gen_with (prec : list (list ge_storage)) (ctx : ecmult_gen_context) (gn : scalar) : gej :=
  let adds := GeS (fe_to_storage fe_clear) (fe_to_storage fe_clear) in
  let r := gen_initial ctx in
  let gnb := fst (sc_add gn (gen_blind ctx)) in
  gen_loop prec gnb 0 adds r.

(** [None] where the code would follow the null pointer. *)
Definition secp256k1_ecmult_gen (ctx : ecmult_gen_context) (gn : scalar) : option gej :=
  match gen_prec ctx with
  | None => None
  | Some prec => Some (ecmult_gen_with prec ctx gn)
  end.

(** * Blinding *)

(** The two [do ... while (retry)] loops; [None] when [fuel] draws were all out
    of range. *)
Fixpoint blind_fe_loop (fuel : nat) (rng : rfc6979_t) : option (rfc6979_t * fe) :=
  match fuel with
  | O => None
  | S fuel' =>
      let* (rng, nonce32) := secp256k1_rfc6979_hmac_sha256_generate rng 32 in
      let '(s, ret) := fe_set_b32 nonce32 in
      let retry := b2z (negb (z2b ret)) in
      let retry := retry .| fe_is_zero s in
      if z2b retry then blind_fe_loop fuel' rng else Some (rng, s)
  end.

Fixpoint blind_scalar_loop (fuel : nat) (rng : rfc6979_t) : option (rfc6979_t * scalar) :=
  match fuel with
  | O => None
  | S fuel' =>
      let* (rng, nonce32) := secp256k1_rfc6979_hmac_sha256_generate rng 32 in
      let '(b, retry) := sc_set_b32 nonce32 in
      let retry := retry .| sc_is_zero b in
      if z2b retry then blind_scalar_loop fuel' rng else Some (rng, b)
  end.

(** From the seeding of the generator on. *)
Definition gen_blind_from (fuel : nat) (ctx : ecmult_gen_context) (rng : rfc6979_t) : option ecmult_gen_context :=
  match blind_fe_loop fuel rng with
  | None => None
  | Some (rng, s) =>
      let ctx := EcmultGenContext (gen_prec ctx) (gen_blind ctx) (secp256k1_gej_rescale (gen_initial ctx) s) in
      match blind_scalar_loop fuel rng with
      | None => None
      | Some (rng, b) =>
          match secp256k1_ecmult_gen ctx b with
          | None => None
          | Some gb => Some (EcmultGenContext (gen_prec ctx) (sc_negate b) gb)
          end
      end
  end.

(** [seed32] is [None] for a null pointer. *)
Definition secp256k1_ecmult_gen_blind (fuel : nat) (ctx : ecmult_gen_context) (seed32 : option (list Z))
    : option ecmult_gen_context :=
  let ctx :=
    match seed32 with
    | None =>
        let initial := secp256k1_gej_set_ge secp256k1_ge_const_g in
        let initial := secp256k1_gej_neg initial in
        EcmultGenContext (gen_prec ctx) (sc_set_int 1) initial
    | Some _ => ctx
    end in
  let nonce32 := sc_get_b32 (gen_blind ctx) in
  let keydata := match seed32 with None => nonce32 | Some seed => nonce32 ++ seed end in
  gen_blind_from fuel ctx (secp256k1_rfc6979_hmac_sha256_initialize keydata).

(** * The table *)

(** "The scalar for this x is unknown". *)
Definition nums_b32 : list Z :=
  [84; 104; 101; 32; 115; 99; 97; 108; 97; 114; 32; 102; 111; 114; 32; 116;
   104; 105; 115; 32; 120; 32; 105; 115; 32; 117; 110; 107; 110; 111; 119; 110].

Definition nums_point : gej :=
  let nums_x := fst (fe_set_b32 nums_b32) in
  let nums_ge := fst (secp256k1_ge_set_xo_var nums_x 0) in
  let nums_gej := secp256k1_gej_set_ge nums_ge in
  fst (secp256k1_gej_add_ge_var nums_gej nums_gej secp256k1_ge_const_g None).

(** [for (i = 1; i < 16; i++)]: the entries after [prev]. *)
Fixpoint gen_row_loop (k : nat) (prev gbase : gej) : list gej :=
  match k with
  | O => []
  | S k' =>
      let next := fst (secp256k1_gej_add_var gej_clear_val prev gbase None) in
      next :: gen_row_loop k' next gbase
  end.

Fixpoint gen_double_loop (k : nat) (gbase : gej) : gej :=
  match k with
  | O => gbase
  | S k' => gen_double_loop k' (fst (secp256k1_gej_double_var gbase gbase None))
  end.

(** [for (j = 0; j < 64; j++)], with [k] iterations left: the rows of [precj]. *)
Fixpoint gen_table_loop (k : nat) (j : Z) (gbase numsbase nums_gej : gej) : list (list gej) :=
  match k with
  | O => []
  | S k' =>
      let row := numsbase :: gen_row_loop 15 numsbase gbase in
      let gbase := gen_double_loop 4 gbase in
      let numsbase := fst (secp256k1_gej_double_var numsbase numsbase None) in
      let numsbase :=
        if j =? 62 then
          let numsbase := secp256k1_gej_neg numsbase in
          fst (secp256k1_gej_add_var numsbase numsbase nums_gej None)
        else numsbase in
      row :: gen_table_loop k' (j + 1) gbase numsbase nums_gej
  end.

(** Cut the flat array back into rows of 16. *)
Fixpoint rows_of {A : Type} (k : nat) (l : list A) : list (list A) :=
  match k with
  | O => []
  | S k' => firstn 16 l :: rows_of k' (skipn 16 l)
  end.

Definition gen_table : list (list ge_storage) :=
  let gj := secp256k1_gej_set_ge secp256k1_ge_const_g in
  let nums_gej := nums_point in
  let precj := concat (gen_table_loop 64 0 gj nums_gej nums_gej) in
  let prec := secp256k1_ge_set_all_gej_var (new_fe (length (all_gej_collect precj))) (new_ge 1024) precj in
  rows_of 64 (map secp256k1_ge_to_storage prec).

Definition secp256k1_ecmult_gen_context_build (fuel : nat) (ctx : ecmult_gen_context) : option ecmult_gen_context :=
  match gen_prec ctx with
  | Some _ => Some ctx
  | None => secp256k1_ecmult_gen_blind fuel (EcmultGenContext (Some gen_table) (gen_blind ctx) (gen_initial ctx)) None
  end.
End Code.
