(* ===== verification/EcmultGenSpec.v ===== *)
(** Multiplication with the generator is [gn * G] for every table, blinding
    value and initial point that satisfy the invariant of the context. *)

From Stdlib Require Import ZArith Lia List Bool Zmod Field.
From S2P Require Import Prelude Limbs Primes Fp Curve CurveGroup FieldSpec FieldGen.
From S2P Require Import Group GroupSpec GroupOps GOrder Cofactor GroupTable ScalarSpec ScalarGen Hash HashSpec HashThm.
From S2P Require Import Ecmult EcmultTable EcmultGen.
Import ListNotations.
Open Scope Z_scope.

Section Gen.
Context {I : FieldImpl} {L : FieldLaws I} {J : ScalarImpl} {M : ScalarLaws J}.

(** * The invariant *)

(** A stored entry that holds the finite point [P]. *)
Definition stored (s : ge_storage) (P : point) : Prop :=
  st_ok (ges_x s) /\ st_ok (ges_y s) /\
  let g := secp256k1_ge_from_storage s in ge_wf g /\ ge_pt g = P.

Fixpoint psum (l : list point) : point :=
  match l with
  | [] => Inf
  | P :: l' => padd P (psum l')
  end.

(** Row [j]: entry [i] is [16^j * i * G + U]. *)
Definition row_ok (j : Z) (row : list ge_storage) (U : point) : Prop :=
  length row = 16%nat /\ secp U /\
  forall i, (i < 16)%nat -> stored (nth_ges row i) (padd (smul (16 ^ j * Z.of_nat i) G) U).

Fixpoint rows_ok (j : Z) (rows : list (list ge_storage)) (Us : list point) : Prop :=
  match rows, Us with
  | [], [] => True
  | row :: rows', U :: Us' => row_ok j row U /\ rows_ok (j + 1) rows' Us'
  | _, _ => False
  end.

(** 64 rows whose offsets cancel out. *)
Definition prec_ok (prec : list (list ge_storage)) : Prop :=
  length prec = 64%nat /\ exists Us, rows_ok 0 prec Us /\ psum Us = Inf.

Definition gen_ctx_ok (ctx : ecmult_gen_context) : Prop :=
  (exists prec, gen_prec ctx = Some prec /\ prec_ok prec) /\
  sok (gen_blind ctx) /\ gej_wf (gen_initial ctx) /\ gej_pt (gen_initial ctx) = smul (- sv (gen_blind ctx)) G.

(** * Selecting an entry *)

Definition st_pair (s : ge_storage) : Prop := st_ok (ges_x s) /\ st_ok (ges_y s).

Lemma gen_select_ok bits row : forall adds i, st_pair adds -> (forall k, (k < length row)%nat -> st_pair (nth_ges row k)) ->
  gen_select adds row i bits =
    if (i <=? bits) && (bits <? i + Z.of_nat (length row)) then nth_ges row (Z.to_nat (bits - i)) else adds.
Proof.
  induction row as [| e row IH]; intros adds i A H; cbn [gen_select length].
  - zcases; cbn [andb]; try reflexivity; lia.
  - pose proof (H 0%nat ltac:(cbn; lia)) as He. change (nth_ges (e :: row) 0) with e in He.
    rewrite ge_storage_cmov_ok by (apply A || apply He).
    assert (Hr : forall k, (k < length row)%nat -> st_pair (nth_ges row k)) by (intros k Hk; exact (H (S k) ltac:(cbn; lia))).
    destruct (Z.eqb_spec i bits) as [-> | N].
    + rewrite IH by assumption. rewrite Z.sub_diag. zcases; cbn [andb]; try reflexivity; lia.
    + rewrite IH by assumption. zcases; cbn [andb]; try reflexivity; try lia.
      replace (Z.to_nat (bits - i)) with (S (Z.to_nat (bits - (i + 1)))) by lia. reflexivity.
Qed.

(** * The sum *)

Lemma psum_secp Us : Forall secp Us -> secp (psum Us).
Proof. induction 1 as [| U Us H _ IH]; [exact Logic.I | now apply padd_on_curve]. Qed.

Lemma rows_secp j rows : forall Us, rows_ok j rows Us -> Forall secp Us.
Proof.
  revert j. induction rows as [| row rows IH]; intros j [| U Us] H; cbn in H; try contradiction; constructor.
  - apply H.
  - apply (IH (j + 1)), H.
Qed.

Lemma gen_loop_ok gnb rows : sok gnb -> forall j Us adds r P, 0 <= j -> j + Z.of_nat (length rows) <= 64 ->
  rows_ok j rows Us -> st_pair adds -> gej_wf r -> gej_pt r = P -> secp P ->
  let r' := gen_loop rows gnb j adds r in
  let v := (sv gnb / 16 ^ j) mod 16 ^ Z.of_nat (length rows) in
  gej_wf r' /\ gej_pt r' = padd P (padd (smul (16 ^ j * v) G) (psum Us)).
Proof.
  intros Hg. induction rows as [| row rows IH]; intros j Us adds r P Hj Hl HR HA W E SP; destruct Us as [| U Us]; try contradiction HR.
  { cbn [gen_loop length psum]. cbv zeta. change (16 ^ Z.of_nat 0) with 1. rewrite Z.mod_1_r, Z.mul_0_r.
    cbn [smul padd]. rewrite padd_inf_r. now split. }
  destruct HR as [(Lr & SU & He) HR]. cbn [gen_loop length] in *. cbv zeta in *. set (bits := sc_get_bits gnb (j * 4) 4).
  assert (Eb : bits = (sv gnb / 16 ^ j) mod 16).
  { unfold bits. rewrite sc_get_bits_ok by (assumption || lia || (Z.to_euclidean_division_equations; lia)). rewrite (Z.mul_comm j), Z.pow_mul_r by lia. reflexivity. }
  assert (Hb : 0 <= bits < 16) by (rewrite Eb; now apply Z.mod_pos_bound).
  rewrite (gen_select_ok bits row adds 0 HA) by (intros k Hk; rewrite Lr in Hk; split; apply (He k Hk)).
  rewrite Lr. replace ((0 <=? bits) && (bits <? 0 + Z.of_nat 16)) with true by (zcases; reflexivity || lia). rewrite Z.sub_0_r.
  destruct (He (Z.to_nat bits) ltac:(lia)) as (Sx & Sy & Wg & Pg). set (e := nth_ges row (Z.to_nat bits)) in *.
  rewrite Z2Nat.id in Pg by lia. set (Q := padd (smul (16 ^ j * bits) G) U) in *.
  assert (SQ : secp Q) by (apply padd_on_curve; [apply G_multiple | exact SU]).
  destruct (gej_add_ge_ok curve_b r (secp256k1_ge_from_storage e) W Wg eq_refl) as [W' P'];
    [now rewrite E | now rewrite Pg |]. rewrite E, Pg in P'.
  destruct (IH (j + 1) Us e _ _ ltac:(lia) ltac:(lia) HR (conj Sx Sy) W' P' (padd_on_curve _ _ _ SP SQ)) as [W2 P2].
  split; [exact W2 |]. rewrite P2. clear P2 W2 IH P' W'.
  pose proof (psum_secp Us (rows_secp _ _ _ HR)) as SS. cbn [psum].
  set (w := (sv gnb / 16 ^ (j + 1)) mod 16 ^ Z.of_nat (length rows)) in *.
  assert (Ev : 16 ^ j * ((sv gnb / 16 ^ j) mod 16 ^ Z.of_nat (S (length rows))) = 16 ^ j * bits + 16 ^ (j + 1) * w).
  { unfold w. replace (16 ^ (j + 1)) with (16 ^ j * 16) by (rewrite Z.add_1_r, Z.pow_succ_r by lia; ring).
    rewrite Nat2Z.inj_succ, Z.pow_succ_r, Z.rem_mul_r, Eb, <- Z.div_div by lia. ring. }
  rewrite Ev, (smul_add curve_b curve_b_nz) by exact G_on_curve.
  pose proof (G_multiple (16 ^ j * bits)) as S1. pose proof (G_multiple (16 ^ (j + 1) * w)) as S2. unfold Q.
  rewrite (padd_assoc curve_b curve_b_nz) by (try assumption; now apply padd_on_curve). f_equal.
  now apply (padd_swap curve_b curve_b_nz).
Qed.

Lemma zero_st_pair : st_pair (GeS (fe_to_storage fe_clear) (fe_to_storage fe_clear)).
Proof. split; apply to_storage_ok, clear_ok. Qed.

Lemma smul_eq_mod a b P : secp P -> a mod secp_n = b mod secp_n -> smul a P = smul b P.
Proof.
  intros S E. rewrite <- (smul_mod curve_b curve_b_nz secp_n P a), <- (smul_mod curve_b curve_b_nz secp_n P b), E
    by (discriminate || assumption || now apply secp_order). reflexivity.
Qed.

Lemma ecmult_gen_ok ctx gn : gen_ctx_ok ctx -> sok gn ->
  exists r, secp256k1_ecmult_gen ctx gn = Some r /\ gej_wf r /\ gej_pt r = smul (sv gn) G.
Proof.
  intros ((prec & E & Lp & Us & HR & HS) & Hb & Wi & Pi) Hg. unfold secp256k1_ecmult_gen. rewrite E.
  eexists. split; [reflexivity |]. unfold ecmult_gen_with. cbv zeta.
  destruct (sc_add_ok gn (gen_blind ctx) Hg Hb) as (Ha & Va & _). set (gnb := fst (sc_add gn (gen_blind ctx))) in *.
  destruct (gen_loop_ok gnb prec Ha 0 Us _ _ _ ltac:(lia) ltac:(rewrite Lp; reflexivity) HR zero_st_pair Wi Pi) as [W P];
    [apply G_multiple |]. split; [exact W |]. rewrite P, HS, padd_inf_r, Lp.
  rewrite Z.pow_0_r, Z.div_1_r, Z.mul_1_l. pose proof (sv_range _ Ha) as R.
  rewrite Z.mod_small by (change (16 ^ Z.of_nat 64) with (2 ^ 256); assert (secp_n < 2 ^ 256) by reflexivity; lia).
  rewrite <- (smul_add curve_b curve_b_nz), Va by exact G_on_curve. apply smul_eq_mod; [exact G_on_curve |].
  rewrite Z.add_mod_idemp_r by discriminate. f_equal. ring.
Qed.

(** * Blinding *)

Lemma lor_1 x : z2b (1 .| x) = true.
Proof.
  unfold z2b. destruct (Z.eqb_spec (1 .| x) 0) as [E | N]; [| reflexivity].
  apply Z.lor_eq_0_iff in E as [E _]. discriminate.
Qed.

Lemma rfc_draw r : rfc_ok r -> exists r' out, secp256k1_rfc6979_hmac_sha256_generate r 32 = Some (r', out) /\ rfc_ok r' /\ bytes32 out.
Proof.
  intros H. destruct (rfc6979_generate_ok r 32 H eq_refl) as (r' & out & E & G). exists r', out. split; [exact E |].
  destruct (if z2b (rng_retry r) then _ else _) as [V K]. destruct (rfc6979_blocks _ V K) as [V' T].
  destruct G as (_ & _ & _ & _ & Lo & Bo & Hr). split; [exact Hr | now split].
Qed.

Lemma blind_fe_ok fuel : forall r r' s, rfc_ok r -> blind_fe_loop fuel r = Some (r', s) ->
  rfc_ok r' /\ FeI s 8 (fv s) /\ fv s <> 0%F.
Proof.
  induction fuel as [| fuel IH]; intros r r' s Hr E; cbn [blind_fe_loop] in E; [discriminate |].
  destruct (rfc_draw r Hr) as (r1 & out & G & Hr1 & Lo & Bo). rewrite G in E. cbn [bind] in E.
  destruct (set_b32_ok out Bo Lo) as (Er & Mg & Ev & Hn). destruct (fe_set_b32 out) as [x ret]. cbn [fst snd] in *. cbv zeta in E.
  rewrite Er, b2z_b2z in E. destruct (Z.ltb_spec (be_val out) secp_p) as [Lt | Ge]; cbn [negb b2z] in E.
  - specialize (Hn Lt). rewrite (is_zero_ok _ Hn), Z.lor_0_l, b2z_b2z in E.
    destruct (eqb_F_spec (fv x) 0%F) as [Z | N]; [exact (IH _ _ _ Hr1 E) |]. injection E as <- <-.
    split; [exact Hr1 |]. split; [| exact N]. split; [apply (mag_weaken 1); [lia | exact Mg] | reflexivity].
  - rewrite lor_1 in E. exact (IH _ _ _ Hr1 E).
Qed.

Lemma blind_scalar_ok fuel : forall r r' b, rfc_ok r -> blind_scalar_loop fuel r = Some (r', b) -> sok b.
Proof.
  induction fuel as [| fuel IH]; intros r r' b Hr E; cbn [blind_scalar_loop] in E; [discriminate |].
  destruct (rfc_draw r Hr) as (r1 & out & G & Hr1 & Lo & Bo). rewrite G in E. cbn [bind] in E.
  destruct (sc_set_b32_ok out Bo Lo) as (Hs & _ & _). destruct (sc_set_b32 out) as [x ret]. cbn [fst snd] in *. cbv zeta in E.
  destruct (z2b _); [exact (IH _ _ _ Hr1 E) |]. injection E as <- <-. exact Hs.
Qed.

Lemma neg_g_ok : let p := secp256k1_gej_neg (secp256k1_gej_set_ge secp256k1_ge_const_g) in
  gej_wf p /\ gej_pt p = smul (- sv (sc_set_int 1)) G.
Proof.
  intros p. destruct ge_const_g_ok as (W & P & _). destruct (gej_set_ge_ok _ W) as [W1 P1].
  destruct (gej_neg_ok _ W1) as [W2 P2]. split; [exact W2 |]. unfold p. rewrite P2, P1, P.
  destruct (sc_set_int_ok 1 ltac:(lia)) as [_ ->]. reflexivity.
Qed.

(** Whatever the seed, the new context computes the same products; a null seed
    works for any prior blinding. *)
Lemma gen_blind_ok fuel ctx seed ctx' :
  match seed with
  | None => exists prec, gen_prec ctx = Some prec /\ prec_ok prec
  | Some b => gen_ctx_ok ctx /\ bytes32 b
  end -> secp256k1_ecmult_gen_blind fuel ctx seed = Some ctx' ->
  gen_ctx_ok ctx' /\ gen_prec ctx' = gen_prec ctx.
Proof.
  intros H E. unfold secp256k1_ecmult_gen_blind in E.
  set (c0 := match seed with None => _ | Some _ => ctx end) in E.
  assert (H0 : gen_ctx_ok c0 /\ gen_prec c0 = gen_prec ctx).
  { unfold c0. destruct seed; [now split |]. destruct neg_g_ok as [W P]. split; [| reflexivity].
    split; [exact H |]. split; [apply sc_set_int_ok; lia | now split]. }
  clearbody c0. destruct H0 as [(Hp & Hb & Wi & Pi) Ep]. cbv zeta in E.
  set (kd := match seed with None => _ | Some _ => _ end) in E.
  assert (Hk : limbs_lt 8 kd /\ Z.of_nat (length kd) < 2 ^ 59).
  { unfold kd. rewrite sc_get_b32_ok by exact Hb. destruct seed as [b |].
    - destruct H as [_ [Lb Bb]]. rewrite length_app, Lb, length_be_bytes. split; [| reflexivity].
      apply Forall_app. split; [apply limbs_lt_be_bytes | exact Bb].
    - rewrite length_be_bytes. split; [apply limbs_lt_be_bytes | reflexivity]. }
  clearbody kd. destruct (rfc6979_initialize_ok kd (proj1 Hk) (proj2 Hk)) as (_ & _ & Hr). cbv zeta in Hr.
  set (r0 := secp256k1_rfc6979_hmac_sha256_initialize kd) in *. clearbody r0. unfold gen_blind_from in E. cbv zeta in E.
  destruct (blind_fe_loop fuel _) as [[r1 s] |] eqn:E1; [| discriminate]. destruct (blind_fe_ok _ _ _ _ Hr E1) as (Hr1 & Hs & Ns).
  destruct (blind_scalar_loop fuel r1) as [[r2 b] |] eqn:E2; [| discriminate]. pose proof (blind_scalar_ok _ _ _ _ Hr1 E2) as Sb.
  destruct (gej_rescale_ok _ _ _ Wi Hs Ns) as [Wr Pr].
  set (c1 := EcmultGenContext (gen_prec c0) (gen_blind c0) (secp256k1_gej_rescale (gen_initial c0) s)) in E.
  assert (H1 : gen_ctx_ok c1) by (split; [exact Hp |]; split; [exact Hb |]; split; [exact Wr | cbn; congruence]).
  destruct (ecmult_gen_ok c1 b H1 Sb) as (gb & Eg & Wg & Pg). rewrite Eg in E. injection E as <-.
  destruct (sc_negate_ok b Sb) as [Sn Vn]. split; [| exact Ep]. split; [exact Hp |]. cbn [gen_blind gen_initial].
  split; [exact Sn |]. split; [exact Wg |]. rewrite Pg, Vn. apply smul_eq_mod; [exact G_on_curve |].
  rewrite <- Z.sub_0_l, Zminus_mod_idemp_r. f_equal. ring.
Qed.

(** * The table *)

(** A well-formed element that stands for [P], a point of the curve. *)
Definition gej_at (p : gej) (P : point) : Prop := gej_wf p /\ gej_pt p = P /\ secp P.

Lemma at_add p P q Q : gej_at p P -> gej_at q Q -> gej_at (fst (secp256k1_gej_add_var gej_clear_val p q None)) (padd P Q).
Proof.
  intros (Wp & Ep & Sp) (Wq & Eq & Sq).
  destruct (gej_add_var_ok curve_b gej_clear_val p q None clear_mem Wp Wq) as (W & P' & _); rewrite ?Ep, ?Eq; auto.
  - now apply secp_y_nz_pt.
  - split; [exact W |]. split; [now rewrite P', Ep, Eq | now apply padd_on_curve].
Qed.

Lemma at_add_self p P q Q : gej_at p P -> gej_at q Q -> gej_at (fst (secp256k1_gej_add_var p p q None)) (padd P Q).
Proof.
  intros (Wp & Ep & Sp) (Wq & Eq & Sq).
  destruct (gej_add_var_ok curve_b p p q None (gej_wf_mem _ Wp) Wp Wq) as (W & P' & _); rewrite ?Ep, ?Eq; auto.
  - now apply secp_y_nz_pt.
  - split; [exact W |]. split; [now rewrite P', Ep, Eq | now apply padd_on_curve].
Qed.

Lemma at_add_ge p P g Q : gej_at p P -> ge_wf g -> ge_pt g = Q -> secp Q ->
  gej_at (fst (secp256k1_gej_add_ge_var p p g None)) (padd P Q).
Proof.
  intros (Wp & Ep & Sp) Wg Eg Sg.
  destruct (gej_add_ge_var_ok curve_b p p g None (gej_wf_mem _ Wp) Wp Wg) as (W & P' & _); rewrite ?Ep, ?Eg; auto.
  - now apply secp_y_nz_pt.
  - split; [exact W |]. split; [now rewrite P', Ep, Eg | now apply padd_on_curve].
Qed.

Lemma at_double p P : gej_at p P -> gej_at (fst (secp256k1_gej_double_var p p None)) (padd P P).
Proof.
  intros (Wp & Ep & Sp). destruct (gej_double_var_ok p p None (gej_wf_mem _ Wp) Wp) as (W & P' & _).
  - rewrite Ep. now apply secp_y_nz_pt.
  - split; [exact W |]. split; [now rewrite P', Ep | now apply padd_on_curve].
Qed.

Lemma at_neg p P : gej_at p P -> gej_at (secp256k1_gej_neg p) (pneg P).
Proof.
  intros (Wp & Ep & Sp). destruct (gej_neg_ok p Wp) as [W P']. split; [exact W |].
  split; [now rewrite P', Ep | now apply pneg_on_curve].
Qed.

Lemma at_eq p P Q : gej_at p P -> P = Q -> gej_at p Q.
Proof. now intros H <-. Qed.

(** [16^j * i * G + U]. *)
Definition gen_point (j : Z) (U : point) (i : nat) : point := padd (smul (16 ^ j * Z.of_nat i) G) U.

Definition grow_ok (j : Z) (row : list gej) (U : point) : Prop :=
  length row = 16%nat /\ forall i, (i < 16)%nat -> gej_at (nth_gej row i) (gen_point j U i).

Lemma gen_point_next j U i : 0 <= j -> secp U -> padd (gen_point j U i) (smul (16 ^ j) G) = gen_point j U (S i).
Proof.
  intros Hj S. unfold gen_point. pose proof (G_multiple (16 ^ j)) as S1. pose proof (G_multiple (16 ^ j * Z.of_nat i)) as S2.
  rewrite (padd_comm curve_b _ (smul (16 ^ j) G)) by (assumption || now apply padd_on_curve).
  rewrite <- (padd_assoc curve_b curve_b_nz), <- (smul_add curve_b curve_b_nz) by (assumption || exact G_on_curve).
  do 2 f_equal. lia.
Qed.

Lemma gen_row_ok j U gbase k : 0 <= j -> secp U -> gej_at gbase (smul (16 ^ j) G) -> forall prev i,
  gej_at prev (gen_point j U i) -> let row := gen_row_loop k prev gbase in
  length row = k /\ forall m, (m < k)%nat -> gej_at (nth_gej row m) (gen_point j U (S i + m)).
Proof.
  intros Hj S Hg. induction k as [| k IH]; intros prev i Hp; cbn [gen_row_loop length]; cbv zeta; [split; [reflexivity | lia] |].
  pose proof (at_eq _ _ _ (at_add _ _ _ _ Hp Hg) (gen_point_next j U i Hj S)) as Hn.
  destruct (IH _ _ Hn) as [L1 H1]. split; [now rewrite L1 |]. intros [| m] Hm.
  - rewrite Nat.add_0_r. exact Hn.
  - unfold nth_gej. cbn [nth]. replace (Datatypes.S i + Datatypes.S m)%nat with (Datatypes.S (Datatypes.S i) + m)%nat by lia. apply H1. lia.
Qed.

Lemma gen_doubles_ok k : forall g v, gej_at g (smul v G) -> gej_at (gen_double_loop k g) (smul (2 ^ Z.of_nat k * v) G).
Proof.
  induction k as [| k IH]; intros g v H; cbn [gen_double_loop]; [now rewrite Z.mul_1_l |].
  pose proof (at_double _ _ H) as D. rewrite <- (smul_add curve_b curve_b_nz) in D by exact G_on_curve.
  apply IH in D. eapply at_eq; [exact D |]. f_equal. rewrite Nat2Z.inj_succ, Z.pow_succ_r by lia. ring.
Qed.

(** The multiple of [U] in row [j]. *)
Definition gen_coef (j : Z) : Z := if j =? 63 then 1 - 2 ^ 63 else 2 ^ j.

Fixpoint grows_ok (j : Z) (rows : list (list gej)) (U : point) : Prop :=
  match rows with
  | [] => True
  | row :: rows' => grow_ok j row (smul (gen_coef j) U) /\ grows_ok (j + 1) rows' U
  end.

Lemma gen_table_loop_ok U nums : gej_at nums U -> forall k j gbase numsbase, 0 <= j -> j + Z.of_nat k <= 64 ->
  gej_at gbase (smul (16 ^ j) G) -> gej_at numsbase (smul (gen_coef j) U) ->
  let rows := gen_table_loop k j gbase numsbase nums in
  length rows = k /\ grows_ok j rows U.
Proof.
  intros HU. pose proof HU as (_ & _ & SU).
  induction k as [| k IH]; intros j gbase numsbase Hj Hk Hg Hn; cbn [gen_table_loop length grows_ok]; cbv zeta; [now split |].
  pose proof (smul_secp (gen_coef j) U SU) as Sc.
  assert (H0 : gej_at numsbase (gen_point j (smul (gen_coef j) U) 0)).
  { eapply at_eq; [exact Hn |]. unfold gen_point. now rewrite Z.mul_0_r. }
  destruct (gen_row_ok j _ gbase 15 Hj Sc Hg numsbase 0%nat H0) as [Lr Hr].
  assert (Hrow : grow_ok j (numsbase :: gen_row_loop 15 numsbase gbase) (smul (gen_coef j) U)).
  { split; [cbn [length]; now rewrite Lr |]. intros [| i] Hi; [exact H0 |].
    unfold nth_gej. cbn [nth]. exact (Hr i ltac:(lia)). }
  destruct k as [| k].
  { cbn [gen_table_loop length grows_ok]. auto. }
  assert (N63 : j <> 63) by lia.
  assert (Hg' : gej_at (gen_double_loop 4 gbase) (smul (16 ^ (j + 1)) G)).
  { pose proof (gen_doubles_ok 4 _ _ Hg) as D. eapply at_eq; [exact D |]. f_equal. change (2 ^ Z.of_nat 4) with 16.
    rewrite Z.add_1_r, Z.pow_succ_r by lia. reflexivity. }
  pose proof (at_double _ _ Hn) as Hd. rewrite <- (smul_add curve_b curve_b_nz) in Hd by exact SU.
  destruct (IH (j + 1) (gen_double_loop 4 gbase) (if j =? 62 then
      fst (secp256k1_gej_add_var (secp256k1_gej_neg (fst (secp256k1_gej_double_var numsbase numsbase None)))
        (secp256k1_gej_neg (fst (secp256k1_gej_double_var numsbase numsbase None))) nums None)
      else fst (secp256k1_gej_double_var numsbase numsbase None))) as [L' H']; try lia; try assumption.
  - unfold gen_coef in *. destruct (Z.eqb_spec j 63); [lia |]. destruct (Z.eqb_spec j 62) as [-> | N].
    + pose proof (at_add_self _ _ _ _ (at_neg _ _ Hd) HU) as A. eapply at_eq; [exact A |].
      change (62 + 1 =? 63) with true. cbv iota. change U with (smul 1 U) at 2.
      rewrite <- smul_opp, <- (smul_add curve_b curve_b_nz) by exact SU. reflexivity.
    + replace (j + 1 =? 63) with false by (symmetry; apply Z.eqb_neq; lia). eapply at_eq; [exact Hd |]. f_equal.
      rewrite Z.add_1_r, Z.pow_succ_r by lia. lia.
  - split; [now rewrite L' | split; [exact Hrow | exact H']].
Qed.

(** No entry is the point at infinity. *)
Definition gen_finite (U : point) : Prop :=
  forall j i, 0 <= j < 64 -> (i < 16)%nat -> gen_point j (smul (gen_coef j) U) i <> Inf.

Lemma stored_of g p P : same_pt g p -> gej_at p P -> P <> Inf -> stored (secp256k1_ge_to_storage g) P.
Proof.
  intros [W E] (_ & Ep & _) N. rewrite Ep in E.
  assert (F0 : ge_infinity g = 0).
  { apply z2b_0; [apply W |]. destruct (z2b (ge_infinity g)) eqn:Z; [| reflexivity]. exfalso. apply N. rewrite <- E. now apply ge_pt_inf. }
  destruct (ge_storage_ok g W F0) as (Sx & Sy & _ & _ & W' & P'). rewrite E in P'. exact (conj Sx (conj Sy (conj W' P'))).
Qed.

Lemma nth_Forall2 (R : ge -> gej -> Prop) l m i : Forall2 R l m -> (i < length m)%nat -> R (nth_ge l i) (nth_gej m i).
Proof.
  intros H. revert i. induction H as [| x y l m Hxy _ IH]; intros i Hi; cbn [length] in Hi; [lia |].
  destruct i as [| i]; [exact Hxy | apply IH; lia].
Qed.

Fixpoint coefs (k : nat) (j : Z) : list Z :=
  match k with
  | O => []
  | S k' => gen_coef j :: coefs k' (j + 1)
  end.

Lemma gen_rows_stored U : secp U -> gen_finite U -> forall rows j prec, 0 <= j -> j + Z.of_nat (length rows) <= 64 ->
  grows_ok j rows U -> Forall2 same_pt prec (concat rows) ->
  rows_ok j (rows_of (length rows) (map secp256k1_ge_to_storage prec)) (map (fun c => smul c U) (coefs (length rows) j)).
Proof.
  intros SU HF. induction rows as [| row rows IH]; intros j prec Hj Hl HG H2; cbn [length rows_of coefs map rows_ok]; [exact Logic.I |].
  destruct HG as [[Lr Hr] HG]. cbn [concat length] in *. apply Forall2_app_inv_r in H2 as (p1 & p2 & H1 & H2 & ->).
  assert (L1 : length p1 = 16%nat) by (rewrite <- Lr; eapply Forall2_length, H1).
  rewrite map_app, firstn_app, skipn_app, length_map, L1, Nat.sub_diag.
  rewrite firstn_all2, skipn_all2 by (rewrite length_map; lia). cbn [firstn skipn app]. rewrite app_nil_r.
  split; [| apply IH; try assumption; lia].
  split; [now rewrite length_map |]. split; [now apply smul_secp |]. intros i Hi.
  unfold nth_ges. rewrite (nth_indep _ _ (secp256k1_ge_to_storage (Ge fe_clear fe_clear 0))) by (rewrite length_map; lia).
  rewrite map_nth. apply (stored_of _ (nth_gej row i)); [apply (nth_Forall2 same_pt p1 row i H1); lia | now apply Hr |].
  apply HF; [lia | exact Hi].
Qed.

Lemma psum_coefs U cs : secp U -> psum (map (fun c => smul c U) cs) = smul (fold_right Z.add 0 cs) U.
Proof.
  intros S. induction cs as [| c cs IH]; cbn [map psum fold_right]; [reflexivity |].
  rewrite IH. symmetry. now apply (smul_add curve_b curve_b_nz).
Qed.

Lemma grows_wf U rows : forall j, grows_ok j rows U -> Forall gej_wf (concat rows) /\ length (concat rows) = (16 * length rows)%nat.
Proof.
  induction rows as [| row rows IH]; intros j H; cbn [concat length]; [split; [constructor | reflexivity] |].
  destruct H as [[Lr Hr] H]. destruct (IH _ H) as [W E]. rewrite length_app, Lr, E. split; [| lia].
  apply Forall_app. split; [| exact W]. apply Forall_forall. intros p Hp. apply (In_nth _ _ gej_clear_val) in Hp as (i & Hi & <-).
  apply (Hr i). lia.
Qed.

Lemma g_at : gej_at (secp256k1_gej_set_ge secp256k1_ge_const_g) (smul (16 ^ 0) G).
Proof.
  destruct ge_const_g_ok as (W & P & _). destruct (gej_set_ge_ok _ W) as [W1 P1].
  split; [exact W1 |]. split; [now rewrite P1, P | exact G_on_curve].
Qed.

Lemma new_ge_wf n : Forall ge_wf (new_ge n).
Proof.
  apply Forall_forall. intros g Hg. apply repeat_spec in Hg. subst g.
  pose proof (norm_mag _ (proj1 clear_ok)) as H. apply (mag_weaken 1 8) in H; [| lia].
  unfold ge_wf, secp256k1_ge_clear, Rng. cbn. repeat split; auto; lia.
Qed.

Lemma gen_table_ok U : gej_at nums_point U -> gen_finite U -> prec_ok gen_table.
Proof.
  intros HU HF. pose proof HU as (_ & _ & SU). unfold gen_table. cbv zeta.
  destruct (gen_table_loop_ok U nums_point HU 64 0 _ nums_point ltac:(lia) ltac:(lia) g_at) as [Lr Hr]; [exact HU |].
  set (rows := gen_table_loop 64 0 _ _ _) in *. clearbody rows. destruct (grows_wf U rows 0 Hr) as [Wr Er].
  assert (H2 := ge_set_all_gej_ok (new_fe (length (all_gej_collect (concat rows)))) (new_ge 1024) (concat rows) Wr (new_ge_wf 1024)).
  specialize (H2 ltac:(rewrite Er, Lr; apply repeat_length) ltac:(apply repeat_length)).
  set (prec := secp256k1_ge_set_all_gej_var _ _ _) in *. clearbody prec.
  pose proof (gen_rows_stored U SU HF rows 0 prec ltac:(lia) ltac:(rewrite Lr; lia) Hr H2) as R. rewrite Lr in R.
  split; [reflexivity |]. eexists. split; [exact R |]. rewrite psum_coefs by exact SU. reflexivity.
Qed.
End Gen.
