(* ===== verification/GenTable.v ===== *)
(** The table that [secp256k1_ecmult_gen_context_build] computes: its offset
    point is on the curve, none of its 1024 entries is the point at infinity,
    and the first draws of the blinding are in range.  The entries are computed
    by the code itself, on the bignum field. *)

From Stdlib Require Import ZArith Lia List Bool Zmod Field.
From S2P Require Import Prelude Limbs Primes Fp Curve CurveGroup FieldSpec FieldGen.
From S2P Require Import Group GroupSpec GroupOps GOrder Cofactor GroupTable ScalarSpec ScalarGen Hash HashSpec HashThm.
From S2P Require Import Ecmult EcmultTable EcmultGen EcmultGenSpec FieldRef FieldBig.
Import ListNotations.
Open Scope Z_scope.

(** * The offset point *)

Definition nums_x : F := F_of_Z 0x546865207363616c617220666f722074686973207820697320756e6b6e6f776e.
Definition nums_y : F := F_of_Z 0x28ebb7e4e1f6a12e1c0faaf47e09c33305d50890856930e67e5299348ff7f20e.
Definition nums_U : point := padd (Aff nums_x nums_y) G.

Lemma nums_on_curve : secp (Aff nums_x nums_y).
Proof. unfold secp. cbn [on_curve]. apply Zmod.unsigned_inj. vm_compute. reflexivity. Qed.

Lemma nums_parity : parity nums_y = 0.
Proof. vm_compute. reflexivity. Qed.

Lemma same_ordinate x y z : secp (Aff x y) -> secp (Aff x z) -> parity y = parity z -> y = z.
Proof.
  intros Sy Sz Q. destruct (F_eq_dec y z) as [E | N]; [exact E |]. exfalso.
  pose proof (secp_y_nz _ _ Sy) as Ny. unfold secp in Sy, Sz. cbn [on_curve] in Sy, Sz.
  assert (Eo : z = (- y)%F) by (apply same_square; [congruence | exact N]).
  rewrite Eo, parity_opp in Q by exact Ny. lia.
Qed.

Lemma nums_at {I : FieldImpl} {L : FieldLaws I} : gej_at nums_point nums_U.
Proof.
  unfold nums_point, nums_U. cbv zeta.
  destruct (set_b32_ok nums_b32) as (_ & Mg & Ev & _); [repeat constructor; lia | reflexivity |].
  assert (Hx : FeI (fst (fe_set_b32 nums_b32)) 8 nums_x) by (split; [apply (mag_weaken 1); [lia | exact Mg] | exact Ev]).
  destruct (ge_set_xo_ok _ _ 0 Hx ltac:(lia)) as [(_ & W & y & P & S & Q) | (_ & N)]; [| destruct (N nums_y nums_on_curve)].
  assert (Ey : y = nums_y).
  { apply (same_ordinate nums_x); [exact S | exact nums_on_curve |]. rewrite Q. symmetry. exact nums_parity. }
  rewrite Ey in P. destruct (gej_set_ge_ok _ W) as [Wj Pj]. rewrite P in Pj. destruct ge_const_g_ok as (Wg & Pg & _).
  exact (at_add_ge _ _ _ _ (conj Wj (conj Pj nums_on_curve)) Wg Pg G_on_curve).
Qed.

(** * The entries *)

Definition big_rows : list (list (gej (I := field_big))) :=
  gen_table_loop 64 0 (secp256k1_gej_set_ge secp256k1_ge_const_g) nums_point nums_point.

Lemma big_rows_finite : forallb (forallb (fun p => gej_infinity p =? 0)) big_rows = true.
Proof. vm_compute. reflexivity. Qed.

Lemma grows_finite {I : FieldImpl} {L : FieldLaws I} U rows : forall j k i, grows_ok j rows U ->
  forallb (forallb (fun p => gej_infinity p =? 0)) rows = true ->
  (k < length rows)%nat -> (i < 16)%nat ->
  gen_point (j + Z.of_nat k) (smul (gen_coef (j + Z.of_nat k)) U) i <> Inf.
Proof.
  induction rows as [| row rows IH]; intros j k i HG HF Hk Hi; cbn [length] in Hk; [lia |].
  destruct HG as [[Lr Hr] HG]. cbn [forallb] in HF. apply andb_true_iff in HF as [HF1 HF2]. destruct k as [| k].
  - rewrite Z.add_0_r. destruct (Hr i Hi) as (_ & E & _). rewrite <- E. unfold gej_pt.
    rewrite forallb_forall in HF1.
    assert (Hin : In (nth_gej row i) row) by (apply nth_In; lia). specialize (HF1 _ Hin). apply Z.eqb_eq in HF1.
    rewrite HF1. discriminate.
  - replace (j + Z.of_nat (S k)) with (j + 1 + Z.of_nat k) by lia. apply IH; try assumption. lia.
Qed.

Lemma nums_finite : gen_finite nums_U.
Proof.
  destruct (gen_table_loop_ok (I := field_big) nums_U nums_point nums_at 64 0 _ nums_point ltac:(lia) ltac:(lia) g_at) as [Lr Hr];
    [exact nums_at |]. intros j i Hj Hi. assert (Hk : (Z.to_nat j < length big_rows)%nat) by (unfold big_rows; rewrite Lr; lia).
  pose proof (grows_finite nums_U big_rows 0 (Z.to_nat j) i Hr big_rows_finite Hk Hi) as N.
  rewrite Z2Nat.id in N by lia. exact N.
Qed.

(** * The first draws *)

(** The generator's next two outputs are a nonzero field element and a nonzero
    scalar. *)
Definition draws_in_range (rng : rfc6979_t) : bool :=
  match secp256k1_rfc6979_hmac_sha256_generate rng 32 with
  | Some (rng, n1) =>
      match secp256k1_rfc6979_hmac_sha256_generate rng 32 with
      | Some (_, n2) => (0 <? be_val n1) && (be_val n1 <? secp_p) && (0 <? be_val n2) && (be_val n2 <? secp_n)
      | None => false
      end
  | None => false
  end.

Lemma null_draws : draws_in_range (secp256k1_rfc6979_hmac_sha256_initialize (be_bytes 32 1)) = true.
Proof. vm_compute. reflexivity. Qed.

(** * Building the context *)

Section Build.
Context {I : FieldImpl} {L : FieldLaws I} {J : ScalarImpl} {M : ScalarLaws J}.

Lemma fe_draw fuel r r' out : rfc_ok r -> secp256k1_rfc6979_hmac_sha256_generate r 32 = Some (r', out) ->
  (0 <? be_val out) && (be_val out <? secp_p) = true ->
  rfc_ok r' /\ exists s, blind_fe_loop (S fuel) r = Some (r', s).
Proof.
  intros Hr E D. destruct (rfc_draw r Hr) as (r0 & out0 & W & Hr' & Lo & Bo). rewrite E in W. injection W as <- <-. split; [exact Hr' |].
  cbn [blind_fe_loop]. rewrite E. cbn [bind]. destruct (set_b32_ok out Bo Lo) as (Er & _ & Ev & Hn).
  destruct (fe_set_b32 out) as [x ret]. cbn [fst snd] in *. apply andb_true_iff in D as [D1 D2]. apply Z.ltb_lt in D1.
  rewrite Er, D2, (is_zero_ok _ (Hn (proj1 (Z.ltb_lt _ _) D2))). cbv zeta. rewrite b2z_b2z. cbn [negb b2z]. rewrite Z.lor_0_l, b2z_b2z.
  destruct (eqb_F_spec (fv x) 0%F) as [Z | N]; [| now exists x]. exfalso. rewrite Ev in Z. apply Z.ltb_lt in D2.
  exact (F_of_Z_nz _ (conj D1 D2) Z).
Qed.

Lemma scalar_draw fuel r r' out : rfc_ok r -> secp256k1_rfc6979_hmac_sha256_generate r 32 = Some (r', out) ->
  (0 <? be_val out) && (be_val out <? secp_n) = true ->
  exists b, blind_scalar_loop (S fuel) r = Some (r', b).
Proof.
  intros Hr E D. destruct (rfc_draw r Hr) as (r0 & out0 & W & _ & Lo & Bo). rewrite E in W. injection W as <- <-.
  cbn [blind_scalar_loop]. rewrite E. cbn [bind]. destruct (sc_set_b32_ok out Bo Lo) as (Hs & Ev & Eo).
  destruct (sc_set_b32 out) as [x ret]. cbn [fst snd] in *. apply andb_true_iff in D as [D1 D2].
  apply Z.ltb_lt in D1, D2. rewrite Z.mod_small in Ev by lia.
  rewrite Eo, (sc_is_zero_ok _ Hs), Ev. cbv zeta. zcases; try lia. now exists x.
Qed.

Lemma blind_from_total fuel ctx prec r : rfc_ok r -> draws_in_range r = true -> gen_prec ctx = Some prec ->
  exists ctx', gen_blind_from (S fuel) ctx r = Some ctx'.
Proof.
  intros Hr D Ep. unfold draws_in_range in D. unfold gen_blind_from.
  destruct (secp256k1_rfc6979_hmac_sha256_generate r 32) as [[r1 n1] |] eqn:G1; [| discriminate].
  destruct (secp256k1_rfc6979_hmac_sha256_generate r1 32) as [[r2 n2] |] eqn:G2; [| discriminate]. rewrite !andb_true_iff in D.
  destruct D as [[[D1 D2] D3] D4].
  destruct (fe_draw fuel r r1 n1 Hr G1) as (Hr1 & s & E1); [now rewrite D1, D2 |].
  destruct (scalar_draw fuel r1 r2 n2 Hr1 G2) as (b & E2); [now rewrite D3, D4 |].
  rewrite E1. cbv zeta. rewrite E2. unfold secp256k1_ecmult_gen. cbn [gen_prec]. rewrite Ep. eexists. reflexivity.
Qed.

Lemma null_rng : rfc_ok (secp256k1_rfc6979_hmac_sha256_initialize (be_bytes 32 1)).
Proof.
  apply rfc6979_initialize_ok; [apply limbs_lt_be_bytes |]. rewrite length_be_bytes. reflexivity.
Qed.

Lemma blind_null_total fuel ctx prec : gen_prec ctx = Some prec ->
  exists ctx', secp256k1_ecmult_gen_blind (S fuel) ctx None = Some ctx'.
Proof.
  intros Ep. destruct (sc_set_int_ok 1 ltac:(lia)) as [S1 V1]. pose proof (sc_get_b32_ok _ S1) as E. rewrite V1 in E.
  set (c := EcmultGenContext (gen_prec ctx) (sc_set_int 1) (secp256k1_gej_neg (secp256k1_gej_set_ge secp256k1_ge_const_g))).
  destruct (blind_from_total fuel c prec _ null_rng null_draws Ep) as [ctx' H]. exists ctx'.
  rewrite <- E in H. exact H.
Qed.

(** Building a fresh context succeeds with the first draws and gives a context
    that multiplies correctly. *)
Lemma gen_build_ok fuel ctx : gen_prec ctx = None ->
  exists ctx', secp256k1_ecmult_gen_context_build (S fuel) ctx = Some ctx' /\ gen_ctx_ok ctx'.
Proof.
  intros E. unfold secp256k1_ecmult_gen_context_build. rewrite E.
  pose proof (gen_table_ok nums_U nums_at nums_finite) as Hp. set (c := EcmultGenContext _ _ _).
  assert (Ec : gen_prec c = Some gen_table) by reflexivity. clearbody c.
  destruct (blind_null_total fuel c gen_table Ec) as [ctx' E']. exists ctx'. split; [exact E' |].
  exact (proj1 (gen_blind_ok _ c None ctx' (ex_intro _ gen_table (conj Ec Hp)) E')).
Qed.
End Build.
