(* ===== verification/EcmultConst.v ===== *)
(** Constant-time multiplication, [ecmult_const.h] and
    [ecmult_const_impl.h] without the endomorphism, over any field and scalar
    representation. *)

From Stdlib Require Import ZArith Lia List Bool.
From S2P Require Import Prelude Limbs Fp FieldSpec FieldGen Group ScalarSpec ScalarGen Ecmult.
Import ListNotations.
Open Scope Z_scope.

(** The width of the scalars, which the macro [WNAF_BITS] fixes for the build. *)
Definition WNAF_SIZE (WNAF_BITS w : Z) : Z := (WNAF_BITS + w - 1) / w.

Section Code.
Context {I : FieldImpl} {J : ScalarImpl}.

(** [for (m = 0; m < ECMULT_TABLE_SIZE(w); m++)], over the entries from [m]. *)
Fixpoint const_table_loop (rx ry : fe) (pre : list ge) (m idx_n : Z) : fe * fe :=
  match pre with
  | [] => (rx, ry)
  | e :: pre' =>
      let rx := fe_cmov rx (ge_x e) (b2z (m =? idx_n)) in
      let ry := fe_cmov ry (ge_y e) (b2z (m =? idx_n)) in
      const_table_loop rx ry pre' (m + 1) idx_n
  end.

(** [r] is the output before: its coordinates are overwritten by one move. *)
Definition ECMULT_CONST_TABLE_GET_GE (r : ge) (pre : list ge) (n w : Z) : ge :=
  let abs_n := n * (b2z (n >? 0) * 2 - 1) in
  let idx_n := Z.quot abs_n 2 in
  let '(rx, ry) := const_table_loop (ge_x r) (ge_y r) (firstn (ECMULT_TABLE_SIZE w) pre) 0 idx_n in
  let neg_y := fe_negate ry 1 in
  let ry := fe_cmov ry neg_y (b2z (negb (n =? abs_n))) in
  Ge rx ry 0.

(** [while (word * w < WNAF_BITS)]: the words from [word] on and the last [u]. *)
Fixpoint wnaf_const_loop (WNAF_BITS : Z) (fuel : nat) (s : scalar) (w global_sign word u_last u : Z) : list Z * Z :=
  match fuel with
  | O => ([], u)
  | S fuel' =>
      if word * w <? WNAF_BITS then
        let '(s, u) := sc_shr_int s w in
        let even := b2z ((u .& 1) =? 0) in
        let sign := 2 * b2z (u_last >? 0) - 1 in
        let u := u + sign * even in
        let u_last := u_last - sign * even * (1 << w) in
        let '(wnaf, u') := wnaf_const_loop WNAF_BITS fuel' s w global_sign (word + 1) u u in
        (u_last * global_sign :: wnaf, u')
      else ([], u)
  end.

(** Returns the array [wnaf] and the skew. *)
Definition secp256k1_wnaf_const (WNAF_BITS : Z) (s : scalar) (w : Z) : list Z * Z :=
  let flip := sc_is_high s in
  let bit := flip .^ b2z (negb (z2b (secp256k1_scalar_is_even s))) in
  let neg_s := sc_negate s in
  let not_neg_one := b2z (negb (z2b (sc_is_one neg_s))) in
  let s := sc_cadd_bit s bit not_neg_one in
  let '(s, global_sign) := sc_cond_negate s flip in
  let global_sign := global_sign * (not_neg_one * 2 - 1) in
  let skew := 1 << bit in
  let '(s, u_last) := sc_shr_int s w in
  let '(wnaf, u) := wnaf_const_loop WNAF_BITS (Z.to_nat WNAF_BITS) s w global_sign 0 u_last 0 in
  (wnaf ++ [u * global_sign], skew).

Fixpoint const_double_loop (k : nat) (r : gej) : gej :=
  match k with
  | O => r
  | S k' => const_double_loop k' (fst (secp256k1_gej_double_nonzero r r None))
  end.

(** [for (i = WNAF_SIZE(WINDOW_A - 1) - 1; i >= 0; i--)]. *)
Fixpoint ecmult_const_loop (pre_a : list ge) (wnaf_1 : list Z) (tmpa : ge) (r : gej) (i : nat) : gej :=
  match i with
  | O => r
  | S j =>
      let r := const_double_loop (Z.to_nat (WINDOW_A - 1)) r in
      let n := wnaf_1.[j] in
      let tmpa := ECMULT_CONST_TABLE_GET_GE tmpa pre_a n WINDOW_A in
      let r := secp256k1_gej_add_ge r tmpa in
      ecmult_const_loop pre_a wnaf_1 tmpa r j
  end.

Definition WNAF_BITS : Z := 256.

Definition ge_normalize_y (g : ge) : ge := Ge (ge_x g) (fe_normalize_weak (ge_y g)) (ge_infinity g).

(** The correction for the skew. *)
Definition ecmult_const_correct (r : gej) (a : ge) (skew_1 : Z) : gej :=
  let correction := a in
  let tmpj := secp256k1_gej_set_ge correction in
  let tmpj := fst (secp256k1_gej_double_var tmpj tmpj None) in
  let '(correction, tmpj) := secp256k1_ge_set_gej tmpj in
  let correction_1_stor := secp256k1_ge_to_storage a in
  let a2_stor := secp256k1_ge_to_storage correction in
  let correction_1_stor := secp256k1_ge_storage_cmov correction_1_stor a2_stor (b2z (skew_1 =? 2)) in
  let correction := secp256k1_ge_from_storage correction_1_stor in
  let correction := secp256k1_ge_neg correction in
  secp256k1_gej_add_ge r correction.

Definition secp256k1_ecmult_const (a : ge) (scalar : scalar) : gej :=
  let sc := scalar in
  let '(wnaf_1, skew_1) := secp256k1_wnaf_const WNAF_BITS sc (WINDOW_A - 1) in
  let r := secp256k1_gej_set_ge a in
  let '(pre_a, Zr) := secp256k1_ecmult_odd_multiples_table_globalz_windowa r in
  let pre_a := map ge_normalize_y pre_a in
  let i := wnaf_1.[Z.to_nat (WNAF_SIZE WNAF_BITS (WINDOW_A - 1))] in
  let tmpa := ECMULT_CONST_TABLE_GET_GE secp256k1_ge_clear pre_a i WINDOW_A in
  let r := secp256k1_gej_set_ge tmpa in
  let r := ecmult_const_loop pre_a wnaf_1 tmpa r (Z.to_nat (WNAF_SIZE WNAF_BITS (WINDOW_A - 1))) in
  let r := Gej (gej_x r) (gej_y r) (fe_mul (gej_z r) Zr) (gej_infinity r) in
  ecmult_const_correct r a skew_1.
End Code.
