(* ===== verification/EcmultConstSpec.v ===== *)
(** Constant-time multiplication is [scalar * A] for every scalar. *)

From Stdlib Require Import ZArith Lia List Bool Zmod Field.
From S2P Require Import Prelude Limbs Primes Fp Curve CurveGroup FieldSpec FieldGen.
From S2P Require Import Group GroupSpec GroupOps GOrder Cofactor GroupTable ScalarSpec ScalarGen.
From S2P Require Import Ecmult EcmultWnaf EcmultTable EcmultSpec EcmultConst EcmultGenSpec.
Import ListNotations.
Open Scope Z_scope.

(** A digit of the constant-time form: odd and below [2^w] in absolute value. *)
Definition const_digit (w d : Z) : Prop := d mod 2 = 1 /\ Z.abs d < 2 ^ w.

Section Digits.
Context {J : ScalarImpl} {M : ScalarLaws J}.
Variables (WNAF_BITS w gs : Z).
Hypothesis Hw : 0 < w < 16.
Hypothesis Hgs : gs = 1 \/ gs = -1.

Lemma digit_sign d : const_digit w d -> const_digit w (d * gs).
Proof.
  intros [Ho Ha]. destruct Hgs as [-> | ->]; [now rewrite Z.mul_1_r |]. split; [| lia].
  rewrite <- Ho. apply (mod_eq_of _ _ (- d)); lia.
Qed.

(** One step keeps [u_last + 2^w * u] and makes both odd. *)
Lemma const_step u_last u : const_digit w u_last -> -1 <= u_last -> 0 <= u < 2 ^ w ->
  let even := b2z ((u .& 1) =? 0) in
  let sign := 2 * b2z (u_last >? 0) - 1 in
  let u' := u + sign * even in
  let l' := u_last - sign * even * (1 << w) in
  const_digit w u' /\ -1 <= u' /\ const_digit w l' /\ l' + 2 ^ w * u' = u_last + 2 ^ w * u.
Proof.
  intros [Ho Ha] Hl Hu even sign u' l'. unfold l', u', sign, even.
  replace (u .& 1) with (u mod 2) by (symmetry; exact (Z.land_ones u 1 ltac:(lia))). rewrite Z.shiftl_1_l, Z.gtb_ltb.
  assert (P : 2 ^ w = 2 * 2 ^ (w - 1)) by (rewrite <- Z.pow_succ_r by lia; f_equal; lia).
  pose proof (Z.mod_pos_bound u 2 ltac:(lia)). pose proof (Z.div_mod u 2 ltac:(lia)). pose proof (Z.div_mod u_last 2 ltac:(lia)).
  unfold const_digit. destruct (Z.eqb_spec (u mod 2) 0) as [E | E]; cbn [b2z].
  - destruct (Z.ltb_spec 0 u_last); cbn [b2z].
    + repeat split; try lia; (rewrite <- Ho || idtac).
      * symmetry. rewrite Ho. apply (mod_of_reduced _ _ (u / 2)); lia.
      * apply (mod_eq_of _ _ (- 2 ^ (w - 1))); lia.
    + assert (u_last = -1) by lia. subst u_last. repeat split; try lia; (rewrite <- Ho || idtac).
      * symmetry. rewrite Ho. apply (mod_of_reduced _ _ (u / 2 - 1)); lia.
      * apply (mod_eq_of _ _ (2 ^ (w - 1))); lia.
  - rewrite !Z.mul_0_r, Z.add_0_r, Z.mul_0_l, Z.sub_0_r. repeat split; lia.
Qed.

(** With [k] iterations to go. *)
Lemma wnaf_const_loop_ok k : forall fuel s word u_last u0, (k <= fuel)%nat -> sok s -> 0 <= word ->
  WNAF_BITS <= (word + Z.of_nat k) * w -> ((0 < k)%nat -> (word + Z.of_nat k - 1) * w < WNAF_BITS) ->
  (k = 0%nat -> u0 = u_last) -> const_digit w u_last -> -1 <= u_last -> sv s < 2 ^ (w * Z.of_nat k) ->
  let '(wnaf, u) := wnaf_const_loop WNAF_BITS fuel s w gs word u_last u0 in
  Forall (const_digit w) (wnaf ++ [u * gs]) /\ length wnaf = k /\
  limbs_val w (wnaf ++ [u * gs]) = gs * (u_last + 2 ^ w * sv s).
Proof.
  induction k as [| k IH]; intros fuel s word u_last u0 Hf Hs Hwd Hge Hlt H0 Hd Hl Hb.
  - rewrite (H0 eq_refl). pose proof (sv_range _ Hs) as Rs. change (w * Z.of_nat 0) with (w * 0) in Hb. rewrite Z.mul_0_r in Hb.
    assert (E : wnaf_const_loop WNAF_BITS fuel s w gs word u_last u_last = ([], u_last)).
    { destruct fuel; cbn [wnaf_const_loop]; [reflexivity |]. destruct (Z.ltb_spec (word * w) WNAF_BITS); [lia | reflexivity]. }
    rewrite E. cbn [app length limbs_val]. split; [constructor; [now apply digit_sign | constructor] |].
    split; [reflexivity |]. replace (sv s) with 0 by lia. ring.
  - destruct fuel as [| fuel]; [lia |]. cbn [wnaf_const_loop]. specialize (Hlt ltac:(lia)).
    replace (word * w <? WNAF_BITS) with true by (symmetry; apply Z.ltb_lt; nia).
    destruct (sc_shr_int_ok s w Hs Hw) as (Hs' & Es & Eu). destruct (sc_shr_int s w) as [s' u]. cbn [fst snd] in *.
    assert (Hu : 0 <= u < 2 ^ w) by (rewrite Eu; apply Z.mod_pos_bound; lia).
    destruct (const_step u_last u Hd Hl Hu) as (Hu' & Hl' & Hd' & Sum).
    set (sign := 2 * b2z (u_last >? 0) - 1) in *. set (even := b2z (_ =? 0)) in *. cbv zeta.
    set (u' := u + sign * even) in *. set (l' := u_last - sign * even * (1 << w)) in *.
    specialize (IH fuel s' (word + 1) u' u' ltac:(lia) Hs' ltac:(lia) ltac:(lia) ltac:(lia) ltac:(auto) Hu' Hl').
    pose proof (sv_range _ Hs) as Rs.
    assert (Hb' : sv s' < 2 ^ (w * Z.of_nat k)).
    { rewrite Es. apply Z.div_lt_upper_bound; [lia |]. rewrite <- Z.pow_add_r by lia.
      replace (w + w * Z.of_nat k) with (w * Z.of_nat (S k)) by lia. exact Hb. }
    specialize (IH Hb'). destruct (wnaf_const_loop WNAF_BITS fuel s' w gs (word + 1) u' u') as [wnaf v]. destruct IH as (F & Ln & V).
    cbn [app length limbs_val]. split; [constructor; [now apply digit_sign | exact F] |]. split; [now rewrite Ln |].
    rewrite V. pose proof (Z.div_mod (sv s) (2 ^ w) ltac:(lia)) as D. rewrite <- Es, <- Eu in D. rewrite D.
    transitivity (gs * (l' + 2 ^ w * u' + 2 ^ w * 2 ^ w * sv s')); [ring |]. rewrite Sum. ring.
Qed.
End Digits.

(** * The signed digits *)

Section Wnaf.
Context {J : ScalarImpl} {M : ScalarLaws J}.

Definition wnaf_const_ok (WNAF_BITS w v : Z) (wnaf : list Z) (skew : Z) : Prop :=
  Z.of_nat (length wnaf) = WNAF_SIZE WNAF_BITS w + 1 /\ (skew = 1 \/ skew = 2) /\ Forall (const_digit w) wnaf /\
  limbs_val w wnaf mod secp_n = (v + skew) mod secp_n.

Lemma bit_xor a b : b2z a .^ b2z b = b2z (xorb a b).
Proof. now destruct a, b. Qed.

(** Adding the skew and flipping the sign makes the scalar odd and short. *)
Lemma skewed_ok s flip : sok s -> flip = (secp_n / 2 <? sv s) ->
  let bit := xorb flip (Z.odd (sv s)) in
  let nn := negb (sv s =? secp_n - 1) in
  let t := sc_cadd_bit s (b2z bit) (b2z nn) in
  let p := sc_cond_negate t (b2z flip) in
  let gs := snd p * (b2z nn * 2 - 1) in
  sok (fst p) /\ sv (fst p) mod 2 = 1 /\ sv (fst p) <= Z.min (sv s) (secp_n - sv s) + 2 /\ (gs = 1 \/ gs = -1) /\
  (gs * sv (fst p)) mod secp_n = (sv s + 2 ^ b2z bit) mod secp_n.
Proof.
  intros Hs Ef bit nn t p gs. pose proof (sv_range _ Hs) as R.
  pose proof (Z.div_mod (sv s) 2 ltac:(lia)) as D. rewrite Zmod_odd in D.
  set (h := (secp_n - 1) / 2). assert (En : secp_n = 2 * h + 1) by reflexivity.
  assert (Eh : secp_n / 2 = h) by reflexivity. assert (Hh : 2 < h) by reflexivity. rewrite Eh in Ef. clearbody h.
  assert (Hf : if flip then h < sv s else sv s <= h) by (rewrite Ef; destruct (Z.ltb_spec h (sv s)); assumption). clear Ef Eh.
  assert (Hbit : 0 <= b2z bit < 256) by (unfold b2z; destruct bit; lia).
  assert (Hadd : sv s + b2z nn * 2 ^ b2z bit < secp_n).
  { unfold nn, bit. destruct (Z.eqb_spec (sv s) (secp_n - 1)); cbn [negb b2z]; [lia |].
    destruct flip, (Z.odd (sv s)) eqn:O; rewrite ?O in *; cbn [xorb b2z]; change (2 ^ 0) with 1; change (2 ^ 1) with 2; lia. }
  destruct (sc_cadd_bit_ok s (b2z bit) nn Hs Hbit Hadd) as [Ht Vt]. fold t in Ht, Vt.
  destruct (sc_cond_negate_ok t flip Ht) as (Hp & Vp & Ep). fold p in Hp, Vp, Ep. split; [exact Hp |].
  unfold gs. rewrite Ep, Vp. clear gs Ep Hp Vp.
  assert (Nz : 0 < sv t -> (- sv t) mod secp_n = secp_n - sv t).
  { intros C. symmetry. apply (mod_of_reduced _ _ (-1)); lia. }
  assert (Pt : flip = true -> 0 < sv t).
  { intros ->. rewrite Vt. assert (0 <= b2z nn * 2 ^ b2z bit) by (unfold b2z; destruct nn, bit; cbn; lia). lia. }
  unfold nn, bit in *. clear nn bit. destruct (Z.eqb_spec (sv s) (secp_n - 1)) as [E1 | N1]; cbn [negb b2z] in *.
  - destruct flip; [| lia]. rewrite (Nz (Pt eq_refl)), Vt.
    assert (O : Z.odd (sv s) = false) by (rewrite E1, En; replace (2 * h + 1 - 1) with (2 * h) by lia; now rewrite Z.odd_mul).
    rewrite O. cbn [xorb b2z]. change (2 ^ 1) with 2. split; [symmetry; apply (mod_of_reduced _ _ 0); lia |]. split; [lia |].
    split; [lia |]. apply (mod_eq_of _ _ (-1)); lia.
  - destruct flip; [rewrite (Nz (Pt eq_refl)) |]; rewrite Vt; clear Nz Pt Vt Ht;
      destruct (Z.odd (sv s)) eqn:O; rewrite ?O in *; cbn [xorb b2z] in *; change (2 ^ 0) with 1 in *; change (2 ^ 1) with 2 in *.
    + split; [symmetry; apply (mod_of_reduced _ _ (h - sv s / 2 - 1)); lia |]. split; [lia |]. split; [lia |].
      apply (mod_eq_of _ _ (-1)); lia.
    + split; [symmetry; apply (mod_of_reduced _ _ (h - sv s / 2 - 1)); lia |]. split; [lia |]. split; [lia |].
      apply (mod_eq_of _ _ (-1)); lia.
    + split; [symmetry; apply (mod_of_reduced _ _ (sv s / 2 + 1)); lia |]. split; [lia |]. split; [lia |]. f_equal. lia.
    + split; [symmetry; apply (mod_of_reduced _ _ (sv s / 2)); lia |]. split; [lia |]. split; [lia |]. f_equal. lia.
Qed.

Lemma wnaf_const_ok_holds bits s w : sok s -> 0 < w < 16 -> 1 < bits -> Z.min (sv s) (secp_n - sv s) < 2 ^ bits ->
  wnaf_const_ok bits w (sv s) (fst (secp256k1_wnaf_const bits s w)) (snd (secp256k1_wnaf_const bits s w)).
Proof.
  intros Hs Hw Hbits Hfit. destruct (skewed_ok s _ Hs eq_refl) as (Hp & Ho & Hb & Hg & Hv). cbv zeta in *.
  destruct (sc_negate_ok s Hs) as [Hn Vn]. pose proof (sv_range _ Hs) as R.
  assert (E1 : (sv (sc_negate s) =? 1) = (sv s =? secp_n - 1)).
  { rewrite Vn. destruct (Z.eqb_spec (sv s) (secp_n - 1)) as [-> | N].
    - apply Z.eqb_eq. symmetry. apply (mod_of_reduced _ _ (-1)); unfold secp_n; lia.
    - apply Z.eqb_neq. intros E. destruct (Z.eq_dec (sv s) 0) as [Z | NZ]; [rewrite Z in E; discriminate |].
      assert ((- sv s) mod secp_n = secp_n - sv s) by (symmetry; apply (mod_of_reduced _ _ (-1)); lia). lia. }
  unfold secp256k1_wnaf_const. rewrite sc_is_high_ok, scalar_is_even_ok, sc_is_one_ok, E1 by assumption. rewrite !b2z_b2z, Z.negb_even, bit_xor.
  set (flip := secp_n / 2 <? sv s) in *. set (bit := xorb flip (Z.odd (sv s))) in *.
  set (nn := negb (sv s =? secp_n - 1)) in *. cbv zeta. set (t := sc_cadd_bit s (b2z bit) (b2z nn)) in *.
  destruct (sc_cond_negate t (b2z flip)) as [s1 g]. cbn [fst snd] in *. set (gs := g * (b2z nn * 2 - 1)) in *.
  destruct (sc_shr_int_ok s1 w Hp Hw) as (Hs2 & Es & Eu). destruct (sc_shr_int s1 w) as [s2 u]. cbn [fst snd] in *.
  set (k := Z.to_nat (WNAF_SIZE bits w)). assert (Hk : bits <= Z.of_nat k * w /\ (Z.of_nat k - 1) * w < bits /\ (0 < k)%nat).
  { unfold k, WNAF_SIZE. pose proof (Z.div_mod (bits + w - 1) w ltac:(lia)). pose proof (Z.mod_pos_bound (bits + w - 1) w ltac:(lia)).
    assert (1 <= (bits + w - 1) / w) by (apply Z.div_le_lower_bound; lia). rewrite Z2Nat.id by lia. repeat split; try lia; nia. }
  assert (P2 : 2 ^ w = 2 * 2 ^ (w - 1)) by (rewrite <- Z.pow_succ_r by lia; f_equal; lia).
  assert (Hu : const_digit w u /\ -1 <= u).
  { pose proof (Z.mod_pos_bound (sv s1) (2 ^ w) ltac:(lia)). split; [| lia]. split; [| lia].
    rewrite Eu, P2, Z.mod_mod_divide by (exists (2 ^ (w - 1)); lia). exact Ho. }
  assert (Hsm : sv s2 < 2 ^ (w * Z.of_nat k)).
  { rewrite Es. apply Z.lt_le_trans with (2 ^ bits); [| apply Z.pow_le_mono_r; lia].
    pose proof (Z.pow_le_mono_r 2 2 bits ltac:(lia) ltac:(lia)). change (2 ^ 2) with 4 in *.
    pose proof (Z.pow_le_mono_r 2 1 w ltac:(lia) ltac:(lia)). change (2 ^ 1) with 2 in *. apply Z.div_lt_upper_bound; nia. }
  pose proof (wnaf_const_loop_ok bits w gs Hw Hg k (Z.to_nat bits) s2 0 u 0) as Lp.
  specialize (Lp ltac:(nia) Hs2 ltac:(lia) ltac:(lia) ltac:(lia) ltac:(lia) (proj1 Hu) (proj2 Hu) Hsm).
  destruct (wnaf_const_loop _ _ s2 w gs 0 u 0) as [wnaf v]. destruct Lp as (F & Ln & V). cbn [fst snd].
  split; [rewrite length_app, Ln; cbn [length]; unfold k in *; lia |]. split; [unfold b2z; destruct bit; auto |]. split; [exact F |].
  rewrite V, Es, Eu, Z.add_comm, <- Z.div_mod by lia. rewrite Hv, Z.shiftl_1_l. reflexivity.
Qed.

Lemma wnaf_const_ok_256 s w : sok s -> 0 < w < 16 ->
  wnaf_const_ok WNAF_BITS w (sv s) (fst (secp256k1_wnaf_const WNAF_BITS s w)) (snd (secp256k1_wnaf_const WNAF_BITS s w)).
Proof.
  intros Hs Hw. apply wnaf_const_ok_holds; try assumption; [reflexivity |]. pose proof (sv_range _ Hs).
  unfold WNAF_BITS. assert (secp_n < 2 ^ 256) by reflexivity. lia.
Qed.
End Wnaf.

(** * Reading the table *)

Section Mult.
Context {I : FieldImpl} {L : FieldLaws I} {J : ScalarImpl} {M : ScalarLaws J}.

Definition xy_mags (g : ge) : Prop := mag 31 (ge_x g) /\ mag 31 (ge_y g).

Lemma const_table_loop_ok idx pre : forall rx ry m, mag 31 rx -> mag 31 ry ->
  (forall k, (k < length pre)%nat -> xy_mags (nth_ge pre k)) ->
  const_table_loop rx ry pre m idx =
    if (m <=? idx) && (idx <? m + Z.of_nat (length pre))
    then (ge_x (nth_ge pre (Z.to_nat (idx - m))), ge_y (nth_ge pre (Z.to_nat (idx - m)))) else (rx, ry).
Proof.
  induction pre as [| e pre IH]; intros rx ry m Hx Hy H; cbn [const_table_loop length].
  - zcases; cbn [andb]; try reflexivity; lia.
  - destruct (H 0%nat ltac:(cbn; lia)) as [Ex Ey]. change (nth_ge (e :: pre) 0) with e in Ex, Ey.
    assert (Hr : forall k, (k < length pre)%nat -> xy_mags (nth_ge pre k)) by (intros k Hk; exact (H (S k) ltac:(cbn; lia))).
    rewrite !cmov_ok by assumption. cbv zeta. destruct (Z.eqb_spec m idx) as [-> | N].
    + rewrite IH by assumption. rewrite Z.sub_diag. zcases; cbn [andb]; try reflexivity; lia.
    + rewrite IH by assumption. zcases; cbn [andb]; try reflexivity; try lia.
      replace (Z.to_nat (idx - m)) with (S (Z.to_nat (idx - (m + 1)))) by lia. reflexivity.
Qed.

(** A table whose ordinates have magnitude one. *)
Definition const_pre_ok (u : F) (P : point) (n : nat) (pre : list ge) : Prop :=
  pre_ok u P n pre /\ length pre = n /\ forall j, (j < n)%nat -> mag 1 (ge_y (nth_ge pre j)).

Lemma const_pre_normal u P n pre : pre_ok u P n pre -> length pre = n -> const_pre_ok u P n (map ge_normalize_y pre).
Proof.
  intros H Hl. assert (E : forall j, (j < n)%nat -> nth_ge (map ge_normalize_y pre) j = ge_normalize_y (nth_ge pre j)).
  { intros j Hj. unfold nth_ge. rewrite (nth_indep _ _ (ge_normalize_y (Ge fe_clear fe_clear 0))) by (rewrite length_map; lia). apply map_nth. }
  split; [| split; [now rewrite length_map |]]; intros j Hj; rewrite E by exact Hj; destruct (H j Hj) as (W & Z & Pt);
    destruct (ge_wf_inv _ W) as [Hx Hy]; pose proof (feI_normalize_weak _ _ _ Hy eq_refl) as Hn.
  - destruct (ge_result (ge_normalize_y (nth_ge pre j)) 8 1 _ _ Hx Hn eq_refl Z) as [W' P']. split; [exact W' |]. split; [exact Z |].
    rewrite P', <- Pt. unfold ge_pt. now rewrite Z.
  - apply Hn.
Qed.

Lemma const_get_ok u P w n pre r d : const_pre_ok u P n pre -> n = ECMULT_TABLE_SIZE w -> 2 <= w -> const_digit (w - 1) d ->
  xy_mags r -> let g := ECMULT_CONST_TABLE_GET_GE r pre d w in
  ge_wf g /\ ge_infinity g = 0 /\ ge_pt g = pscale u (smul d P).
Proof.
  intros (HP & Hl & Hm) En Hw [Ho Ha] [Rx Ry] g.
  assert (Nd : d <> 0) by (intros ->; discriminate). destruct (digit_index w n d (or_intror (conj Ho Ha)) Nd Hw En) as [Hj Ej].
  set (j := Z.to_nat ((Z.abs d - 1) / 2)) in *. destruct (HP j Hj) as (W & Z0 & Pt). pose proof (Hm j Hj) as My.
  unfold g, ECMULT_CONST_TABLE_GET_GE. replace (d * (b2z (d >? 0) * 2 - 1)) with (Z.abs d).
  2: { rewrite Z.gtb_ltb. destruct (Z.ltb_spec 0 d); cbn [b2z]; lia. }
  assert (Eq : Z.quot (Z.abs d) 2 = Z.of_nat j).
  { rewrite Z.quot_div_nonneg by lia. rewrite <- Ej. symmetry. apply (Z.div_unique _ _ _ 1); lia. }
  cbv zeta. rewrite Eq, <- En, firstn_all2 by lia. rewrite const_table_loop_ok; [| assumption | assumption |].
  2: { intros k Hk. rewrite Hl in Hk. destruct (HP k Hk) as ((Wx & Wy & _) & _). split; now apply (mag_weaken 8). }
  rewrite Hl. replace ((0 <=? Z.of_nat j) && (Z.of_nat j <? 0 + Z.of_nat n)) with true by (zcases; try reflexivity; lia).
  rewrite Z.sub_0_r, Nat2Z.id. set (e := nth_ge pre j) in *. destruct (ge_wf_inv e W) as [Hx _].
  assert (Hy : FeI (ge_y e) 1 (fv (ge_y e))) by (split; [exact My | reflexivity]).
  eassert (Hn : FeI (fe_negate (ge_y e) 1) _ _) by typeclasses eauto. fe_norm_mag Hn.
  rewrite cmov_ok by (eapply (mag_weaken 2); [lia | first [exact (proj1 Hn) | now apply (mag_weaken 1)]]).
  rewrite (smul_abs d). unfold ge_pt in Pt. rewrite Z0, Ej in Pt. cbn [z2b Z.eqb negb] in Pt.
  destruct (Z.eqb_spec d (Z.abs d)) as [Ep | Np]; cbn [negb].
  - destruct (ge_result (Ge (ge_x e) (ge_y e) 0) 8 1 _ _ Hx Hy eq_refl eq_refl) as [W' P']. split; [exact W' |]. split; [reflexivity |].
    rewrite P'. rewrite Z.gtb_ltb. destruct (Z.ltb_spec 0 d); [exact Pt | lia].
  - destruct (ge_result (Ge (ge_x e) (fe_negate (ge_y e) 1) 0) 8 2 _ _ Hx Hn eq_refl eq_refl) as [W' P']. split; [exact W' |]. split; [reflexivity |].
    rewrite P'. rewrite Z.gtb_ltb. destruct (Z.ltb_spec 0 d); [lia |]. rewrite pscale_pneg, <- Pt. reflexivity.
Qed.

(** * The loop *)

Section Loop.
Variables (pre_a : list ge) (Zr : fe) (A : point).
Hypothesis SA : secp A.
Hypothesis NZ : fv Zr <> 0%F.
Hypothesis HA : const_pre_ok (fv Zr) A (ECMULT_TABLE_SIZE WINDOW_A) pre_a.

Lemma wf_xy_mags g : ge_wf g -> xy_mags g.
Proof. intros (Hx & Hy & _). split; now apply (mag_weaken 8). Qed.

Lemma acc_add_const r P g Q : acc_ok Zr r P -> ge_wf g -> ge_infinity g = 0 -> secp Q -> ge_pt g = pscale (fv Zr) Q ->
  acc_ok Zr (secp256k1_gej_add_ge r g) (padd P Q).
Proof.
  intros H Wg Eg SQ Pg. destruct (acc_curve Zr NZ r P H) as [O _]. destruct H as (W & S & E).
  destruct (gej_add_ge_ok (curve_b * fv Zr ^ 6) r g W Wg Eg O) as [W' P'].
  - rewrite Pg. now apply pscale_on_curve.
  - split; [exact W' |]. split; [now apply padd_on_curve |]. rewrite P', E, Pg. symmetry. now apply pscale_padd.
Qed.

Lemma acc_doubles k : forall r v, acc_ok Zr r (smul v A) -> acc_ok Zr (const_double_loop k r) (smul (2 ^ Z.of_nat k * v) A).
Proof.
  induction k as [| k IH]; intros r v H; cbn [const_double_loop]; [now rewrite Z.mul_1_l |].
  apply (acc_double Zr NZ) in H. rewrite <- (smul_add curve_b curve_b_nz) in H by exact SA.
  unfold secp256k1_gej_double_nonzero. apply IH in H. rewrite Nat2Z.inj_succ, Z.pow_succ_r by lia.
  replace (2 * 2 ^ Z.of_nat k * v) with (2 ^ Z.of_nat k * (v + v)) by ring. exact H.
Qed.

Lemma limbs_val_skipn w l i : (i < length l)%nat -> limbs_val w (skipn i l) = nth i l 0 + 2 ^ w * limbs_val w (skipn (S i) l).
Proof.
  revert l. induction i as [| i IH]; intros [| h t] Hi; cbn [length] in Hi; try lia; [reflexivity |].
  change (skipn (S i) (h :: t)) with (skipn i t). rewrite IH by lia. reflexivity.
Qed.

Lemma ecmult_const_loop_ok wnaf i : forall tmpa r, (i <= length wnaf)%nat -> Forall (const_digit (WINDOW_A - 1)) wnaf ->
  xy_mags tmpa -> acc_ok Zr r (smul (limbs_val (WINDOW_A - 1) (skipn i wnaf)) A) ->
  acc_ok Zr (ecmult_const_loop pre_a wnaf tmpa r i) (smul (limbs_val (WINDOW_A - 1) wnaf) A).
Proof.
  induction i as [| i IH]; intros tmpa r Hi HF Ht H; cbn [ecmult_const_loop]; [exact H |]. cbv zeta.
  rewrite Forall_forall in HF. pose proof (HF _ (nth_In wnaf 0 (ltac:(lia) : (i < length wnaf)%nat))) as Hd.
  rewrite <- Forall_forall in HF. destruct (const_get_ok _ A WINDOW_A _ pre_a tmpa _ HA eq_refl ltac:(discriminate) Hd Ht) as (Wg & Eg & Pg).
  apply IH; [lia | exact HF | now apply wf_xy_mags |]. rewrite limbs_val_skipn by lia.
  rewrite Z.add_comm, (smul_add curve_b curve_b_nz) by exact SA. apply acc_add_const; try assumption; [| now apply smul_secp].
  exact (acc_doubles (Z.to_nat (WINDOW_A - 1)) r _ H).
Qed.
End Loop.

(** * The result *)

Lemma acc_result_always r Zr P : FeI Zr 8 (fv Zr) -> fv Zr <> 0%F -> acc_ok Zr r P ->
  let q := Gej (gej_x r) (gej_y r) (fe_mul (gej_z r) Zr) (gej_infinity r) in gej_wf q /\ gej_pt q = P.
Proof.
  intros HZ NZ H q. pose proof (acc_result r Zr P HZ NZ H) as R. cbv zeta in R. destruct (z2b (gej_infinity r)) eqn:E; cbn [negb] in R; [| exact R].
  destruct R as [W Ep]. split.
  - destruct (gej_wf_mags r W) as (_ & _ & Hz). eassert (Hm : FeI (fe_mul (gej_z r) Zr) _ _) by typeclasses eauto.
    destruct W as (Wx & Wy & _ & Wi & _). unfold q, gej_wf. cbn [gej_x gej_y gej_z gej_infinity].
    split; [exact Wx |]. split; [exact Wy |]. split; [exact (mag_8 _ _ _ Hm eq_refl) |]. split; [exact Wi |].
    intros E0. rewrite E0 in E. discriminate.
  - rewrite <- Ep. rewrite !gej_pt_inf by exact E. reflexivity.
Qed.

(** The point that is added for a skew, [- skew * A]. *)
Lemma skew_point a skew : ge_wf a -> ge_infinity a = 0 -> secp (ge_pt a) -> skew = 1 \/ skew = 2 ->
  let j := secp256k1_gej_set_ge a in
  let g2 := fst (secp256k1_ge_set_gej (fst (secp256k1_gej_double_var j j None))) in
  let st := secp256k1_ge_storage_cmov (secp256k1_ge_to_storage a) (secp256k1_ge_to_storage g2) (b2z (skew =? 2)) in
  let g := secp256k1_ge_neg (secp256k1_ge_from_storage st) in
  ge_wf g /\ ge_infinity g = 0 /\ ge_pt g = smul (- skew) (ge_pt a).
Proof.
  intros Wa Ea SA Hk. set (A := ge_pt a) in *. cbv zeta.
  assert (NA : A <> Inf) by (unfold A, ge_pt; rewrite Ea; discriminate).
  destruct (gej_set_ge_ok a Wa) as [W1 P1]. fold A in P1.
  destruct (at_double _ A (conj W1 (conj P1 SA))) as (W2 & P2 & S2). set (j2 := fst (secp256k1_gej_double_var _ _ None)) in *.
  destruct (ge_set_gej_ok j2 W2) as (W3 & P3 & _ & _). destruct (secp256k1_ge_set_gej j2) as [g2 t]. cbn [fst snd] in *.
  rewrite P2 in P3. assert (N2 : padd A A <> Inf) by (intros E; apply NA; now apply no_order_two).
  assert (F2 : ge_infinity g2 = 0).
  { apply z2b_0; [apply W3 |]. destruct (z2b (ge_infinity g2)) eqn:E; [| reflexivity]. exfalso. apply N2. rewrite <- P3. now apply ge_pt_inf. }
  destruct (ge_storage_ok a Wa Ea) as (Ax & Ay & _ & _ & WA & PA). destruct (ge_storage_ok g2 W3 F2) as (Bx & By & _ & _ & WB & PB).
  rewrite ge_storage_cmov_ok by assumption. fold A in PA. rewrite P3 in PB. set (st := if skew =? 2 then _ else _).
  assert (Hst : ge_wf (secp256k1_ge_from_storage st) /\ ge_pt (secp256k1_ge_from_storage st) = smul skew A).
  { unfold st. destruct Hk as [-> | ->]; cbn [Z.eqb Pos.eqb]; [now split |]. split; [exact WB |]. rewrite PB. reflexivity. }
  destruct Hst as [Ws Ps]. destruct (ge_neg_ok _ Ws) as [Wn Pn]. rewrite Ps, <- smul_opp in Pn. split; [exact Wn |]. now split.
Qed.

Lemma add_ge_secp r g P Q : gej_wf r -> gej_pt r = P -> secp P -> ge_wf g -> ge_infinity g = 0 -> ge_pt g = Q -> secp Q ->
  gej_wf (secp256k1_gej_add_ge r g) /\ gej_pt (secp256k1_gej_add_ge r g) = padd P Q.
Proof.
  intros Wr Er SP Wg Eg Pg SQ. destruct (gej_add_ge_ok curve_b r g Wr Wg Eg) as [W P']; [now rewrite Er | now rewrite Pg |].
  split; [exact W |]. now rewrite P', Er, Pg.
Qed.

Lemma correct_ok r a skew P : gej_wf r -> gej_pt r = P -> secp P -> ge_wf a -> ge_infinity a = 0 -> secp (ge_pt a) ->
  skew = 1 \/ skew = 2 ->
  gej_wf (ecmult_const_correct r a skew) /\ gej_pt (ecmult_const_correct r a skew) = padd P (smul (- skew) (ge_pt a)).
Proof.
  intros Wr Er SP Wa Ea SA Hk. destruct (skew_point a skew Wa Ea SA Hk) as (Wg & Eg & Pg). unfold ecmult_const_correct. cbv zeta in *.
  destruct (secp256k1_ge_set_gej _) as [g2 t]. apply add_ge_secp; try assumption. now apply smul_secp.
Qed.

Lemma ecmult_const_ok a k : ge_wf a -> ge_infinity a = 0 -> secp (ge_pt a) -> sok k ->
  gej_wf (secp256k1_ecmult_const a k) /\ gej_pt (secp256k1_ecmult_const a k) = smul (sv k) (ge_pt a).
Proof.
  intros Wa Ea SA Hk. set (A := ge_pt a) in *. assert (NA : A <> Inf) by (unfold A, ge_pt; rewrite Ea; discriminate).
  unfold secp256k1_ecmult_const. cbv zeta. destruct (gej_set_ge_ok a Wa) as [W1 P1]. fold A in P1.
  pose proof (wnaf_const_ok_256 k (WINDOW_A - 1) Hk ltac:(unfold WINDOW_A; lia)) as (Ln & Hs & HF & HV).
  destruct (secp256k1_wnaf_const WNAF_BITS k (WINDOW_A - 1)) as [wnaf skew]. cbn [fst snd] in *.
  destruct (globalz_windowa_ok (secp256k1_gej_set_ge a) W1) as (HZ & NZ & HA & Lp); [now rewrite P1 | now rewrite P1 |]. rewrite P1 in HA.
  destruct (secp256k1_ecmult_odd_multiples_table_globalz_windowa _) as [pre Zr]. cbn [fst snd] in *.
  apply (const_pre_normal _ _ _ _ HA) in Lp. clear HA. set (pre' := map ge_normalize_y pre) in *.
  set (N := Z.to_nat (WNAF_SIZE WNAF_BITS (WINDOW_A - 1))). assert (LN : length wnaf = S N) by (change (WNAF_SIZE WNAF_BITS (WINDOW_A - 1)) with 64 in *; unfold N; lia).
  assert (Hclr : xy_mags secp256k1_ge_clear).
  { pose proof (norm_mag _ (proj1 clear_ok)) as H. apply (mag_weaken 1 31) in H; [| lia]. now split. }
  pose proof HF as HF'. rewrite Forall_forall in HF'. pose proof (HF' _ (nth_In wnaf 0 (ltac:(lia) : (N < length wnaf)%nat))) as Hd.
  destruct (const_get_ok _ A WINDOW_A _ pre' secp256k1_ge_clear _ Lp eq_refl ltac:(discriminate) Hd Hclr) as (Wg & Eg & Pg).
  set (tmpa := ECMULT_CONST_TABLE_GET_GE _ _ _ _) in *. destruct (gej_set_ge_ok tmpa Wg) as [W2 P2]. rewrite Pg in P2.
  assert (A0 : acc_ok Zr (secp256k1_gej_set_ge tmpa) (smul (limbs_val (WINDOW_A - 1) (skipn N wnaf)) A)).
  { split; [exact W2 |]. split; [now apply smul_secp |]. rewrite P2, limbs_val_skipn by lia. rewrite (skipn_all2 wnaf) by lia.
    cbn [limbs_val]. now rewrite Z.mul_0_r, Z.add_0_r. }
  pose proof (ecmult_const_loop_ok pre' Zr A SA NZ Lp wnaf N tmpa _ ltac:(lia) HF (wf_xy_mags _ Wg) A0) as A1.
  destruct (acc_result_always _ Zr _ HZ NZ A1) as [W3 P3].
  destruct (correct_ok _ a skew _ W3 P3 (smul_secp _ A SA) Wa Ea SA Hs) as [W4 P4]. split; [exact W4 |]. rewrite P4. fold A.
  rewrite <- (smul_add curve_b curve_b_nz) by exact SA. apply smul_eq_mod; [exact SA |].
  rewrite Z.add_mod, HV, <- Z.add_mod by discriminate. f_equal. lia.
Qed.
End Mult.
