(* ===== verification/EcmultEndo.v ===== *)
(** Multiplication in the build with [USE_ENDOMORPHISM]: the parts of
    [ecmult.h], [ecmult_impl.h] and [ecmult_const_impl.h] that the macro selects,
    over any field and scalar representation.  What does not depend on the macro
    is in [Ecmult] and [EcmultConst]. *)

From Stdlib Require Import ZArith Lia List Bool.
From S2P Require Import Prelude Limbs Fp FieldSpec FieldGen Group ScalarSpec ScalarGen Ecmult EcmultConst.
Import ListNotations.
Open Scope Z_scope.

Definition WINDOW_G : Z := 15.
Definition WNAF_BITS : Z := 128.

Section Code.
Context {I : FieldImpl} {J : ScalarImpl}.

(** * The context *)

Record ecmult_context : Type := EcmultContext {
  pre_g : option (list ge_storage);
  pre_g_128 : option (list ge_storage)
}.

Definition secp256k1_ecmult_context_init : ecmult_context := EcmultContext None None.

(** [for (i = 0; i < 128; i++)]. *)
Fixpoint g_128_loop (k : nat) (g_128j : gej) : gej :=
  match k with
  | O => g_128j
  | S k' => g_128_loop k' (fst (secp256k1_gej_double_var g_128j g_128j None))
  end.

Definition secp256k1_ecmult_context_build (ctx : ecmult_context) : ecmult_context :=
  match pre_g ctx with
  | Some _ => ctx
  | None =>
      let gj := secp256k1_gej_set_ge secp256k1_ge_const_g in
      let n := ECMULT_TABLE_SIZE WINDOW_G in
      let g_128j := g_128_loop 128 gj in
      EcmultContext (Some (secp256k1_ecmult_odd_multiples_table_storage_var n gj))
        (Some (secp256k1_ecmult_odd_multiples_table_storage_var n g_128j))
  end.

Definition secp256k1_ecmult_context_clone (src : ecmult_context) : ecmult_context :=
  EcmultContext (match pre_g src with None => None | Some t => Some t end)
    (match pre_g_128 src with None => None | Some t => Some t end).

Definition secp256k1_ecmult_context_is_built (ctx : ecmult_context) : Z :=
  match pre_g ctx with
  | Some _ => 1
  | None => 0
  end.

Definition secp256k1_ecmult_context_clear (ctx : ecmult_context) : ecmult_context :=
  secp256k1_ecmult_context_init.

(** * Multiplication *)

(** The digits of the four halves of the scalars, with their lengths. *)
Record endo_digits : Type := EndoDigits {
  wnaf_na_1 : list Z; bits_na_1 : Z;
  wnaf_na_lam : list Z; bits_na_lam : Z;
  wnaf_ng_1 : list Z; bits_ng_1 : Z;
  wnaf_ng_128 : list Z; bits_ng_128 : Z
}.

(** One iteration of the main loop, at position [i]. *)
Definition ecmult_step (pre_a pre_a_lam : list ge) (Zr : fe) (pre_g pre_g_128 : list ge_storage) (d : endo_digits)
    (r : gej) (i : nat) : gej :=
  let r := fst (secp256k1_gej_double_var r r None) in
  let r := add_table pre_a (wnaf_na_1 d) (bits_na_1 d) i r in
  let r := add_table pre_a_lam (wnaf_na_lam d) (bits_na_lam d) i r in
  let r := add_table_storage pre_g Zr (wnaf_ng_1 d) (bits_ng_1 d) i r in
  add_table_storage pre_g_128 Zr (wnaf_ng_128 d) (bits_ng_128 d) i r.

(** [for (i = bits - 1; i >= 0; i--)]. *)
Fixpoint ecmult_loop (pre_a pre_a_lam : list ge) (Zr : fe) (pre_g pre_g_128 : list ge_storage) (d : endo_digits)
    (r : gej) (i : nat) : gej :=
  match i with
  | O => r
  | S j =>
      let r := ecmult_step pre_a pre_a_lam Zr pre_g pre_g_128 d r j in
      ecmult_loop pre_a pre_a_lam Zr pre_g pre_g_128 d r j
  end.

Definition secp256k1_ecmult (pre_g pre_g_128 : list ge_storage) (a : gej) (na ng : scalar) : gej :=
  let '(na_1, na_lam) := secp256k1_scalar_split_lambda na in
  let '(wnaf_na_1, bits_na_1) := secp256k1_ecmult_wnaf 130 na_1 WINDOW_A in
  let '(wnaf_na_lam, bits_na_lam) := secp256k1_ecmult_wnaf 130 na_lam WINDOW_A in
  let bits := bits_na_1 in
  let bits := if bits_na_lam >? bits then bits_na_lam else bits in
  let '(pre_a, Zr) := secp256k1_ecmult_odd_multiples_table_globalz_windowa a in
  let pre_a_lam := map secp256k1_ge_mul_lambda pre_a in
  let '(ng_1, ng_128) := sc_split_128 ng in
  let '(wnaf_ng_1, bits_ng_1) := secp256k1_ecmult_wnaf 129 ng_1 WINDOW_G in
  let '(wnaf_ng_128, bits_ng_128) := secp256k1_ecmult_wnaf 129 ng_128 WINDOW_G in
  let bits := if bits_ng_1 >? bits then bits_ng_1 else bits in
  let bits := if bits_ng_128 >? bits then bits_ng_128 else bits in
  let r := secp256k1_gej_set_infinity in
  let d := EndoDigits wnaf_na_1 bits_na_1 wnaf_na_lam bits_na_lam wnaf_ng_1 bits_ng_1 wnaf_ng_128 bits_ng_128 in
  let r := ecmult_loop pre_a pre_a_lam Zr pre_g pre_g_128 d r (Z.to_nat bits) in
  if negb (z2b (gej_infinity r))
  then Gej (gej_x r) (gej_y r) (fe_mul (gej_z r) Zr) (gej_infinity r)
  else r.

(** * Constant-time multiplication *)

(** [for (i = WNAF_SIZE(WINDOW_A - 1) - 1; i >= 0; i--)]. *)
Fixpoint ecmult_const_loop (pre_a pre_a_lam : list ge) (wnaf_1 wnaf_lam : list Z) (tmpa : ge) (r : gej) (i : nat) : gej :=
  match i with
  | O => r
  | S j =>
      let r := const_double_loop (Z.to_nat (WINDOW_A - 1)) r in
      let n := wnaf_1.[j] in
      let tmpa := ECMULT_CONST_TABLE_GET_GE tmpa pre_a n WINDOW_A in
      let r := secp256k1_gej_add_ge r tmpa in
      let n := wnaf_lam.[j] in
      let tmpa := ECMULT_CONST_TABLE_GET_GE tmpa pre_a_lam n WINDOW_A in
      let r := secp256k1_gej_add_ge r tmpa in
      ecmult_const_loop pre_a pre_a_lam wnaf_1 wnaf_lam tmpa r j
  end.

(** The correction for the two skews. *)
Definition ecmult_const_correct (r : gej) (a : ge) (skew_1 skew_lam : Z) : gej :=
  let correction := a in
  let tmpj := secp256k1_gej_set_ge correction in
  let tmpj := fst (secp256k1_gej_double_var tmpj tmpj None) in
  let '(correction, tmpj) := secp256k1_ge_set_gej tmpj in
  let correction_1_stor := secp256k1_ge_to_storage a in
  let correction_lam_stor := secp256k1_ge_to_storage a in
  let a2_stor := secp256k1_ge_to_storage correction in
  let correction_1_stor := secp256k1_ge_storage_cmov correction_1_stor a2_stor (b2z (skew_1 =? 2)) in
  let correction_lam_stor := secp256k1_ge_storage_cmov correction_lam_stor a2_stor (b2z (skew_lam =? 2)) in
  let correction := secp256k1_ge_from_storage correction_1_stor in
  let correction := secp256k1_ge_neg correction in
  let r := secp256k1_gej_add_ge r correction in
  let correction := secp256k1_ge_from_storage correction_lam_stor in
  let correction := secp256k1_ge_neg correction in
  let correction := secp256k1_ge_mul_lambda correction in
  secp256k1_gej_add_ge r correction.

Definition secp256k1_ecmult_const (a : ge) (scalar : scalar) : gej :=
  let sc := scalar in
  let '(q_1, q_lam) := secp256k1_scalar_split_lambda sc in
  let '(wnaf_1, skew_1) := secp256k1_wnaf_const WNAF_BITS q_1 (WINDOW_A - 1) in
  let '(wnaf_lam, skew_lam) := secp256k1_wnaf_const WNAF_BITS q_lam (WINDOW_A - 1) in
  let r := secp256k1_gej_set_ge a in
  let '(pre_a, Zr) := secp256k1_ecmult_odd_multiples_table_globalz_windowa r in
  let pre_a := map ge_normalize_y pre_a in
  let pre_a_lam := map secp256k1_ge_mul_lambda pre_a in
  let n := Z.to_nat (WNAF_SIZE WNAF_BITS (WINDOW_A - 1)) in
  let i := wnaf_1.[n] in
  let tmpa := ECMULT_CONST_TABLE_GET_GE secp256k1_ge_clear pre_a i WINDOW_A in
  let r := secp256k1_gej_set_ge tmpa in
  let i := wnaf_lam.[n] in
  let tmpa := ECMULT_CONST_TABLE_GET_GE tmpa pre_a_lam i WINDOW_A in
  let r := secp256k1_gej_add_ge r tmpa in
  let r := ecmult_const_loop pre_a pre_a_lam wnaf_1 wnaf_lam tmpa r n in
  let r := Gej (gej_x r) (gej_y r) (fe_mul (gej_z r) Zr) (gej_infinity r) in
  ecmult_const_correct r a skew_1 skew_lam.
End Code.
