(* ===== verification/EcmultEndoSpec.v ===== *)
(** With the endomorphism the products are the same: [lambda * P] is the point
    with the abscissa multiplied by [beta], and both scalars are split into
    halves whose digits add up to them. *)

From Stdlib Require Import ZArith Lia List Bool Zmod Field.
From S2P Require Import Prelude Limbs Primes Fp Curve CurveGroup FieldSpec FieldGen.
From S2P Require Import Group GroupSpec GroupOps GOrder Cofactor GroupTable ScalarSpec ScalarGen.
From S2P Require Import Ecmult EcmultWnaf EcmultTable EcmultSpec EcmultGenSpec EcmultConst EcmultConstSpec EcmultEndo.
Import ListNotations.
Open Scope Z_scope.

(** * The endomorphism *)

Lemma beta2_nz : (beta ^ 2 <> 0)%F.
Proof. intros E. apply (f_equal Zmod.unsigned) in E. vm_compute in E. discriminate. Qed.

Lemma phi_lambda P : secp P -> phi P = smul lambda P.
Proof.
  intros S. destruct (secp_cyclic P S) as (k & _ & ->). unfold phi. rewrite pscale_smul by exact beta2_nz.
  change (pscale (beta ^ 2) G) with (phi G). rewrite <- lambda_G.
  rewrite <- !(smul_mul curve_b curve_b_nz) by exact G_on_curve. f_equal. ring.
Qed.

Lemma phi_pscale u P : phi (pscale u P) = pscale u (phi P).
Proof. destruct P as [| x y]; [reflexivity |]. cbn [pscale]. rewrite !phi_aff. cbn [pscale]. f_equal. ring. Qed.

Section Mult.
Context {I : FieldImpl} {L : FieldLaws I} {J : ScalarImpl} {M : ScalarLaws J}.

Lemma lambda_entry u P n pre j : pre_ok u P n pre -> length pre = n -> (j < n)%nat -> secp P -> P <> Inf -> Z.of_nat n <= 2 ^ 16 ->
  let g := nth_ge (map secp256k1_ge_mul_lambda pre) j in
  g = secp256k1_ge_mul_lambda (nth_ge pre j) /\
  ge_wf g /\ ge_infinity g = 0 /\ ge_pt g = pscale u (smul (2 * Z.of_nat j + 1) (smul lambda P)).
Proof.
  intros H Hl Hj S N Hn g. assert (E : g = secp256k1_ge_mul_lambda (nth_ge pre j)).
  { unfold g, nth_ge. rewrite (nth_indep _ _ (secp256k1_ge_mul_lambda (Ge fe_clear fe_clear 0))) by (rewrite length_map; lia). apply map_nth. }
  split; [exact E |]. rewrite E. destruct (H j Hj) as (W & Z & Pt).
  assert (Nf : pscale u (smul (2 * Z.of_nat j + 1) P) <> Inf).
  { apply pscale_finite, multiple_finite; try assumption. assert (2 ^ 17 < secp_n) by reflexivity. lia. }
  destruct (ge_mul_lambda_phi (nth_ge pre j) _ W Pt Nf) as [W' P']. split; [exact W' |]. split; [exact Z |].
  rewrite P', phi_pscale, phi_lambda by now apply smul_secp. f_equal. rewrite <- !(smul_mul curve_b curve_b_nz) by exact S. f_equal. ring.
Qed.

Lemma pre_lambda_ok u P n pre : pre_ok u P n pre -> length pre = n -> secp P -> P <> Inf -> Z.of_nat n <= 2 ^ 16 ->
  pre_ok u (smul lambda P) n (map secp256k1_ge_mul_lambda pre).
Proof. intros H Hl S N Hn j Hj. now apply (lambda_entry u P n pre j). Qed.

(** * The halves of the scalars *)

Lemma mod_split x y n : n <> 0 -> x mod n = y mod n -> exists q, x = y + q * n.
Proof.
  intros N E. exists (x / n - y / n). pose proof (Z.div_mod x n N) as Dx. pose proof (Z.div_mod y n N) as Dy.
  rewrite Dx at 1. rewrite Dy at 1. rewrite E. ring.
Qed.

Lemma signed_small k : Z.abs k < 2 ^ 128 -> signed (k mod secp_n) = k.
Proof.
  intros B. unfold signed. assert (2 ^ 128 < 2 ^ 255 /\ 2 ^ 255 < secp_n - 2 ^ 128) by (split; reflexivity).
  destruct (Z.lt_ge_cases k 0) as [C | C].
  - assert (E : k mod secp_n = k + secp_n) by (symmetry; apply (mod_of_reduced _ _ (-1)); lia).
    rewrite E. destruct (Z.leb_spec (2 ^ 255) (k + secp_n)); lia.
  - rewrite Z.mod_small by lia. destruct (Z.leb_spec (2 ^ 255) k); lia.
Qed.

Lemma half_small k : Z.abs k < 2 ^ 128 -> Z.min (k mod secp_n) (secp_n - k mod secp_n) < 2 ^ 128.
Proof.
  intros B. assert (2 ^ 128 < secp_n) by reflexivity. destruct (Z.lt_ge_cases k 0) as [C | C].
  - assert (E : k mod secp_n = k + secp_n) by (symmetry; apply (mod_of_reduced _ _ (-1)); lia). rewrite E. lia.
  - rewrite Z.mod_small by lia. lia.
Qed.

Lemma mod_halves k1 k2 : (k1 + lambda * k2) mod secp_n = (k1 mod secp_n + lambda * (k2 mod secp_n)) mod secp_n.
Proof.
  rewrite Z.add_mod_idemp_l, (Z.add_mod k1 (lambda * (k2 mod secp_n))), Z.mul_mod_idemp_r by discriminate.
  now rewrite <- Z.add_mod by discriminate.
Qed.

Lemma skew_cancel x y v1 v2 s1 s2 : x mod secp_n = (v1 + s1) mod secp_n -> y mod secp_n = (v2 + s2) mod secp_n ->
  (x + lambda * y + (- s1 - lambda * s2)) mod secp_n = (v1 + lambda * v2) mod secp_n.
Proof.
  intros E1 E2. apply mod_split in E1 as [q1 ->]; [| discriminate]. apply mod_split in E2 as [q2 ->]; [| discriminate].
  apply (mod_eq_of _ _ (q1 + lambda * q2)); [discriminate | ring].
Qed.

(** Digits of a scalar shorter than [len - 1] bits. *)
Lemma wnaf_half a k len w : sok a -> sv a = k mod secp_n -> Z.abs k < 2 ^ 128 -> 129 <= len <= 256 -> 2 <= w < 32 ->
  let '(wnaf, bits) := secp256k1_ecmult_wnaf len a w in
  digits_ok w wnaf bits /\ 0 <= bits /\ digits_sum wnaf = k.
Proof.
  intros Ha E B Hl Hw. assert (Sg : signed (sv a) = k) by (rewrite E; now apply signed_small).
  assert (2 ^ 128 <= 2 ^ (len - 1)) by (apply Z.pow_le_mono_r; lia).
  destruct (ecmult_wnaf_ok a w len Ha Hw ltac:(lia) ltac:(rewrite Sg; lia)) as (_ & Hb & Hs & Hd & Hz & _).
  destruct (secp256k1_ecmult_wnaf len a w) as [wnaf bits]. cbn [fst snd] in *. rewrite Sg in Hs. repeat split; auto; lia.
Qed.

(** * The main loop *)

Section Loop.
Variables (pre_a pre_a_lam : list ge) (Zr : fe) (pre_g pre_g_128 : list ge_storage) (A : point) (d : endo_digits).
Hypothesis SA : secp A.
Hypothesis HZ : FeI Zr 8 (fv Zr).
Hypothesis NZ : fv Zr <> 0%F.
Hypothesis HA : pre_ok (fv Zr) A (ECMULT_TABLE_SIZE WINDOW_A) pre_a.
Hypothesis HL : pre_ok (fv Zr) (smul lambda A) (ECMULT_TABLE_SIZE WINDOW_A) pre_a_lam.
Hypothesis HG : pre_storage_ok G (ECMULT_TABLE_SIZE WINDOW_G) pre_g.
Hypothesis HH : pre_storage_ok (smul (2 ^ 128) G) (ECMULT_TABLE_SIZE WINDOW_G) pre_g_128.
Hypothesis D1 : digits_ok WINDOW_A (wnaf_na_1 d) (bits_na_1 d).
Hypothesis D2 : digits_ok WINDOW_A (wnaf_na_lam d) (bits_na_lam d).
Hypothesis D3 : digits_ok WINDOW_G (wnaf_ng_1 d) (bits_ng_1 d).
Hypothesis D4 : digits_ok WINDOW_G (wnaf_ng_128 d) (bits_ng_128 d).

(** The multiples of [A] and of [G] that the digits from [i] on stand for. *)
Definition na_from (i : nat) : Z := digits_sum (skipn i (wnaf_na_1 d)) + lambda * digits_sum (skipn i (wnaf_na_lam d)).
Definition ng_from (i : nat) : Z := digits_sum (skipn i (wnaf_ng_1 d)) + 2 ^ 128 * digits_sum (skipn i (wnaf_ng_128 d)).

Lemma endo_step_ok r i : acc_ok Zr r (comb A (na_from (S i)) (ng_from (S i))) ->
  acc_ok Zr (ecmult_step pre_a pre_a_lam Zr pre_g pre_g_128 d r i) (comb A (na_from i) (ng_from i)).
Proof.
  intros H. apply (acc_double Zr NZ) in H.
  apply (fun H => add_table_ok Zr NZ WINDOW_A pre_a _ _ i _ _ A H SA ltac:(discriminate) D1 HA) in H.
  apply (fun H => add_table_ok Zr NZ WINDOW_A pre_a_lam _ _ i _ _ _ H (smul_secp lambda A SA) ltac:(discriminate) D2 HL) in H.
  apply (fun H => add_table_storage_ok Zr HZ NZ WINDOW_G pre_g _ _ i _ _ G H G_on_curve ltac:(discriminate) D3 HG) in H.
  apply (fun H => add_table_storage_ok Zr HZ NZ WINDOW_G pre_g_128 _ _ i _ _ _ H (G_multiple (2 ^ 128)) ltac:(discriminate) D4 HH) in H.
  rewrite <- !(smul_mul curve_b curve_b_nz) in H by (exact SA || exact G_on_curve).
  rewrite <- !(comb_left A), <- !(comb_right A), !comb_add in H by exact SA.
  unfold na_from, ng_from in *. rewrite !(digits_sum_skipn _ i).
  match type of H with acc_ok _ _ (comb _ ?x ?y) =>
    match goal with |- acc_ok _ _ (comb _ ?x' ?y') => replace x' with x by ring; replace y' with y by ring end end. exact H.
Qed.

Lemma endo_loop_ok i : forall r, acc_ok Zr r (comb A (na_from i) (ng_from i)) ->
  acc_ok Zr (ecmult_loop pre_a pre_a_lam Zr pre_g pre_g_128 d r i) (comb A (na_from 0) (ng_from 0)).
Proof. induction i as [| i IH]; intros r H; cbn [ecmult_loop]; [exact H |]. now apply IH, endo_step_ok. Qed.
End Loop.

(** * The result *)

Lemma if_gtb_max a b : (if a >? b then a else b) = Z.max b a.
Proof. rewrite Z.gtb_ltb. destruct (Z.ltb_spec b a); lia. Qed.

Lemma ecmult_endo_ok pre_g pre_g_128 a na ng : pre_storage_ok G (ECMULT_TABLE_SIZE WINDOW_G) pre_g ->
  pre_storage_ok (smul (2 ^ 128) G) (ECMULT_TABLE_SIZE WINDOW_G) pre_g_128 ->
  gej_wf a -> secp (gej_pt a) -> gej_pt a <> Inf -> sok na -> sok ng ->
  gej_wf (secp256k1_ecmult pre_g pre_g_128 a na ng) /\
  gej_pt (secp256k1_ecmult pre_g pre_g_128 a na ng) = padd (smul (sv na) (gej_pt a)) (smul (sv ng) G).
Proof.
  intros HG HH W S N Hna Hng. unfold secp256k1_ecmult.
  pose proof (split_lambda_spec na Hna) as Sp. destruct (secp256k1_scalar_split_lambda na) as [na_1 na_lam].
  destruct Sp as (O1 & O2 & Ena & k1 & k2 & B1 & B2 & E1 & E2).
  destruct (sc_split_128_ok ng Hng) as (O3 & E3 & O4 & E4). destruct (sc_split_128 ng) as [ng_1 ng_128]. cbn [fst snd] in *.
  pose proof (sv_range _ Hng) as Rg. assert (2 ^ 128 < secp_n /\ secp_n < 2 ^ 128 * 2 ^ 128) as [Hn1 Hn2] by (split; reflexivity).
  pose proof (Z.mod_pos_bound (sv ng) (2 ^ 128) ltac:(lia)) as B3.
  assert (B4 : 0 <= sv ng / 2 ^ 128 < 2 ^ 128) by (split; [apply Z.div_pos; lia | apply Z.div_lt_upper_bound; lia]).
  rewrite <- (Z.mod_small (_ mod _) secp_n) in E3 by lia. rewrite <- (Z.mod_small (_ / _) secp_n) in E4 by lia.
  pose proof (wnaf_half na_1 k1 130 WINDOW_A O1 E1 B1 ltac:(lia) ltac:(unfold WINDOW_A; lia)) as D1.
  pose proof (wnaf_half na_lam k2 130 WINDOW_A O2 E2 B2 ltac:(lia) ltac:(unfold WINDOW_A; lia)) as D2.
  pose proof (wnaf_half ng_1 _ 129 WINDOW_G O3 E3 ltac:(lia) ltac:(lia) ltac:(unfold WINDOW_G; lia)) as D3.
  pose proof (wnaf_half ng_128 _ 129 WINDOW_G O4 E4 ltac:(lia) ltac:(lia) ltac:(unfold WINDOW_G; lia)) as D4.
  destruct (secp256k1_ecmult_wnaf 130 na_1 _) as [w1 b1], (secp256k1_ecmult_wnaf 130 na_lam _) as [w2 b2],
    (secp256k1_ecmult_wnaf 129 ng_1 _) as [w3 b3], (secp256k1_ecmult_wnaf 129 ng_128 _) as [w4 b4].
  destruct D1 as (D1 & P1 & S1), D2 as (D2 & P2 & S2), D3 as (D3 & P3 & S3), D4 as (D4 & P4 & S4).
  destruct (globalz_windowa_ok a W S N) as (HZ & NZ & HA & Lp).
  destruct (secp256k1_ecmult_odd_multiples_table_globalz_windowa a) as [pre_a Zr]. cbn [fst snd] in *. cbv zeta.
  rewrite !if_gtb_max. set (bits := Z.max (Z.max (Z.max b1 b2) b3) b4). set (d := EndoDigits w1 b1 w2 b2 w3 b3 w4 b4).
  pose proof (pre_lambda_ok _ _ _ _ HA Lp S N ltac:(vm_compute; discriminate)) as HL.
  destruct (acc_result (ecmult_loop pre_a (map secp256k1_ge_mul_lambda pre_a) Zr pre_g pre_g_128 d secp256k1_gej_set_infinity (Z.to_nat bits)) Zr
    (comb (gej_pt a) (na_from d 0) (ng_from d 0)) HZ NZ) as [Wr Pr].
  - apply endo_loop_ok; try assumption. unfold na_from, ng_from, d. cbn [wnaf_na_1 wnaf_na_lam wnaf_ng_1 wnaf_ng_128].
    rewrite (digits_sum_end w1 _ b1 (proj2 D1)), (digits_sum_end w2 _ b2 (proj2 D2)), (digits_sum_end w3 _ b3 (proj2 D3)),
      (digits_sum_end w4 _ b4 (proj2 D4)) by lia. rewrite !Z.mul_0_r.
    destruct gej_set_infinity_ok as [Wi Pi]. split; [exact Wi |]. split; [exact Logic.I | exact Pi].
  - cbv zeta in Wr, Pr. split; [exact Wr |]. rewrite Pr. unfold comb, na_from, ng_from, d. cbn [skipn wnaf_na_1 wnaf_na_lam wnaf_ng_1 wnaf_ng_128].
    rewrite S1, S2, S3, S4. f_equal.
    + apply smul_eq_mod; [exact S |]. rewrite <- Ena, Zmod_mod, E1, E2. apply mod_halves.
    + f_equal. pose proof (Z.div_mod (sv ng) (2 ^ 128) ltac:(lia)). lia.
Qed.

(** * The context *)

Lemma g_128_ok k : forall g v, gej_at g (smul v G) -> gej_at (g_128_loop k g) (smul (2 ^ Z.of_nat k * v) G).
Proof.
  induction k as [| k IH]; intros g v H; cbn [g_128_loop]; [now rewrite Z.mul_1_l |].
  apply at_double in H. rewrite <- (smul_add curve_b curve_b_nz) in H by exact G_on_curve. apply IH in H.
  rewrite Nat2Z.inj_succ, Z.pow_succ_r by lia. replace (2 * 2 ^ Z.of_nat k * v) with (2 ^ Z.of_nat k * (v + v)) by ring. exact H.
Qed.

Lemma endo_table g v : gej_at g (smul v G) -> 0 < v < secp_n ->
  pre_storage_ok (smul v G) (ECMULT_TABLE_SIZE WINDOW_G) (secp256k1_ecmult_odd_multiples_table_storage_var (ECMULT_TABLE_SIZE WINDOW_G) g).
Proof.
  intros (W & P & S) Hv. rewrite <- P at 1. apply storage_var_ok; try assumption; try (rewrite P).
  - exact S.
  - apply multiple_finite; [exact G_on_curve | discriminate | exact Hv].
  - unfold ECMULT_TABLE_SIZE. change (1 << (WINDOW_G - 2)) with 8192. lia.
  - unfold ECMULT_TABLE_SIZE. change (1 << (WINDOW_G - 2)) with 8192. rewrite Z2Nat.id by lia. reflexivity.
Qed.

Lemma endo_context_ok : exists t t_128,
  secp256k1_ecmult_context_build secp256k1_ecmult_context_init = EcmultContext (Some t) (Some t_128) /\
  pre_storage_ok G (ECMULT_TABLE_SIZE WINDOW_G) t /\ pre_storage_ok (smul (2 ^ 128) G) (ECMULT_TABLE_SIZE WINDOW_G) t_128.
Proof.
  eexists _, _. split; [reflexivity |]. pose proof g_at as H. change (16 ^ 0) with 1 in H. split.
  - exact (endo_table _ 1 H ltac:(split; reflexivity)).
  - apply (endo_table _ (2 ^ 128)); [| split; reflexivity]. exact (g_128_ok 128 _ 1 H).
Qed.

(** * Constant-time multiplication *)

Lemma const_pre_lambda u P n pre : const_pre_ok u P n pre -> secp P -> P <> Inf -> Z.of_nat n <= 2 ^ 16 ->
  const_pre_ok u (smul lambda P) n (map secp256k1_ge_mul_lambda pre).
Proof.
  intros (H & Hl & Hy) S N Hn. split; [now apply pre_lambda_ok |]. split; [now rewrite length_map |]. intros j Hj.
  destruct (lambda_entry u P n pre j H Hl Hj S N Hn) as [E _]. rewrite E. now apply Hy.
Qed.

Section ConstLoop.
Variables (pre_a pre_a_lam : list ge) (Zr : fe) (A : point) (wnaf_1 wnaf_lam : list Z).
Hypothesis SA : secp A.
Hypothesis NZ : fv Zr <> 0%F.
Hypothesis HA : const_pre_ok (fv Zr) A (ECMULT_TABLE_SIZE WINDOW_A) pre_a.
Hypothesis HL : const_pre_ok (fv Zr) (smul lambda A) (ECMULT_TABLE_SIZE WINDOW_A) pre_a_lam.
Hypothesis F1 : Forall (const_digit (WINDOW_A - 1)) wnaf_1.
Hypothesis F2 : Forall (const_digit (WINDOW_A - 1)) wnaf_lam.

(** The multiple of [A] that the digits from [i] on stand for. *)
Definition const_from (i : nat) : Z := limbs_val (WINDOW_A - 1) (skipn i wnaf_1) + lambda * limbs_val (WINDOW_A - 1) (skipn i wnaf_lam).

Lemma const_entry pre P tmpa wnaf i : const_pre_ok (fv Zr) P (ECMULT_TABLE_SIZE WINDOW_A) pre -> Forall (const_digit (WINDOW_A - 1)) wnaf ->
  (i < length wnaf)%nat -> xy_mags tmpa -> let g := ECMULT_CONST_TABLE_GET_GE tmpa pre (wnaf.[i]) WINDOW_A in
  ge_wf g /\ ge_infinity g = 0 /\ ge_pt g = pscale (fv Zr) (smul (nth i wnaf 0) P).
Proof.
  intros H HF Hi Ht. rewrite Forall_forall in HF.
  exact (const_get_ok _ P WINDOW_A _ pre tmpa _ H eq_refl ltac:(discriminate) (HF _ (nth_In wnaf 0 Hi)) Ht).
Qed.

Lemma endo_const_loop_ok i : forall tmpa r, (i <= length wnaf_1)%nat -> (i <= length wnaf_lam)%nat -> xy_mags tmpa ->
  acc_ok Zr r (smul (const_from i) A) ->
  acc_ok Zr (ecmult_const_loop pre_a pre_a_lam wnaf_1 wnaf_lam tmpa r i) (smul (const_from 0) A).
Proof.
  induction i as [| i IH]; intros tmpa r L1 L2 Ht H; cbn [ecmult_const_loop]; [exact H |]. cbv zeta.
  destruct (const_entry pre_a A tmpa wnaf_1 i HA F1 L1 Ht) as (Wg & Eg & Pg). set (g1 := ECMULT_CONST_TABLE_GET_GE tmpa _ _ _) in *.
  destruct (const_entry pre_a_lam _ g1 wnaf_lam i HL F2 L2 (wf_xy_mags _ Wg)) as (Wh & Eh & Ph). set (g2 := ECMULT_CONST_TABLE_GET_GE g1 _ _ _) in *.
  apply IH; [lia | lia | now apply wf_xy_mags |]. apply (acc_doubles Zr A SA NZ (Z.to_nat (WINDOW_A - 1))) in H.
  apply (fun H => acc_add_const Zr NZ _ _ g1 _ H Wg Eg (smul_secp _ A SA) Pg) in H.
  apply (fun H => acc_add_const Zr NZ _ _ g2 _ H Wh Eh (smul_secp _ _ (smul_secp lambda A SA)) Ph) in H.
  rewrite <- (smul_mul curve_b curve_b_nz), <- !(smul_add curve_b curve_b_nz) in H by exact SA.
  unfold const_from in *. rewrite !(limbs_val_skipn _ _ i) by lia. change (2 ^ Z.of_nat (Z.to_nat (WINDOW_A - 1))) with (2 ^ (WINDOW_A - 1)) in H.
  match type of H with acc_ok _ _ (smul ?x _) => match goal with |- acc_ok _ _ (smul ?x' _) => replace x' with x by ring end end. exact H.
Qed.
End ConstLoop.

Lemma skew_sum l P A x y : secp P -> secp A ->
  padd (padd P (smul (- x) A)) (smul l (smul (- y) A)) = padd P (smul (- x - l * y) A).
Proof.
  intros SP SA. rewrite (padd_assoc curve_b curve_b_nz) by (try exact SP; now repeat apply smul_secp).
  rewrite <- (smul_mul curve_b curve_b_nz), <- (smul_add curve_b curve_b_nz) by exact SA. do 2 f_equal. ring.
Qed.

Lemma endo_correct_ok r a skew_1 skew_lam P : gej_wf r -> gej_pt r = P -> secp P -> ge_wf a -> ge_infinity a = 0 -> secp (ge_pt a) ->
  skew_1 = 1 \/ skew_1 = 2 -> skew_lam = 1 \/ skew_lam = 2 ->
  gej_wf (ecmult_const_correct r a skew_1 skew_lam) /\
  gej_pt (ecmult_const_correct r a skew_1 skew_lam) = padd P (smul (- skew_1 - lambda * skew_lam) (ge_pt a)).
Proof.
  intros Wr Er SP Wa Ea SA H1 H2. destruct (skew_point a skew_1 Wa Ea SA H1) as (Wg & Eg & Pg).
  destruct (skew_point a skew_lam Wa Ea SA H2) as (Wh & Eh & Ph). unfold ecmult_const_correct. cbv zeta in *.
  destruct (secp256k1_ge_set_gej _) as [g2 t]. cbn [fst] in *. set (A := ge_pt a) in *.
  set (g := secp256k1_ge_neg (secp256k1_ge_from_storage (secp256k1_ge_storage_cmov _ _ (b2z (skew_1 =? 2))))) in *.
  set (h := secp256k1_ge_neg _) in *. clearbody g h.
  destruct (add_ge_secp r _ P _ Wr Er SP Wg Eg Pg (smul_secp _ A SA)) as [W1 P1].
  assert (Nf : smul (- skew_lam) A <> Inf).
  { rewrite smul_opp. intros E. apply (f_equal pneg) in E. rewrite pneg_involutive in E. revert E.
    apply multiple_finite; [exact SA | unfold A, ge_pt; rewrite Ea; discriminate |]. assert (2 < secp_n) by reflexivity. lia. }
  destruct (ge_mul_lambda_phi _ _ Wh Ph Nf) as [Wl Pl]. rewrite phi_lambda in Pl by now apply smul_secp.
  assert (Sp1 : secp (padd P (smul (- skew_1) A))) by (apply padd_on_curve; [exact SP | now apply smul_secp]).
  destruct (add_ge_secp _ _ _ _ W1 P1 Sp1 Wl Eh Pl (smul_secp _ _ (smul_secp _ A SA))) as [W2 P2]. split; [exact W2 |].
  rewrite P2. now apply skew_sum.
Qed.

Lemma ecmult_const_endo_ok a k : ge_wf a -> ge_infinity a = 0 -> secp (ge_pt a) -> sok k ->
  gej_wf (secp256k1_ecmult_const a k) /\ gej_pt (secp256k1_ecmult_const a k) = smul (sv k) (ge_pt a).
Proof.
  intros Wa Ea SA Hk. set (A := ge_pt a) in *. assert (NA : A <> Inf) by (unfold A, ge_pt; rewrite Ea; discriminate).
  unfold secp256k1_ecmult_const. cbv zeta. destruct (gej_set_ge_ok a Wa) as [W1 P1]. fold A in P1.
  pose proof (split_lambda_spec k Hk) as Sp. destruct (secp256k1_scalar_split_lambda k) as [q_1 q_lam].
  destruct Sp as (O1 & O2 & Ek & k1 & k2 & B1 & B2 & E1 & E2).
  pose proof (wnaf_const_ok_holds WNAF_BITS q_1 (WINDOW_A - 1) O1 ltac:(unfold WINDOW_A; lia) eq_refl ltac:(rewrite E1; now apply half_small)) as (Ln & Hs & HF & HV).
  pose proof (wnaf_const_ok_holds WNAF_BITS q_lam (WINDOW_A - 1) O2 ltac:(unfold WINDOW_A; lia) eq_refl ltac:(rewrite E2; now apply half_small)) as (Lm & Ht & HF' & HV').
  destruct (secp256k1_wnaf_const _ q_1 _) as [wnaf skew], (secp256k1_wnaf_const _ q_lam _) as [wnaf' skew']. cbn [fst snd] in *.
  destruct (globalz_windowa_ok (secp256k1_gej_set_ge a) W1) as (HZ & NZ & HA & Lp); [now rewrite P1 | now rewrite P1 |]. rewrite P1 in HA.
  destruct (secp256k1_ecmult_odd_multiples_table_globalz_windowa _) as [pre Zr]. cbn [fst snd] in *.
  apply (const_pre_normal _ _ _ _ HA) in Lp. clear HA. set (pre' := map ge_normalize_y pre) in *.
  pose proof (const_pre_lambda _ _ _ _ Lp SA NA ltac:(vm_compute; discriminate)) as Lq. set (pre_lam := map secp256k1_ge_mul_lambda pre') in *.
  set (N := Z.to_nat (WNAF_SIZE WNAF_BITS (WINDOW_A - 1))). change (WNAF_SIZE WNAF_BITS (WINDOW_A - 1)) with 32 in Ln, Lm, N.
  assert (LN : length wnaf = S N) by (unfold N; lia). assert (LM : length wnaf' = S N) by (unfold N; lia).
  assert (Hclr : xy_mags secp256k1_ge_clear).
  { pose proof (norm_mag _ (proj1 clear_ok)) as H. apply (mag_weaken 1 31) in H; [| lia]. now split. }
  destruct (const_entry Zr pre' A secp256k1_ge_clear wnaf N Lp HF ltac:(lia) Hclr) as (Wg & Eg & Pg).
  set (g1 := ECMULT_CONST_TABLE_GET_GE _ pre' _ _) in *.
  destruct (const_entry Zr pre_lam _ g1 wnaf' N Lq HF' ltac:(lia) (wf_xy_mags _ Wg)) as (Wh & Eh & Ph).
  set (g2 := ECMULT_CONST_TABLE_GET_GE g1 _ _ _) in *. destruct (gej_set_ge_ok g1 Wg) as [W2 P2]. rewrite Pg in P2.
  assert (A0 : acc_ok Zr (secp256k1_gej_add_ge (secp256k1_gej_set_ge g1) g2) (smul (const_from wnaf wnaf' N) A)).
  { unfold const_from. rewrite (limbs_val_skipn _ wnaf N), (limbs_val_skipn _ wnaf' N), (skipn_all2 wnaf), (skipn_all2 wnaf') by lia. cbn [limbs_val].
    rewrite !Z.mul_0_r, !Z.add_0_r, (smul_add curve_b curve_b_nz) by exact SA. apply acc_add_const; try assumption.
    - split; [exact W2 |]. split; [now apply smul_secp | exact P2].
    - now apply smul_secp.
    - rewrite Z.mul_comm, (smul_mul curve_b curve_b_nz) by exact SA. exact Ph. }
  pose proof (endo_const_loop_ok pre' pre_lam Zr A wnaf wnaf' SA NZ Lp Lq HF HF' N g2 _ ltac:(lia) ltac:(lia) (wf_xy_mags _ Wh) A0) as A1.
  destruct (acc_result_always _ Zr _ HZ NZ A1) as [W3 P3].
  destruct (endo_correct_ok _ a skew skew' _ W3 P3 (smul_secp _ A SA) Wa Ea SA Hs Ht) as [W4 P4]. split; [exact W4 |]. rewrite P4. fold A.
  rewrite <- (smul_add curve_b curve_b_nz) by exact SA. apply smul_eq_mod; [exact SA |]. rewrite <- Ek, Zmod_mod.
  unfold const_from. cbn [skipn]. now apply skew_cancel.
Qed.
End Mult.
