(* ===== verification/Ecdsa.v ===== *)
(** Signatures, [ecdsa.h] and [ecdsa_impl.h]: the DER encoding, signing and
    verification, over any field and scalar representation. *)

From Stdlib Require Import ZArith Lia List Bool.
From S2P Require Import Prelude Limbs Fp FieldSpec FieldGen Group ScalarSpec ScalarGen Hash Ecmult EcmultGen.
Import ListNotations.
Open Scope Z_scope.

(** * The DER parser

    A pointer into the input is the list of the bytes from it to [sigend]:
    [sigend - *sigp] is its length and advancing drops bytes.  A function that
    reads the input returns [None] when it reads at or past [sigend]. *)

(** [*p], and [p[1]]. *)
Definition deref (p : list Z) : option Z := nth_error p 0.
Definition deref1 (p : list Z) : option Z := nth_error p 1.

(** [size_t] to [int]. *)
Definition int_of_size (z : Z) : Z := (z + 2 ^ 31) mod 2 ^ 32 - 2 ^ 31.

(** [while (lenleft > 0)], and the end of the function.  The result is the
    returned length and the pointer. *)
Fixpoint der_len_loop (lenleft : nat) (ret : Z) (sigp : list Z) : option (Z * list Z) :=
  match lenleft with
  | O => if ret <? 128 then Some (-1, sigp) else Some (int_of_size ret, sigp)
  | S lenleft' =>
      let* b := deref sigp in
      let ret := u64 (ret << 8) .| b in
      if u64 (ret + Z.of_nat lenleft) >? Z.of_nat (length sigp) then Some (-1, sigp)
      else der_len_loop lenleft' ret (tl sigp)
  end.

Definition secp256k1_der_read_len (sigp : list Z) : option (Z * list Z) :=
  if (length sigp =? 0)%nat then Some (-1, sigp) else
  let* b1 := deref sigp in
  let sigp := tl sigp in
  if b1 =? 0xFF then Some (-1, sigp) else
  if (b1 .& 0x80) =? 0 then Some (b1, sigp) else
  if b1 =? 0x80 then Some (-1, sigp) else
  let lenleft := b1 .& 0x7F in
  if lenleft >? Z.of_nat (length sigp) then Some (-1, sigp) else
  let* b := deref sigp in
  if b =? 0 then Some (-1, sigp) else
  if lenleft >? 8 then Some (-1, sigp) else
  der_len_loop (Z.to_nat lenleft) 0 sigp.

(** [while (rlen > 0 && **sig == 0)]. *)
Fixpoint der_skip_zeros (rlen : nat) (sig : list Z) : option (nat * list Z) :=
  match rlen with
  | O => Some (O, sig)
  | S rlen' =>
      let* b := deref sig in
      if b =? 0 then der_skip_zeros rlen' (tl sig) else Some (rlen, sig)
  end.

(** The source of a [memcpy] of [n] bytes. *)
Definition copy_from (p : list Z) (n : nat) : option (list Z) :=
  if (n <=? length p)%nat then Some (firstn n p) else None.

Section Code.
Context {I : FieldImpl} {J : ScalarImpl}.

(** Inside the option of the memory accesses, [None] is the return value 0 and
    [Some] the return value 1 with the scalar and the pointer.

    The body after the length is read. *)
Definition der_integer_body (rlen : Z) (sig : list Z) : option (option (scalar * list Z)) :=
  let* b0 := deref sig in
  let* pad0 := (if (b0 =? 0x00) && (rlen >? 1) then let* b1 := deref1 sig in Some ((b1 .& 0x80) =? 0x00)
                else Some false) in
  if (pad0 : bool) then Some None else
  let* padf := (if (b0 =? 0xFF) && (rlen >? 1) then let* b1 := deref1 sig in Some ((b1 .& 0x80) =? 0x80)
                else Some false) in
  if (padf : bool) then Some None else
  let overflow := b2z ((b0 .& 0x80) =? 0x80) in
  let* (rlen, sig) := der_skip_zeros (Z.to_nat rlen) sig in
  let overflow := if (32 <? rlen)%nat then 1 else overflow in
  let* (r, overflow) := (if negb (z2b overflow)
                         then let* bytes := copy_from sig rlen in Some (sc_set_b32 (repeat 0 (32 - rlen) ++ bytes))
                         else Some (sc_clear, overflow)) in
  let r := if z2b overflow then sc_set_int 0 else r in
  Some (Some (r, skipn rlen sig)).

Definition secp256k1_der_parse_integer (sig : list Z) : option (option (scalar * list Z)) :=
  if (length sig =? 0)%nat then Some None else
  let* tag := deref sig in
  if negb (tag =? 0x02) then Some None else
  let sig := tl sig in
  let* (rlen, sig) := secp256k1_der_read_len sig in
  if (rlen <=? 0) || (rlen >? Z.of_nat (length sig)) then Some None else
  der_integer_body rlen sig.

Definition secp256k1_ecdsa_sig_parse (sig : list Z) : option (option (scalar * scalar)) :=
  if (length sig =? 0)%nat then Some None else
  let* tag := deref sig in
  let sig := tl sig in
  if negb (tag =? 0x30) then Some None else
  let* (rlen, sig) := secp256k1_der_read_len sig in
  if (rlen <? 0) || (rlen >? Z.of_nat (length sig)) then Some None else
  if negb (rlen =? Z.of_nat (length sig)) then Some None else
  let* pr := secp256k1_der_parse_integer sig in
  match pr with
  | None => Some None
  | Some (rr, sig) =>
      let* ps := secp256k1_der_parse_integer sig in
      match ps with
      | None => Some None
      | Some (rs, sig) => if negb (length sig =? 0)%nat then Some None else Some (Some (rr, rs))
      end
  end.

(** * The DER printer *)

(** [while (lenR > 1 && rp[0] == 0 && rp[1] < 0x80)]; [lenR] is the length. *)
Fixpoint der_strip (rp : list Z) : list Z :=
  match rp with
  | b0 :: ((b1 :: _) as t) => if (b0 =? 0) && (b1 <? 0x80) then der_strip t else rp
  | _ => rp
  end.

(** Returns the new [*size] and the bytes written, [None] when the buffer is
    too small. *)
Definition secp256k1_ecdsa_sig_serialize (size : Z) (ar as_ : scalar) : Z * option (list Z) :=
  let rp := der_strip (0 :: sc_get_b32 ar) in
  let sp := der_strip (0 :: sc_get_b32 as_) in
  let lenR := Z.of_nat (length rp) in
  let lenS := Z.of_nat (length sp) in
  if size <? 6 + lenS + lenR then (6 + lenS + lenR, None)
  else (6 + lenS + lenR,
        Some ([0x30; u8 (4 + lenS + lenR); 0x02; u8 lenR] ++ rp ++ [0x02; u8 lenS] ++ sp)).

(** * Verification *)

Definition secp256k1_ecdsa_const_order_as_fe : fe :=
  fe_const 0xFFFFFFFF 0xFFFFFFFF 0xFFFFFFFF 0xFFFFFFFE 0xBAAEDCE6 0xAF48A03B 0xBFD25E8C 0xD0364141.

Definition secp256k1_ecdsa_const_p_minus_order : fe :=
  fe_const 0 0 0 1 0x45512319 0x50B75FC4 0x402DA172 0x2FC9BAEE.

(** [ctx] is the table of the multiplication context. *)
Definition secp256k1_ecdsa_sig_verify (ctx : list ge_storage) (sigr sigs : scalar) (pubkey : ge) (message : scalar) : Z :=
  if z2b (sc_is_zero sigr) || z2b (sc_is_zero sigs) then 0 else
  let sn := secp256k1_scalar_inverse_var sigs in
  let u1 := sc_mul sn message in
  let u2 := sc_mul sn sigr in
  let pubkeyj := secp256k1_gej_set_ge pubkey in
  let pr := secp256k1_ecmult ctx pubkeyj u2 u1 in
  if z2b (secp256k1_gej_is_infinity pr) then 0 else
  let c := sc_get_b32 sigr in
  let xr := fst (fe_set_b32 c) in
  if z2b (secp256k1_gej_eq_x_var xr pr) then 1 else
  if fe_cmp_var xr secp256k1_ecdsa_const_p_minus_order >=? 0 then 0 else
  let xr := fe_add xr secp256k1_ecdsa_const_order_as_fe in
  if z2b (secp256k1_gej_eq_x_var xr pr) then 1 else 0.

(** * Signing *)

Record signing : Type := Signing {
  sign_ret : Z;
  sign_r : scalar;
  sign_s : scalar;
  sign_recid : option Z
}.

(** [recid] is the integer pointed to, [None] for the null pointer. *)
Definition secp256k1_ecdsa_sig_sign (ctx : ecmult_gen_context) (seckey message nonce : scalar) (recid : option Z)
    : option signing :=
  let* rp := secp256k1_ecmult_gen ctx nonce in
  let '(r, rp) := secp256k1_ge_set_gej rp in
  let r_x := fe_normalize (ge_x r) in
  let r_y := fe_normalize (ge_y r) in
  let b := fe_get_b32 r_x in
  let '(sigr, overflow) := sc_set_b32 b in
  let recid := match recid with
               | Some _ => Some ((if z2b overflow then 2 else 0) .| (if z2b (fe_is_odd r_y) then 1 else 0))
               | None => None
               end in
  let n := sc_mul sigr seckey in
  let n := fst (sc_add n message) in
  let sigs := secp256k1_scalar_inverse nonce in
  let sigs := sc_mul sigs n in
  if z2b (sc_is_zero sigs) then Some (Signing 0 sigr sigs recid) else
  if z2b (sc_is_high sigs)
  then Some (Signing 1 sigr (sc_negate sigs) (match recid with Some v => Some (v .^ 1) | None => None end))
  else Some (Signing 1 sigr sigs recid).
End Code.
