(* ===== verification/EcdsaDer.v ===== *)
(** The DER encoding of signatures.

    The reference is the encoding of ITU-T X.690: definite lengths in the
    shortest form, integers in two's complement with the fewest octets, a
    sequence of two integers.  The parser of [ecdsa_impl.h] never reads past its
    input, accepts exactly these encodings, and returns each integer, or zero
    when it is not below the group order; the printer writes the encoding of
    its scalars. *)

From Stdlib Require Import ZArith Lia List Bool.
From S2P Require Import Prelude Limbs FieldSpec ScalarSpec Ecdsa.
Import ListNotations.
Open Scope Z_scope.

(** * The encoding *)

Definition nbytes (v : Z) : nat := Z.to_nat (Z.log2 v / 8 + 1).

(** Length octets, X.690 8.1.3 and 10.1. *)
Definition der_len (n : Z) : list Z :=
  if n <? 128 then [n] else (128 + Z.of_nat (nbytes n)) :: be_bytes (nbytes n) n.

Definition der_tlv (tag : Z) (c : list Z) : list Z := tag :: der_len (Z.of_nat (length c)) ++ c.

(** Contents octets of an integer: not empty, and the first nine bits neither
    all zeros nor all ones, X.690 8.3.2. *)
Definition der_minimal (c : list Z) : bool :=
  match c with
  | [] => false
  | [_] => true
  | b0 :: b1 :: _ => negb ((b0 =? 0) && (b1 <? 128)) && negb ((b0 =? 255) && (128 <=? b1))
  end.

(** The integer of contents octets in two's complement, X.690 8.3.3. *)
Definition der_value (c : list Z) : Z :=
  be_val c - (if 128 <=? hd 0 c then 2 ^ (8 * Z.of_nat (length c)) else 0).

Definition der_sig (c d : list Z) : list Z := der_tlv 0x30 (der_tlv 0x02 c ++ der_tlv 0x02 d).

(** * Big-endian numbers *)

Lemma nbytes_cons b l : limbs_lt 8 (b :: l) -> b <> 0 -> nbytes (be_val (b :: l)) = S (length l).
Proof.
  intros H Hb. pose proof (be_val_bound _ H) as B. rewrite be_val_cons in *. inversion H as [| ? ? Hb8 Hl]; subst.
  pose proof (be_val_bound l Hl) as [Bl _]. cbn [length] in B. set (n := Z.of_nat (length l)) in *.
  rewrite Nat2Z.inj_succ in B. fold n in B.
  assert (E : 8 * n <= Z.log2 (b * 2 ^ (8 * n) + be_val l) < 8 * n + 8).
  { split.
    - apply Z.log2_le_pow2; [nia |]. pose proof (Z.pow_pos_nonneg 2 (8 * n) ltac:(lia) ltac:(lia)). nia.
    - apply Z.log2_lt_pow2; [pose proof (Z.pow_pos_nonneg 2 (8 * n) ltac:(lia) ltac:(lia)); nia |].
      replace (8 * n + 8) with (8 * Z.succ n) by lia. lia. }
  unfold nbytes. replace (Z.log2 _ / 8) with n; [lia |]. apply (Z.div_unique _ _ _ (Z.log2 (b * 2 ^ (8 * n) + be_val l) - 8 * n)); lia.
Qed.

Lemma be_bytes_nbytes b l : limbs_lt 8 (b :: l) -> b <> 0 -> be_bytes (nbytes (be_val (b :: l))) (be_val (b :: l)) = b :: l.
Proof. intros H Hb. rewrite nbytes_cons by assumption. exact (be_bytes_val _ H). Qed.

Lemma nbytes_bound v k : 0 <= v < 2 ^ (8 * Z.of_nat k) -> (0 < k)%nat -> (nbytes v <= k)%nat.
Proof.
  intros H Hk. unfold nbytes. destruct (Z.eq_dec v 0) as [-> | N]; [cbn; lia |].
  pose proof (proj1 (Z.log2_lt_pow2 v (8 * Z.of_nat k) ltac:(lia)) ltac:(lia)).
  pose proof (Z.div_lt_upper_bound (Z.log2 v) 8 (Z.of_nat k) ltac:(lia) ltac:(lia)). lia.
Qed.

Lemma be_val_nbytes v : 0 <= v -> be_val (be_bytes (nbytes v) v) = v.
Proof.
  intros H. rewrite be_val_bytes. apply Z.mod_small. split; [exact H |]. unfold nbytes.
  destruct (Z.eq_dec v 0) as [-> | N]; [reflexivity |]. pose proof (Z.log2_nonneg v). pose proof (Z.div_pos (Z.log2 v) 8 ltac:(lia) ltac:(lia)).
  apply Z.log2_lt_pow2; [lia |]. rewrite Z2Nat.id by lia. pose proof (Z.mod_pos_bound (Z.log2 v) 8 ltac:(lia)).
  pose proof (Z.div_mod (Z.log2 v) 8 ltac:(lia)). lia.
Qed.

Lemma hd_nbytes v : 0 < v -> exists b l, be_bytes (nbytes v) v = b :: l /\ b <> 0.
Proof.
  intros H. pose proof (length_be_bytes (nbytes v) v) as Hl. pose proof (limbs_lt_be_bytes (nbytes v) v) as HB.
  pose proof (be_val_nbytes v ltac:(lia)) as E.
  destruct (be_bytes (nbytes v) v) as [| b l]; [unfold be_val in E; cbn in E; lia |]. exists b, l. split; [reflexivity |]. intros ->.
  rewrite be_val_cons, Z.mul_0_l, Z.add_0_l in E. pose proof (be_val_bound l (Forall_inv_tail HB)) as B. rewrite E in B.
  destruct l as [| c l]; [change (be_val []) with 0 in E; lia |].
  pose proof (nbytes_bound v (S (length l)) B ltac:(lia)). cbn [length] in *. lia.
Qed.

(** * Length octets *)

Lemma lor_byte x b : 0 <= x < 2 ^ 32 -> 0 <= b < 2 ^ 8 -> u64 (x << 8) .| b = 256 * x + b.
Proof.
  intros Hx Hb. unfold u64. rewrite Z.shiftl_mul_pow2, Z.mod_small by lia. rewrite Z.lor_comm.
  rewrite <- Z.shiftl_mul_pow2, lor_shiftl by lia. lia.
Qed.

Lemma der_len_loop_ok k : forall ret sig, limbs_lt 8 sig -> Z.of_nat (length sig) < 2 ^ 31 -> (k <= length sig)%nat ->
  0 <= ret <= Z.of_nat (length sig) ->
  let n := ret * 2 ^ (8 * Z.of_nat k) + be_val (firstn k sig) in
  if n <=? Z.of_nat (length sig) - Z.of_nat k
  then der_len_loop k ret sig = Some (if n <? 128 then -1 else n, skipn k sig)
  else exists rest, der_len_loop k ret sig = Some (-1, rest).
Proof.
  induction k as [| k IH]; intros ret sig HB Hl Hk Hr n.
  - assert (En : n = ret) by (subst n; change (be_val (firstn 0 sig)) with 0; lia). rewrite En. cbn [skipn der_len_loop].
    destruct (Z.leb_spec ret (Z.of_nat (length sig) - Z.of_nat 0)); [| lia]. destruct (ret <? 128); [reflexivity |]. do 2 f_equal. unfold int_of_size.
    rewrite Z.mod_small; lia.
  - destruct sig as [| b t]; [cbn in Hk; lia |]. inversion HB as [| ? ? Hb Ht]; subst. cbn [length] in Hl, Hk, Hr.
    cbn [der_len_loop deref nth_error bind tl]. rewrite lor_byte by lia. set (ret' := 256 * ret + b).
    assert (En : n = ret' * 2 ^ (8 * Z.of_nat k) + be_val (firstn k t)).
    { subst n ret'. cbn [firstn]. rewrite be_val_cons, length_firstn, Nat.min_l by lia.
      replace (8 * Z.of_nat (S k)) with (8 + 8 * Z.of_nat k) by lia. rewrite Z.pow_add_r by lia. ring. }
    pose proof (be_val_bound (firstn k t) (limbs_lt_firstn 8 t k Ht)) as [Bk _]. cbn [length].
    assert (P : 1 <= 2 ^ (8 * Z.of_nat k)) by (pose proof (Z.pow_pos_nonneg 2 (8 * Z.of_nat k) ltac:(lia) ltac:(lia)); lia).
    unfold u64. rewrite (Z.mod_small (ret' + _)) by lia. destruct (Z.gtb_spec (ret' + Z.of_nat (S k)) (Z.of_nat (S (length t)))) as [G | G].
    + destruct (Z.leb_spec n (Z.of_nat (S (length t)) - Z.of_nat (S k))) as [Q | Q]; [clearbody n; nia | eauto].
    + specialize (IH ret' t Ht ltac:(lia) ltac:(lia) ltac:(lia)). cbv zeta in IH. rewrite <- En in IH.
      replace (Z.of_nat (S (length t)) - Z.of_nat (S k)) with (Z.of_nat (length t) - Z.of_nat k) by lia. exact IH.
Qed.

Lemma byte_cases (P : Z -> bool) b : forallb P (map Z.of_nat (seq 0 256)) = true -> 0 <= b < 2 ^ 8 -> P b = true.
Proof.
  intros H Hb. rewrite forallb_forall in H. apply H. apply in_map_iff. exists (Z.to_nat b). split; [lia |]. apply in_seq. lia.
Qed.

Lemma byte_high b : 0 <= b < 2 ^ 8 -> b .& 0x80 = if b <? 128 then 0 else 128.
Proof. intros H. apply Z.eqb_eq. now apply (byte_cases (fun b => (b .& 0x80) =? if b <? 128 then 0 else 128)). Qed.

Lemma byte_low b : 0 <= b < 2 ^ 8 -> b .& 0x7F = if b <? 128 then b else b - 128.
Proof. intros H. apply Z.eqb_eq. now apply (byte_cases (fun b => (b .& 0x7F) =? if b <? 128 then b else b - 128)). Qed.

Ltac der_fail := do 2 eexists; split; [reflexivity | now left].

Lemma read_len_sound sig : limbs_lt 8 sig -> Z.of_nat (length sig) < 2 ^ 31 ->
  exists v rest, secp256k1_der_read_len sig = Some (v, rest) /\ (v = -1 \/ 0 <= v /\ sig = der_len v ++ rest).
Proof.
  intros HB Hl. unfold secp256k1_der_read_len. destruct sig as [| b1 t]; [der_fail |]. inversion HB as [| ? ? Hb Ht]; subst.
  cbn [length Nat.eqb deref nth_error bind tl] in *. rewrite byte_high, byte_low by assumption.
  destruct (Z.eqb_spec b1 0xFF) as [_ | NF]; [der_fail |]. destruct (Z.ltb_spec b1 128) as [Lo | Hi]; cbn [Z.eqb].
  { exists b1, t. split; [reflexivity |]. right. split; [lia |]. unfold der_len. now replace (b1 <? 128) with true by lia. }
  destruct (Z.eqb_spec b1 0x80) as [_ | N8]; [der_fail |]. set (k := b1 - 128). destruct (Z.gtb_spec k (Z.of_nat (length t))) as [Gk | Gk]; [der_fail |].
  destruct t as [| b t]; [cbn in Gk; lia |]. cbn [deref nth_error bind]. destruct (Z.eqb_spec b 0) as [-> | Nb]; [der_fail |].
  destruct (Z.gtb_spec k 8) as [G8 | G8]; [der_fail |].
  pose proof (der_len_loop_ok (Z.to_nat k) 0 (b :: t) Ht ltac:(cbn [length] in *; lia) ltac:(cbn [length] in *; lia) ltac:(lia)) as H. cbv zeta in H.
  set (n := 0 * _ + _) in H. destruct (Z.leb_spec n (Z.of_nat (length (b :: t)) - Z.of_nat (Z.to_nat k))) as [Hn | Hn]; [| destruct H as [rest H]; rewrite H; der_fail].
  do 2 eexists. split; [exact H |]. destruct (Z.ltb_spec n 128) as [L | L]; [now left |]. right. split; [lia |].
  assert (En : n = be_val (firstn (Z.to_nat k) (b :: t))) by (subst n; lia).
  assert (Ek : exists j, Z.to_nat k = S j) by (exists (pred (Z.to_nat k)); lia). destruct Ek as [j Ej].
  pose proof (limbs_lt_firstn 8 (b :: t) (Z.to_nat k) Ht) as HF. rewrite Ej in En, HF |- *. cbn [firstn length] in En, HF, Gk.
  assert (Nk : nbytes n = S j) by (rewrite En, nbytes_cons by assumption; rewrite length_firstn, Nat.min_l by lia; reflexivity).
  unfold der_len. replace (n <? 128) with false by lia. rewrite Nk. replace (128 + Z.of_nat (S j)) with b1 by lia.
  pose proof (be_bytes_nbytes _ _ HF Nb) as EB. rewrite <- En, Nk in EB. rewrite EB. cbn [app skipn]. now rewrite firstn_skipn.
Qed.

Lemma read_len_complete n rest : limbs_lt 8 rest -> 0 <= n <= Z.of_nat (length rest) -> Z.of_nat (length (der_len n ++ rest)) < 2 ^ 31 ->
  secp256k1_der_read_len (der_len n ++ rest) = Some (n, rest).
Proof.
  intros HB Hn Hl. unfold secp256k1_der_read_len, der_len in *. destruct (Z.ltb_spec n 128) as [L | L].
  - cbn [app length Nat.eqb deref nth_error bind tl]. rewrite byte_high by lia. replace (n <? 128) with true by lia.
    now destruct (Z.eqb_spec n 0xFF); [lia |].
  - cbn [app] in *. cbn [length Nat.eqb deref nth_error bind tl] in *. rewrite length_app, length_be_bytes in *.
    pose proof (nbytes_bound n 4 ltac:(lia) ltac:(lia)) as K. destruct (hd_nbytes n ltac:(lia)) as (b & l & Eb & Nb).
    pose proof (length_be_bytes (nbytes n) n) as Lb. rewrite Eb in Lb. cbn [length] in Lb.
    rewrite byte_high, byte_low by lia. replace (128 + Z.of_nat (nbytes n) <? 128) with false by lia.
    destruct (Z.eqb_spec (128 + Z.of_nat (nbytes n)) 255); [lia |]. cbn [Z.eqb]. destruct (Z.eqb_spec (128 + Z.of_nat (nbytes n)) 128); [lia |].
    destruct (Z.gtb_spec (128 + Z.of_nat (nbytes n) - 128) (Z.of_nat (nbytes n + length rest))) as [Gk | Gk]; [lia |].
    assert (HA : limbs_lt 8 (be_bytes (nbytes n) n ++ rest)) by (apply Forall_app; split; [apply limbs_lt_be_bytes | exact HB]).
    pose proof (der_len_loop_ok (nbytes n) 0 (be_bytes (nbytes n) n ++ rest) HA) as H. cbv zeta in H.
    rewrite length_app, length_be_bytes, firstn_app, length_be_bytes, Nat.sub_diag, firstn_all2, app_nil_r, be_val_nbytes in H
      by (rewrite ?length_be_bytes; lia). rewrite Z.mul_0_l, Z.add_0_l, skipn_app, length_be_bytes, Nat.sub_diag, skipn_all2 in H by (rewrite length_be_bytes; lia).
    rewrite Eb in H |- *. cbn [app deref nth_error bind]. destruct (Z.eqb_spec b 0); [lia |].
    destruct (Z.gtb_spec (128 + Z.of_nat (nbytes n) - 128) 8); [lia |]. replace (Z.to_nat _) with (nbytes n) by lia.
    specialize (H ltac:(lia) ltac:(lia) ltac:(lia)). destruct (Z.ltb_spec n 128); [lia |].
    destruct (Z.leb_spec n (Z.of_nat (nbytes n + length rest) - Z.of_nat (nbytes n))); [exact H | lia].
Qed.

(** * Integers *)

Fixpoint strip0 (c : list Z) : list Z :=
  match c with
  | [] => []
  | b :: t => if b =? 0 then strip0 t else c
  end.

Lemma skip_zeros_ok c rest : der_skip_zeros (length c) (c ++ rest) = Some (length (strip0 c), strip0 c ++ rest).
Proof.
  induction c as [| b t IH]; [reflexivity |]. cbn [length app der_skip_zeros deref nth_error bind tl strip0].
  destruct (b =? 0); [exact IH | reflexivity].
Qed.

Lemma strip0_val c : be_val (strip0 c) = be_val c.
Proof.
  induction c as [| b t IH]; [reflexivity |]. cbn [strip0]. destruct (Z.eqb_spec b 0) as [-> | N]; [| reflexivity].
  rewrite IH, be_val_cons. ring.
Qed.

Lemma strip0_lt c : limbs_lt 8 c -> limbs_lt 8 (strip0 c).
Proof. induction 1; cbn [strip0]; [constructor |]. destruct (x =? 0); [assumption | now constructor]. Qed.

Lemma strip0_long c k : limbs_lt 8 c -> (k < length (strip0 c))%nat -> 2 ^ (8 * Z.of_nat k) <= be_val c.
Proof.
  intros H Hk. pose proof (strip0_lt c H) as H'. rewrite <- strip0_val. revert Hk.
  assert (Hd : match strip0 c with [] => True | b :: _ => b <> 0 end).
  { clear. induction c as [| b t IH]; cbn [strip0]; [exact I |]. destruct (Z.eqb_spec b 0); assumption. }
  destruct (strip0 c) as [| b t]; intros Hk; [cbn in Hk; lia |]. rewrite be_val_cons. inversion H'; subst.
  pose proof (be_val_bound t ltac:(assumption)) as [B _]. cbn [length] in Hk.
  pose proof (Z.pow_le_mono_r 2 (8 * Z.of_nat k) (8 * Z.of_nat (length t)) ltac:(lia) ltac:(lia)). nia.
Qed.

(** The value the parser returns for an integer. *)
Definition int_val (c : list Z) : Z :=
  if (0 <=? der_value c) && (der_value c <? secp_n) then der_value c else 0.

Section Parser.
Context {J : ScalarImpl} {M : ScalarLaws J}.

Definition parsed_int (r : scalar) (c : list Z) : Prop := sok r /\ sv r = int_val c.

Lemma parsed_zero c : (0 <=? der_value c) && (der_value c <? secp_n) = false -> parsed_int (sc_set_int 0) c.
Proof. intros H. unfold parsed_int, int_val. rewrite H. apply sc_set_int_ok. lia. Qed.

Lemma deref_app c rest : c <> [] -> deref (c ++ rest) = Some (hd 0 c).
Proof. now destruct c. Qed.

Lemma set_stripped c : limbs_lt 8 c -> hd 0 c < 128 -> (length (strip0 c) <= 32)%nat ->
  let p := sc_set_b32 (repeat 0 (32 - length (strip0 c)) ++ strip0 c) in
  parsed_int (if z2b (snd p) then sc_set_int 0 else fst p) c.
Proof.
  intros HB Hh Hl p. assert (HR : limbs_lt 8 (repeat 0 (32 - length (strip0 c)) ++ strip0 c)).
  { apply Forall_app. split; [| now apply strip0_lt]. apply Forall_forall. intros x Hx. apply repeat_spec in Hx. lia. }
  destruct (sc_set_b32_ok _ HR ltac:(rewrite length_app, repeat_length; lia)) as (Hok & Hv & Ho). fold p in Hok, Hv, Ho.
  rewrite be_val_zeros, strip0_val in Hv, Ho. rewrite Ho, b2z_b2z.
  assert (Ed : der_value c = be_val c) by (unfold der_value; replace (128 <=? hd 0 c) with false by lia; lia).
  pose proof (be_val_bound c HB) as [B _]. destruct (Z.leb_spec secp_n (be_val c)) as [G | G].
  - apply parsed_zero. rewrite Ed. lia.
  - split; [exact Hok |]. unfold int_val. rewrite Hv, Ed. replace (0 <=? be_val c) with true by lia.
    replace (be_val c <? secp_n) with true by lia. cbn [andb]. apply Z.mod_small. lia.
Qed.

Lemma pad_checks (b0 : Z) (c rest : list Z) : limbs_lt 8 c -> c <> [] -> hd 0 c = b0 ->
  (if (b0 =? 0) && (Z.of_nat (length c) >? 1) then let* b1 := deref1 (c ++ rest) in Some ((b1 .& 128) =? 0) else Some false)
    = Some ((b0 =? 0) && (1 <? length c)%nat && (nth 1 c 0 <? 128)) /\
  (if (b0 =? 255) && (Z.of_nat (length c) >? 1) then let* b1 := deref1 (c ++ rest) in Some ((b1 .& 128) =? 128) else Some false)
    = Some ((b0 =? 255) && (1 <? length c)%nat && (128 <=? nth 1 c 0)).
Proof.
  intros HB Hc Hb. destruct c as [| c0 [| c1 t]]; [easy | |]; cbn [hd] in Hb; subst b0.
  - cbn [length Z.of_nat Z.gtb]. change (1 ?= 1) with Eq. cbn. now rewrite !andb_false_r.
  - replace (Z.of_nat (length (c0 :: c1 :: t)) >? 1) with true by (symmetry; apply Z.gtb_lt; cbn [length]; lia). cbn [app deref1 nth_error bind nth length].
    replace (1 <? S (S (length t)))%nat with true by (symmetry; apply Nat.ltb_lt; lia).
    rewrite !andb_true_r. inversion HB as [| ? ? _ Ht]; subst. inversion Ht; subst. rewrite byte_high by assumption.
    destruct (c0 =? 0), (c0 =? 255), (Z.ltb_spec c1 128); cbn [andb]; split; f_equal; lia.
Qed.

Lemma der_minimal_pads c : c <> [] -> der_minimal c =
  negb ((hd 0 c =? 0) && (1 <? length c)%nat && (nth 1 c 0 <? 128)) && negb ((hd 0 c =? 255) && (1 <? length c)%nat && (128 <=? nth 1 c 0)).
Proof.
  intros H. destruct c as [| c0 [| c1 t]]; [easy | |]; cbn [hd nth length der_minimal].
  - cbn. now rewrite !andb_false_r.
  - replace (1 <? S (S (length t)))%nat with true by (symmetry; apply Nat.ltb_lt; lia). now rewrite !andb_true_r.
Qed.

Lemma integer_body_ok c rest : limbs_lt 8 c -> c <> [] ->
  if der_minimal c then exists r, der_integer_body (Z.of_nat (length c)) (c ++ rest) = Some (Some (r, rest)) /\ parsed_int r c
  else der_integer_body (Z.of_nat (length c)) (c ++ rest) = Some None.
Proof.
  intros HB Hc. unfold der_integer_body. rewrite deref_app by exact Hc. cbn [bind].
  destruct (pad_checks _ c rest HB Hc eq_refl) as [-> ->]. rewrite der_minimal_pads by exact Hc. cbn [bind].
  destruct (_ && (nth 1 c 0 <? 128)) eqn:E1; cbn [negb andb]; [reflexivity |].
  destruct (_ && (128 <=? nth 1 c 0)) eqn:E2; cbn [negb]; [reflexivity |]. clear E1 E2.
  rewrite Nat2Z.id, skip_zeros_ok. cbn [bind].
  assert (Hh : 0 <= hd 0 c < 2 ^ 8) by (destruct c; [easy |]; now inversion HB).
  rewrite byte_high by exact Hh. pose proof (be_val_bound c HB) as B.
  destruct (Nat.ltb_spec 32 (length (strip0 c))) as [L | L].
  - cbn [z2b Z.eqb negb bind]. eexists. split; [now rewrite skipn_app, skipn_all, Nat.sub_diag |].
    apply parsed_zero. pose proof (strip0_long c 32 HB L) as G. unfold der_value.
    destruct (128 <=? hd 0 c); [rewrite andb_false_iff, Z.leb_gt; left | rewrite andb_false_iff, Z.ltb_ge; right]; unfold secp_n in *; lia.
  - rewrite b2z_b2z. destruct (Z.ltb_spec (hd 0 c) 128) as [Lo | Hi]; cbn [Z.eqb Pos.eqb negb b2z bind].
    + unfold copy_from. rewrite length_app. replace (_ <=? _)%nat with true by (symmetry; apply Nat.leb_le; lia). cbn [bind].
      rewrite firstn_app, firstn_all, Nat.sub_diag, firstn_O, app_nil_r. pose proof (set_stripped c HB Lo L) as HS. cbv zeta in HS.
      destruct (sc_set_b32 _) as [r o]. cbn [fst snd] in HS. eexists. split; [now rewrite skipn_app, skipn_all, Nat.sub_diag | exact HS].
    + cbn [z2b Z.eqb negb]. eexists. split; [now rewrite skipn_app, skipn_all, Nat.sub_diag |].
      apply parsed_zero. unfold der_value. replace (128 <=? hd 0 c) with true by lia. rewrite andb_false_iff, Z.leb_gt. left. lia.
Qed.

Ltac der_reject := exists None; split; [reflexivity | first [exact I | discriminate]].

Lemma parse_integer_sound sig : limbs_lt 8 sig -> Z.of_nat (length sig) < 2 ^ 31 ->
  exists o, secp256k1_der_parse_integer sig = Some o /\
  match o with
  | None => True
  | Some (r, rest) => exists c, der_minimal c = true /\ sig = der_tlv 0x02 c ++ rest /\ parsed_int r c
  end.
Proof.
  intros HB Hl. unfold secp256k1_der_parse_integer. destruct sig as [| tag t]; [der_reject |]. pose proof (Forall_inv_tail HB) as Ht.
  cbn [length Nat.eqb deref nth_error bind tl] in *. destruct (Z.eqb_spec tag 0x02) as [-> |]; cbn [negb]; [| der_reject].
  destruct (read_len_sound t Ht ltac:(lia)) as (n & sig & -> & Hn). cbn [bind].
  destruct (Z.leb_spec n 0) as [N0 | N0]; [der_reject |]. destruct (Z.gtb_spec n (Z.of_nat (length sig))) as [G | G]; [der_reject |]. cbn [orb].
  destruct Hn as [-> | [Hn ->]]; [lia |]. apply Forall_app in Ht as [_ Hs].
  set (c := firstn (Z.to_nat n) sig). assert (Lc : n = Z.of_nat (length c)) by (unfold c; rewrite length_firstn; lia).
  pose proof (integer_body_ok c (skipn (Z.to_nat n) sig) (limbs_lt_firstn 8 sig (Z.to_nat n) Hs)) as H.
  replace (c ++ skipn (Z.to_nat n) sig) with sig in H by (symmetry; apply firstn_skipn). rewrite <- Lc in H. specialize (H ltac:(intros E; rewrite E in Lc; cbn in Lc; lia)).
  destruct (der_minimal c) eqn:Em; [| rewrite H; der_reject]. destruct H as (r & -> & Hr). eexists. split; [reflexivity |].
  exists c. split; [exact Em |]. split; [| exact Hr]. unfold der_tlv. rewrite <- Lc. cbn [app]. rewrite <- app_assoc. unfold c. now rewrite firstn_skipn.
Qed.

Lemma parse_integer_complete c rest : limbs_lt 8 c -> limbs_lt 8 rest -> der_minimal c = true ->
  Z.of_nat (length (der_tlv 0x02 c ++ rest)) < 2 ^ 31 ->
  exists r, secp256k1_der_parse_integer (der_tlv 0x02 c ++ rest) = Some (Some (r, rest)) /\ parsed_int r c.
Proof.
  intros Hc Hr Em Hl. unfold secp256k1_der_parse_integer, der_tlv in *. cbn [app] in *. rewrite <- app_assoc in *.
  cbn [length Nat.eqb deref nth_error bind tl Z.eqb Pos.eqb negb] in *.
  rewrite read_len_complete; [| apply Forall_app; now split | rewrite length_app; lia | lia]. cbn [bind].
  assert (Nc : c <> []) by (intros ->; discriminate). rewrite length_app.
  destruct (Z.leb_spec (Z.of_nat (length c)) 0); [destruct c; [congruence | cbn in *; lia] |].
  destruct (Z.gtb_spec (Z.of_nat (length c)) (Z.of_nat (length c + length rest))); [lia |]. cbn [orb].
  pose proof (integer_body_ok c rest Hc Nc) as HI. now rewrite Em in HI.
Qed.

Lemma der_sig_lt c d : limbs_lt 8 (der_sig c d) -> limbs_lt 8 c /\ limbs_lt 8 d.
Proof.
  intros HB. apply Forall_inv_tail, Forall_app, proj2, Forall_app in HB as [Hc Hd].
  apply Forall_inv_tail in Hc, Hd. apply Forall_app in Hc, Hd. tauto.
Qed.

Lemma sig_parse_complete c d : limbs_lt 8 (der_sig c d) -> Z.of_nat (length (der_sig c d)) < 2 ^ 31 ->
  der_minimal c = true -> der_minimal d = true ->
  exists r s, secp256k1_ecdsa_sig_parse (der_sig c d) = Some (Some (r, s)) /\ parsed_int r c /\ parsed_int s d.
Proof.
  intros HB Hl Ec Ed. pose proof (der_sig_lt c d HB) as Bc. unfold secp256k1_ecdsa_sig_parse, der_sig in *. set (body := der_tlv 2 c ++ der_tlv 2 d) in *. unfold der_tlv in HB, Hl |- *.
  apply Forall_inv_tail in HB. cbn [length Nat.eqb deref nth_error bind tl Z.eqb Pos.eqb negb] in *.
  pose proof HB as HB'. apply Forall_app in HB' as [_ Hb]. rewrite read_len_complete by (assumption || lia). cbn [bind].
  destruct (Z.ltb_spec (Z.of_nat (length body)) 0); [lia |]. destruct (Z.gtb_spec (Z.of_nat (length body)) (Z.of_nat (length body))); [lia |].
  cbn [orb]. rewrite Z.eqb_refl. cbn [negb]. rewrite length_app in Hl. unfold body in *.
  apply Forall_app in Hb as [Hc Hd].
  destruct (parse_integer_complete c (der_tlv 2 d) (proj1 Bc) Hd Ec ltac:(lia)) as (r & -> & Hr). cbn [bind].
  rewrite length_app in Hl.
  destruct (parse_integer_complete d [] (proj2 Bc) ltac:(constructor) Ed) as (s & Es & Hs); [rewrite app_nil_r; lia |].
  rewrite app_nil_r in Es. rewrite Es. cbn [bind length Nat.eqb negb]. eauto.
Qed.

(** The parser on every input: no read outside of it, and a result exactly on
    the encodings of two integers. *)
Lemma sig_parse_ok sig : limbs_lt 8 sig -> Z.of_nat (length sig) < 2 ^ 31 ->
  exists o, secp256k1_ecdsa_sig_parse sig = Some o /\
  match o with
  | Some (r, s) => exists c d, der_minimal c = true /\ der_minimal d = true /\ sig = der_sig c d /\ parsed_int r c /\ parsed_int s d
  | None => forall c d, der_minimal c = true -> der_minimal d = true -> sig <> der_sig c d
  end.
Proof.
  intros HB Hl.
  assert (H : exists o, secp256k1_ecdsa_sig_parse sig = Some o /\ forall r s, o = Some (r, s) ->
    exists c d, der_minimal c = true /\ der_minimal d = true /\ sig = der_sig c d /\ parsed_int r c /\ parsed_int s d).
  { unfold secp256k1_ecdsa_sig_parse. destruct sig as [| tag t]; [der_reject |]. pose proof (Forall_inv_tail HB) as Ht.
    cbn [length Nat.eqb deref nth_error bind tl] in *. destruct (Z.eqb_spec tag 0x30) as [-> |]; cbn [negb]; [| der_reject].
    destruct (read_len_sound t Ht ltac:(lia)) as (n & sig & -> & Hn). cbn [bind].
    destruct (Z.ltb_spec n 0) as [N0 | N0]; [der_reject |]. destruct (n >? Z.of_nat (length sig)); [der_reject |]. cbn [orb].
    destruct (Z.eqb_spec n (Z.of_nat (length sig))) as [En |]; cbn [negb]; [| der_reject].
    destruct Hn as [-> | [_ ->]]; [lia |]. apply Forall_app in Ht as [_ Hs]. rewrite length_app in Hl.
    destruct (parse_integer_sound sig Hs ltac:(lia)) as (o1 & -> & H1). cbn [bind]. destruct o1 as [[r sig1] |]; [| der_reject].
    destruct H1 as (c & Ec & -> & Hc). apply Forall_app in Hs as [_ Hs1]. rewrite length_app in Hl.
    destruct (parse_integer_sound sig1 Hs1 ltac:(lia)) as (o2 & -> & H2). cbn [bind]. destruct o2 as [[s sig2] |]; [| der_reject].
    destruct H2 as (d & Ed & -> & Hd). destruct sig2; cbn [length Nat.eqb negb]; [| der_reject].
    eexists. split; [reflexivity |]. intros r' s' E. injection E as <- <-. exists c, d. rewrite app_nil_r in *.
    repeat split; try assumption; try apply Hc; try apply Hd. unfold der_sig. unfold der_tlv at 1. now rewrite En. }
  destruct H as (o & E & Ho). exists o. split; [exact E |]. destruct o as [[r s] |]; [now apply Ho |].
  intros c d Ec Ed ->. destruct (sig_parse_complete c d HB Hl Ec Ed) as (r & s & E' & _). congruence.
Qed.

(** * The printer *)

(** The shortest contents octets of a natural number. *)
Definition der_nat (v : Z) : list Z :=
  let b := be_bytes (nbytes v) v in
  if 128 <=? hd 0 b then 0 :: b else b.

Lemma der_nat_unique c : limbs_lt 8 c -> der_minimal c = true -> hd 0 c < 128 -> c = der_nat (be_val c).
Proof.
  intros HB Hm Hh. unfold der_nat. cbv zeta. destruct c as [| b0 t]; [discriminate |]. cbn [hd] in Hh.
  destruct (Z.eq_dec b0 0) as [-> | N].
  - destruct t as [| b1 t]; [reflexivity |]. cbn [der_minimal] in Hm. destruct (Z.ltb_spec b1 128) as [L | L]; [discriminate |].
    apply Forall_inv_tail in HB. rewrite be_val_cons, Z.mul_0_l, Z.add_0_l, be_bytes_nbytes by (assumption || lia). cbn [hd].
    now replace (128 <=? b1) with true by lia.
  - rewrite be_bytes_nbytes by assumption. cbn [hd]. now replace (128 <=? b0) with false by lia.
Qed.

Lemma der_strip_ok c : limbs_lt 8 c -> c <> [] -> hd 0 c < 128 ->
  limbs_lt 8 (der_strip c) /\ der_minimal (der_strip c) = true /\ hd 0 (der_strip c) < 128 /\
  be_val (der_strip c) = be_val c /\ (0 < length (der_strip c) <= length c)%nat.
Proof.
  induction c as [| b0 t IH]; intros HB Hc Hh; [congruence |]. destruct t as [| b1 t]; [repeat split; auto; cbn; lia |].
  cbn [hd] in Hh. change (der_strip (b0 :: b1 :: t)) with (if (b0 =? 0) && (b1 <? 128) then der_strip (b1 :: t) else b0 :: b1 :: t).
  destruct ((b0 =? 0) && (b1 <? 128)) eqn:E.
  - apply andb_true_iff in E as [E0 E1]. apply Z.eqb_eq in E0. apply Z.ltb_lt in E1. subst b0.
    destruct (IH (Forall_inv_tail HB) ltac:(discriminate) E1) as (H1 & H2 & H3 & H4 & H5). split; [exact H1 |]. split; [exact H2 |]. split; [exact H3 |].
    split; [rewrite H4, (be_val_cons 0); lia |]. cbn [length] in *. lia.
  - split; [exact HB |]. split; [| split; [exact Hh | split; [reflexivity | cbn [length]; lia]]]. cbn [der_minimal]. rewrite E.
    destruct (Z.eqb_spec b0 255); [lia | reflexivity].
Qed.

Lemma strip_scalar a : sok a -> der_strip (0 :: sc_get_b32 a) = der_nat (sv a) /\ limbs_lt 8 (der_nat (sv a)) /\
  der_minimal (der_nat (sv a)) = true /\ hd 0 (der_nat (sv a)) < 128 /\ be_val (der_nat (sv a)) = sv a /\ (0 < length (der_nat (sv a)) <= 33)%nat.
Proof.
  intros Ha. rewrite sc_get_b32_ok by exact Ha. pose proof (sv_range a Ha) as R.
  assert (HB : limbs_lt 8 (0 :: be_bytes 32 (sv a))) by (constructor; [lia | apply limbs_lt_be_bytes]).
  destruct (der_strip_ok _ HB ltac:(discriminate) ltac:(cbn [hd]; lia)) as (H1 & H2 & H3 & H4 & H5). rewrite be_val_cons, be_val_bytes in H4.
  rewrite Z.mul_0_l, Z.add_0_l, Z.mod_small in H4 by (unfold secp_n in R; lia). cbn [length] in H5. rewrite length_be_bytes in H5.
  pose proof (der_nat_unique _ H1 H2 H3) as E. rewrite H4 in E. rewrite <- E. auto 10.
Qed.

Lemma sig_serialize_ok size a b : sok a -> sok b ->
  let e := der_sig (der_nat (sv a)) (der_nat (sv b)) in
  secp256k1_ecdsa_sig_serialize size a b =
    (Z.of_nat (length e), if size <? Z.of_nat (length e) then None else Some e) /\ (8 <= length e <= 72)%nat.
Proof.
  intros Ha Hb e. destruct (strip_scalar a Ha) as (Ea & _ & _ & _ & _ & La). destruct (strip_scalar b Hb) as (Eb & _ & _ & _ & _ & Lb).
  unfold secp256k1_ecdsa_sig_serialize. rewrite Ea, Eb. set (c := der_nat (sv a)) in *. set (d := der_nat (sv b)) in *. cbv zeta.
  assert (Es : forall l : list Z, (length l <= 70)%nat -> der_len (Z.of_nat (length l)) = [Z.of_nat (length l)]).
  { intros l H. unfold der_len. now replace (Z.of_nat (length l) <? 128) with true by lia. }
  assert (Lbody : length (der_tlv 2 c ++ der_tlv 2 d) = (4 + length c + length d)%nat).
  { unfold der_tlv. rewrite !Es by lia. cbn [app length]. rewrite length_app. cbn [length]. lia. }
  assert (Ee : e = [0x30; Z.of_nat (4 + length c + length d)] ++ ((0x02 :: Z.of_nat (length c) :: c) ++ 0x02 :: Z.of_nat (length d) :: d)).
  { unfold e, der_sig. unfold der_tlv at 1. rewrite Es by lia. rewrite Lbody. unfold der_tlv. rewrite !Es by lia. reflexivity. }
  assert (Le : length e = (6 + length d + length c)%nat) by (rewrite Ee, !length_app; cbn [length]; lia).
  split; [| lia]. replace (6 + Z.of_nat (length d) + Z.of_nat (length c)) with (Z.of_nat (length e)) by lia.
  destruct (size <? Z.of_nat (length e)); [reflexivity |]. do 2 f_equal. rewrite Ee. unfold u8. rewrite !Z.mod_small by lia.
  replace (4 + Z.of_nat (length d) + Z.of_nat (length c)) with (Z.of_nat (4 + length c + length d)) by lia. cbn [app]. reflexivity.
Qed.

(** A scalar is read back, and only from its encoding unless it is zero. *)
Lemma int_val_nat a : sok a -> int_val (der_nat (sv a)) = sv a.
Proof.
  intros Ha. destruct (strip_scalar a Ha) as (_ & _ & _ & Hh & Hv & _). pose proof (sv_range a Ha). unfold int_val, der_value.
  replace (128 <=? hd 0 (der_nat (sv a))) with false by lia. rewrite Hv, Z.sub_0_r.
  replace (0 <=? sv a) with true by lia. now replace (sv a <? secp_n) with true by lia.
Qed.

Lemma int_val_inv c : limbs_lt 8 c -> der_minimal c = true -> int_val c <> 0 -> c = der_nat (int_val c).
Proof.
  intros HB Hm. pose proof (be_val_bound c HB) as B. unfold int_val. destruct (_ && _) eqn:E; [| congruence]. intros _.
  apply andb_true_iff in E as [E _]. unfold der_value in *. destruct (Z.leb_spec 128 (hd 0 c)) as [G | G]; [lia |].
  rewrite Z.sub_0_r. now apply der_nat_unique.
Qed.

Lemma limbs_lt_der_sig c d : limbs_lt 8 c -> limbs_lt 8 d -> (length (der_sig c d) <= 128)%nat -> limbs_lt 8 (der_sig c d).
Proof.
  intros Hc Hd Hl. unfold der_sig in *. set (body := der_tlv 2 c ++ der_tlv 2 d) in *.
  assert (T : forall tag l, 0 <= tag < 2 ^ 8 -> limbs_lt 8 l -> (length (der_tlv tag l) <= 128)%nat -> limbs_lt 8 (der_tlv tag l)).
  { intros tag l Ht HB Hlen. unfold der_tlv in *. constructor; [exact Ht |]. apply Forall_app. split; [| exact HB].
    cbn [length] in Hlen. rewrite length_app in Hlen. unfold der_len in *. destruct (Z.ltb_spec (Z.of_nat (length l)) 128); [| cbn [length] in Hlen; lia].
    constructor; [lia | constructor]. }
  assert (Lb : (length body <= 128)%nat) by (unfold der_tlv in Hl; cbn [length] in Hl; rewrite length_app in Hl; lia).
  apply T; [lia | | exact Hl]. unfold body in Lb. rewrite length_app in Lb. apply Forall_app. split; apply T; (assumption || lia).
Qed.
End Parser.
