(* ===== verification/EcdsaSpec.v ===== *)
(** Signing and verification against ECDSA as SEC 1 (section 4.1) defines it. *)

From Stdlib Require Import ZArith Lia List Bool Zmod Field.
From S2P Require Import Prelude Limbs Primes Fp Curve CurveGroup FieldSpec FieldGen.
From S2P Require Import Group GroupSpec GroupOps GOrder Cofactor ScalarSpec ScalarGen Hash.
From S2P Require Import Ecmult EcmultTable EcmultSpec EcmultGen EcmultGenSpec Ecdsa.
Import ListNotations.
Open Scope Z_scope.

(** * Multiples by residues modulo the group order *)

Definition smF (k : Fn) (P : point) : point := smul (Zmod.to_Z k) P.

Lemma Fn_of_to (k : Fn) : Fn_of_Z (Zmod.to_Z k) = k.
Proof. apply Zmod.of_Z_unsigned. Qed.

Lemma Fn_to_of z : Zmod.to_Z (Fn_of_Z z) = z mod secp_n.
Proof. apply Zmod.unsigned_of_Z. Qed.

Lemma Fn_to_bound (k : Fn) : 0 <= Zmod.to_Z k < secp_n.
Proof. apply Zmod.unsigned_pos_bound. reflexivity. Qed.

Lemma Fn_of_Z_0 z : Fn_of_Z z = 0%F <-> z mod secp_n = 0.
Proof. change (0%F : Fn) with (Fn_of_Z 0). unfold Fn_of_Z. rewrite Zmod.of_Z_inj. now rewrite Z.mod_0_l by discriminate. Qed.

Lemma smF_of_Z z P : secp P -> smF (Fn_of_Z z) P = smul z P.
Proof. intros S. unfold smF. rewrite Fn_to_of. apply smul_eq_mod; [exact S |]. now rewrite Z.mod_mod. Qed.

Lemma smF_secp k P : secp P -> secp (smF k P).
Proof. apply smul_secp. Qed.

Lemma smF_add a b P : secp P -> smF (a + b)%F P = padd (smF a P) (smF b P).
Proof.
  intros S. rewrite <- (Fn_of_to a), <- (Fn_of_to b) at 1. unfold Fn_of_Z. rewrite <- Zmod.of_Z_add. fold (Fn_of_Z (Zmod.to_Z a + Zmod.to_Z b)).
  rewrite smF_of_Z by exact S. now apply (smul_add curve_b curve_b_nz).
Qed.

Lemma smF_mul a b P : secp P -> smF (a * b)%F P = smF a (smF b P).
Proof.
  intros S. rewrite <- (Fn_of_to a), <- (Fn_of_to b) at 1. unfold Fn_of_Z. rewrite <- Zmod.of_Z_mul. fold (Fn_of_Z (Zmod.to_Z a * Zmod.to_Z b)).
  rewrite smF_of_Z by exact S. now apply (smul_mul curve_b curve_b_nz).
Qed.

Lemma smF_opp a P : secp P -> smF (- a)%F P = pneg (smF a P).
Proof.
  intros S. rewrite <- (Fn_of_to a) at 1. unfold Fn_of_Z. rewrite <- Zmod.of_Z_opp. fold (Fn_of_Z (- Zmod.to_Z a)).
  rewrite smF_of_Z by exact S. apply smul_opp.
Qed.

Lemma smF_finite a P : secp P -> P <> Inf -> a <> 0%F -> smF a P <> Inf.
Proof.
  intros S N Na. pose proof (Fn_to_bound a) as B. apply (small_multiple_finite P (Zmod.to_Z a) S N (secp_order P S)).
  assert (Zmod.to_Z a <> 0) by (intros E; apply Na; rewrite <- (Fn_of_to a), E; reflexivity). lia.
Qed.

(** * ECDSA *)

(** The signature [(r, s)] of the integer [z] is valid for the key [Q]. *)
Definition ecdsa_valid (Q : point) (z r s : Z) : Prop :=
  0 < r < secp_n /\ 0 < s < secp_n /\
  exists w, (s * w) mod secp_n = 1 /\
  exists x y, padd (smul (z * w) G) (smul (r * w) Q) = Aff x y /\ Zmod.to_Z x mod secp_n = r.

(** The same with residues. *)
Lemma ecdsa_valid_iff Q z r s : secp Q -> 0 <= r < secp_n -> 0 <= s < secp_n ->
  ecdsa_valid Q z r s <->
  r <> 0 /\ s <> 0 /\ exists x y,
    padd (smF (Fn_of_Z z / Fn_of_Z s) G) (smF (Fn_of_Z r / Fn_of_Z s) Q) = Aff x y /\ Zmod.to_Z x mod secp_n = r.
Proof.
  intros S Hr Hs. unfold ecdsa_valid.
  assert (T : forall w u P, secp P -> (s * w) mod secp_n = 1 -> s <> 0 -> smul (u * w) P = smF (Fn_of_Z u / Fn_of_Z s) P).
  { intros w u P SP Hw Ns. rewrite <- smF_of_Z by exact SP. f_equal. unfold Fn_of_Z at 1. rewrite Zmod.of_Z_mul.
    fold (Fn_of_Z u) (Fn_of_Z w). now rewrite (Fn_inv_unique s w Hw). }
  split.
  - intros (R & Ss & w & Hw & x & y & E & Ex). split; [lia |]. split; [lia |]. exists x, y. split; [| exact Ex].
    rewrite <- (T w z G G_on_curve Hw), <- (T w r Q S Hw) by lia. exact E.
  - intros (Nr & Ns & x & y & E & Ex). split; [lia |]. split; [lia |].
    assert (Ns' : Fn_of_Z s <> 0%F) by (rewrite Fn_of_Z_0, Z.mod_small by lia; exact Ns).
    set (w := Zmod.to_Z (Zmod.inv (Fn_of_Z s))). assert (Hw : (s * w) mod secp_n = 1).
    { change 1 with (1 mod secp_n). apply Zmod.of_Z_inj. rewrite Zmod.of_Z_mul. fold (Fn_of_Z s) (Fn_of_Z w). unfold w. rewrite Fn_of_to.
      change (Zmod.of_Z secp_n 1) with (1%F : Fn). now field. }
    exists w. split; [exact Hw |]. exists x, y. split; [| exact Ex]. rewrite (T w z G G_on_curve Hw), (T w r Q S Hw) by lia. exact E.
Qed.

(** An abscissa [X] below the prime is [r] modulo the order exactly when it is
    [r] or [r + n]. *)
Lemma x_mod_order (X : F) r : 0 <= r < secp_n ->
  Zmod.to_Z X mod secp_n = r <-> F_of_Z r = X \/ (r < secp_p - secp_n /\ F_of_Z (r + secp_n) = X).
Proof.
  intros Hr. pose proof (F_to_Z_bound X) as B. assert (Hp : secp_n < secp_p < 2 * secp_n) by (split; reflexivity). split.
  - intros E. destruct (Z_lt_ge_dec (Zmod.to_Z X) secp_n) as [H | H].
    + left. rewrite Z.mod_small in E by lia. rewrite <- E. apply F_of_to_Z.
    + assert (E' : Zmod.to_Z X = r + secp_n).
      { rewrite (Z.mod_eq (Zmod.to_Z X) secp_n) in E by lia. replace (Zmod.to_Z X / secp_n) with 1 in E; [lia |].
        apply (Z.div_unique _ _ _ (Zmod.to_Z X - secp_n)); lia. }
      right. split; [lia |]. rewrite <- E'. apply F_of_to_Z.
  - intros [E | [H E]]; rewrite <- E, F_to_of_Z.
    + rewrite (Z.mod_small r secp_p), Z.mod_small by lia. reflexivity.
    + rewrite (Z.mod_small _ secp_p) by lia. symmetry. apply (mod_of_reduced _ _ 1); lia.
Qed.

Section Ecdsa.
Context {I : FieldImpl} {L : FieldLaws I} {J : ScalarImpl} {M : ScalarLaws J}.

(** * Verification *)

Lemma order_as_fe_ok : norm secp256k1_ecdsa_const_order_as_fe /\ fv secp256k1_ecdsa_const_order_as_fe = F_of_Z secp_n.
Proof. apply const_ok; [repeat constructor; lia | reflexivity]. Qed.

Lemma p_minus_order_ok : norm secp256k1_ecdsa_const_p_minus_order /\
  fv secp256k1_ecdsa_const_p_minus_order = F_of_Z (secp_p - secp_n).
Proof. apply const_ok; [repeat constructor; lia | reflexivity]. Qed.

Lemma scalar_fe a : sok a -> let x := fst (fe_set_b32 (sc_get_b32 a)) in
  norm x /\ fv x = F_of_Z (sv a) /\ snd (fe_set_b32 (sc_get_b32 a)) = 1.
Proof.
  intros Ha x. pose proof (sv_range a Ha) as R. assert (Hp : secp_n < secp_p < 2 ^ 256) by (split; reflexivity).
  destruct (set_b32_ok (sc_get_b32 a)) as (E & _ & V & N); [rewrite sc_get_b32_ok by exact Ha; apply limbs_lt_be_bytes |
    rewrite sc_get_b32_ok by exact Ha; apply length_be_bytes |].
  assert (Eb : be_val (sc_get_b32 a) = sv a).
  { rewrite sc_get_b32_ok, be_val_bytes by exact Ha. apply Z.mod_small. lia. }
  rewrite Eb in *. split; [apply N; lia |]. split; [exact V |]. rewrite E. now replace (sv a <? secp_p) with true by lia.
Qed.

Lemma cmp_p_minus_order x r : norm x -> fv x = F_of_Z r -> 0 <= r < secp_n ->
  (fe_cmp_var x secp256k1_ecdsa_const_p_minus_order >=? 0) = negb (r <? secp_p - secp_n).
Proof.
  intros N V Hr. destruct p_minus_order_ok as [No Vo]. rewrite cmp_var_ok, V, Vo, !F_to_of_Z by assumption.
  assert (Hp : secp_n < secp_p < 2 * secp_n) by (split; reflexivity). rewrite !Z.mod_small by lia.
  unfold Z.ltb. now destruct (r ?= secp_p - secp_n).
Qed.

Lemma sres_zero a : sok a -> sres a = 0%F <-> sv a = 0.
Proof. intros Ha. unfold sres. rewrite Fn_of_Z_0, Z.mod_small by now apply sv_range. reflexivity. Qed.

Lemma smF_sres a P : sok a -> secp P -> smul (sv a) P = smF (sres a) P.
Proof. intros _ S. symmetry. now apply smF_of_Z. Qed.

Lemma gej_pt_zero a : gej_wf a -> z2b (gej_infinity a) = false -> gej_infinity a = 0.
Proof. intros (_ & _ & _ & R & _). now apply z2b_0. Qed.

(** The comparison of the abscissa of [pr] with [r] modulo the order. *)
Lemma verify_x r pr X Y : sok r -> gej_wf pr -> gej_pt pr = Aff X Y ->
  let xr := fst (fe_set_b32 (sc_get_b32 r)) in
  (if z2b (secp256k1_gej_eq_x_var xr pr) then 1 else
   if fe_cmp_var xr secp256k1_ecdsa_const_p_minus_order >=? 0 then 0 else
   if z2b (secp256k1_gej_eq_x_var (fe_add xr secp256k1_ecdsa_const_order_as_fe) pr) then 1 else 0) =
  b2z (Zmod.to_Z X mod secp_n =? sv r).
Proof.
  intros Hr W E xr. destruct (scalar_fe r Hr) as (N & V & _). fold xr in N, V. pose proof (sv_range r Hr) as R.
  assert (Ei : gej_infinity pr = 0).
  { apply gej_pt_zero; [exact W |]. unfold gej_pt in E. destruct (z2b (gej_infinity pr)); [discriminate | reflexivity]. }
  unfold gej_pt in E. rewrite Ei in E. cbn [z2b Z.eqb negb] in E. apply aff_inj in E as [EX _].
  pose proof (feI_of_norm xr N) as Hx.
  destruct order_as_fe_ok as [No Vo]. pose proof (feI_of_norm _ No) as Ho.
  eassert (Hs : FeI (fe_add xr secp256k1_ecdsa_const_order_as_fe) _ _) by typeclasses eauto. fe_norm_mag Hs.
  pose proof (feI_weaken _ 2 8 _ ltac:(lia) Hs) as Hs8. pose proof (feI_weaken _ 1 8 _ ltac:(lia) Hx) as Hx8.
  rewrite (gej_eq_x_ok _ _ _ Hx8 W Ei), (gej_eq_x_ok _ _ _ Hs8 W Ei), EX, !b2z_b2z, (cmp_p_minus_order xr (sv r) N V R), V, Vo.
  replace (F_of_Z (sv r) + F_of_Z secp_n)%F with (F_of_Z (sv r + secp_n)) by apply Zmod.of_Z_add.
  pose proof (x_mod_order X (sv r) R) as H. rewrite <- Z.eqb_eq in H.
  destruct (eqb_F_spec (F_of_Z (sv r)) X) as [A | A]; [rewrite (proj2 H) by auto; reflexivity |].
  destruct (Z.ltb_spec (sv r) (secp_p - secp_n)) as [B | B]; cbn [negb].
  - destruct (eqb_F_spec (F_of_Z (sv r + secp_n)) X) as [C | C]; [rewrite (proj2 H) by auto; reflexivity |].
    destruct (Zmod.to_Z X mod secp_n =? sv r); [| reflexivity]. destruct (proj1 H eq_refl) as [? | [_ ?]]; contradiction.
  - destruct (Zmod.to_Z X mod secp_n =? sv r); [| reflexivity]. destruct (proj1 H eq_refl) as [? | [? _]]; [contradiction | lia].
Qed.

Lemma sig_verify_ok ctx r s q m : pre_storage_ok G (ECMULT_TABLE_SIZE WINDOW_G) ctx ->
  sok r -> sok s -> sok m -> ge_wf q -> secp (ge_pt q) -> ge_pt q <> Inf ->
  (secp256k1_ecdsa_sig_verify ctx r s q m = 1 <-> ecdsa_valid (ge_pt q) (sv m) (sv r) (sv s)) /\
  Rng (secp256k1_ecdsa_sig_verify ctx r s q m) 1.
Proof.
  intros HC Hr Hs Hm W S Nq. rewrite ecdsa_valid_iff by (assumption || now apply sv_range).
  unfold secp256k1_ecdsa_sig_verify. rewrite !sc_is_zero_ok, !b2z_b2z by assumption. unfold Rng.
  destruct (Z.eqb_spec (sv r) 0) as [E | Nr]; cbn [orb]; [split; [split; [discriminate | tauto] | lia] |].
  destruct (Z.eqb_spec (sv s) 0) as [E | Ns]; [split; [split; [discriminate | tauto] | lia] |].
  unfold secp256k1_scalar_inverse_var. destruct (scalar_inverse_ok s Hs) as [Hi Ei]. set (sn := secp256k1_scalar_inverse s) in *. cbv zeta.
  destruct (sres_mul sn m Hi Hm) as [H1 E1]. destruct (sres_mul sn r Hi Hr) as [H2 E2].
  destruct (gej_set_ge_ok q W) as [Wj Pj].
  destruct (ecmult_ok ctx (secp256k1_gej_set_ge q) (sc_mul sn r) (sc_mul sn m) HC Wj) as [Wp Pp]; try rewrite Pj; try assumption.
  rewrite Pj, (smF_sres _ _ H1 G_on_curve), (smF_sres _ _ H2 S), E1, E2, Ei in Pp. unfold secp256k1_gej_is_infinity.
  set (pr := secp256k1_ecmult _ _ _ _) in *.
  assert (Pq : gej_pt pr = padd (smF (Fn_of_Z (sv m) / Fn_of_Z (sv s)) G) (smF (Fn_of_Z (sv r) / Fn_of_Z (sv s)) (ge_pt q))).
  { rewrite Pp, (padd_comm curve_b _ _ (smF_secp _ _ S) (smF_secp _ _ G_on_curve)). rewrite <- (sres_zero s Hs) in Ns. fold (sres m) (sres r) (sres s).
    replace (Zmod.inv (sres s) * sres m)%F with (sres m / sres s)%F by now field.
    now replace (Zmod.inv (sres s) * sres r)%F with (sres r / sres s)%F by now field. }
  rewrite <- Pq. destruct (z2b (gej_infinity pr)) eqn:Einf.
  - rewrite gej_pt_inf by exact Einf. split; [| lia]. split; [discriminate |]. intros (_ & _ & x & y & H & _). discriminate.
  - assert (HP : exists X Y, gej_pt pr = Aff X Y) by (unfold gej_pt; rewrite Einf; eauto). destruct HP as (X & Y & HP).
    rewrite (verify_x r pr X Y Hr Wp HP), HP. destruct (Z.eqb_spec (Zmod.to_Z X mod secp_n) (sv r)) as [E | N]; cbn [b2z]; split; try lia.
    + split; [| reflexivity]. intros _. split; [exact Nr |]. split; [exact Ns |]. eauto.
    + split; [discriminate |]. intros (_ & _ & x & y & H & Hx). apply aff_inj in H as [<- _]. contradiction.
Qed.

(** * Signing *)

(** What a successful signature is: [k'] is the nonce or its negative, [s] is
    the lower of the two solutions of [s * k' = r * d + m], and the recovery
    identifier tells which point [(X, Y)] the nonce gave. *)
Definition signed (d m k : Fn) (o : signing) : Prop :=
  sok (sign_r o) /\ sok (sign_s o) /\
  exists k' X Y, (k' = k \/ k' = (- k)%F) /\ smF k' G = Aff X Y /\
  sv (sign_r o) = Zmod.to_Z X mod secp_n /\ 0 < sv (sign_s o) <= secp_n / 2 /\
  (sres (sign_s o) * k' = sres (sign_r o) * d + m)%F /\
  match sign_recid o with
  | Some v => v = 2 * b2z (secp_n <=? Zmod.to_Z X) + parity Y
  | None => True
  end.

Lemma recid_bits a p : 0 <= p <= 1 ->
  (if z2b (b2z a) then 2 else 0) .| (if z2b p then 1 else 0) = 2 * b2z a + p /\
  (2 * b2z a + p) .^ 1 = 2 * b2z a + (1 - p).
Proof. intros Hp. assert (E : p = 0 \/ p = 1) by lia. destruct E as [-> | ->], a; split; reflexivity. Qed.

Lemma parity_range (Y : F) : 0 <= parity Y <= 1.
Proof. unfold parity. pose proof (Z.mod_pos_bound (Zmod.to_Z Y) 2 eq_refl). lia. Qed.

(** The abscissa and the ordinate of the nonce point as the code reads them. *)
Lemma nonce_point rp X Y : gej_wf rp -> gej_pt rp = Aff X Y ->
  let r := fst (secp256k1_ge_set_gej rp) in
  fe_get_b32 (fe_normalize (ge_x r)) = be_bytes 32 (Zmod.to_Z X) /\ fe_is_odd (fe_normalize (ge_y r)) = parity Y.
Proof.
  intros W P r. destruct (ge_set_gej_ok rp W) as (Wr & Pr & _). fold r in Wr, Pr. rewrite P in Pr.
  unfold ge_pt in Pr. destruct (z2b (ge_infinity r)); [discriminate |]. apply aff_inj in Pr as [<- <-].
  destruct (ge_wf_inv r Wr) as [Hx Hy]. destruct (feI_normalize _ _ _ Hx eq_refl) as [[_ Ex] Nx].
  destruct (feI_normalize _ _ _ Hy eq_refl) as [[_ Ey] Ny]. rewrite get_b32_ok, is_odd_ok, Ex, Ey by assumption. now split.
Qed.

Lemma sv_opp s : sok s -> secp_n / 2 < sv s -> 0 < sv (sc_negate s) <= secp_n / 2.
Proof.
  intros Hs H. destruct (sc_negate_ok s Hs) as [_ E]. pose proof (sv_range s Hs) as R.
  assert (Hn : secp_n = 2 * (secp_n / 2) + 1) by reflexivity. assert (Hp : 0 < secp_n / 2) by reflexivity. set (h := secp_n / 2) in *.
  rewrite <- (mod_of_reduced (- sv s) (secp_n - sv s) (-1) secp_n) in E; lia.
Qed.

Lemma finite_aff P : P <> Inf -> exists X Y, P = Aff X Y.
Proof. destruct P; [congruence | eauto]. Qed.

Lemma G_finite : G <> Inf.
Proof. discriminate. Qed.

Lemma sig_sign_ok ctx d m k recid : gen_ctx_ok ctx -> sok d -> sok m -> sok k -> sv k <> 0 ->
  exists o, secp256k1_ecdsa_sig_sign ctx d m k recid = Some o /\ (sign_recid o = None <-> recid = None) /\
  (exists X Y, smF (sres k) G = Aff X Y /\ sv (sign_r o) = Zmod.to_Z X mod secp_n) /\
  (sign_ret o = 0 /\ (sres (sign_r o) * sres d + sres m = 0)%F \/ sign_ret o = 1 /\ signed (sres d) (sres m) (sres k) o).
Proof.
  intros HC Hd Hm Hk Nk. unfold secp256k1_ecdsa_sig_sign. destruct (ecmult_gen_ok ctx k HC Hk) as (rp & -> & Wp & Pp). cbn [bind].
  rewrite smF_sres in Pp by (assumption || exact G_on_curve). rewrite <- (sres_zero k Hk) in Nk.
  destruct (finite_aff _ (smF_finite (sres k) G G_on_curve G_finite Nk)) as (X & Y & EP). rewrite EP in Pp.
  pose proof (nonce_point rp X Y Wp Pp) as [Eb Eo]. destruct (secp256k1_ge_set_gej rp) as [r rp']. cbn [fst] in Eb, Eo. cbv zeta. rewrite Eb, Eo.
  pose proof (F_to_Z_bound X) as BX. assert (Hp : secp_p < 2 ^ 256) by reflexivity.
  destruct (sc_set_b32_ok (be_bytes 32 (Zmod.to_Z X)) (limbs_lt_be_bytes _ _) (length_be_bytes _ _)) as (Hr & Vr & Or).
  rewrite be_val_bytes, (Z.mod_small (Zmod.to_Z X)) in Vr, Or by (change (8 * Z.of_nat 32) with 256; lia).
  destruct (sc_set_b32 (be_bytes 32 (Zmod.to_Z X))) as [sigr ov]. cbn [fst snd] in *. subst ov.
  destruct (recid_bits (secp_n <=? Zmod.to_Z X) (parity Y) (parity_range Y)) as [R1 R2]. rewrite R1.
  destruct (sres_mul sigr d Hr Hd) as [H1 E1]. destruct (sres_add _ m H1 Hm) as [H2 E2]. destruct (scalar_inverse_ok k Hk) as [H3 E3].
  destruct (sres_mul _ _ H3 H2) as [H4 E4]. set (s0 := sc_mul (secp256k1_scalar_inverse k) _) in *. rewrite E3, E2, E1 in E4.
  assert (Es : (sres s0 * sres k = sres sigr * sres d + sres m)%F) by (rewrite E4; now field).
  rewrite sc_is_zero_ok, sc_is_high_ok, !b2z_b2z by exact H4. destruct (Z.eqb_spec (sv s0) 0) as [Z0 | N0].
  { eexists. split; [reflexivity |]. split; [cbn [sign_recid]; destruct recid; split; intros E0; first [discriminate E0 | reflexivity] |]. split; [exists X, Y; split; [exact EP | exact Vr] |]. left. split; [reflexivity |]. cbn [sign_r].
    rewrite <- Es, (proj2 (sres_zero s0 H4) Z0). ring. }
  pose proof (sv_range s0 H4) as R0. destruct (Z.ltb_spec (secp_n / 2) (sv s0)) as [Hi | Lo].
  - eexists. split; [reflexivity |]. split; [cbn [sign_recid]; destruct recid; split; intros E0; first [discriminate E0 | reflexivity] |]. split; [exists X, Y; split; [exact EP | exact Vr] |]. right. split; [reflexivity |]. destruct (sres_negate s0 H4) as [H5 E5].
    split; [exact Hr |]. split; [exact H5 |]. cbn [sign_r sign_s sign_recid]. exists (- sres k)%F, X, (- Y)%F. split; [now right |].
    split; [now rewrite smF_opp, EP by exact G_on_curve |]. split; [exact Vr |]. split; [now apply sv_opp |].
    split; [rewrite E5, <- Es; ring |]. destruct recid; [| exact Logic.I]. rewrite parity_opp; [exact R2 |].
    apply (secp_y_nz X). rewrite <- EP. apply smF_secp, G_on_curve.
  - eexists. split; [reflexivity |]. split; [cbn [sign_recid]; destruct recid; split; intros E0; first [discriminate E0 | reflexivity] |]. split; [exists X, Y; split; [exact EP | exact Vr] |]. right. split; [reflexivity |].
    split; [exact Hr |]. split; [exact H4 |]. cbn [sign_r sign_s sign_recid]. exists (sres k), X, Y. split; [now left |].
    split; [exact EP |]. split; [exact Vr |]. split; [lia |]. split; [exact Es |]. destruct recid; [reflexivity | exact Logic.I].
Qed.

(** A signature is valid for the key of its secret, unless [r] is zero. *)
Lemma signed_valid d m k o : signed d (sres m) k o -> sok m -> sv (sign_r o) <> 0 ->
  ecdsa_valid (smF d G) (sv m) (sv (sign_r o)) (sv (sign_s o)).
Proof.
  intros (Hr & Hs & k' & X & Y & _ & EP & Vr & Rs & E & _) Hm Nr.
  rewrite ecdsa_valid_iff by (apply smF_secp, G_on_curve || now apply sv_range). split; [exact Nr |]. split; [lia |].
  exists X, Y. split; [| now symmetry]. fold (sres m) (sres (sign_r o)) (sres (sign_s o)).
  rewrite <- smF_mul, <- smF_add, <- EP by exact G_on_curve. f_equal.
  assert (Ns : sres (sign_s o) <> 0%F) by (rewrite sres_zero by exact Hs; lia).
  transitivity ((sres (sign_r o) * d + sres m) / sres (sign_s o))%F; [now field |]. rewrite <- E. now field.
Qed.
End Ecdsa.
