(* ===== verification/Eckey.v ===== *)
(** Keys, [eckey.h] and [eckey_impl.h]: public keys as bytes, and the tweaks of
    secret and public keys. *)

From Stdlib Require Import ZArith Lia List Bool.
From S2P Require Import Prelude Limbs Fp FieldSpec FieldGen Group ScalarSpec ScalarGen Ecmult.
Import ListNotations.
Open Scope Z_scope.

Section Code.
Context {I : FieldImpl} {J : ScalarImpl}.

(** [pub] has [size] bytes, all readable.  [None] is the return value 0. *)
Definition secp256k1_eckey_pubkey_parse (pub : list Z) : option ge :=
  let size := length pub in
  if (size =? 33)%nat && ((pub.[0] =? 0x02) || (pub.[0] =? 0x03)) then
    let '(x, ok) := fe_set_b32 (firstn 32 (skipn 1 pub)) in
    if negb (z2b ok) then None else
    let '(elem, ok) := secp256k1_ge_set_xo_var x (b2z (pub.[0] =? 0x03)) in
    if z2b ok then Some elem else None
  else if (size =? 65)%nat && ((pub.[0] =? 0x04) || (pub.[0] =? 0x06) || (pub.[0] =? 0x07)) then
    let '(x, okx) := fe_set_b32 (firstn 32 (skipn 1 pub)) in
    if negb (z2b okx) then None else
    let '(y, oky) := fe_set_b32 (firstn 32 (skipn 33 pub)) in
    if negb (z2b oky) then None else
    let elem := secp256k1_ge_set_xy x y in
    if ((pub.[0] =? 0x06) || (pub.[0] =? 0x07)) && negb (fe_is_odd y =? b2z (pub.[0] =? 0x07)) then None else
    if z2b (secp256k1_ge_is_valid_var elem) then Some elem else None
  else None.

(** Returns the element, normalised, and the bytes written; [None] is the
    return value 0. *)
Definition secp256k1_eckey_pubkey_serialize (elem : ge) (compressed : Z) : ge * option (list Z) :=
  if z2b (secp256k1_ge_is_infinity elem) then (elem, None) else
  let x := fe_normalize_var (ge_x elem) in
  let y := fe_normalize_var (ge_y elem) in
  let elem := Ge x y (ge_infinity elem) in
  if z2b compressed
  then (elem, Some ((0x02 .| (if z2b (fe_is_odd y) then 0x01 else 0x00)) :: fe_get_b32 x))
  else (elem, Some (0x04 :: fe_get_b32 x ++ fe_get_b32 y)).

(** The new key and the return value. *)
Definition secp256k1_eckey_privkey_tweak_add (key tweak : scalar) : scalar * Z :=
  let key := fst (sc_add key tweak) in
  if z2b (sc_is_zero key) then (key, 0) else (key, 1).

Definition secp256k1_eckey_pubkey_tweak_add (ctx : list ge_storage) (key : ge) (tweak : scalar) : ge * Z :=
  let pt := secp256k1_gej_set_ge key in
  let one := sc_set_int 1 in
  let pt := secp256k1_ecmult ctx pt one tweak in
  if z2b (secp256k1_gej_is_infinity pt) then (key, 0)
  else (fst (secp256k1_ge_set_gej pt), 1).

Definition secp256k1_eckey_privkey_tweak_mul (key tweak : scalar) : scalar * Z :=
  if z2b (sc_is_zero tweak) then (key, 0) else (sc_mul key tweak, 1).

Definition secp256k1_eckey_pubkey_tweak_mul (ctx : list ge_storage) (key : ge) (tweak : scalar) : ge * Z :=
  if z2b (sc_is_zero tweak) then (key, 0) else
  let zero := sc_set_int 0 in
  let pt := secp256k1_gej_set_ge key in
  let pt := secp256k1_ecmult ctx pt tweak zero in
  (fst (secp256k1_ge_set_gej pt), 1).
End Code.
