(* ===== verification/EckeySpec.v ===== *)
(** Public keys as bytes, in the encodings of SEC 1 (section 2.3.3) and the
    hybrid one, and the tweaks of keys as operations on the group. *)

From Stdlib Require Import ZArith Lia List Bool Zmod Field.
From S2P Require Import Prelude Limbs Primes Fp Curve CurveGroup FieldSpec FieldGen.
From S2P Require Import Group GroupSpec GroupOps GOrder Cofactor ScalarSpec ScalarGen.
From S2P Require Import Ecmult EcmultTable EcmultSpec EcmultGenSpec EcdsaSpec Eckey.
Import ListNotations.
Open Scope Z_scope.

(** * Encodings *)

Definition fe_bytes (X : F) : list Z := be_bytes 32 (Zmod.to_Z X).

Definition pub_compressed (X Y : F) : list Z := (2 + parity Y) :: fe_bytes X.
Definition pub_uncompressed (X Y : F) : list Z := 4 :: fe_bytes X ++ fe_bytes Y.
Definition pub_hybrid (X Y : F) : list Z := (6 + parity Y) :: fe_bytes X ++ fe_bytes Y.

Definition pub_encodes (pub : list Z) (X Y : F) : Prop :=
  pub = pub_compressed X Y \/ pub = pub_uncompressed X Y \/ pub = pub_hybrid X Y.

Lemma fe_bytes_val X : be_val (fe_bytes X) = Zmod.to_Z X.
Proof.
  unfold fe_bytes. rewrite be_val_bytes. apply Z.mod_small. pose proof (F_to_Z_bound X). assert (secp_p < 2 ^ 256) by reflexivity.
  change (8 * Z.of_nat 32) with 256. lia.
Qed.

Lemma fe_bytes_inj X Y : fe_bytes X = fe_bytes Y -> X = Y.
Proof. intros E. apply Zmod.unsigned_inj. now rewrite <- !fe_bytes_val, E. Qed.

Lemma length_fe_bytes X : length (fe_bytes X) = 32%nat.
Proof. apply length_be_bytes. Qed.

Section Keys.
Context {I : FieldImpl} {L : FieldLaws I} {J : ScalarImpl} {M : ScalarLaws J}.

Lemma ge_finite_flag e : ge_wf e -> ge_pt e <> Inf -> ge_infinity e = 0.
Proof.
  intros W N. apply z2b_0; [apply W |]. destruct (z2b (ge_infinity e)) eqn:E; [| reflexivity]. exfalso. apply N. now apply ge_pt_inf.
Qed.

Lemma set_b32_cases b : limbs_lt 8 b -> length b = 32%nat ->
  (exists x X, fe_set_b32 b = (x, 1) /\ norm x /\ fv x = X /\ b = fe_bytes X) \/
  (exists x, fe_set_b32 b = (x, 0) /\ forall X, b <> fe_bytes X).
Proof.
  intros HB Hl. destruct (set_b32_ok b HB Hl) as (E & _ & V & N). destruct (fe_set_b32 b) as [x ok]. cbn [fst snd] in *. subst ok.
  pose proof (be_val_bound b HB) as B. destruct (Z.ltb_spec (be_val b) secp_p) as [H | H]; cbn [b2z].
  - left. exists x, (F_of_Z (be_val b)). split; [reflexivity |]. split; [now apply N |]. split; [exact V |]. unfold fe_bytes.
    rewrite F_to_of_Z, Z.mod_small by lia. rewrite <- Hl. symmetry. now apply be_bytes_val.
  - right. exists x. split; [reflexivity |]. intros X ->. rewrite fe_bytes_val in H. pose proof (F_to_Z_bound X). lia.
Qed.

Lemma cons_inj (h h' : Z) t t' : h :: t = h' :: t' -> h = h' /\ t = t'.
Proof. intros E. injection E as -> ->. now split. Qed.

Lemma app_inj_32 (a b c d : list Z) : length a = 32%nat -> length c = 32%nat -> a ++ b = c ++ d -> a = c /\ b = d.
Proof.
  intros Ha Hc E. split.
  - apply (f_equal (firstn 32)) in E. rewrite !firstn_app, Ha, Hc, Nat.sub_diag, !firstn_O, !app_nil_r, (firstn_all2 a), (firstn_all2 c) in E by lia. exact E.
  - apply (f_equal (skipn 32)) in E. rewrite !skipn_app, Ha, Hc, Nat.sub_diag, (skipn_all2 a), (skipn_all2 c) in E by lia. exact E.
Qed.

(** No encoding of one form is one of another. *)
Lemma encodes_33 h b X Y : length b = 32%nat -> pub_encodes (h :: b) X Y <-> h = 2 + parity Y /\ b = fe_bytes X.
Proof.
  intros Hb. unfold pub_encodes, pub_compressed, pub_uncompressed, pub_hybrid. split.
  - intros [E | [E | E]]; apply cons_inj in E as [-> E]; [now split | |]; apply (f_equal (@length Z)) in E;
      pose proof (length_fe_bytes X); pose proof (length_fe_bytes Y); rewrite length_app in E; lia.
  - intros [-> ->]. now left.
Qed.

Lemma encodes_65 h a b X Y : length a = 32%nat -> length b = 32%nat ->
  pub_encodes (h :: a ++ b) X Y <-> (h = 4 \/ h = 6 + parity Y) /\ a = fe_bytes X /\ b = fe_bytes Y.
Proof.
  intros Ha Hb. unfold pub_encodes, pub_compressed, pub_uncompressed, pub_hybrid. split.
  - intros [E | [E | E]]; apply cons_inj in E as [-> E].
    + apply (f_equal (@length Z)) in E. pose proof (length_fe_bytes X). rewrite length_app in E. lia.
    + apply app_inj_32 in E; [| assumption | apply length_fe_bytes]. tauto.
    + apply app_inj_32 in E; [| assumption | apply length_fe_bytes]. tauto.
  - intros [[-> | ->] [-> ->]]; tauto.
Qed.

Lemma encodes_length pub X Y : pub_encodes pub X Y ->
  (length pub = 33%nat /\ (pub.[0] = 2 \/ pub.[0] = 3)) \/ (length pub = 65%nat /\ (pub.[0] = 4 \/ pub.[0] = 6 \/ pub.[0] = 7)).
Proof.
  pose proof (parity_range Y). intros [-> | [-> | ->]]; unfold pub_compressed, pub_uncompressed, pub_hybrid;
    cbn [length nth]; rewrite ?length_app, !length_fe_bytes; lia.
Qed.

(** The parser accepts exactly the encodings of the finite points of the curve. *)
Definition parse_spec (pub : list Z) (o : option ge) : Prop :=
  match o with
  | Some e => ge_wf e /\ ge_infinity e = 0 /\ exists X Y, ge_pt e = Aff X Y /\ secp (Aff X Y) /\ pub_encodes pub X Y
  | None => forall X Y, secp (Aff X Y) -> ~ pub_encodes pub X Y
  end.

Lemma parse_33 h b : limbs_lt 8 b -> length b = 32%nat -> h = 2 \/ h = 3 -> parse_spec (h :: b) (secp256k1_eckey_pubkey_parse (h :: b)).
Proof.
  intros HB Hl Hh. unfold secp256k1_eckey_pubkey_parse. cbn [length nth skipn]. rewrite Hl, firstn_all2 by lia.
  replace ((h =? 2) || (h =? 3)) with true by (destruct Hh as [-> | ->]; reflexivity). cbn [Nat.eqb andb].
  destruct (set_b32_cases b HB Hl) as [(x & X & -> & N & V & Eb) | (x & -> & NX)].
  - cbn [z2b Z.eqb negb]. pose proof (feI_of_norm x N) as Hx. rewrite V in Hx.
    apply (feI_weaken x 1 8) in Hx; [| lia]. assert (Ho : 0 <= b2z (h =? 3) <= 1) by (destruct (h =? 3); cbn; lia).
    destruct (ge_set_xo_ok x X (b2z (h =? 3)) Hx Ho) as [(R & W & Y & P & S & Py) | (R & NS)];
      destruct (secp256k1_ge_set_xo_var x (b2z (h =? 3))) as [e ok]; cbn [fst snd] in *; subst ok; cbn [z2b Z.eqb negb parse_spec].
    + split; [exact W |]. split; [apply ge_finite_flag; [exact W | rewrite P; discriminate] |]. exists X, Y. split; [exact P |]. split; [exact S |].
      apply encodes_33; [exact Hl |]. split; [| exact Eb]. rewrite Py. destruct Hh as [-> | ->]; reflexivity.
    + intros X' Y' S E. apply encodes_33 in E as [_ E]; [| exact Hl]. rewrite Eb in E. apply fe_bytes_inj in E as <-. now apply (NS Y').
  - cbn [z2b Z.eqb negb parse_spec]. intros X Y _ E. apply encodes_33 in E as [_ E]; [| exact Hl]. now apply (NX X).
Qed.

Lemma parse_65 h a b : limbs_lt 8 a -> limbs_lt 8 b -> length a = 32%nat -> length b = 32%nat -> h = 4 \/ h = 6 \/ h = 7 ->
  parse_spec (h :: a ++ b) (secp256k1_eckey_pubkey_parse (h :: a ++ b)).
Proof.
  intros HA HB La Lb Hh. unfold secp256k1_eckey_pubkey_parse. cbn [length nth]. rewrite length_app, La, Lb.
  assert (E1 : firstn 32 (skipn 1 (h :: a ++ b)) = a).
  { change (skipn 1 (h :: a ++ b)) with (a ++ b). rewrite firstn_app, La, Nat.sub_diag, firstn_O, app_nil_r. now apply firstn_all2; lia. }
  assert (E2 : firstn 32 (skipn 33 (h :: a ++ b)) = b).
  { change (skipn 33 (h :: a ++ b)) with (skipn 32 (a ++ b)). rewrite skipn_app, La, Nat.sub_diag, (skipn_all2 a) by lia. apply firstn_all2; cbn [app skipn]; lia. }
  rewrite E1, E2. clear E1 E2.
  change (S (32 + 32) =? 33)%nat with false. change (S (32 + 32) =? 65)%nat with true.
  replace ((h =? 4) || (h =? 6) || (h =? 7)) with true by (destruct Hh as [-> | [-> | ->]]; reflexivity). cbn [andb].
  destruct (set_b32_cases a HA La) as [(x & X & -> & Nx & Vx & Ea) | (x & -> & NX)]; cbn [z2b Z.eqb negb];
    [| intros X Y _ E; apply encodes_65 in E as (_ & E & _); [now apply (NX X) | assumption ..]].
  destruct (set_b32_cases b HB Lb) as [(y & Y & -> & Ny & Vy & Eb) | (y & -> & NY)]; cbn [z2b Z.eqb negb];
    [| intros X' Y _ E; apply encodes_65 in E as (_ & _ & E); [now apply (NY Y) | assumption ..]].
  destruct (ge_result (secp256k1_ge_set_xy x y) 1 1 X Y (conj (norm_mag _ Nx) Vx) (conj (norm_mag _ Ny) Vy) eq_refl eq_refl) as [W P].
  rewrite is_odd_ok, Vy by exact Ny. fold (parity Y). rewrite ge_is_valid_ok by exact W. cbn [secp256k1_ge_set_xy ge_infinity ge_x ge_y].
  rewrite Vx, Vy, b2z_b2z. cbn [z2b Z.eqb negb andb].
  assert (U : forall X' Y', pub_encodes (h :: a ++ b) X' Y' <-> (h = 4 \/ h = 6 + parity Y) /\ X' = X /\ Y' = Y).
  { intros X' Y'. rewrite encodes_65 by assumption. rewrite Ea, Eb. split.
    - intros (Hp & E1 & E2). apply fe_bytes_inj in E1, E2. subst. auto.
    - intros (Hp & -> & ->). auto. }
  pose proof (parity_range Y) as PR.
  destruct (((h =? 6) || (h =? 7)) && negb (parity Y =? b2z (h =? 7))) eqn:Eh.
  - intros X' Y' _ E. apply U in E as (Hp & _). destruct Hh as [-> | [-> | ->]]; cbn in Eh; try discriminate; destruct (Z.eqb_spec (parity Y) 0), (Z.eqb_spec (parity Y) 1); cbn in Eh; try discriminate; lia.
  - destruct (eqb_F_spec (Y ^ 2)%F (X ^ 3 + curve_b)%F) as [S | NS].
    + split; [exact W |]. split; [reflexivity |]. exists X, Y. split; [exact P |]. split; [exact S |]. apply U. split; [| auto].
      destruct Hh as [-> | [-> | ->]]; [now left | right | right]; cbn in Eh; destruct (Z.eqb_spec (parity Y) 0), (Z.eqb_spec (parity Y) 1); cbn in Eh; try discriminate; lia.
    + intros X' Y' S E. apply U in E as (_ & -> & ->). exact (NS S).
Qed.

Lemma pubkey_parse_ok pub : limbs_lt 8 pub -> parse_spec pub (secp256k1_eckey_pubkey_parse pub).
Proof.
  intros HB.
  destruct ((length pub =? 33)%nat && ((pub.[0] =? 2) || (pub.[0] =? 3))) eqn:E1.
  - apply andb_true_iff in E1 as [El Eh]. apply Nat.eqb_eq in El. destruct pub as [| h b]; [discriminate |].
    cbn [nth length] in *. apply parse_33; [now inversion HB | lia |]. apply orb_true_iff in Eh. rewrite !Z.eqb_eq in Eh. exact Eh.
  - destruct ((length pub =? 65)%nat && ((pub.[0] =? 4) || (pub.[0] =? 6) || (pub.[0] =? 7))) eqn:E2.
    + apply andb_true_iff in E2 as [El Eh]. apply Nat.eqb_eq in El. destruct pub as [| h t]; [discriminate |]. cbn [nth length] in *.
      apply Forall_inv_tail in HB. rewrite <- (firstn_skipn 32 t) in HB |- *. apply Forall_app in HB as [HA HB].
      apply parse_65; try assumption; [rewrite length_firstn; lia | rewrite length_skipn; lia |].
      rewrite !orb_true_iff, !Z.eqb_eq in Eh. tauto.
    + unfold secp256k1_eckey_pubkey_parse. rewrite E1, E2. intros X Y _ E. apply encodes_length in E.
      destruct E as [(El & Eh) | (El & Eh)]; [clear E2; apply andb_false_iff in E1 as [C | C] | clear E1; apply andb_false_iff in E2 as [C | C]];
        try (apply Nat.eqb_neq in C; lia); rewrite !orb_false_iff, !Z.eqb_neq in C; lia.
Qed.

Lemma pubkey_serialize_ok e c X Y : ge_wf e -> ge_pt e = Aff X Y ->
  let '(e', o) := secp256k1_eckey_pubkey_serialize e c in
  ge_wf e' /\ ge_pt e' = Aff X Y /\ o = Some (if z2b c then pub_compressed X Y else pub_uncompressed X Y).
Proof.
  intros W P. unfold secp256k1_eckey_pubkey_serialize, secp256k1_ge_is_infinity.
  assert (Ei : ge_infinity e = 0) by (apply ge_finite_flag; [exact W | rewrite P; discriminate]). rewrite Ei. cbn [z2b Z.eqb negb].
  unfold ge_pt in P. rewrite Ei in P. cbn [z2b Z.eqb negb] in P. apply aff_inj in P as [PX PY]. destruct (ge_wf_inv e W) as [Hx Hy].
  destruct (feI_normalize_var _ _ _ Hx eq_refl) as [Nx Ox]. destruct (feI_normalize_var _ _ _ Hy eq_refl) as [Ny Oy].
  rewrite PX in Nx. rewrite PY in Ny.
  destruct (ge_result (Ge (fe_normalize_var (ge_x e)) (fe_normalize_var (ge_y e)) 0) _ _ _ _ Nx Ny eq_refl eq_refl) as [W' P'].
  rewrite is_odd_ok, !get_b32_ok, (proj2 Nx), (proj2 Ny) by assumption. fold (parity Y) (fe_bytes X) (fe_bytes Y).
  destruct (z2b c); (split; [exact W' |]); (split; [exact P' |]); [| reflexivity]. unfold pub_compressed. do 2 f_equal.
  pose proof (parity_range Y). assert (E : parity Y = 0 \/ parity Y = 1) by lia. destruct E as [-> | ->]; reflexivity.
Qed.

(** An encoding stands for one point. *)
Lemma pub_encodes_unique pub X Y X' Y' : secp (Aff X Y) -> secp (Aff X' Y') -> pub_encodes pub X Y -> pub_encodes pub X' Y' -> X = X' /\ Y = Y'.
Proof.
  intros S S' [-> | [-> | ->]] E'.
  - apply encodes_33 in E' as [Ep Ex]; [| apply length_fe_bytes]. apply fe_bytes_inj in Ex as <-. split; [reflexivity |].
    assert (EP : parity Y = parity Y') by lia. unfold secp in S, S'. cbn [on_curve] in S, S'. destruct (F_square_eq Y Y' ltac:(congruence)) as [| Eo]; [assumption |].
    assert (NY' : Y' <> 0%F) by exact (secp_y_nz X Y' S'). rewrite Eo, parity_opp in EP by exact NY'. pose proof (Z.mod_pos_bound (Zmod.to_Z Y') 2 eq_refl). unfold parity in EP. exfalso. lia.
  - apply encodes_65 in E' as (_ & Ex & Ey); [| apply length_fe_bytes ..]. apply fe_bytes_inj in Ex, Ey. now split.
  - apply encodes_65 in E' as (_ & Ex & Ey); [| apply length_fe_bytes ..]. apply fe_bytes_inj in Ex, Ey. now split.
Qed.

Lemma set_fe_bytes X : norm (fst (fe_set_b32 (fe_bytes X))) /\ fv (fst (fe_set_b32 (fe_bytes X))) = X.
Proof.
  destruct (set_b32_cases (fe_bytes X) (limbs_lt_be_bytes _ _) (length_be_bytes _ _)) as [(x & X' & -> & Nx & V & E) | (x & _ & NX)].
  - apply fe_bytes_inj in E as <-. now split.
  - exfalso. exact (NX X eq_refl).
Qed.

(** The affine coordinates of a product as bytes. *)
Lemma affine_bytes p X Y : gej_wf p -> gej_pt p = Aff X Y ->
  let g := fst (secp256k1_ge_set_gej p) in
  fe_get_b32 (fe_normalize (ge_x g)) = fe_bytes X /\ fe_get_b32 (fe_normalize (ge_y g)) = fe_bytes Y.
Proof.
  intros W P g. destruct (ge_set_gej_ok p W) as (Wg & Pg & _). fold g in Wg, Pg. rewrite P in Pg. unfold ge_pt in Pg.
  destruct (z2b (ge_infinity g)); [discriminate |]. apply aff_inj in Pg as [EX EY]. destruct (ge_wf_inv g Wg) as [Hx Hy].
  destruct (feI_normalize _ _ _ Hx eq_refl) as [[_ Ex] Nx]. destruct (feI_normalize _ _ _ Hy eq_refl) as [[_ Ey] Ny].
  rewrite !get_b32_ok, Ex, Ey, EX, EY by assumption. now split.
Qed.

(** * Tweaks *)

Lemma privkey_tweak_add_ok k t : sok k -> sok t -> let '(k', ret) := secp256k1_eckey_privkey_tweak_add k t in
  sok k' /\ sres k' = (sres k + sres t)%F /\ ret = b2z (negb (sv k' =? 0)).
Proof.
  intros Hk Ht. unfold secp256k1_eckey_privkey_tweak_add. cbv zeta. destruct (sres_add k t Hk Ht) as [H E].
  rewrite sc_is_zero_ok, b2z_b2z by exact H. destruct (sv (fst (sc_add k t)) =? 0) eqn:E0; cbv iota; rewrite E0; auto.
Qed.

Lemma privkey_tweak_mul_ok k t : sok k -> sok t -> let '(k', ret) := secp256k1_eckey_privkey_tweak_mul k t in
  sok k' /\ (sv t = 0 -> k' = k) /\ (sv t <> 0 -> sres k' = (sres k * sres t)%F) /\ ret = b2z (negb (sv t =? 0)).
Proof.
  intros Hk Ht. unfold secp256k1_eckey_privkey_tweak_mul. rewrite sc_is_zero_ok, b2z_b2z by exact Ht. destruct (sres_mul k t Hk Ht) as [H E].
  destruct (Z.eqb_spec (sv t) 0); repeat split; auto; contradiction.
Qed.

Variable ctx : list ge_storage.
Hypothesis HC : pre_storage_ok G (ECMULT_TABLE_SIZE WINDOW_G) ctx.

Lemma key_multiple q a b : ge_wf q -> secp (ge_pt q) -> ge_pt q <> Inf -> sok a -> sok b ->
  let p := secp256k1_ecmult ctx (secp256k1_gej_set_ge q) a b in
  gej_wf p /\ gej_pt p = padd (smF (sres a) (ge_pt q)) (smF (sres b) G).
Proof.
  intros W S N Ha Hb. destruct (gej_set_ge_ok q W) as [Wj Pj].
  destruct (ecmult_ok ctx (secp256k1_gej_set_ge q) a b HC Wj) as [Wp Pp]; try rewrite Pj; try assumption.
  rewrite Pj, (smF_sres a _ Ha S), (smF_sres b _ Hb G_on_curve) in Pp. now split.
Qed.

Lemma smF_1 P : secp P -> smF 1%F P = P.
Proof. intros S. change (1%F : Fn) with (Fn_of_Z 1). rewrite smF_of_Z by exact S. reflexivity. Qed.

Lemma smF_0 P : smF 0%F P = Inf.
Proof. reflexivity. Qed.

Lemma pubkey_tweak_add_ok q t : ge_wf q -> secp (ge_pt q) -> ge_pt q <> Inf -> sok t ->
  let '(q', ret) := secp256k1_eckey_pubkey_tweak_add ctx q t in
  let R := padd (ge_pt q) (smF (sres t) G) in
  (ret = 1 /\ R <> Inf /\ ge_wf q' /\ ge_pt q' = R) \/ (ret = 0 /\ R = Inf /\ q' = q).
Proof.
  intros W S N Ht. unfold secp256k1_eckey_pubkey_tweak_add. cbv zeta.
  destruct (sc_set_int_ok 1 ltac:(lia)) as [H1 V1]. destruct (key_multiple q (sc_set_int 1) t W S N H1 Ht) as [Wp Pp].
  unfold sres at 1 in Pp. rewrite V1 in Pp. change (Fn_of_Z 1) with (1%F : Fn) in Pp. rewrite smF_1 in Pp by exact S.
  set (p := secp256k1_ecmult _ _ _ _) in *. unfold secp256k1_gej_is_infinity. destruct (z2b (gej_infinity p)) eqn:E.
  - right. rewrite <- Pp. split; [reflexivity |]. split; [now apply gej_pt_inf | reflexivity].
  - left. rewrite <- Pp. destruct (ge_set_gej_ok p Wp) as (Wr & Pr & _). split; [reflexivity |]. split; [| now split].
    unfold gej_pt. rewrite E. discriminate.
Qed.

Lemma pubkey_tweak_mul_ok q t : ge_wf q -> secp (ge_pt q) -> ge_pt q <> Inf -> sok t ->
  let '(q', ret) := secp256k1_eckey_pubkey_tweak_mul ctx q t in
  (ret = 1 /\ sv t <> 0 /\ ge_wf q' /\ ge_pt q' = smF (sres t) (ge_pt q) /\ ge_pt q' <> Inf) \/ (ret = 0 /\ sv t = 0 /\ q' = q).
Proof.
  intros W S N Ht. unfold secp256k1_eckey_pubkey_tweak_mul. rewrite sc_is_zero_ok, b2z_b2z by exact Ht.
  destruct (Z.eqb_spec (sv t) 0) as [E | Nt]; [right; auto |]. left. cbv zeta. split; [reflexivity |]. split; [exact Nt |].
  destruct (sc_set_int_ok 0 ltac:(lia)) as [H0 V0]. destruct (key_multiple q t (sc_set_int 0) W S N Ht H0) as [Wp Pp].
  unfold sres at 2 in Pp. rewrite V0 in Pp. change (Fn_of_Z 0) with (0%F : Fn) in Pp. rewrite smF_0, padd_inf_r in Pp.
  destruct (ge_set_gej_ok _ Wp) as (Wr & Pr & _). rewrite Pp in Pr. split; [exact Wr |]. split; [exact Pr |]. rewrite Pr.
  apply smF_finite; try assumption. now rewrite sres_zero.
Qed.
End Keys.
