(* ===== verification/Recovery.v ===== *)
(** Recovery of public keys, the functions of [modules/recovery/main_impl.h]
    on scalars and points, and what they recover. *)

From Stdlib Require Import ZArith Lia List Bool Zmod Field.
From S2P Require Import Prelude Limbs Primes Fp Curve CurveGroup FieldSpec FieldGen.
From S2P Require Import Group GroupSpec GroupOps GOrder Cofactor ScalarSpec ScalarGen.
From S2P Require Import Ecmult EcmultTable EcmultSpec EcmultGen EcmultGenSpec Ecdsa EcdsaSpec EckeySpec.
Import ListNotations.
Open Scope Z_scope.

Section Code.
Context {I : FieldImpl} {J : ScalarImpl}.

(** [pubkey] is the output before the call.  Returns it and the return value. *)
Definition secp256k1_ecdsa_sig_recover (ctx : list ge_storage) (sigr sigs : scalar) (pubkey : ge) (message : scalar)
    (recid : Z) : ge * Z :=
  if z2b (sc_is_zero sigr) || z2b (sc_is_zero sigs) then (pubkey, 0) else
  let brx := sc_get_b32 sigr in
  let '(fx, r) := fe_set_b32 brx in
  if z2b (recid .& 2) && (fe_cmp_var fx secp256k1_ecdsa_const_p_minus_order >=? 0) then (pubkey, 0) else
  let fx := if z2b (recid .& 2) then fe_add fx secp256k1_ecdsa_const_order_as_fe else fx in
  let '(x, ok) := secp256k1_ge_set_xo_var fx (recid .& 1) in
  if negb (z2b ok) then (pubkey, 0) else
  let xj := secp256k1_gej_set_ge x in
  let rn := secp256k1_scalar_inverse_var sigr in
  let u1 := sc_mul rn message in
  let u1 := sc_negate u1 in
  let u2 := sc_mul rn sigs in
  let qj := secp256k1_ecmult ctx xj u2 u1 in
  let '(pubkey, qj) := secp256k1_ge_set_gej_var pubkey qj in
  (pubkey, b2z (negb (z2b (secp256k1_gej_is_infinity qj)))).
End Code.

(** * What is recovered *)

(** The nonce point a signature and its identifier stand for. *)
Definition nonce_at (recid r : Z) (X Y : F) : Prop :=
  secp (Aff X Y) /\ Zmod.to_Z X = r + (if z2b (recid .& 2) then secp_n else 0) /\ parity Y = recid .& 1.

Lemma parity_unique (Y Y' : F) : Y <> 0%F -> (Y ^ 2 = Y' ^ 2)%F -> parity Y = parity Y' -> Y = Y'.
Proof.
  intros N E P. destruct (F_eq_dec Y Y') as [| D]; [assumption |]. apply same_square in E; [| exact D].
  rewrite E, parity_opp in P by exact N. pose proof (parity_range Y). pose proof (Z.mod_pos_bound (Zmod.to_Z Y) 2 eq_refl).
  unfold parity in *. exfalso. lia.
Qed.

Lemma nonce_at_unique recid r X Y X' Y' : nonce_at recid r X Y -> nonce_at recid r X' Y' -> X = X' /\ Y = Y'.
Proof.
  intros (S & E & P) (S' & E' & P'). assert (EX : X = X') by (apply Zmod.unsigned_inj; congruence). subst X'. split; [reflexivity |].
  apply parity_unique; [exact (secp_y_nz _ _ S) | | congruence]. unfold secp in S, S'. cbn [on_curve] in S, S'. congruence.
Qed.

Section Recovery.
Context {I : FieldImpl} {L : FieldLaws I} {J : ScalarImpl} {M : ScalarLaws J}.

(** The key from the nonce point. *)
Definition recovered (r s m : Fn) (X Y : F) : point := padd (smF (s / r)%F (Aff X Y)) (smF (- (m / r))%F G).

Lemma recover_x r b : sok r ->
  let fx := fst (fe_set_b32 (sc_get_b32 r)) in
  let v := sv r + (if b : bool then secp_n else 0) in
  (b && (fe_cmp_var fx secp256k1_ecdsa_const_p_minus_order >=? 0) = true /\ secp_p <= v) \/
  (b && (fe_cmp_var fx secp256k1_ecdsa_const_p_minus_order >=? 0) = false /\ 0 <= v < secp_p /\
   FeI (if b then fe_add fx secp256k1_ecdsa_const_order_as_fe else fx) 8 (F_of_Z v)).
Proof.
  intros Hr fx v. destruct (scalar_fe r Hr) as (N & V & _). fold fx in N, V. pose proof (sv_range r Hr) as R.
  rewrite (cmp_p_minus_order fx (sv r) N V R). assert (Hp : secp_n < secp_p) by reflexivity.
  pose proof (feI_of_norm fx N) as Hx. rewrite V in Hx. destruct order_as_fe_ok as [No Vo]. pose proof (feI_of_norm _ No) as Ho. rewrite Vo in Ho.
  subst v. destruct b; cbn [andb]; cbv iota.
  - destruct (Z.ltb_spec (sv r) (secp_p - secp_n)) as [H | H]; cbn [negb]; [right | left; split; [reflexivity | lia]].
    split; [reflexivity |]. split; [lia |]. fe_is. symmetry. apply Zmod.of_Z_add.
  - right. split; [reflexivity |]. split; [lia |]. rewrite Z.add_0_r. apply (feI_weaken _ 1); [lia | exact Hx].
Qed.

Lemma bit_0 recid : 0 <= recid .& 1 <= 1.
Proof.
  pose proof (Z.land_ones recid 1 ltac:(lia)) as E. change (Z.ones 1) with 1 in E. rewrite E.
  pose proof (Z.mod_pos_bound recid (2 ^ 1) eq_refl). lia.
Qed.

Variable ctx : list ge_storage.
Hypothesis HC : pre_storage_ok G (ECMULT_TABLE_SIZE WINDOW_G) ctx.

Lemma sig_recover_ok r s pk m recid : sok r -> sok s -> sok m -> ge_wf pk ->
  let '(q, ret) := secp256k1_ecdsa_sig_recover ctx r s pk m recid in
  (ret = 1 /\ sv r <> 0 /\ sv s <> 0 /\ ge_wf q /\ ge_pt q <> Inf /\
   exists X Y, nonce_at recid (sv r) X Y /\ ge_pt q = recovered (sres r) (sres s) (sres m) X Y) \/
  (ret = 0 /\ (sv r = 0 \/ sv s = 0 \/
   forall X Y, nonce_at recid (sv r) X Y -> recovered (sres r) (sres s) (sres m) X Y = Inf)).
Proof.
  intros Hr Hs Hm Wk. unfold secp256k1_ecdsa_sig_recover. rewrite !sc_is_zero_ok, !b2z_b2z by assumption.
  destruct (Z.eqb_spec (sv r) 0) as [E | Nr]; cbn [orb]; [right; auto |]. destruct (Z.eqb_spec (sv s) 0) as [E | Ns]; [right; auto |].
  cbv zeta. pose proof (recover_x r (z2b (recid .& 2)) Hr) as HX. cbv zeta in HX. destruct (fe_set_b32 (sc_get_b32 r)) as [fx okx]. cbn [fst] in HX.
  set (v := sv r + _) in HX. assert (EVv : v = sv r + (if z2b (recid .& 2) then secp_n else 0)) by reflexivity. assert (EV : forall X Y, nonce_at recid (sv r) X Y -> Zmod.to_Z X = v) by (intros X Y (_ & H & _); exact H).
  destruct HX as [[-> Hv] | (-> & Hv & Hx)].
  { right. split; [reflexivity |]. do 2 right. intros X Y HN. apply EV in HN. pose proof (F_to_Z_bound X). lia. }
  clearbody v. set (fx' := if z2b (recid .& 2) then fe_add _ _ else _) in *.
  destruct (ge_set_xo_ok fx' (F_of_Z v) (recid .& 1) Hx (bit_0 recid)) as [(R & W & Y & P & S & Py) | (R & NS)];
    destruct (secp256k1_ge_set_xo_var fx' (recid .& 1)) as [x ok]; cbn [fst snd] in *; subst ok; cbn [z2b Z.eqb negb].
  2: { right. split; [reflexivity |]. do 2 right. intros X Y HN. pose proof (EV X Y HN) as E. exfalso. apply (NS Y).
       rewrite <- E, F_of_to_Z. apply HN. }
  assert (HN : nonce_at recid (sv r) (F_of_Z v) Y) by (split; [exact S | split; [rewrite F_to_of_Z, Z.mod_small by exact Hv; exact EVv | exact Py]]).
  destruct (scalar_inverse_ok r Hr) as [Hi Ei]. unfold secp256k1_scalar_inverse_var. set (rn := secp256k1_scalar_inverse r) in *.
  destruct (sres_mul rn m Hi Hm) as [H1 E1]. destruct (sres_negate _ H1) as [H2 E2]. destruct (sres_mul rn s Hi Hs) as [H3 E3].
  assert (Nx : ge_pt x <> Inf) by (rewrite P; discriminate). rewrite <- P in S.
  destruct (key_multiple ctx HC x (sc_mul rn s) (sc_negate (sc_mul rn m)) W S Nx H3 H2) as [Wq Pq].
  set (qj := secp256k1_ecmult _ _ _ _) in *. rewrite P, E3, E2, E1, Ei in Pq. rewrite <- (sres_zero r Hr) in Nr.
  replace (Zmod.inv (sres r) * sres s)%F with (sres s / sres r)%F in Pq by now field.
  replace (Zmod.inv (sres r) * sres m)%F with (sres m / sres r)%F in Pq by now field.
  fold (recovered (sres r) (sres s) (sres m) (F_of_Z v) Y) in Pq.
  destruct (ge_set_gej_var_ok pk qj Wk Wq) as (Wp & Pp & Wq' & Pq'). destruct (secp256k1_ge_set_gej_var pk qj) as [q qj']. cbn [fst snd] in *.
  unfold secp256k1_gej_is_infinity. rewrite Pq in Pp, Pq'. destruct (z2b (gej_infinity qj')) eqn:E; cbn [negb b2z].
  - right. split; [reflexivity |]. do 2 right. intros X Y' HN'. destruct (nonce_at_unique _ _ _ _ _ _ HN HN') as [<- <-].
    rewrite <- Pq'. now apply gej_pt_inf.
  - left. split; [reflexivity |]. split; [now rewrite <- sres_zero |]. split; [exact Ns |]. split; [exact Wp |].
    split; [rewrite Pp, <- Pq'; unfold gej_pt; rewrite E; discriminate |]. eauto.
Qed.

(** A recovered key verifies. *)
Lemma recovered_valid recid r s m X Y : sok r -> sok s -> sok m -> sv r <> 0 -> sv s <> 0 -> nonce_at recid (sv r) X Y ->
  ecdsa_valid (recovered (sres r) (sres s) (sres m) X Y) (sv m) (sv r) (sv s).
Proof.
  intros Hr Hs Hm Nr Ns (S & E & _). pose proof (sv_range r Hr) as R. pose proof (smF_secp (sres s / sres r)%F _ S) as S1.
  pose proof (smF_secp (- (sres m / sres r))%F _ G_on_curve) as S2. pose proof (sres_zero r Hr) as Zr. pose proof (sres_zero s Hs) as Zs.
  unfold recovered. rewrite ecdsa_valid_iff by (first [exact (sv_range _ Hr) | exact (sv_range _ Hs) | exact (padd_on_curve curve_b _ _ S1 S2)]).
  split; [exact Nr |]. split; [exact Ns |]. fold (sres m) (sres r) (sres s). exists X, Y. split.
  - unfold smF at 2. rewrite (smul_padd curve_b curve_b_nz) by assumption. fold (smF (sres r / sres s)%F (smF (sres s / sres r)%F (Aff X Y))).
    fold (smF (sres r / sres s)%F (smF (- (sres m / sres r))%F G)). rewrite <- !smF_mul by (assumption || exact G_on_curve).
    replace (sres r / sres s * (sres s / sres r))%F with (1%F : Fn) by (field; split; [rewrite Zr | rewrite Zs]; assumption).
    rewrite (smF_1 (Aff X Y) S). rewrite (padd_comm curve_b (Aff X Y)) by (assumption || apply smF_secp, G_on_curve).
    rewrite <- (padd_assoc curve_b curve_b_nz) by (assumption || apply smF_secp, G_on_curve). rewrite <- smF_add by exact G_on_curve.
    replace (sres m / sres s + sres r / sres s * - (sres m / sres r))%F with (0%F : Fn) by (field; split; [rewrite Zr | rewrite Zs]; assumption).
    reflexivity.
  - rewrite E. destruct (z2b (recid .& 2)); symmetry; [apply (mod_of_reduced _ _ 1) | apply (mod_of_reduced _ _ 0)]; lia.
Qed.

(** The signer's key is recovered from what signing returns. *)
Lemma recover_signed d m k o v : signed d m k o -> sign_recid o = Some v -> sv (sign_r o) <> 0 ->
  exists X Y, nonce_at v (sv (sign_r o)) X Y /\ recovered (sres (sign_r o)) (sres (sign_s o)) m X Y = smF d G.
Proof.
  intros (Hr & Hs & k' & X & Y & _ & EP & Vr & Rs & E & Ev) HV Nr. rewrite HV in Ev. exists X, Y.
  assert (S : secp (Aff X Y)) by (rewrite <- EP; apply smF_secp, G_on_curve). pose proof (F_to_Z_bound X) as BX.
  assert (Hp : secp_n < secp_p < 2 * secp_n) by (split; reflexivity). pose proof (parity_range Y) as PR.
  assert (EB : v .& 2 = 2 * b2z (secp_n <=? Zmod.to_Z X) /\ v .& 1 = parity Y).
  { rewrite Ev. assert (C : parity Y = 0 \/ parity Y = 1) by lia. destruct C as [-> | ->], (secp_n <=? Zmod.to_Z X); split; reflexivity. }
  split.
  - split; [exact S |]. split; [| symmetry; exact (proj2 EB)]. rewrite (proj1 EB), Vr. destruct (Z.leb_spec secp_n (Zmod.to_Z X)) as [H | H]; cbn [b2z].
    + change (z2b (2 * 1)) with true. cbv iota. rewrite <- (mod_of_reduced (Zmod.to_Z X) (Zmod.to_Z X - secp_n) 1 secp_n) by lia. lia.
    + change (z2b (2 * 0)) with false. cbv iota. rewrite Z.mod_small by lia. lia.
  - unfold recovered. rewrite <- EP, <- smF_mul, <- smF_add by exact G_on_curve. f_equal.
    rewrite <- (sres_zero _ Hr) in Nr. transitivity ((sres (sign_s o) * k' - m) / sres (sign_r o))%F; [now field |]. rewrite E. now field.
Qed.
End Recovery.
