(* ===== verification/Api.v ===== *)
(** What the functions of the public interface share: callbacks, the way a call
    can end, the flags of [include/secp256k1.h], and the bytes in memory of the
    representations that opaque structures hold. *)

From Stdlib Require Import String ZArith Lia List Bool.
From S2P Require Import Prelude Limbs Fp FieldSpec Group GroupSpec ScalarSpec ScalarGen.
Import ListNotations.
Open Scope Z_scope.

(** * Callbacks *)

(** The functions a callback can hold: the two default ones, which print and
    abort, or one of the caller, which returns. *)
Inductive callback_fn : Type :=
| default_illegal_callback_fn
| default_error_callback_fn
| user_callback_fn (id : Z).

Record secp256k1_callback : Type := Callback { cb_fn : callback_fn; cb_data : Z }.

Definition default_illegal_callback : secp256k1_callback := Callback default_illegal_callback_fn 0.
Definition default_error_callback : secp256k1_callback := Callback default_error_callback_fn 0.

(** * Results

    A call returns, with the callbacks it invoked; or a default callback aborts
    the process; or there is no result, because the code follows a null pointer
    or a loop goes on for longer than its fuel. *)
Inductive result (A : Type) : Type :=
| Returns (calls : list (callback_fn * string)) (a : A)
| Aborts (calls : list (callback_fn * string))
| NoResult.
Arguments Returns {A} calls a.
Arguments Aborts {A} calls.
Arguments NoResult {A}.

Definition ret {A : Type} (a : A) : result A := Returns [] a.

Definition rbind {A B : Type} (m : result A) (k : A -> result B) : result B :=
  match m with
  | Returns l a =>
      match k a with
      | Returns l' b => Returns (l ++ l') b
      | Aborts l' => Aborts (l ++ l')
      | NoResult => NoResult
      end
  | Aborts l => Aborts l
  | NoResult => NoResult
  end.

Definition of_option {A : Type} (m : option A) : result A :=
  match m with
  | Some a => ret a
  | None => NoResult
  end.

Lemma rbind_ret {A B : Type} (a : A) (k : A -> result B) : rbind (ret a) k = k a.
Proof. cbn. now destruct (k a). Qed.

Notation "'let!' x ':=' m 'in' k" := (rbind m (fun x => k))
  (at level 10, x pattern, m at level 200, k at level 200) : c_scope.

Definition secp256k1_callback_call (cb : secp256k1_callback) (text : string) : result unit :=
  match cb_fn cb with
  | user_callback_fn id => Returns [(user_callback_fn id, text)] tt
  | fn => Aborts [(fn, text)]
  end.

(** [ARG_CHECK(cond)] in a function that, returning 0 there, leaves the values
    [v]; [k] is the rest of the function. *)
Definition ARG_CHECK {A : Type} (illegal : secp256k1_callback) (cond : bool) (text : string) (v : A) (k : result A) : result A :=
  if cond then k else let! _ := secp256k1_callback_call illegal text in ret v.

Notation "'check' cb c text 'else' v ';;' k" := (ARG_CHECK cb c text v k)
  (at level 10, cb at level 9, c at level 9, text at level 9, v at level 200, k at level 200) : c_scope.

(** [ARG_CHECK(p != NULL)] before the rest [k] uses what [p] points to. *)
Definition ARG_PTR {A B : Type} (illegal : secp256k1_callback) (p : option A) (text : string) (v : B) (k : A -> result B) : result B :=
  match p with
  | Some a => k a
  | None => let! _ := secp256k1_callback_call illegal text in ret v
  end.

Notation "'checked' x ':=' p 'by' cb text 'else' v ';;' k" := (ARG_PTR cb p text v (fun x => k))
  (at level 10, x pattern, p at level 9, cb at level 9, text at level 9, v at level 200, k at level 200) : c_scope.

(** [p != NULL]. *)
Definition non_null {A : Type} (p : option A) : bool := match p with Some _ => true | None => false end.

(** The functions are run on arguments that pass their checks. *)
Ltac run_checks :=
  repeat (cbv zeta; cbn [ARG_CHECK ARG_PTR non_null rbind ret of_option app]).

(** * Flags *)

Definition SECP256K1_FLAGS_TYPE_MASK : Z := (1 << 8) - 1.
Definition SECP256K1_FLAGS_TYPE_CONTEXT : Z := 1 << 0.
Definition SECP256K1_FLAGS_TYPE_COMPRESSION : Z := 1 << 1.
Definition SECP256K1_FLAGS_BIT_CONTEXT_VERIFY : Z := 1 << 8.
Definition SECP256K1_FLAGS_BIT_CONTEXT_SIGN : Z := 1 << 9.
Definition SECP256K1_FLAGS_BIT_COMPRESSION : Z := 1 << 8.
Definition SECP256K1_CONTEXT_VERIFY : Z := SECP256K1_FLAGS_TYPE_CONTEXT .| SECP256K1_FLAGS_BIT_CONTEXT_VERIFY.
Definition SECP256K1_CONTEXT_SIGN : Z := SECP256K1_FLAGS_TYPE_CONTEXT .| SECP256K1_FLAGS_BIT_CONTEXT_SIGN.
Definition SECP256K1_CONTEXT_NONE : Z := SECP256K1_FLAGS_TYPE_CONTEXT.
Definition SECP256K1_EC_COMPRESSED : Z := SECP256K1_FLAGS_TYPE_COMPRESSION .| SECP256K1_FLAGS_BIT_COMPRESSION.
Definition SECP256K1_EC_UNCOMPRESSED : Z := SECP256K1_FLAGS_TYPE_COMPRESSION.

(** * Representations in memory

    Public keys and signatures are opaque byte arrays that hold the memory of a
    [secp256k1_ge_storage] or of scalars when these have the size of the array. *)
Class MemImpl (I : FieldImpl) (J : ScalarImpl) : Type := {
  sizeof_ge_storage : Z;
  sizeof_scalar : Z;
  ge_storage_bytes : ge_storage -> list Z;
  ge_storage_of_bytes : list Z -> ge_storage;
  scalar_bytes : scalar -> list Z;
  scalar_of_bytes : list Z -> scalar
}.

Class MemLaws {I : FieldImpl} {J : ScalarImpl} (L : FieldLaws I) (M : ScalarLaws J) (N : MemImpl I J) : Type := {
  sizeof_ge_storage_ok : sizeof_ge_storage = 64;
  sizeof_scalar_ok : sizeof_scalar = 32;
  ge_storage_bytes_ok : forall s, st_ok (ges_x s) -> st_ok (ges_y s) ->
    length (ge_storage_bytes s) = 64%nat /\ limbs_lt 8 (ge_storage_bytes s) /\ ge_storage_of_bytes (ge_storage_bytes s) = s;
  ge_storage_of_bytes_ok : forall l, length l = 64%nat -> limbs_lt 8 l ->
    st_ok (ges_x (ge_storage_of_bytes l)) /\ st_ok (ges_y (ge_storage_of_bytes l));
  ge_storage_zero : st_val (ges_x (ge_storage_of_bytes (repeat 0 64))) = 0;
  scalar_bytes_ok : forall a, sok a ->
    length (scalar_bytes a) = 32%nat /\ limbs_lt 8 (scalar_bytes a) /\ scalar_of_bytes (scalar_bytes a) = a;
  scalar_zero : sok (scalar_of_bytes (repeat 0 32)) /\ sv (scalar_of_bytes (repeat 0 32)) = 0
}.
