(* ===== verification/Secp256k1.v ===== *)
(** The public interface, [secp256k1.c]: contexts, public keys, signatures,
    signing, verification and tweaks.

    A pointer argument is an option, [None] for the null pointer; what it points
    to is passed before the call and returned after it.  A byte array has the
    length its type or its documentation gives it. *)

From Stdlib Require Import String ZArith Lia List Bool.
From S2P Require Import Prelude Limbs Fp FieldSpec FieldGen Group GroupSpec ScalarSpec ScalarGen Hash.
From S2P Require Import Ecmult EcmultGen EcmultConst Ecdsa Eckey Api.
Import ListNotations.
Open Scope Z_scope.

(** [memset(p, 0, n)]. *)
Definition zeros (n : nat) : list Z := repeat 0 n.

Section Code.
Context {I : FieldImpl} {J : ScalarImpl} {N : MemImpl I J}.

(** * Contexts *)

Record secp256k1_context : Type := Context {
  ecmult_ctx : ecmult_context;
  ecmult_gen_ctx : ecmult_gen_context;
  illegal_callback : secp256k1_callback;
  error_callback : secp256k1_callback
}.

(** [mem] is what the allocated memory holds; allocation succeeds. *)
Definition secp256k1_context_create (fuel : nat) (mem : secp256k1_context) (flags : Z) : result (option secp256k1_context) :=
  let illegal := default_illegal_callback in
  let error := default_error_callback in
  if negb ((flags .& SECP256K1_FLAGS_TYPE_MASK) =? SECP256K1_FLAGS_TYPE_CONTEXT)
  then let! _ := secp256k1_callback_call illegal "Invalid flags" in ret None
  else
    let ec := secp256k1_ecmult_context_init in
    let gen := secp256k1_ecmult_gen_context_init (ecmult_gen_ctx mem) in
    let! gen := (if z2b (flags .& SECP256K1_FLAGS_BIT_CONTEXT_SIGN)
                 then of_option (secp256k1_ecmult_gen_context_build fuel gen) else ret gen) in
    let ec := if z2b (flags .& SECP256K1_FLAGS_BIT_CONTEXT_VERIFY) then secp256k1_ecmult_context_build ec else ec in
    ret (Some (Context ec gen illegal error)).

Definition secp256k1_context_clone (mem ctx : secp256k1_context) : secp256k1_context :=
  Context (secp256k1_ecmult_context_clone (ecmult_ctx ctx))
    (secp256k1_ecmult_gen_context_clone (ecmult_gen_ctx mem) (ecmult_gen_ctx ctx)) (illegal_callback ctx) (error_callback ctx).

(** The structure as it is when it is freed. *)
Definition secp256k1_context_destroy (ctx : option secp256k1_context) : option secp256k1_context :=
  match ctx with
  | None => None
  | Some ctx => Some (Context (secp256k1_ecmult_context_clear (ecmult_ctx ctx))
      (secp256k1_ecmult_gen_context_clear (ecmult_gen_ctx ctx)) (illegal_callback ctx) (error_callback ctx))
  end.

Definition secp256k1_context_set_illegal_callback (ctx : secp256k1_context) (fn : option callback_fn) (data : Z) : secp256k1_context :=
  let fn := match fn with None => default_illegal_callback_fn | Some fn => fn end in
  Context (ecmult_ctx ctx) (ecmult_gen_ctx ctx) (Callback fn data) (error_callback ctx).

Definition secp256k1_context_set_error_callback (ctx : secp256k1_context) (fn : option callback_fn) (data : Z) : secp256k1_context :=
  let fn := match fn with None => default_error_callback_fn | Some fn => fn end in
  Context (ecmult_ctx ctx) (ecmult_gen_ctx ctx) (illegal_callback ctx) (Callback fn data).

(** The context and the return value. *)
Definition secp256k1_context_randomize (fuel : nat) (ctx : secp256k1_context) (seed32 : option (list Z))
    : result (secp256k1_context * Z) :=
  check (illegal_callback ctx) (z2b (secp256k1_ecmult_gen_context_is_built (ecmult_gen_ctx ctx)))
    "secp256k1_ecmult_gen_context_is_built(&ctx->ecmult_gen_ctx)" else (ctx, 0) ;;
  let! gen := of_option (secp256k1_ecmult_gen_blind fuel (ecmult_gen_ctx ctx) seed32) in
  ret (Context (ecmult_ctx ctx) gen (illegal_callback ctx) (error_callback ctx), 1).

(** * Public keys *)

(** The element and the return value. *)
Definition secp256k1_pubkey_load (ctx : secp256k1_context) (pubkey : list Z) : result (ge * Z) :=
  let ge :=
    if sizeof_ge_storage =? 64 then secp256k1_ge_from_storage (ge_storage_of_bytes pubkey)
    else
      let x := fst (fe_set_b32 (firstn 32 pubkey)) in
      let y := fst (fe_set_b32 (skipn 32 pubkey)) in
      secp256k1_ge_set_xy x y in
  check (illegal_callback ctx) (negb (z2b (fe_is_zero (ge_x ge)))) "!secp256k1_fe_is_zero(&ge->x)" else (ge, 0) ;;
  ret (ge, 1).

Definition secp256k1_pubkey_save (ge : ge) : list Z :=
  if sizeof_ge_storage =? 64 then ge_storage_bytes (secp256k1_ge_to_storage ge)
  else fe_get_b32 (fe_normalize_var (ge_x ge)) ++ fe_get_b32 (fe_normalize_var (ge_y ge)).

(** The return value and the key. *)
Definition secp256k1_ec_pubkey_parse (ctx : secp256k1_context) (pubkey input : option (list Z)) : result (Z * option (list Z)) :=
  let cb := illegal_callback ctx in
  check cb (non_null pubkey) "pubkey != NULL" else (0, pubkey) ;;
  let pubkey := Some (zeros 64) in
  checked input := input by cb "input != NULL" else (0, pubkey) ;;
  match secp256k1_eckey_pubkey_parse input with
  | None => ret (0, pubkey)
  | Some Q => ret (1, Some (secp256k1_pubkey_save Q))
  end.

(** [output] has [*outputlen] bytes.  Returns the return value, [*outputlen] and
    the bytes of [output]. *)
Definition secp256k1_ec_pubkey_serialize (ctx : secp256k1_context) (output : option (list Z)) (outputlen : option Z)
    (pubkey : option (list Z)) (flags : Z) : result (Z * option Z * option (list Z)) :=
  let cb := illegal_callback ctx in
  checked len := outputlen by cb "outputlen != NULL" else (0, outputlen, output) ;;
  check cb ((if z2b (flags .& SECP256K1_FLAGS_BIT_COMPRESSION) then 33 else 65) <=? len)
    "*outputlen >= ((flags & SECP256K1_FLAGS_BIT_COMPRESSION) ? 33 : 65)" else (0, outputlen, output) ;;
  let outputlen := Some 0 in
  check cb (non_null output) "output != NULL" else (0, outputlen, output) ;;
  let output := Some (zeros (Z.to_nat len)) in
  checked pubkey := pubkey by cb "pubkey != NULL" else (0, outputlen, output) ;;
  check cb ((flags .& SECP256K1_FLAGS_TYPE_MASK) =? SECP256K1_FLAGS_TYPE_COMPRESSION)
    "(flags & SECP256K1_FLAGS_TYPE_MASK) == SECP256K1_FLAGS_TYPE_COMPRESSION" else (0, outputlen, output) ;;
  let! (Q, ok) := secp256k1_pubkey_load ctx pubkey in
  if z2b ok then
    match snd (secp256k1_eckey_pubkey_serialize Q (flags .& SECP256K1_FLAGS_BIT_COMPRESSION)) with
    | None => ret (0, outputlen, output)
    | Some bytes => ret (1, Some (Z.of_nat (length bytes)), Some (bytes ++ zeros (Z.to_nat len - length bytes)))
    end
  else ret (0, outputlen, output).

(** * Signatures *)

Definition secp256k1_ecdsa_signature_load (sig : list Z) : scalar * scalar :=
  if sizeof_scalar =? 32 then (scalar_of_bytes (firstn 32 sig), scalar_of_bytes (skipn 32 sig))
  else (fst (sc_set_b32 (firstn 32 sig)), fst (sc_set_b32 (skipn 32 sig))).

Definition secp256k1_ecdsa_signature_save (r s : scalar) : list Z :=
  if sizeof_scalar =? 32 then scalar_bytes r ++ scalar_bytes s else sc_get_b32 r ++ sc_get_b32 s.

(** [None] where the parser would read outside of the input. *)
Definition secp256k1_ecdsa_signature_parse_der (ctx : secp256k1_context) (sig input : option (list Z)) : result (Z * option (list Z)) :=
  let cb := illegal_callback ctx in
  check cb (non_null sig) "sig != NULL" else (0, sig) ;;
  checked input := input by cb "input != NULL" else (0, sig) ;;
  let! p := of_option (secp256k1_ecdsa_sig_parse input) in
  match p with
  | Some (r, s) => ret (1, Some (secp256k1_ecdsa_signature_save r s))
  | None => ret (0, Some (zeros 64))
  end.

Definition secp256k1_ecdsa_signature_parse_compact (ctx : secp256k1_context) (sig input64 : option (list Z)) : result (Z * option (list Z)) :=
  let cb := illegal_callback ctx in
  check cb (non_null sig) "sig != NULL" else (0, sig) ;;
  checked input64 := input64 by cb "input64 != NULL" else (0, sig) ;;
  let ret_ := 1 in
  let '(r, overflow) := sc_set_b32 (firstn 32 input64) in
  let ret_ := ret_ .& b2z (negb (z2b overflow)) in
  let '(s, overflow) := sc_set_b32 (skipn 32 input64) in
  let ret_ := ret_ .& b2z (negb (z2b overflow)) in
  if z2b ret_ then ret (ret_, Some (secp256k1_ecdsa_signature_save r s)) else ret (ret_, Some (zeros 64)).

(** [output] has [*outputlen] bytes. *)
Definition secp256k1_ecdsa_signature_serialize_der (ctx : secp256k1_context) (output : option (list Z)) (outputlen : option Z)
    (sig : option (list Z)) : result (Z * option Z * option (list Z)) :=
  let cb := illegal_callback ctx in
  checked out := output by cb "output != NULL" else (0, outputlen, output) ;;
  checked len := outputlen by cb "outputlen != NULL" else (0, outputlen, output) ;;
  checked sig := sig by cb "sig != NULL" else (0, outputlen, output) ;;
  let '(r, s) := secp256k1_ecdsa_signature_load sig in
  let '(size, bytes) := secp256k1_ecdsa_sig_serialize len r s in
  match bytes with
  | None => ret (0, Some size, output)
  | Some bytes => ret (1, Some size, Some (bytes ++ skipn (length bytes) out))
  end.

Definition secp256k1_ecdsa_signature_serialize_compact (ctx : secp256k1_context) (output64 sig : option (list Z))
    : result (Z * option (list Z)) :=
  let cb := illegal_callback ctx in
  check cb (non_null output64) "output64 != NULL" else (0, output64) ;;
  checked sig := sig by cb "sig != NULL" else (0, output64) ;;
  let '(r, s) := secp256k1_ecdsa_signature_load sig in
  ret (1, Some (sc_get_b32 r ++ sc_get_b32 s)).

Definition secp256k1_ecdsa_signature_normalize (ctx : secp256k1_context) (sigout sigin : option (list Z))
    : result (Z * option (list Z)) :=
  let cb := illegal_callback ctx in
  checked sigin := sigin by cb "sigin != NULL" else (0, sigout) ;;
  let '(r, s) := secp256k1_ecdsa_signature_load sigin in
  let ret_ := sc_is_high s in
  match sigout with
  | None => ret (ret_, None)
  | Some _ =>
      let s := if z2b ret_ then sc_negate s else s in
      ret (ret_, Some (secp256k1_ecdsa_signature_save r s))
  end.

Definition secp256k1_ecdsa_verify (ctx : secp256k1_context) (sig msg32 pubkey : option (list Z)) : result Z :=
  let cb := illegal_callback ctx in
  checked table := (pre_g (ecmult_ctx ctx)) by cb "secp256k1_ecmult_context_is_built(&ctx->ecmult_ctx)" else 0 ;;
  checked msg32 := msg32 by cb "msg32 != NULL" else 0 ;;
  checked sig := sig by cb "sig != NULL" else 0 ;;
  checked pubkey := pubkey by cb "pubkey != NULL" else 0 ;;
  let m := fst (sc_set_b32 msg32) in
  let '(r, s) := secp256k1_ecdsa_signature_load sig in
  if z2b (sc_is_high s) then ret 0 else
  let! (q, ok) := secp256k1_pubkey_load ctx pubkey in
  if negb (z2b ok) then ret 0 else
  ret (b2z (z2b (secp256k1_ecdsa_sig_verify table r s q m))).

(** * Nonces *)

(** A nonce function gets the message, the key, the algorithm, its data and the
    number of the attempt; it returns its return value and the nonce, or it does
    not return. *)
Definition secp256k1_nonce_function : Type :=
  list Z -> list Z -> option (list Z) -> option (list Z) -> Z -> option (Z * list Z).

(** [for (i = 0; i <= counter; i++)], [k] rounds of it. *)
Fixpoint nonce_generate_loop (k : nat) (rng : rfc6979_t) (nonce32 : list Z) : option (list Z) :=
  match k with
  | O => Some nonce32
  | S k' => let* (rng, nonce32) := secp256k1_rfc6979_hmac_sha256_generate rng 32 in nonce_generate_loop k' rng nonce32
  end.

(** The condition [i <= counter] always holds when [counter] is the largest
    [unsigned int]. *)
Definition UINT_MAX : Z := 0xFFFFFFFF.

Definition nonce_function_rfc6979 : secp256k1_nonce_function := fun msg32 key32 algo16 data counter =>
  let keydata := key32 ++ msg32 in
  let keydata := match data with Some data => keydata ++ data | None => keydata end in
  let keydata := match algo16 with Some algo => keydata ++ algo | None => keydata end in
  let rng := secp256k1_rfc6979_hmac_sha256_initialize keydata in
  let* nonce32 := (if counter =? UINT_MAX then None else nonce_generate_loop (S (Z.to_nat counter)) rng []) in
  Some (1, nonce32).

Definition secp256k1_nonce_function_default : secp256k1_nonce_function := nonce_function_rfc6979.

(** * Signing *)

(** [while (1)]: the return value, and the result of signing when it is not 0.
    [recid] tells whether the recovery identifier is wanted. *)
Fixpoint sign_loop (fuel : nat) (gen : ecmult_gen_context) (noncefp : secp256k1_nonce_function) (msg32 seckey : list Z)
    (noncedata : option (list Z)) (recid : option Z) (sec msg : scalar) (count : Z) : result (Z * option signing) :=
  match fuel with
  | O => NoResult
  | S fuel' =>
      let! (ret_, nonce32) := of_option (noncefp msg32 seckey None noncedata count) in
      if negb (z2b ret_) then ret (ret_, None) else
      let '(non, overflow) := sc_set_b32 nonce32 in
      if negb (z2b overflow) && negb (z2b (sc_is_zero non)) then
        let! o := of_option (secp256k1_ecdsa_sig_sign gen sec msg non recid) in
        if z2b (sign_ret o) then ret (ret_, Some o)
        else sign_loop fuel' gen noncefp msg32 seckey noncedata recid sec msg (u32 (count + 1))
      else sign_loop fuel' gen noncefp msg32 seckey noncedata recid sec msg (u32 (count + 1))
  end.

Definition secp256k1_ecdsa_sign (fuel : nat) (ctx : secp256k1_context) (signature msg32 seckey : option (list Z))
    (noncefp : option secp256k1_nonce_function) (noncedata : option (list Z)) : result (Z * option (list Z)) :=
  let cb := illegal_callback ctx in
  check cb (z2b (secp256k1_ecmult_gen_context_is_built (ecmult_gen_ctx ctx)))
    "secp256k1_ecmult_gen_context_is_built(&ctx->ecmult_gen_ctx)" else (0, signature) ;;
  checked msg32 := msg32 by cb "msg32 != NULL" else (0, signature) ;;
  check cb (non_null signature) "signature != NULL" else (0, signature) ;;
  checked seckey := seckey by cb "seckey != NULL" else (0, signature) ;;
  let noncefp := match noncefp with Some f => f | None => secp256k1_nonce_function_default end in
  let '(sec, overflow) := sc_set_b32 seckey in
  let! (ret_, o) := (if negb (z2b overflow) && negb (z2b (sc_is_zero sec)) then
                       let msg := fst (sc_set_b32 msg32) in
                       sign_loop fuel (ecmult_gen_ctx ctx) noncefp msg32 seckey noncedata None sec msg 0
                     else ret (0, None)) in
  match o with
  | Some o => ret (ret_, Some (secp256k1_ecdsa_signature_save (sign_r o) (sign_s o)))
  | None => ret (ret_, Some (zeros 64))
  end.

(** * Secret keys *)

Definition secp256k1_ec_seckey_verify (ctx : secp256k1_context) (seckey : option (list Z)) : result Z :=
  checked seckey := seckey by (illegal_callback ctx) "seckey != NULL" else 0 ;;
  let '(sec, overflow) := sc_set_b32 seckey in
  ret (b2z (negb (z2b overflow) && negb (z2b (sc_is_zero sec)))).

Definition secp256k1_ec_pubkey_create (ctx : secp256k1_context) (pubkey seckey : option (list Z)) : result (Z * option (list Z)) :=
  let cb := illegal_callback ctx in
  check cb (non_null pubkey) "pubkey != NULL" else (0, pubkey) ;;
  let pubkey := Some (zeros 64) in
  check cb (z2b (secp256k1_ecmult_gen_context_is_built (ecmult_gen_ctx ctx)))
    "secp256k1_ecmult_gen_context_is_built(&ctx->ecmult_gen_ctx)" else (0, pubkey) ;;
  checked seckey := seckey by cb "seckey != NULL" else (0, pubkey) ;;
  let '(sec, overflow) := sc_set_b32 seckey in
  let ret_ := b2z (negb (z2b overflow)) .& b2z (negb (z2b (sc_is_zero sec))) in
  if z2b ret_ then
    let! pj := of_option (secp256k1_ecmult_gen (ecmult_gen_ctx ctx) sec) in
    let p := fst (secp256k1_ge_set_gej pj) in
    ret (ret_, Some (secp256k1_pubkey_save p))
  else ret (ret_, pubkey).

(** * Tweaks *)

Definition secp256k1_ec_privkey_tweak_add (ctx : secp256k1_context) (seckey tweak : option (list Z)) : result (Z * option (list Z)) :=
  let cb := illegal_callback ctx in
  checked key := seckey by cb "seckey != NULL" else (0, seckey) ;;
  checked tweak := tweak by cb "tweak != NULL" else (0, seckey) ;;
  let '(term, overflow) := sc_set_b32 tweak in
  let sec := fst (sc_set_b32 key) in
  let '(sec, ret_) := if z2b overflow then (sec, 0) else secp256k1_eckey_privkey_tweak_add sec term in
  if z2b ret_ then ret (1, Some (sc_get_b32 sec)) else ret (0, Some (zeros 32)).

Definition secp256k1_ec_pubkey_tweak_add (ctx : secp256k1_context) (pubkey tweak : option (list Z)) : result (Z * option (list Z)) :=
  let cb := illegal_callback ctx in
  checked table := (pre_g (ecmult_ctx ctx)) by cb "secp256k1_ecmult_context_is_built(&ctx->ecmult_ctx)" else (0, pubkey) ;;
  checked key := pubkey by cb "pubkey != NULL" else (0, pubkey) ;;
  checked tweak := tweak by cb "tweak != NULL" else (0, pubkey) ;;
  let '(term, overflow) := sc_set_b32 tweak in
  if z2b overflow then ret (0, Some (zeros 64)) else
  let! (p, ret_) := secp256k1_pubkey_load ctx key in
  if negb (z2b ret_) then ret (0, Some (zeros 64)) else
  let '(p, ok) := secp256k1_eckey_pubkey_tweak_add table p term in
  if z2b ok then ret (1, Some (secp256k1_pubkey_save p)) else ret (0, Some (zeros 64)).

Definition secp256k1_ec_privkey_tweak_mul (ctx : secp256k1_context) (seckey tweak : option (list Z)) : result (Z * option (list Z)) :=
  let cb := illegal_callback ctx in
  checked key := seckey by cb "seckey != NULL" else (0, seckey) ;;
  checked tweak := tweak by cb "tweak != NULL" else (0, seckey) ;;
  let '(factor, overflow) := sc_set_b32 tweak in
  let sec := fst (sc_set_b32 key) in
  let '(sec, ret_) := if z2b overflow then (sec, 0) else secp256k1_eckey_privkey_tweak_mul sec factor in
  if z2b ret_ then ret (1, Some (sc_get_b32 sec)) else ret (0, Some (zeros 32)).

Definition secp256k1_ec_pubkey_tweak_mul (ctx : secp256k1_context) (pubkey tweak : option (list Z)) : result (Z * option (list Z)) :=
  let cb := illegal_callback ctx in
  checked table := (pre_g (ecmult_ctx ctx)) by cb "secp256k1_ecmult_context_is_built(&ctx->ecmult_ctx)" else (0, pubkey) ;;
  checked key := pubkey by cb "pubkey != NULL" else (0, pubkey) ;;
  checked tweak := tweak by cb "tweak != NULL" else (0, pubkey) ;;
  let '(factor, overflow) := sc_set_b32 tweak in
  if z2b overflow then ret (0, Some (zeros 64)) else
  let! (p, ret_) := secp256k1_pubkey_load ctx key in
  if negb (z2b ret_) then ret (0, Some (zeros 64)) else
  let '(p, ok) := secp256k1_eckey_pubkey_tweak_mul table p factor in
  if z2b ok then ret (1, Some (secp256k1_pubkey_save p)) else ret (0, Some (zeros 64)).

(** [for (i = 0; i < n; i++)]. *)
Fixpoint combine_loop (ctx : secp256k1_context) (Qj : gej) (pubnonces : list (list Z)) : result gej :=
  match pubnonces with
  | [] => ret Qj
  | key :: rest =>
      let! (Q, _) := secp256k1_pubkey_load ctx key in
      combine_loop ctx (secp256k1_gej_add_ge Qj Q) rest
  end.

(** [pubnonces] is the array of the [n] keys. *)
Definition secp256k1_ec_pubkey_combine (ctx : secp256k1_context) (pubnonce : option (list Z)) (pubnonces : option (list (list Z)))
    (n : Z) : result (Z * option (list Z)) :=
  let cb := illegal_callback ctx in
  check cb (non_null pubnonce) "pubnonce != NULL" else (0, pubnonce) ;;
  let pubnonce := Some (zeros 64) in
  check cb (1 <=? n) "n >= 1" else (0, pubnonce) ;;
  checked pubnonces := pubnonces by cb "pubnonces != NULL" else (0, pubnonce) ;;
  let! Qj := combine_loop ctx secp256k1_gej_set_infinity (firstn (Z.to_nat n) pubnonces) in
  if z2b (secp256k1_gej_is_infinity Qj) then ret (0, pubnonce) else
  let Q := fst (secp256k1_ge_set_gej Qj) in
  ret (1, Some (secp256k1_pubkey_save Q)).
End Code.
