(* ===== verification/Modules.v ===== *)
(** The modules of the library and the extension functions of the embedding
    program: [modules/ecdh/main_impl.h], [modules/recovery/main_impl.h] and
    [ext.h]. *)

From Stdlib Require Import String ZArith Lia List Bool.
From S2P Require Import Prelude Limbs Fp FieldSpec FieldGen Group GroupSpec ScalarSpec ScalarGen Hash.
From S2P Require Import Ecmult EcmultGen EcmultConst Ecdsa Eckey Recovery Api Secp256k1.
Import ListNotations.
Open Scope Z_scope.

Section Code.
Context {I : FieldImpl} {J : ScalarImpl} {N : MemImpl I J}.

(** * Diffie-Hellman *)

(** The hash of the compressed point: from the product to [result]. *)
Definition ecdh_hash (res : gej) : list Z :=
  let pt := fst (secp256k1_ge_set_gej res) in
  let pt_x := fe_normalize (ge_x pt) in
  let pt_y := fe_normalize (ge_y pt) in
  let x := fe_get_b32 pt_x in
  let y := [0x02 .| fe_is_odd pt_y] in
  let sha := secp256k1_sha256_initialize sha256_new in
  let sha := secp256k1_sha256_write sha y in
  let sha := secp256k1_sha256_write sha x in
  snd (secp256k1_sha256_finalize sha).

Definition secp256k1_ecdh (ctx : secp256k1_context) (result_ point scalar : option (list Z)) : result (Z * option (list Z)) :=
  let cb := illegal_callback ctx in
  check cb (non_null result_) "result != NULL" else (0, result_) ;;
  checked point := point by cb "point != NULL" else (0, result_) ;;
  checked scalar := scalar by cb "scalar != NULL" else (0, result_) ;;
  let! (pt, _) := secp256k1_pubkey_load ctx point in
  let '(s, overflow) := sc_set_b32 scalar in
  if z2b overflow || z2b (sc_is_zero s) then ret (0, result_) else
  let res := secp256k1_ecmult_const pt s in
  ret (1, Some (ecdh_hash res)).

(** * Recoverable signatures *)

Definition secp256k1_ecdsa_recoverable_signature_load (sig : list Z) : scalar * scalar * Z :=
  let '(r, s) :=
    if sizeof_scalar =? 32 then (scalar_of_bytes (firstn 32 sig), scalar_of_bytes (firstn 32 (skipn 32 sig)))
    else (fst (sc_set_b32 (firstn 32 sig)), fst (sc_set_b32 (firstn 32 (skipn 32 sig)))) in
  (r, s, sig.[64]).

Definition secp256k1_ecdsa_recoverable_signature_save (r s : scalar) (recid : Z) : list Z :=
  (if sizeof_scalar =? 32 then scalar_bytes r ++ scalar_bytes s else sc_get_b32 r ++ sc_get_b32 s) ++ [u8 recid].

Definition secp256k1_ecdsa_recoverable_signature_parse_compact (ctx : secp256k1_context) (sig input64 : option (list Z)) (recid : Z)
    : result (Z * option (list Z)) :=
  let cb := illegal_callback ctx in
  check cb (non_null sig) "sig != NULL" else (0, sig) ;;
  checked input64 := input64 by cb "input64 != NULL" else (0, sig) ;;
  check cb ((0 <=? recid) && (recid <=? 3)) "recid >= 0 && recid <= 3" else (0, sig) ;;
  let ret_ := 1 in
  let '(r, overflow) := sc_set_b32 (firstn 32 input64) in
  let ret_ := ret_ .& b2z (negb (z2b overflow)) in
  let '(s, overflow) := sc_set_b32 (firstn 32 (skipn 32 input64)) in
  let ret_ := ret_ .& b2z (negb (z2b overflow)) in
  if z2b ret_ then ret (ret_, Some (secp256k1_ecdsa_recoverable_signature_save r s recid)) else ret (ret_, Some (zeros 65)).

(** The return value, the bytes and the identifier. *)
Definition secp256k1_ecdsa_recoverable_signature_serialize_compact (ctx : secp256k1_context) (output64 : option (list Z))
    (recid : option Z) (sig : option (list Z)) : result (Z * option (list Z) * option Z) :=
  let cb := illegal_callback ctx in
  check cb (non_null output64) "output64 != NULL" else (0, output64, recid) ;;
  checked sig := sig by cb "sig != NULL" else (0, output64, recid) ;;
  check cb (non_null recid) "recid != NULL" else (0, output64, recid) ;;
  let '(r, s, recid) := secp256k1_ecdsa_recoverable_signature_load sig in
  ret (1, Some (sc_get_b32 r ++ sc_get_b32 s), Some recid).

Definition secp256k1_ecdsa_recoverable_signature_convert (ctx : secp256k1_context) (sig sigin : option (list Z))
    : result (Z * option (list Z)) :=
  let cb := illegal_callback ctx in
  check cb (non_null sig) "sig != NULL" else (0, sig) ;;
  checked sigin := sigin by cb "sigin != NULL" else (0, sig) ;;
  let '(r, s, recid) := secp256k1_ecdsa_recoverable_signature_load sigin in
  ret (1, Some (secp256k1_ecdsa_signature_save r s)).

(** The loop of the code is the one of [secp256k1_ecdsa_sign], with the recovery
    identifier asked for. *)
Definition secp256k1_ecdsa_sign_recoverable (fuel : nat) (ctx : secp256k1_context) (signature msg32 seckey : option (list Z))
    (noncefp : option secp256k1_nonce_function) (noncedata : option (list Z)) : result (Z * option (list Z)) :=
  let cb := illegal_callback ctx in
  check cb (z2b (secp256k1_ecmult_gen_context_is_built (ecmult_gen_ctx ctx)))
    "secp256k1_ecmult_gen_context_is_built(&ctx->ecmult_gen_ctx)" else (0, signature) ;;
  checked msg32 := msg32 by cb "msg32 != NULL" else (0, signature) ;;
  check cb (non_null signature) "signature != NULL" else (0, signature) ;;
  checked seckey := seckey by cb "seckey != NULL" else (0, signature) ;;
  let noncefp := match noncefp with Some f => f | None => secp256k1_nonce_function_default end in
  let '(sec, overflow) := sc_set_b32 seckey in
  let! (ret_, o) := (if negb (z2b overflow) && negb (z2b (sc_is_zero sec)) then
                       let msg := fst (sc_set_b32 msg32) in
                       sign_loop fuel (ecmult_gen_ctx ctx) noncefp msg32 seckey noncedata (Some 0) sec msg 0
                     else ret (0, None)) in
  match o with
  | Some o =>
      let recid := match sign_recid o with Some v => v | None => 0 end in
      ret (ret_, Some (secp256k1_ecdsa_recoverable_signature_save (sign_r o) (sign_s o) recid))
  | None => ret (ret_, Some (zeros 65))
  end.

Definition secp256k1_ecdsa_recover (ctx : secp256k1_context) (pubkey signature msg32 : option (list Z)) : result (Z * option (list Z)) :=
  let cb := illegal_callback ctx in
  checked table := (pre_g (ecmult_ctx ctx)) by cb "secp256k1_ecmult_context_is_built(&ctx->ecmult_ctx)" else (0, pubkey) ;;
  checked msg32 := msg32 by cb "msg32 != NULL" else (0, pubkey) ;;
  checked signature := signature by cb "signature != NULL" else (0, pubkey) ;;
  check cb (non_null pubkey) "pubkey != NULL" else (0, pubkey) ;;
  let '(r, s, recid) := secp256k1_ecdsa_recoverable_signature_load signature in
  let m := fst (sc_set_b32 msg32) in
  let '(q, ok) := secp256k1_ecdsa_sig_recover table r s secp256k1_ge_clear m recid in
  if z2b ok then ret (1, Some (secp256k1_pubkey_save q)) else ret (0, Some (zeros 64)).

(** * The extension functions *)

Definition secp256k1_context_create_sign_verify (fuel : nat) (mem : secp256k1_context) : result (option secp256k1_context) :=
  secp256k1_context_create fuel mem (SECP256K1_CONTEXT_SIGN .| SECP256K1_CONTEXT_VERIFY).

(** [pubkey_out] has 65 bytes, [sigdata] 65 and [msgdata] 32. *)
Definition secp256k1_ext_ecdsa_recover (ctx : secp256k1_context) (pubkey_out sigdata msgdata : list Z) : result (Z * list Z) :=
  let! (ok, sig) := secp256k1_ecdsa_recoverable_signature_parse_compact ctx (Some (zeros 65)) (Some sigdata) sigdata.[64] in
  if negb (z2b ok) then ret (0, pubkey_out) else
  let! (ok, pubkey) := secp256k1_ecdsa_recover ctx (Some (zeros 64)) sig (Some msgdata) in
  if negb (z2b ok) then ret (0, pubkey_out) else
  let outputlen := 65 in
  let! (ret_, outputlen, out) := secp256k1_ec_pubkey_serialize ctx (Some pubkey_out) (Some outputlen) pubkey SECP256K1_EC_UNCOMPRESSED in
  ret (ret_, match out with Some out => out | None => pubkey_out end).

(** [sigdata] has 64 bytes, [pubkeydata] [pubkeylen]. *)
Definition secp256k1_ext_ecdsa_verify (ctx : secp256k1_context) (sigdata msgdata pubkeydata : list Z) : result Z :=
  let! (ok, sig) := secp256k1_ecdsa_signature_parse_compact ctx (Some (zeros 64)) (Some sigdata) in
  if negb (z2b ok) then ret 0 else
  let! (ok, pubkey) := secp256k1_ec_pubkey_parse ctx (Some (zeros 64)) (Some pubkeydata) in
  if negb (z2b ok) then ret 0 else
  secp256k1_ecdsa_verify ctx sig (Some msgdata) pubkey.

(** [out] has [outlen] bytes. *)
Definition secp256k1_ext_reencode_pubkey (ctx : secp256k1_context) (out pubkeydata : list Z) : result (Z * list Z) :=
  let outlen := Z.of_nat (length out) in
  let! (ok, pubkey) := secp256k1_ec_pubkey_parse ctx (Some (zeros 64)) (Some pubkeydata) in
  if negb (z2b ok) then ret (0, out) else
  let flag := if outlen =? 33 then SECP256K1_EC_COMPRESSED else SECP256K1_EC_UNCOMPRESSED in
  let! (ret_, outlen, out') := secp256k1_ec_pubkey_serialize ctx (Some out) (Some outlen) pubkey flag in
  ret (ret_, match out' with Some out' => out' | None => out end).

(** [point] has 64 bytes, before and after. *)
Definition secp256k1_ext_scalar_mul (ctx : secp256k1_context) (point scalar : option (list Z)) : result (Z * option (list Z)) :=
  let cb := illegal_callback ctx in
  checked pt := point by cb "point != NULL" else (0, point) ;;
  checked scalar := scalar by cb "scalar != NULL" else (0, point) ;;
  let feX := fst (fe_set_b32 (firstn 32 pt)) in
  let feY := fst (fe_set_b32 (skipn 32 pt)) in
  let ge := secp256k1_ge_set_xy feX feY in
  let '(s, overflow) := sc_set_b32 scalar in
  if z2b overflow || z2b (sc_is_zero s) then ret (0, point) else
  let res := secp256k1_ecmult_const ge s in
  let ge := fst (secp256k1_ge_set_gej res) in
  let ge_x' := fe_normalize (ge_x ge) in
  let ge_y' := fe_normalize (ge_y ge) in
  ret (1, Some (fe_get_b32 ge_x' ++ fe_get_b32 ge_y')).
End Code.
