(* ===== verification/Lax.v ===== *)
(** [contrib/lax_der_parsing.c] and [contrib/lax_der_privatekey_parsing.c]: the
    parser of signatures that are not strictly DER, and DER private keys.

    [input[pos]] is [None] outside of the input, and so is a [memcpy] that reads
    there; [size_t] has 64 bits. *)

From Stdlib Require Import ZArith Lia List Bool.
From S2P Require Import Prelude Limbs FieldSpec Group ScalarSpec Hash EcmultGen Ecmult Ecdsa Api Secp256k1.
Import ListNotations.
Open Scope Z_scope.
Open Scope c_scope.

(** [input[pos]]. *)
Definition rd (input : list Z) (pos : Z) : option Z := nth_error input (Z.to_nat pos).

(** [memcpy(_, input + pos, n)]: the bytes read. *)
Definition rd_bytes (input : list Z) (pos n : Z) : option (list Z) :=
  if pos + n <=? Z.of_nat (length input) then Some (firstn (Z.to_nat n) (skipn (Z.to_nat pos) input)) else None.

(** [while (lenbyte > 0 && input[pos] == 0)]: the new [lenbyte] and [pos]. *)
Fixpoint lax_skip_zeros (lenbyte : nat) (input : list Z) (pos : Z) : option (Z * Z) :=
  match lenbyte with
  | O => Some (0, pos)
  | S lenbyte' =>
      let* b := rd input pos in
      if b =? 0 then lax_skip_zeros lenbyte' input (u64 (pos + 1)) else Some (Z.of_nat lenbyte, pos)
  end.

(** [while (lenbyte > 0)]: the length read and the new [pos]. *)
Fixpoint lax_len_bytes (lenbyte : nat) (input : list Z) (pos rlen : Z) : option (Z * Z) :=
  match lenbyte with
  | O => Some (rlen, pos)
  | S lenbyte' =>
      let* b := rd input pos in
      lax_len_bytes lenbyte' input (u64 (pos + 1)) (u64 (u64 (rlen << 8) + b))
  end.

(** The tag and length of the sequence: the position after them, [None] where
    the function returns 0. *)
Definition lax_sequence (input : list Z) (inputlen : Z) : option (option Z) :=
  let pos := 0 in
  if pos =? inputlen then Some None else
  let* tag := rd input pos in
  if negb (tag =? 0x30) then Some None else
  let pos := u64 (pos + 1) in
  if pos =? inputlen then Some None else
  let* lenbyte := rd input pos in
  let pos := u64 (pos + 1) in
  if z2b (lenbyte .& 0x80) then
    let lenbyte := u64 (lenbyte - 0x80) in
    if u64 (pos + lenbyte) >? inputlen then Some None else Some (Some (u64 (pos + lenbyte)))
  else Some (Some pos).

(** The length octets of an integer: the length and the position after them. *)
Definition lax_length (input : list Z) (inputlen pos : Z) : option (option (Z * Z)) :=
  let* lenbyte := rd input pos in
  let pos := u64 (pos + 1) in
  if z2b (lenbyte .& 0x80) then
    let lenbyte := u64 (lenbyte - 0x80) in
    if u64 (pos + lenbyte) >? inputlen then Some None else
    let* (lenbyte, pos) := lax_skip_zeros (Z.to_nat lenbyte) input pos in
    if lenbyte >=? 8 then Some None else
    let* r := lax_len_bytes (Z.to_nat lenbyte) input pos 0 in
    Some (Some r)
  else Some (Some (lenbyte, pos)).

(** An integer: its length, its position and the position after it.  The same
    text is there once for [R] and once for [S]. *)
Definition lax_integer (input : list Z) (inputlen pos : Z) : option (option (Z * Z * Z)) :=
  if pos =? inputlen then Some None else
  let* tag := rd input pos in
  if negb (tag =? 0x02) then Some None else
  let pos := u64 (pos + 1) in
  if pos =? inputlen then Some None else
  let* r := lax_length input inputlen pos in
  match r with
  | None => Some None
  | Some (len, pos) => if len >? u64 (inputlen - pos) then Some None else Some (Some (len, pos, u64 (pos + len)))
  end.

(** Copy a number without its leading zeros to the end of [tmpsig[..off]]; the
    first result is [overflow]. *)
Definition lax_copy (input : list Z) (len pos : Z) (off : Z) (st : Z * list Z) : option (Z * list Z) :=
  let '(overflow, tmpsig) := st in
  let* (len, pos) := lax_skip_zeros (Z.to_nat len) input pos in
  if len >? 32 then Some (1, tmpsig)
  else let* src := rd_bytes input pos len in Some (overflow, memcpy_at (Z.to_nat (off - len)) src tmpsig).

(** Everything between the two initialisations of [sig]: [None] where the
    function returns 0, otherwise [overflow] and [tmpsig]. *)
Definition lax_parse (input : list Z) (inputlen : Z) (tmpsig : list Z) : option (option (Z * list Z)) :=
  let* p := lax_sequence input inputlen in
  match p with
  | None => Some None
  | Some pos =>
      let* r := lax_integer input inputlen pos in
      match r with
      | None => Some None
      | Some (rlen, rpos, pos) =>
          let* s := lax_integer input inputlen pos in
          match s with
          | None => Some None
          | Some (slen, spos, pos) =>
              let* st := lax_copy input rlen rpos 32 (0, tmpsig) in
              let* st := lax_copy input slen spos 64 st in
              Some (Some st)
          end
      end
  end.

Section Lax.
Context {I : FieldImpl} {J : ScalarImpl} {N : MemImpl I J}.

(** Returns the return value and [sig]. *)
Definition ecdsa_signature_parse_der_lax (ctx : secp256k1_context) (sig : option (list Z)) (input : list Z) : result (Z * option (list Z)) :=
  let tmpsig := zeros 64 in
  let! (_, sig) := secp256k1_ecdsa_signature_parse_compact ctx sig (Some tmpsig) in
  let! p := of_option (lax_parse input (Z.of_nat (length input)) tmpsig) in
  match p with
  | None => ret (0, sig)
  | Some (overflow, tmpsig) =>
      let! (overflow, sig) :=
        (if overflow =? 0
         then let! (ok, sig) := secp256k1_ecdsa_signature_parse_compact ctx sig (Some tmpsig) in ret (b2z (negb (z2b ok)), sig)
         else ret (overflow, sig)) in
      if z2b overflow
      then let! (_, sig) := secp256k1_ecdsa_signature_parse_compact ctx sig (Some (zeros 64)) in ret (1, sig)
      else ret (1, sig)
  end.

(** * Private keys *)

(** The pointer [privkey] is the rest of the input, [end] its end.  [None] where
    the function returns 0; otherwise the octets of the key. *)
Definition privkey_octets (privkey : list Z) : option (option (list Z)) :=
  let at_end (n : Z) (p : list Z) := Z.of_nat (length p) <? n in
  if at_end 1 privkey then Some None else
  let* b := rd privkey 0 in
  if negb (b =? 0x30) then Some None else
  let privkey := skipn 1 privkey in
  if at_end 1 privkey then Some None else
  let* b := rd privkey 0 in
  if negb (z2b (b .& 0x80)) then Some None else
  let lenb := b .& Z.lnot 0x80 in
  let privkey := skipn 1 privkey in
  if (lenb <? 1) || (lenb >? 2) then Some None else
  if at_end lenb privkey then Some None else
  let* lo := rd privkey (lenb - 1) in
  let* hi := (if lenb >? 1 then let* h := rd privkey (lenb - 2) in Some (h << 8) else Some 0) in
  let len := lo .| hi in
  let privkey := skipn (Z.to_nat lenb) privkey in
  if at_end len privkey then Some None else
  if at_end 3 privkey then Some None else
  let* v0 := rd privkey 0 in
  let* v1 := rd privkey 1 in
  let* v2 := rd privkey 2 in
  if negb ((v0 =? 0x02) && (v1 =? 0x01) && (v2 =? 0x01)) then Some None else
  let privkey := skipn 3 privkey in
  if at_end 2 privkey then Some None else
  let* t := rd privkey 0 in
  let* n := rd privkey 1 in
  if negb (t =? 0x04) || (n >? 0x20) || at_end (2 + n) privkey then Some None else
  let* key := rd_bytes privkey 2 n in
  Some (Some key).

(** Returns the return value and [out32]. *)
Definition ec_privkey_import_der (ctx : secp256k1_context) (privkey : list Z) : result (Z * list Z) :=
  let out32 := zeros 32 in
  let! k := of_option (privkey_octets privkey) in
  match k with
  | None => ret (0, out32)
  | Some key =>
      let out32 := memcpy_at (32 - length key) key out32 in
      let! ok := secp256k1_ec_seckey_verify ctx (Some out32) in
      if z2b ok then ret (1, out32) else ret (0, zeros 32)
  end.

Definition begin_compressed : list Z := [0x30; 0x81; 0xD3; 0x02; 0x01; 0x01; 0x04; 0x20].

Definition middle_compressed : list Z :=
  [0xA0; 0x81; 0x85; 0x30; 0x81; 0x82; 0x02; 0x01; 0x01; 0x30; 0x2C; 0x06; 0x07; 0x2A; 0x86; 0x48;
   0xCE; 0x3D; 0x01; 0x01; 0x02; 0x21; 0x00; 0xFF; 0xFF; 0xFF; 0xFF; 0xFF; 0xFF; 0xFF; 0xFF; 0xFF;
   0xFF; 0xFF; 0xFF; 0xFF; 0xFF; 0xFF; 0xFF; 0xFF; 0xFF; 0xFF; 0xFF; 0xFF; 0xFF; 0xFF; 0xFF; 0xFF;
   0xFF; 0xFF; 0xFE; 0xFF; 0xFF; 0xFC; 0x2F; 0x30; 0x06; 0x04; 0x01; 0x00; 0x04; 0x01; 0x07; 0x04;
   0x21; 0x02; 0x79; 0xBE; 0x66; 0x7E; 0xF9; 0xDC; 0xBB; 0xAC; 0x55; 0xA0; 0x62; 0x95; 0xCE; 0x87;
   0x0B; 0x07; 0x02; 0x9B; 0xFC; 0xDB; 0x2D; 0xCE; 0x28; 0xD9; 0x59; 0xF2; 0x81; 0x5B; 0x16; 0xF8;
   0x17; 0x98; 0x02; 0x21; 0x00; 0xFF; 0xFF; 0xFF; 0xFF; 0xFF; 0xFF; 0xFF; 0xFF; 0xFF; 0xFF; 0xFF;
   0xFF; 0xFF; 0xFF; 0xFF; 0xFE; 0xBA; 0xAE; 0xDC; 0xE6; 0xAF; 0x48; 0xA0; 0x3B; 0xBF; 0xD2; 0x5E;
   0x8C; 0xD0; 0x36; 0x41; 0x41; 0x02; 0x01; 0x01; 0xA1; 0x24; 0x03; 0x22; 0x00].

Definition begin_uncompressed : list Z := [0x30; 0x82; 0x01; 0x13; 0x02; 0x01; 0x01; 0x04; 0x20].

Definition middle_uncompressed : list Z :=
  [0xA0; 0x81; 0xA5; 0x30; 0x81; 0xA2; 0x02; 0x01; 0x01; 0x30; 0x2C; 0x06; 0x07; 0x2A; 0x86; 0x48;
   0xCE; 0x3D; 0x01; 0x01; 0x02; 0x21; 0x00; 0xFF; 0xFF; 0xFF; 0xFF; 0xFF; 0xFF; 0xFF; 0xFF; 0xFF;
   0xFF; 0xFF; 0xFF; 0xFF; 0xFF; 0xFF; 0xFF; 0xFF; 0xFF; 0xFF; 0xFF; 0xFF; 0xFF; 0xFF; 0xFF; 0xFF;
   0xFF; 0xFF; 0xFE; 0xFF; 0xFF; 0xFC; 0x2F; 0x30; 0x06; 0x04; 0x01; 0x00; 0x04; 0x01; 0x07; 0x04;
   0x41; 0x04; 0x79; 0xBE; 0x66; 0x7E; 0xF9; 0xDC; 0xBB; 0xAC; 0x55; 0xA0; 0x62; 0x95; 0xCE; 0x87;
   0x0B; 0x07; 0x02; 0x9B; 0xFC; 0xDB; 0x2D; 0xCE; 0x28; 0xD9; 0x59; 0xF2; 0x81; 0x5B; 0x16; 0xF8;
   0x17; 0x98; 0x48; 0x3A; 0xDA; 0x77; 0x26; 0xA3; 0xC4; 0x65; 0x5D; 0xA4; 0xFB; 0xFC; 0x0E; 0x11;
   0x08; 0xA8; 0xFD; 0x17; 0xB4; 0x48; 0xA6; 0x85; 0x54; 0x19; 0x9C; 0x47; 0xD0; 0x8F; 0xFB; 0x10;
   0xD4; 0xB8; 0x02; 0x21; 0x00; 0xFF; 0xFF; 0xFF; 0xFF; 0xFF; 0xFF; 0xFF; 0xFF; 0xFF; 0xFF; 0xFF;
   0xFF; 0xFF; 0xFF; 0xFF; 0xFE; 0xBA; 0xAE; 0xDC; 0xE6; 0xAF; 0x48; 0xA0; 0x3B; 0xBF; 0xD2; 0x5E;
   0x8C; 0xD0; 0x36; 0x41; 0x41; 0x02; 0x01; 0x01; 0xA1; 0x44; 0x03; 0x42; 0x00].

(** Copy [src] to [ptr] and advance [ptr], an offset into [privkey]. *)
Definition put (src : list Z) (st : list Z * nat) : list Z * nat :=
  let '(privkey, ptr) := st in (memcpy_at ptr src privkey, (ptr + length src)%nat).

(** [mem] is what [pubkey] holds; returns the return value, [*privkeylen] and
    the buffer [privkey]. *)
Definition ec_privkey_export_der (ctx : secp256k1_context) (mem privkey key32 : list Z) (compressed : Z) : result (Z * Z * list Z) :=
  let! (ok, pubkey) := secp256k1_ec_pubkey_create ctx (Some mem) (Some key32) in
  if negb (z2b ok) then ret (0, 0, privkey)
  else
    let '(bgn, middle, pubkeylen, flags) :=
      if z2b compressed then (begin_compressed, middle_compressed, 33, SECP256K1_EC_COMPRESSED)
      else (begin_uncompressed, middle_uncompressed, 65, SECP256K1_EC_UNCOMPRESSED) in
    let '(privkey, ptr) := put middle (put key32 (put bgn (privkey, O))) in
    let! (_, pubkeylen, out) := secp256k1_ec_pubkey_serialize ctx (Some (firstn (Z.to_nat pubkeylen) (skipn ptr privkey)))
                                  (Some pubkeylen) pubkey flags in
    match pubkeylen, out with
    | Some len, Some out => ret (1, Z.of_nat ptr + len, memcpy_at ptr out privkey)
    | _, _ => NoResult
    end.
End Lax.
