(* ===== verification/LaxSpec.v ===== *)
(** What the lax parser accepts: a grammar of which DER is a part, and that the
    parser never reads outside of its input, accepts exactly this grammar and
    returns the numbers in it, or zeros when one is not below the group order. *)

From Stdlib Require Import ZArith Lia List Bool.
From S2P Require Import Prelude Limbs Hash HashSpec HashThm EcdsaDer Lax.
Import ListNotations.
Open Scope Z_scope.
Open Scope c_scope.

(** * The grammar *)

(** Length octets of an integer: the short form, or the long form with any
    number of leading zeros and fewer than eight octets after them. *)
Inductive lax_len : list Z -> Z -> Prop :=
| lax_short n : 0 <= n < 128 -> lax_len [n] n
| lax_long k b : Z.of_nat (k + length b) < 128 -> (length b < 8)%nat -> limbs_lt 8 b ->
    lax_len (128 + Z.of_nat (k + length b) :: repeat 0 k ++ b) (be_val b).

(** Length octets of the sequence: the length itself is not looked at. *)
Inductive lax_seq_len : list Z -> Prop :=
| seq_short n : 0 <= n < 128 -> lax_seq_len [n]
| seq_long h : Z.of_nat (length h) < 128 -> lax_seq_len (128 + Z.of_nat (length h) :: h).

(** An integer with the octets [c], followed by [t]. *)
Definition lax_int (s c t : list Z) : Prop :=
  exists le, s = 0x02 :: le ++ c ++ t /\ lax_len le (Z.of_nat (length c)).

Definition lax_grammar (s c d : list Z) : Prop :=
  exists hl t rest, s = 0x30 :: hl ++ t /\ lax_seq_len hl /\
  exists u, lax_int t c u /\ lax_int u d rest.

Lemma app_same_length {A} (a a' t t' : list A) : length a = length a' -> a ++ t = a' ++ t' -> a = a' /\ t = t'.
Proof.
  revert a'. induction a as [| x a IH]; intros [| x' a'] Hl H; try discriminate; [easy |].
  injection Hl as Hl. injection H as -> H. destruct (IH a' Hl H) as [-> ->]. easy.
Qed.

Lemma cons_eq {A} (x y : A) l m : x :: l = y :: m -> x = y /\ l = m.
Proof. intros E. now injection E. Qed.

(** The octets determine the length they encode. *)
Lemma lax_len_det le t n le' t' n' : le ++ t = le' ++ t' -> lax_len le n -> lax_len le' n' -> le = le' /\ t = t' /\ n = n'.
Proof.
  intros E H H'. destruct H as [n Hn | k b Hk Hb _]; destruct H' as [n' Hn' | k' b' Hk' Hb' _]; cbn [app] in E; apply cons_eq in E as [E0 E]; [subst; easy | exfalso; lia | exfalso; lia |].
  - apply app_same_length in E as [E ->]; [| rewrite !length_app, !repeat_length; lia]. rewrite E0, E. split; [reflexivity |].
    split; [reflexivity |]. now rewrite <- (be_val_zeros k b), E, be_val_zeros.
Qed.

Lemma lax_int_det s c t c' t' : lax_int s c t -> lax_int s c' t' -> c = c' /\ t = t'.
Proof.
  intros (le & -> & H) (le' & E & H'). apply cons_eq in E as [_ E].
  destruct (lax_len_det _ _ _ _ _ _ E H H') as (_ & Et & En). apply app_same_length; [lia | exact Et].
Qed.

Lemma lax_seq_det hl t hl' t' : hl ++ t = hl' ++ t' -> lax_seq_len hl -> lax_seq_len hl' -> t = t'.
Proof.
  intros E H H'. destruct H as [n Hn | h Hh]; destruct H' as [n' Hn' | h' Hh']; cbn [app] in E; apply cons_eq in E as [E0 E]; try lia; [exact E |].
  apply app_same_length in E as [_ E]; [exact E | lia].
Qed.

(** The grammar gives one pair of numbers. *)
Lemma lax_grammar_det s c d c' d' : lax_grammar s c d -> lax_grammar s c' d' -> c = c' /\ d = d'.
Proof.
  intros (hl & t & r & -> & Hh & u & Hc & Hd) (hl' & t' & r' & E & Hh' & u' & Hc' & Hd'). apply cons_eq in E as [_ E].
  rewrite <- (lax_seq_det _ _ _ _ E Hh Hh') in Hc'. destruct (lax_int_det _ _ _ _ _ Hc Hc') as [-> <-].
  now destruct (lax_int_det _ _ _ _ _ Hd Hd') as [-> _].
Qed.

Lemma grammar_bytes s c d : lax_grammar s c d -> limbs_lt 8 s -> limbs_lt 8 c /\ limbs_lt 8 d.
Proof.
  intros (hl & t & r & -> & _ & u & (le & -> & _) & (le' & -> & _)) F. unfold limbs_lt in *.
  rewrite Forall_cons_iff, Forall_app, Forall_cons_iff, !Forall_app, Forall_cons_iff, !Forall_app in F. tauto.
Qed.

(** A number padded to 32 octets. *)
Lemma pad_32 b : limbs_lt 8 b -> (length b <= 32)%nat -> repeat 0 (32 - length b) ++ b = be_bytes 32 (be_val b).
Proof.
  intros F L. rewrite <- (be_val_zeros (32 - length b) b).
  assert (E : length (repeat 0 (32 - length b) ++ b) = 32%nat) by (rewrite length_app, repeat_length; lia).
  rewrite <- E at 2. symmetry. apply be_bytes_val. apply Forall_app. split; [| exact F].
  apply Forall_forall. intros x Hx. apply repeat_spec in Hx. subst x. lia.
Qed.

Lemma memcpy_mid (x y z b : list Z) : length y = length b -> memcpy_at (length x) b (x ++ y ++ z) = x ++ b ++ z.
Proof.
  intros E. unfold memcpy_at. rewrite firstn_app, Nat.sub_diag, firstn_O, app_nil_r, firstn_all. do 2 f_equal.
  rewrite app_assoc, skipn_app, skipn_all2 by (rewrite length_app; lia). rewrite length_app, E, Nat.sub_diag. reflexivity.
Qed.

Lemma high_bit b : 0 <= b < 256 -> z2b (b .& 0x80) = (128 <=? b).
Proof.
  intros H. unfold z2b. rewrite byte_high by lia. destruct (Z.ltb_spec b 128), (Z.leb_spec 128 b); (reflexivity || lia).
Qed.

(** * Positions *)

Section Input.
Variable input : list Z.
Hypothesis Hlen : Z.of_nat (length input) < 2 ^ 62.
Hypothesis HB : limbs_lt 8 input.

Let inputlen := Z.of_nat (length input).

(** [s] is what follows the position. *)
Definition at_pos (pos : Z) (s : list Z) : Prop :=
  0 <= pos /\ pos + Z.of_nat (length s) = inputlen /\ skipn (Z.to_nat pos) input = s.

Lemma at_bound pos s : at_pos pos s -> 0 <= pos <= inputlen /\ Z.of_nat (length s) <= inputlen /\ limbs_lt 8 s.
Proof. intros (H0 & H1 & <-). split; [lia |]. split; [lia | now apply limbs_lt_skipn]. Qed.

Lemma at_app pos a t : at_pos pos (a ++ t) -> u64 (pos + Z.of_nat (length a)) = pos + Z.of_nat (length a) /\ at_pos (pos + Z.of_nat (length a)) t.
Proof.
  intros H. destruct (at_bound _ _ H) as (B & B' & _). destruct H as (H0 & H1 & H2). rewrite length_app in *. unfold inputlen in *.
  split; [apply u64_id; lia |]. split; [lia |]. split; [unfold inputlen; lia |].
  replace (Z.to_nat (pos + Z.of_nat (length a))) with (length a + Z.to_nat pos)%nat by lia.
  rewrite <- skipn_skipn, H2, skipn_app, Nat.sub_diag, skipn_all. reflexivity.
Qed.

Lemma at_end pos s : at_pos pos s -> (pos =? inputlen) = match s with [] => true | _ => false end.
Proof. intros (H0 & H1 & _). destruct s; cbn [length] in H1; lia. Qed.

Lemma at_rd pos b t : at_pos pos (b :: t) -> rd input pos = Some b /\ u64 (pos + 1) = pos + 1 /\ at_pos (pos + 1) t /\ 0 <= b < 256.
Proof.
  intros H. destruct (at_app pos [b] t H) as [E H']. destruct (at_bound _ _ H) as (_ & _ & F). apply Forall_inv in F.
  destruct H as (H0 & H1 & H2). split; [| split; [exact E | split; [exact H' | exact F]]].
  unfold rd. rewrite <- (firstn_skipn (Z.to_nat pos) input), nth_error_app2, H2 by (rewrite length_firstn; lia).
  rewrite length_firstn, Nat.min_l by (cbn [length] in H1; unfold inputlen in *; lia). now rewrite Nat.sub_diag.
Qed.

Lemma at_bytes pos a t : at_pos pos (a ++ t) -> rd_bytes input pos (Z.of_nat (length a)) = Some a.
Proof.
  intros (H0 & H1 & H2). rewrite length_app in H1. unfold rd_bytes. fold inputlen. replace (_ <=? _) with true by lia.
  rewrite H2, Nat2Z.id, firstn_app, Nat.sub_diag, firstn_O, app_nil_r. now rewrite firstn_all.
Qed.

(** * Loops *)

Lemma lax_skip_zeros_ok a : forall pos t, at_pos pos (a ++ t) -> exists k b, a = repeat 0 k ++ b /\ hd 1 b <> 0 /\
  lax_skip_zeros (length a) input pos = Some (Z.of_nat (length b), pos + Z.of_nat k) /\ at_pos (pos + Z.of_nat k) (b ++ t).
Proof.
  induction a as [| x a IH]; intros pos t H.
  - exists 0%nat, []. rewrite Z.add_0_r. repeat split; try easy; apply H.
  - destruct (at_rd pos x (a ++ t) H) as (R & E & H' & _). cbn [length lax_skip_zeros]. rewrite R. cbn [bind]. rewrite E.
    destruct (Z.eqb_spec x 0) as [-> | Nx].
    + destruct (IH _ _ H') as (k & b & -> & Hb & Es & Hp). exists (S k), b. split; [reflexivity |]. split; [exact Hb |].
      replace (pos + Z.of_nat (S k)) with (pos + 1 + Z.of_nat k) by lia. auto.
    + exists 0%nat, (x :: a). rewrite Z.add_0_r. split; [reflexivity |]. split; [exact Nx |]. split; [reflexivity | exact H].
Qed.

Lemma len_bytes_ok b : forall pos acc t, at_pos pos (b ++ t) -> 0 <= acc < 2 ^ (8 * (8 - Z.of_nat (length b))) -> (length b <= 8)%nat ->
  lax_len_bytes (length b) input pos acc = Some (acc * 2 ^ (8 * Z.of_nat (length b)) + be_val b, pos + Z.of_nat (length b)).
Proof.
  induction b as [| x b IH]; intros pos acc t H Ha Hl.
  - cbn. unfold be_val; cbn. do 2 f_equal; lia.
  - destruct (at_rd pos x (b ++ t) H) as (R & E & H' & Hx). cbn [length lax_len_bytes]. rewrite R. cbn [bind]. rewrite E.
    cbn [length] in Ha, Hl. set (n := Z.of_nat (length b)) in *.
    replace (8 * (8 - Z.of_nat (S (length b)))) with (8 * (7 - n)) in Ha by lia.
    assert (P8 : 2 ^ (8 * (8 - n)) = 2 ^ (8 * (7 - n)) * 2 ^ 8) by (rewrite <- Z.pow_add_r by lia; f_equal; lia).
    assert (2 ^ (8 * (8 - n)) <= 2 ^ 64) by (apply Z.pow_le_mono_r; lia).
    rewrite Z.shiftl_mul_pow2, (u64_id (acc * 2 ^ 8)), u64_id by nia.
    rewrite (IH (pos + 1) (acc * 2 ^ 8 + x) t H') by lia || (fold n; nia). fold n.
    rewrite be_val_cons. fold n. do 2 f_equal; [| lia].
    replace (8 * Z.of_nat (S (length b))) with (8 + 8 * n) by lia. rewrite Z.pow_add_r by lia. ring.
Qed.

(** * Integers *)

Lemma length_ok pos s : at_pos pos s -> s <> [] ->
  (exists le t n p, s = le ++ t /\ lax_len le n /\ lax_length input inputlen pos = Some (Some (n, p)) /\ at_pos p t) \/
  ((forall le t n, s = le ++ t -> ~ lax_len le n) /\ lax_length input inputlen pos = Some None).
Proof.
  intros H Hs. destruct s as [| x s]; [contradiction |]. destruct (at_rd pos x s H) as (R & E & H' & Hx).
  unfold lax_length. rewrite R. cbn [bind]. rewrite E, high_bit by exact Hx. destruct (Z.leb_spec 128 x) as [G | G].
  2: { left. exists [x], s, x, (pos + 1). split; [reflexivity |]. split; [constructor; lia |]. split; [reflexivity | exact H']. }
  destruct (at_bound _ _ H') as (B & B' & F). unfold inputlen in B. rewrite (u64_id (x - 128)), u64_id by lia. cbv zeta.
  destruct (Z.gtb_spec (pos + 1 + (x - 128)) inputlen) as [O | O].
  { right. split; [| reflexivity]. intros le t n Es Hl. destruct Hl as [n Hn | k b Hk Hb _]; cbn [app] in Es; apply cons_eq in Es as [-> Es]; [lia |].
    destruct H' as (_ & L & _). rewrite Es, !length_app, repeat_length in L. lia. }
  assert (Lx : (Z.to_nat (x - 128) <= length s)%nat) by (destruct H' as (_ & L & _); lia).
  set (a := firstn (Z.to_nat (x - 128)) s). set (t := skipn (Z.to_nat (x - 128)) s).
  assert (Es : s = a ++ t) by (symmetry; apply firstn_skipn).
  assert (La : length a = Z.to_nat (x - 128)) by (unfold a; rewrite length_firstn; lia). rewrite <- La.
  rewrite Es in H', F. apply Forall_app in F as [Fa Ft]. destruct (lax_skip_zeros_ok a _ t H') as (k & b & Ea & Hb & -> & Hp). cbn [bind].
  rewrite Ea in La, Fa. rewrite length_app, repeat_length in La. apply Forall_app in Fa as [_ Fb].
  destruct (Z.geb_spec (Z.of_nat (length b)) 8) as [O8 | O8].
  - right. split; [| reflexivity]. intros le t' n Ex Hl. rewrite Es, Ea in Ex.
    destruct Hl as [n Hn | k' b' Hk' Hb' Fb']; cbn [app] in Ex; apply cons_eq in Ex as [Ex0 Ex]; [lia |].
    apply app_same_length in Ex as [Ex _]; [| rewrite !length_app, !repeat_length; lia].
    assert (V : be_val b = be_val b') by (now rewrite <- (be_val_zeros k b), Ex, be_val_zeros).
    destruct b as [| x0 b]; [cbn in O8; lia |]. cbn [hd] in Hb. pose proof (nbytes_cons x0 b Fb Hb) as Nb. rewrite V in Nb.
    pose proof (nbytes_bound (be_val b') 7) as Q. pose proof (be_val_bound b' Fb') as Q'. cbn [length] in O8.
    assert (2 ^ (8 * Z.of_nat (length b')) <= 2 ^ (8 * Z.of_nat 7)) by (apply Z.pow_le_mono_r; lia). lia.
  - left. rewrite Nat2Z.id, (len_bytes_ok b _ 0 t Hp) by (lia || (split; [lia | apply Z.pow_pos_nonneg; lia])). cbn [bind].
    destruct (at_app _ _ _ Hp) as [_ Hq]. rewrite Z.mul_0_l, Z.add_0_l.
    exists (x :: a), t, (be_val b), (pos + 1 + Z.of_nat k + Z.of_nat (length b)).
    split; [now rewrite Es |]. split; [| split; [reflexivity | exact Hq]].
    replace x with (128 + Z.of_nat (k + length b)) by lia. rewrite Ea. constructor; (exact Fb || lia).
Qed.

Lemma integer_ok pos s : at_pos pos s ->
  (exists c t p q, lax_int s c t /\ lax_integer input inputlen pos = Some (Some (Z.of_nat (length c), p, q)) /\ at_pos p (c ++ t) /\ at_pos q t) \/
  ((forall c t, ~ lax_int s c t) /\ lax_integer input inputlen pos = Some None).
Proof.
  intros H. unfold lax_integer. rewrite (at_end _ _ H).
  destruct s as [| x s]; [right; split; [intros c t (le & E & _); discriminate | reflexivity] |].
  destruct (at_rd pos x s H) as (-> & E & H' & _). cbn [bind]. rewrite E.
  destruct (Z.eqb_spec x 2) as [-> | Nx]; cbn [negb]; [| right; split; [intros c t (le & Ex & _); apply cons_eq in Ex as [? _]; congruence | reflexivity]].
  rewrite (at_end _ _ H'). destruct s as [| y s].
  { right. split; [| reflexivity]. intros c t (le & Ex & Hl). destruct Hl; discriminate. }
  destruct (length_ok _ _ H' ltac:(discriminate)) as [(le & t & n & p & Es & Hl & -> & Hp) | [HN ->]]; cbn [bind].
  2: { right. split; [| reflexivity]. intros c t (le & Ex & Hl). apply cons_eq in Ex as [_ Ex]. exact (HN le _ _ Ex Hl). }
  pose proof (at_bound _ _ Hp) as (B & B' & F). unfold inputlen in B, B'. rewrite (u64_id (inputlen - p)) by (unfold inputlen; lia).
  assert (L : Z.of_nat (length t) = inputlen - p) by (destruct Hp as (_ & L & _); lia).
  destruct (Z.gtb_spec n (inputlen - p)) as [G | G].
  - right. split; [| reflexivity]. intros c t' (le' & Ex & Hl'). apply cons_eq in Ex as [_ Ex]. rewrite Es in Ex.
    destruct (lax_len_det _ _ _ _ _ _ Ex Hl Hl') as (_ & -> & ->). rewrite length_app in L. lia.
  - left. assert (Hn : 0 <= n) by (destruct Hl as [? ? | ? b ? ? Fb]; [lia | apply (be_val_bound b Fb)]).
    set (c := firstn (Z.to_nat n) t). set (r := skipn (Z.to_nat n) t).
    assert (Et : t = c ++ r) by (symmetry; apply firstn_skipn).
    assert (Lc : Z.of_nat (length c) = n) by (unfold c; rewrite length_firstn; lia).
    rewrite Et in Hp. destruct (at_app _ _ _ Hp) as [Eq Hq]. rewrite <- Lc, Eq. exists c, r, p, (p + Z.of_nat (length c)).
    split; [exists le; rewrite Lc; split; [now rewrite Es, Et | exact Hl] |]. split; [reflexivity |]. split; [exact Hp | exact Hq].
Qed.

Lemma at_start : at_pos 0 input.
Proof. split; [lia |]. split; [lia | reflexivity]. Qed.

Lemma sequence_ok s : at_pos 0 s ->
  (exists hl t p, s = 0x30 :: hl ++ t /\ lax_seq_len hl /\ lax_sequence input inputlen = Some (Some p) /\ at_pos p t) \/
  ((forall hl t, s = 0x30 :: hl ++ t -> ~ lax_seq_len hl) /\ lax_sequence input inputlen = Some None).
Proof.
  intros H. unfold lax_sequence. cbv zeta. rewrite (at_end _ _ H).
  destruct s as [| x s]; [right; split; [intros hl t E; discriminate | reflexivity] |].
  destruct (at_rd 0 x s H) as (-> & -> & H' & _). cbn [bind]. change (0 + 1) with 1 in *.
  destruct (Z.eqb_spec x 48) as [-> | Nx]; cbn [negb]; [| right; split; [intros hl t Ex; apply cons_eq in Ex as [? _]; congruence | reflexivity]].
  rewrite (at_end _ _ H'). destruct s as [| y s].
  { right. split; [| reflexivity]. intros hl t Ex Hl. destruct Hl; discriminate. }
  destruct (at_rd 1 y s H') as (-> & -> & H2 & Hy). cbn [bind]. rewrite high_bit by exact Hy. destruct (Z.leb_spec 128 y) as [G | G].
  2: { left. exists [y], s, 2. split; [reflexivity |]. split; [constructor; lia |]. split; [reflexivity | exact H2]. }
  destruct (at_bound _ _ H2) as (B & B' & _). unfold inputlen in B. rewrite (u64_id (y - 128)), u64_id by lia. change (1 + 1) with 2 in *.
  pose proof (proj1 (proj2 H2)) as L. destruct (Z.gtb_spec (2 + (y - 128)) inputlen) as [O | O].
  - right. split; [| reflexivity]. intros hl t Ex Hl. apply cons_eq in Ex as [_ Ex].
    destruct Hl as [n Hn | h Hh]; cbn [app] in Ex; apply cons_eq in Ex as [-> Ex]; [lia |]. rewrite Ex, length_app in L. lia.
  - left. set (h := firstn (Z.to_nat (y - 128)) s). set (t := skipn (Z.to_nat (y - 128)) s).
    assert (Eh : s = h ++ t) by (symmetry; apply firstn_skipn).
    assert (Lh : Z.of_nat (length h) = y - 128) by (unfold h; rewrite length_firstn; lia).
    rewrite Eh in H2. destruct (at_app _ _ _ H2) as [_ Hq]. rewrite Lh in Hq. exists (y :: h), t, (2 + (y - 128)).
    split; [now rewrite Eh |]. split; [| split; [reflexivity | exact Hq]]. replace y with (128 + Z.of_nat (length h)) by lia. constructor. lia.
Qed.

(** * Copies *)

(** The number replaces the zeros between [pre] and [post], if it has at most
    32 octets without its leading zeros. *)
Lemma copy_ok c t p pre post ov off : at_pos p (c ++ t) -> off = Z.of_nat (length pre) + 32 ->
  lax_copy input (Z.of_nat (length c)) p off (ov, pre ++ repeat 0 32 ++ post) =
  Some (if be_val c <? 2 ^ 256 then (ov, pre ++ be_bytes 32 (be_val c) ++ post) else (1, pre ++ repeat 0 32 ++ post)).
Proof.
  intros H ->. destruct (at_bound _ _ H) as (_ & _ & F). apply Forall_app in F as [F _].
  destruct (lax_skip_zeros_ok c p t H) as (k & b & Ec & Hb & E & Hq). unfold lax_copy. rewrite Nat2Z.id, E. cbn [bind].
  rewrite Ec in F. apply Forall_app in F as [_ F]. rewrite Ec, be_val_zeros.
  destruct (Z.gtb_spec (Z.of_nat (length b)) 32) as [G | G].
  - destruct b as [| x b]; [cbn in G; lia |]. cbn [hd] in Hb. pose proof (nbytes_cons x b F Hb) as Nb.
    destruct (Z.ltb_spec (be_val (x :: b)) (2 ^ 256)) as [Q | Q]; [| reflexivity].
    pose proof (nbytes_bound (be_val (x :: b)) 32). pose proof (be_val_bound _ F). cbn [length] in G. lia.
  - rewrite (at_bytes _ _ _ Hq). cbn [bind]. pose proof (be_val_bound b F) as B.
    assert (2 ^ (8 * Z.of_nat (length b)) <= 2 ^ 256) by (apply Z.pow_le_mono_r; lia). replace (_ <? 2 ^ 256) with true by lia.
    do 2 f_equal. rewrite <- pad_32 by (exact F || lia).
    replace (repeat 0 32) with (repeat 0 (32 - length b) ++ repeat 0 (length b)) by (rewrite <- repeat_app; f_equal; lia).
    replace (Z.to_nat (Z.of_nat (length pre) + 32 - Z.of_nat (length b))) with (length (pre ++ repeat 0 (32 - length b)))
      by (rewrite length_app, repeat_length; lia).
    rewrite <- app_assoc, (app_assoc pre), memcpy_mid by apply repeat_length. now rewrite <- !app_assoc.
Qed.

(** * The parser *)

Lemma parse_ok :
  (exists c d ov tmp, lax_grammar input c d /\ lax_parse input inputlen (repeat 0 64) = Some (Some (ov, tmp)) /\
   if (be_val c <? 2 ^ 256) && (be_val d <? 2 ^ 256) then ov = 0 /\ tmp = be_bytes 32 (be_val c) ++ be_bytes 32 (be_val d) else ov = 1) \/
  ((forall c d, ~ lax_grammar input c d) /\ lax_parse input inputlen (repeat 0 64) = Some None).
Proof.
  unfold lax_parse. destruct (sequence_ok input at_start) as [(hl & t & p & Es & Hh & -> & Hp) | [HN ->]]; cbn [bind].
  2: { right. split; [| reflexivity]. intros c d (hl & t & r & E & Hh & _). exact (HN hl t E Hh). }
  assert (Dt : forall hl' t', input = 0x30 :: hl' ++ t' -> lax_seq_len hl' -> t' = t).
  { intros hl' t' E Hh'. rewrite Es in E. apply cons_eq in E as [_ E]. symmetry. exact (lax_seq_det _ _ _ _ E Hh Hh'). }
  destruct (integer_ok p t Hp) as [(c & u & pc & q & Hc & -> & Hpc & Hq) | [HN ->]]; cbn [bind].
  2: { right. split; [| reflexivity]. intros c d (hl' & t' & r & E & Hh' & u & Hc & _). rewrite (Dt _ _ E Hh') in Hc. exact (HN _ _ Hc). }
  destruct (integer_ok q u Hq) as [(d & r & pd & q' & Hd & -> & Hpd & _) | [HN ->]]; cbn [bind].
  2: { right. split; [| reflexivity]. intros c' d (hl' & t' & r & E & Hh' & u' & Hc' & Hd). rewrite (Dt _ _ E Hh') in Hc'.
       destruct (lax_int_det _ _ _ _ _ Hc Hc') as [_ <-]. exact (HN _ _ Hd). }
  left. pose proof (copy_ok c u pc [] (repeat 0 32) 0 32 Hpc eq_refl) as E1. cbn [app] in E1.
  change (repeat 0 64) with (repeat 0 32 ++ repeat 0 32). rewrite E1. cbn [bind].
  assert (G : lax_grammar input c d) by (exists hl, t, r; split; [exact Es |]; split; [exact Hh |]; exists u; easy).
  destruct (be_val c <? 2 ^ 256) eqn:Ec.
  - pose proof (copy_ok d r pd (be_bytes 32 (be_val c)) [] 0 64 Hpd ltac:(rewrite length_be_bytes; reflexivity)) as E2.
    rewrite !app_nil_r in E2. rewrite E2. cbn [bind].
    destruct (be_val d <? 2 ^ 256) eqn:Ed; exists c, d; do 2 eexists; (split; [exact G |]); (split; [reflexivity |]); rewrite Ec, ?Ed; cbn [andb]; [split; reflexivity | reflexivity].
  - pose proof (copy_ok d r pd (repeat 0 32) [] 1 64 Hpd eq_refl) as E2. rewrite !app_nil_r in E2. rewrite E2. cbn [bind].
    destruct (be_val d <? 2 ^ 256) eqn:Ed; exists c, d; do 2 eexists; (split; [exact G |]); (split; [reflexivity |]); rewrite Ec, ?Ed; cbn [andb]; reflexivity.
Qed.
End Input.
