(* ===== verification/ApiSpec.v ===== *)
(** The public interface against points, scalars and signatures: what the opaque
    structures stand for, and the behaviour of every function on valid
    arguments. *)

From Stdlib Require Import String ZArith Lia List Bool Zmod Field.
From S2P Require Import Prelude Limbs Primes Fp Curve CurveGroup FieldSpec FieldGen.
From S2P Require Import Group GroupSpec GroupOps GOrder Cofactor ScalarSpec ScalarGen Hash HashSpec HashThm.
From S2P Require Import Ecmult EcmultTable EcmultSpec EcmultGen EcmultGenSpec GenTable Ecdsa EcdsaDer EcdsaSpec Eckey EckeySpec.
From S2P Require Import Api Secp256k1.
Import ListNotations.
Open Scope Z_scope.

Section Spec.
Context {I : FieldImpl} {L : FieldLaws I} {J : ScalarImpl} {M : ScalarLaws J} {N : MemImpl I J} {NL : MemLaws L M N}.

(** * Contexts *)

Definition ctx_verify (ctx : secp256k1_context) : Prop :=
  exists t, pre_g (ecmult_ctx ctx) = Some t /\ pre_storage_ok G (ECMULT_TABLE_SIZE WINDOW_G) t.

Definition ctx_sign (ctx : secp256k1_context) : Prop := gen_ctx_ok (ecmult_gen_ctx ctx).

Lemma ctx_sign_built ctx : ctx_sign ctx -> z2b (secp256k1_ecmult_gen_context_is_built (ecmult_gen_ctx ctx)) = true.
Proof. intros [(prec & E & _) _]. unfold secp256k1_ecmult_gen_context_is_built. now rewrite E. Qed.

Lemma context_create_ok fuel mem flags : (flags .& SECP256K1_FLAGS_TYPE_MASK) = SECP256K1_FLAGS_TYPE_CONTEXT ->
  exists ctx, secp256k1_context_create (S fuel) mem flags = ret (Some ctx) /\
  (z2b (flags .& SECP256K1_FLAGS_BIT_CONTEXT_SIGN) = true -> ctx_sign ctx) /\
  (z2b (flags .& SECP256K1_FLAGS_BIT_CONTEXT_VERIFY) = true -> ctx_verify ctx) /\
  illegal_callback ctx = default_illegal_callback /\ error_callback ctx = default_error_callback.
Proof.
  intros Hf. unfold secp256k1_context_create. rewrite Hf, Z.eqb_refl. cbn [negb].
  assert (HV : z2b (flags .& SECP256K1_FLAGS_BIT_CONTEXT_VERIFY) = true -> forall gen i e,
    ctx_verify (Context (secp256k1_ecmult_context_build secp256k1_ecmult_context_init) gen i e)) by (intros _ gen i e; exact ecmult_context_ok).
  destruct (z2b (flags .& SECP256K1_FLAGS_BIT_CONTEXT_SIGN)).
  - destruct (gen_build_ok fuel (secp256k1_ecmult_gen_context_init (ecmult_gen_ctx mem)) eq_refl) as (gen & E & H). rewrite E. cbn [of_option rbind ret app].
    eexists. split; [reflexivity |]. split; [intros _; exact H |]. split; [| split; reflexivity].
    intros E'. rewrite E'. now apply HV.
  - cbn [rbind ret app]. eexists. split; [reflexivity |]. split; [discriminate |]. split; [| split; reflexivity].
    intros E'. rewrite E'. now apply HV.
Qed.

Lemma context_clone_ok mem ctx : (ctx_verify ctx -> ctx_verify (secp256k1_context_clone mem ctx)) /\
  (ctx_sign ctx -> ctx_sign (secp256k1_context_clone mem ctx)) /\
  illegal_callback (secp256k1_context_clone mem ctx) = illegal_callback ctx /\ error_callback (secp256k1_context_clone mem ctx) = error_callback ctx.
Proof.
  split; [| split; [| split; reflexivity]].
  - intros (t & E & H). exists t. split; [| exact H]. unfold secp256k1_context_clone, secp256k1_ecmult_context_clone. cbn [ecmult_ctx]. now rewrite E.
  - unfold ctx_sign, gen_ctx_ok. intros ((prec & E & H) & R). unfold secp256k1_context_clone, secp256k1_ecmult_gen_context_clone. cbn [ecmult_gen_ctx].
    rewrite E. cbn [gen_prec gen_blind gen_initial]. split; [now exists prec | exact R].
Qed.

Lemma context_randomize_ok fuel ctx seed : ctx_sign ctx -> match seed with Some b => bytes32 b | None => True end ->
  secp256k1_context_randomize fuel ctx seed = NoResult \/
  exists ctx', secp256k1_context_randomize fuel ctx seed = ret (ctx', 1) /\ ctx_sign ctx' /\ (ctx_verify ctx -> ctx_verify ctx').
Proof.
  intros HS Hs. unfold secp256k1_context_randomize, ARG_CHECK. rewrite (ctx_sign_built _ HS).
  destruct (secp256k1_ecmult_gen_blind fuel (ecmult_gen_ctx ctx) seed) as [gen |] eqn:E; cbn [of_option rbind ret app]; [right | now left].
  eexists. split; [reflexivity |]. split; [| intros H; exact H]. apply (gen_blind_ok fuel (ecmult_gen_ctx ctx) seed gen); [| exact E].
  destruct seed; [now split | apply HS].
Qed.

(** * Public keys *)

(** The bytes of a public key that stands for the point. *)
Definition pubkey_rep (pk : list Z) (P : point) : Prop :=
  length pk = 64%nat /\ limbs_lt 8 pk /\ secp P /\ exists X Y, P = Aff X Y /\
  st_val (ges_x (ge_storage_of_bytes pk)) = Zmod.to_Z X /\ st_val (ges_y (ge_storage_of_bytes pk)) = Zmod.to_Z Y.

(** No point has abscissa zero: its order would be three. *)
Lemma no_zero_x (Y : F) : ~ secp (Aff 0%F Y).
Proof.
  intros S. assert (D : padd (Aff 0%F Y) (Aff 0%F Y) = pneg (Aff 0%F Y)).
  { pose proof (no_order_two _ S) as N2. pose proof (secp_y_nz _ _ S) as NY. unfold padd in *. destruct (_ && _); [discriminate N2; reflexivity |].
    unfold slope, third, pneg. rewrite Zmod.eqb_refl. cbv zeta. f_equal; field; auto with fnz. }
  assert (T : smul 3 (Aff 0%F Y) = Inf).
  { change 3 with (1 + (1 + 1)). rewrite !(smul_add curve_b curve_b_nz) by exact S. change (smul 1 (Aff 0%F Y)) with (Aff 0%F Y). rewrite D. apply padd_neg_r. }
  apply (order_exact _ _ S ltac:(discriminate) (secp_order _ S)) in T. discriminate.
Qed.

Lemma pubkey_load_ok ctx pk P : pubkey_rep pk P ->
  exists q, secp256k1_pubkey_load ctx pk = ret (q, 1) /\ ge_wf q /\ ge_pt q = P /\ ge_infinity q = 0 /\ P <> Inf.
Proof.
  intros (Lk & Bk & S & X & Y & EP & EX & EY). unfold secp256k1_pubkey_load, ARG_CHECK. rewrite sizeof_ge_storage_ok. cbn [Z.eqb Pos.eqb].
  set (s := ge_storage_of_bytes pk) in *. destruct (ge_storage_of_bytes_ok pk Lk Bk) as [Sx Sy]. fold s in Sx, Sy.
  destruct (from_storage_ok _ Sx) as (Mx & Fx & Nx). destruct (from_storage_ok _ Sy) as (My & Fy & _).
  rewrite EX, F_of_to_Z in Fx. rewrite EY, F_of_to_Z in Fy. specialize (Nx ltac:(rewrite EX; apply F_to_Z_bound)).
  exists (secp256k1_ge_from_storage s). unfold secp256k1_ge_from_storage in *. cbn [ge_x].
  rewrite is_zero_ok, Fx, b2z_b2z by exact Nx. destruct (eqb_F_spec X 0%F) as [E | NX].
  { exfalso. rewrite EP, E in S. exact (no_zero_x Y S). }
  cbn [negb]. split; [reflexivity |]. destruct (ge_result (Ge (fe_from_storage (ges_x s)) (fe_from_storage (ges_y s)) 0) 1 1 X Y (conj Mx Fx) (conj My Fy) eq_refl eq_refl) as [W Pq].
  split; [exact W |]. rewrite EP. split; [exact Pq |]. split; [reflexivity | discriminate].
Qed.

Lemma pubkey_save_ok q P : ge_wf q -> ge_pt q = P -> secp P -> P <> Inf -> pubkey_rep (secp256k1_pubkey_save q) P.
Proof.
  intros W EP S NP. unfold secp256k1_pubkey_save. rewrite sizeof_ge_storage_ok. cbn [Z.eqb Pos.eqb].
  assert (Ei : ge_infinity q = 0) by (apply ge_finite_flag; [exact W | now rewrite EP]).
  destruct (ge_storage_ok q W Ei) as (Sx & Sy & Vx & Vy & _). destruct (ge_storage_bytes_ok _ Sx Sy) as (Lb & Bb & E).
  split; [exact Lb |]. split; [exact Bb |]. split; [exact S |]. rewrite E. exists (fv (ge_x q)), (fv (ge_y q)). split; [| now split].
  rewrite <- EP. unfold ge_pt. now rewrite Ei.
Qed.

(** A cleared key is reported. *)
Lemma pubkey_load_zero ctx : exists q, secp256k1_pubkey_load ctx (zeros 64) =
  let! _ := secp256k1_callback_call (illegal_callback ctx) "!secp256k1_fe_is_zero(&ge->x)" in ret (q, 0).
Proof.
  unfold secp256k1_pubkey_load, ARG_CHECK. rewrite sizeof_ge_storage_ok. cbn [Z.eqb Pos.eqb].
  destruct (ge_storage_of_bytes_ok (zeros 64) eq_refl) as [Sx _]; [apply Forall_forall; intros x Hx; apply repeat_spec in Hx; lia |].
  destruct (from_storage_ok _ Sx) as (_ & Fx & Nx). pose proof ge_storage_zero as Z0. fold (zeros 64) in Z0. rewrite Z0 in Fx, Nx.
  exists (secp256k1_ge_from_storage (ge_storage_of_bytes (zeros 64))). unfold secp256k1_ge_from_storage. cbn [ge_x].
  rewrite is_zero_ok, Fx by (apply Nx; reflexivity). reflexivity.
Qed.

Lemma pubkey_parse_api ctx mem pub : limbs_lt 8 pub ->
  (exists pk X Y, secp256k1_ec_pubkey_parse ctx (Some mem) (Some pub) = ret (1, Some pk) /\ pubkey_rep pk (Aff X Y) /\ pub_encodes pub X Y) \/
  (secp256k1_ec_pubkey_parse ctx (Some mem) (Some pub) = ret (0, Some (zeros 64)) /\ forall X Y, secp (Aff X Y) -> ~ pub_encodes pub X Y).
Proof.
  intros HB. unfold secp256k1_ec_pubkey_parse. run_checks. pose proof (pubkey_parse_ok pub HB) as H.
  destruct (secp256k1_eckey_pubkey_parse pub) as [q |]; [left | now right].
  destruct H as (W & _ & X & Y & P & S & E). exists (secp256k1_pubkey_save q), X, Y. split; [reflexivity |]. split; [| exact E].
  apply pubkey_save_ok; try assumption. discriminate.
Qed.

Lemma compression_flag (c : bool) :
  (let flags := if c then SECP256K1_EC_COMPRESSED else SECP256K1_EC_UNCOMPRESSED in
  z2b (flags .& SECP256K1_FLAGS_BIT_COMPRESSION) = c /\ (flags .& SECP256K1_FLAGS_TYPE_MASK =? SECP256K1_FLAGS_TYPE_COMPRESSION) = true).
Proof. now destruct c. Qed.

(** The encoding with which a key is printed. *)
Definition pub_bytes (c : bool) (X Y : F) : list Z := if c then pub_compressed X Y else pub_uncompressed X Y.

Lemma length_pub_bytes c X Y : length (pub_bytes c X Y) = if c then 33%nat else 65%nat.
Proof.
  unfold pub_bytes, pub_compressed, pub_uncompressed. destruct c; cbn [length]; rewrite ?length_app, !length_fe_bytes; reflexivity.
Qed.

Lemma pubkey_serialize_api ctx out pk X Y (c : bool) : pubkey_rep pk (Aff X Y) -> (if c then 33 else 65) <= Z.of_nat (length out) ->
  secp256k1_ec_pubkey_serialize ctx (Some out) (Some (Z.of_nat (length out))) (Some pk)
    (if c then SECP256K1_EC_COMPRESSED else SECP256K1_EC_UNCOMPRESSED) =
  ret (1, Some (if c then 33 else 65), Some (pub_bytes c X Y ++ zeros (length out - length (pub_bytes c X Y)))).
Proof.
  intros HR Hl. destruct (compression_flag c) as [Ec Et]. cbv zeta in Ec, Et. set (flags := if c then SECP256K1_EC_COMPRESSED else _) in *.
  unfold secp256k1_ec_pubkey_serialize. rewrite Ec. run_checks. replace (_ <=? _) with true by (destruct c; lia). rewrite Et. run_checks.
  destruct (pubkey_load_ok ctx pk _ HR) as (q & -> & W & P & _). run_checks. cbn [z2b Z.eqb negb].
  pose proof (pubkey_serialize_ok q (flags .& SECP256K1_FLAGS_BIT_COMPRESSION) X Y W P) as H.
  destruct (secp256k1_eckey_pubkey_serialize _ _) as [q' o]. destruct H as (_ & _ & ->). cbn [snd]. rewrite Ec, Nat2Z.id.
  fold (pub_bytes c X Y). rewrite (length_pub_bytes c X Y). unfold ret. do 3 f_equal. now destruct c.
Qed.

(** * Secret keys *)

(** A secret key: 32 bytes of a number from 1 to the order less one. *)
Definition seckey_ok (k : list Z) : Prop := bytes32 k /\ 0 < be_val k < secp_n.

Lemma set_seckey k : bytes32 k -> let '(sec, overflow) := sc_set_b32 k in
  sok sec /\ sv sec = be_val k mod secp_n /\
  negb (z2b overflow) && negb (z2b (sc_is_zero sec)) = (0 <? be_val k) && (be_val k <? secp_n) /\ z2b overflow = (secp_n <=? be_val k).
Proof.
  intros [Lk Bk]. destruct (sc_set_b32_ok k Bk Lk) as (Hs & Vs & Eo). destruct (sc_set_b32 k) as [sec ov]. cbn [fst snd] in *. subst ov.
  split; [exact Hs |]. split; [exact Vs |]. rewrite sc_is_zero_ok, !b2z_b2z, Vs by exact Hs. split; [| reflexivity].
  pose proof (be_val_bound k Bk) as [B _]. destruct (Z.leb_spec secp_n (be_val k)) as [H | H]; cbn [negb andb].
  - replace (be_val k <? secp_n) with false by lia. now rewrite andb_false_r.
  - replace (be_val k <? secp_n) with true by lia. rewrite Z.mod_small, andb_true_r by lia.
    destruct (Z.eqb_spec (be_val k) 0); destruct (Z.ltb_spec 0 (be_val k)); cbn [negb]; lia || reflexivity.
Qed.

Lemma seckey_scalar k : seckey_ok k -> exists sec, sc_set_b32 k = (sec, 0) /\ sok sec /\ sv sec = be_val k.
Proof.
  intros [Hk R]. pose proof (set_seckey k Hk) as H. destruct Hk as [Lk Bk]. destruct (sc_set_b32_ok k Bk Lk) as (_ & _ & Eo).
  destruct (sc_set_b32 k) as [sec ov]. cbn [fst snd] in Eo. destruct H as (Hs & Vs & _). exists sec.
  rewrite Z.mod_small in Vs by lia. replace (secp_n <=? be_val k) with false in Eo by lia. now subst ov.
Qed.

Lemma set_scalar_bytes a : sok a -> sc_set_b32 (be_bytes 32 (sv a)) = (a, 0).
Proof.
  intros Ha. pose proof (sv_range a Ha) as R. assert (Hn : secp_n < 2 ^ 256) by reflexivity.
  destruct (sc_set_b32_ok (be_bytes 32 (sv a)) (limbs_lt_be_bytes _ _) (length_be_bytes _ _)) as (Hs & Vs & Eo).
  rewrite be_val_bytes, (Z.mod_small (sv a)) in Vs, Eo by (change (8 * Z.of_nat 32) with 256; lia). rewrite Z.mod_small in Vs by lia.
  destruct (sc_set_b32 (be_bytes 32 (sv a))) as [b ov]. cbn [fst snd] in *. replace (secp_n <=? sv a) with false in Eo by lia. subst ov.
  f_equal. now apply sv_inj.
Qed.

Lemma b32_scalar k : bytes32 k -> sok (fst (sc_set_b32 k)) /\ sv (fst (sc_set_b32 k)) = be_val k mod secp_n.
Proof. intros [Lk Bk]. destruct (sc_set_b32_ok k Bk Lk) as (Hs & Vs & _). now split. Qed.

Lemma pubkey_create_ok ctx mem k : ctx_sign ctx -> bytes32 k ->
  (seckey_ok k /\ exists pk, secp256k1_ec_pubkey_create ctx (Some mem) (Some k) = ret (1, Some pk) /\ pubkey_rep pk (smul (be_val k) G)) \/
  (~ seckey_ok k /\ secp256k1_ec_pubkey_create ctx (Some mem) (Some k) = ret (0, Some (zeros 64))).
Proof.
  intros HS Hk. unfold secp256k1_ec_pubkey_create. rewrite (ctx_sign_built _ HS). run_checks.
  pose proof (set_seckey k Hk) as H. destruct (sc_set_b32 k) as [sec ov]. destruct H as (Hs & Vs & Ec & _).
  rewrite b2z_land, b2z_b2z, Ec. clear Ec. destruct (_ && _) eqn:E; cbn [b2z].
  - left. apply andb_true_iff in E as [E1 E2]. assert (HK : seckey_ok k) by (split; [exact Hk | lia]). split; [exact HK |].
    destruct (ecmult_gen_ok _ sec HS Hs) as (pj & -> & W & P). run_checks. destruct (ge_set_gej_ok pj W) as (Wq & Pq & _).
    eexists. split; [reflexivity |]. rewrite Vs, Z.mod_small in P by lia. apply pubkey_save_ok; [exact Wq | now rewrite Pq | apply G_multiple |].
    apply small_multiple_finite; [exact G_on_curve | discriminate | exact G_order | lia].
  - right. split; [| reflexivity]. intros [_ R]. lia.
Qed.

Lemma seckey_verify_ok ctx k : bytes32 k -> exists b : bool, secp256k1_ec_seckey_verify ctx (Some k) = ret (b2z b) /\ (b = true <-> seckey_ok k).
Proof.
  intros Hk. unfold secp256k1_ec_seckey_verify. run_checks. pose proof (set_seckey k Hk) as H. destruct (sc_set_b32 k) as [sec ov].
  destruct H as (_ & _ & -> & _). eexists. split; [reflexivity |]. unfold seckey_ok. rewrite andb_true_iff, !Z.ltb_lt. tauto.
Qed.
End Spec.
