(* ===== verification/ApiSign.v ===== *)
(** Signatures in the public interface: signing, verification, normalisation
    and the encodings. *)

From Stdlib Require Import String ZArith Lia List Bool Zmod Field.
From S2P Require Import Prelude Limbs Primes Fp Curve CurveGroup FieldSpec FieldGen.
From S2P Require Import Group GroupSpec GroupOps GOrder Cofactor ScalarSpec ScalarGen Hash HashSpec HashThm.
From S2P Require Import Ecmult EcmultTable EcmultSpec EcmultGen EcmultGenSpec Ecdsa EcdsaDer EcdsaSpec EckeySpec.
From S2P Require Import Api Secp256k1 ApiSpec.
Import ListNotations.
Open Scope Z_scope.

Section Spec.
Context {I : FieldImpl} {L : FieldLaws I} {J : ScalarImpl} {M : ScalarLaws J} {N : MemImpl I J} {NL : MemLaws L M N}.

Lemma sig_load_save r s : sok r -> sok s -> secp256k1_ecdsa_signature_load (secp256k1_ecdsa_signature_save r s) = (r, s).
Proof.
  intros Hr Hs. unfold secp256k1_ecdsa_signature_load, secp256k1_ecdsa_signature_save. rewrite sizeof_scalar_ok. cbn [Z.eqb Pos.eqb].
  destruct (scalar_bytes_ok r Hr) as (Lr & _ & Er). destruct (scalar_bytes_ok s Hs) as (_ & _ & Es).
  rewrite firstn_app, Lr, Nat.sub_diag, firstn_O, app_nil_r, (firstn_all2 (scalar_bytes r)), Er by lia.
  rewrite skipn_app, Lr, Nat.sub_diag, (skipn_all2 (scalar_bytes r)) by lia. cbn [app skipn]. now rewrite Es.
Qed.

Lemma verify_api ctx r s msg pk P : ctx_verify ctx -> sok r -> sok s -> bytes32 msg -> pubkey_rep pk P ->
  exists b : bool, secp256k1_ecdsa_verify ctx (Some (secp256k1_ecdsa_signature_save r s)) (Some msg) (Some pk) = ret (b2z b) /\
  (b = true <-> ecdsa_valid P (be_val msg mod secp_n) (sv r) (sv s) /\ sv s <= secp_n / 2).
Proof.
  intros (t & Et & Ht) Hr Hs Hm HP. unfold secp256k1_ecdsa_verify. rewrite Et. run_checks. rewrite sig_load_save by assumption.
  destruct (b32_scalar msg Hm) as [Hsm Vm]. rewrite sc_is_high_ok, b2z_b2z by exact Hs.
  destruct (Z.ltb_spec (secp_n / 2) (sv s)) as [Hi | Lo]; [exists false; split; [reflexivity |]; split; [discriminate | lia] |].
  destruct (pubkey_load_ok ctx pk P HP) as (q & -> & W & Pq & _ & NP). run_checks. cbn [z2b Z.eqb negb]. rewrite <- Pq, <- Vm in *.
  destruct (sig_verify_ok t r s q _ Ht Hr Hs Hsm W) as [H R]; [apply HP | exact NP |].
  eexists. split; [reflexivity |]. rewrite <- H. unfold Rng in R.
  assert (E : forall x, 0 <= x <= 1 -> (z2b x = true <-> x = 1)) by (intros x Hx; unfold z2b; destruct (Z.eqb_spec x 0); cbn; split; (lia || discriminate)).
  rewrite (E _ R). tauto.
Qed.

(** * Signing *)

(** What a nonce function promises: it returns, unless [counter] is the largest
    [unsigned int], and when it succeeds it fills the buffer. *)
Definition nonce_fills (f : secp256k1_nonce_function) (msg key : list Z) (data : option (list Z)) : Prop :=
  forall counter, match f msg key None data counter with
  | Some (rt, out) => z2b rt = true -> bytes32 out
  | None => counter = UINT_MAX
  end.

Section Loop.
Variables (gen : ecmult_gen_context) (f : secp256k1_nonce_function) (msg32 seckey : list Z) (data : option (list Z)) (recid : option Z).
Variables (sec msg : scalar).
Hypothesis HG : gen_ctx_ok gen.
Hypothesis HF : nonce_fills f msg32 seckey data.
Hypothesis Hsec : sok sec.
Hypothesis Hmsg : sok msg.

Lemma sign_loop_ok fuel : forall count,
  sign_loop fuel gen f msg32 seckey data recid sec msg count = NoResult \/
  (exists rt, sign_loop fuel gen f msg32 seckey data recid sec msg count = ret (rt, None) /\ z2b rt = false) \/
  (exists rt o k, sign_loop fuel gen f msg32 seckey data recid sec msg count = ret (rt, Some o) /\ z2b rt = true /\
   signed (sres sec) (sres msg) k o /\ (sign_recid o = None <-> recid = None)).
Proof.
  induction fuel as [| fuel IH]; intros count; cbn [sign_loop]; [now left |].
  pose proof (HF count) as H. destruct (f msg32 seckey None data count) as [[rt out] |]; [| now left]. cbn [of_option]. rewrite rbind_ret.
  destruct (z2b rt) eqn:Ert; cbn [negb]; [specialize (H eq_refl) | right; left; now exists rt].
  pose proof (set_seckey out H) as HS. destruct (sc_set_b32 out) as [non ov]. destruct HS as (Hn & Vn & -> & _).
  destruct (_ && _) eqn:E; [| apply IH]. apply andb_true_iff in E as [E1 E2]. rewrite Z.mod_small in Vn by lia.
  destruct (sig_sign_ok gen sec msg non recid HG Hsec Hmsg Hn ltac:(lia)) as (o & -> & Hrec & _ & [[Er0 _] | [Er0 Ho]]); run_checks; rewrite Er0; cbn [z2b Z.eqb negb].
  - specialize (IH (u32 (count + 1))). destruct IH as [-> | [(rt' & -> & Er) | (rt' & o' & k & -> & Er & Hs)]]; run_checks;
      [now left | right; left; now exists rt' | right; right; now exists rt', o', k].
  - right. right. exists rt, o, (sres non). auto.
Qed.

(** An attempt ends the loop when the function fails, or gives a nonce in range
    for which [s] is not zero. *)
Definition attempt_ends (count : Z) : Prop :=
  match f msg32 seckey None data count with
  | Some (rt, out) =>
      z2b rt = false \/ (0 < be_val out < secp_n /\ forall X Y, smul (be_val out) G = Aff X Y ->
        (Fn_of_Z (Zmod.to_Z X) * sres sec + sres msg <> 0)%F)
  | None => False
  end.

Lemma sign_loop_ends fuel : forall count i, 0 <= count -> count + Z.of_nat i < 2 ^ 32 -> (i < fuel)%nat -> attempt_ends (count + Z.of_nat i) ->
  sign_loop fuel gen f msg32 seckey data recid sec msg count <> NoResult.
Proof.
  induction fuel as [| fuel IH]; intros count i Hc Hb Hi HA; [lia |]. cbn [sign_loop].
  pose proof (HF count) as H.
  assert (Next : (i <> 0)%nat -> sign_loop fuel gen f msg32 seckey data recid sec msg (u32 (count + 1)) <> NoResult).
  { intros Ni. apply (IH _ (pred i)); rewrite ?u32_id by lia; try lia. now replace (count + 1 + Z.of_nat (pred i)) with (count + Z.of_nat i) by lia. }
  unfold attempt_ends in HA. destruct (Nat.eq_dec i 0) as [-> | Ni].
  2: { clear HA. destruct (f msg32 seckey None data count) as [[rt out] |]; [| unfold UINT_MAX in H; lia]. cbn [of_option]. rewrite rbind_ret.
       destruct (z2b rt); cbn [negb]; [specialize (H eq_refl) | discriminate].
       pose proof (set_seckey out H) as HS. destruct (sc_set_b32 out) as [non ov]. destruct HS as (Hn & Vn & -> & _).
       destruct (_ && _) eqn:E; [| now apply Next]. apply andb_true_iff in E as [E1 E2]. rewrite Z.mod_small in Vn by lia.
       destruct (sig_sign_ok gen sec msg non recid HG Hsec Hmsg Hn ltac:(lia)) as (o & -> & _ & _ & [[Er0 _] | [Er0 _]]); run_checks; rewrite Er0; cbn [z2b Z.eqb negb]; [| discriminate].
       specialize (Next Ni). destruct (sign_loop fuel gen f msg32 seckey data recid sec msg (u32 (count + 1))); [discriminate .. | contradiction]. }
  rewrite Z.add_0_r in HA. destruct (f msg32 seckey None data count) as [[rt out] |]; [| contradiction]. cbn [of_option]. rewrite rbind_ret.
  destruct (z2b rt) eqn:Ert; cbn [negb]; [specialize (H eq_refl) | discriminate].
  destruct HA as [HA | (R & HA)]; [congruence |].
  pose proof (set_seckey out H) as HS. destruct (sc_set_b32 out) as [non ov]. destruct HS as (Hn & Vn & -> & _). rewrite Z.mod_small in Vn by lia.
  replace (0 <? be_val out) with true by lia. replace (be_val out <? secp_n) with true by lia. cbn [andb].
  destruct (sig_sign_ok gen sec msg non recid HG Hsec Hmsg Hn ltac:(lia)) as (o & -> & _ & (X & Y & EP & VX) & [[Er0 E0] | [Er0 _]]); run_checks; rewrite Er0; cbn [z2b Z.eqb negb]; [| discriminate].
  exfalso. rewrite <- smF_sres, Vn in EP by (assumption || exact G_on_curve). apply (HA X Y EP). rewrite <- E0. do 2 f_equal.
  unfold sres. rewrite VX. symmetry. apply Zmod.of_Z_mod.
Qed.
End Loop.

Definition nonce_of (f : option secp256k1_nonce_function) : secp256k1_nonce_function :=
  match f with Some f => f | None => secp256k1_nonce_function_default end.

(** Signing with a valid key: no result only if the fuel runs out, zeros when
    the nonce function fails, and otherwise a signature. *)
Lemma sign_api fuel ctx mem msg key f data : ctx_sign ctx -> bytes32 msg -> seckey_ok key -> nonce_fills (nonce_of f) msg key data ->
  let r := secp256k1_ecdsa_sign fuel ctx (Some mem) (Some msg) (Some key) f data in
  r = NoResult \/ (exists rt, r = ret (rt, Some (zeros 64)) /\ z2b rt = false) \/
  (exists rt o k, r = ret (rt, Some (secp256k1_ecdsa_signature_save (sign_r o) (sign_s o))) /\ z2b rt = true /\
   signed (Fn_of_Z (be_val key)) (Fn_of_Z (be_val msg)) k o).
Proof.
  intros HS Hm Hk HF. cbv zeta. unfold secp256k1_ecdsa_sign. rewrite (ctx_sign_built _ HS). run_checks. fold (nonce_of f).
  destruct (seckey_scalar key Hk) as (sec & -> & Hs & Vs). destruct Hk as [_ R]. rewrite sc_is_zero_ok, b2z_b2z, Vs by exact Hs. cbn [z2b Z.eqb negb andb].
  destruct (Z.eqb_spec (be_val key) 0); [lia |]. cbn [negb]. destruct (b32_scalar msg Hm) as [Hsm Vm].
  assert (Em : sres (fst (sc_set_b32 msg)) = Fn_of_Z (be_val msg)) by (unfold sres; rewrite Vm; apply Zmod.of_Z_mod).
  destruct (sign_loop_ok (ecmult_gen_ctx ctx) (nonce_of f) msg key data None sec _ HS HF Hs Hsm fuel 0) as [-> | [(rt & -> & Er) | (rt & o & k & -> & Er & Ho & _)]];
    run_checks; [now left | right; left; now exists rt |]. right. right. exists rt, o, k. rewrite Em in Ho. unfold sres at 1 in Ho. rewrite Vs in Ho. auto.
Qed.

(** What was signed verifies for the key, unless [r] is zero. *)
Lemma signed_verifies ctx msg key k o pk : ctx_verify ctx -> bytes32 msg -> signed (Fn_of_Z (be_val key)) (Fn_of_Z (be_val msg)) k o ->
  pubkey_rep pk (smul (be_val key) G) -> sv (sign_r o) <> 0 ->
  secp256k1_ecdsa_verify ctx (Some (secp256k1_ecdsa_signature_save (sign_r o) (sign_s o))) (Some msg) (Some pk) = ret 1.
Proof.
  intros HV Hm Ho HP Nr. pose proof Ho as (Hr & Hs & _ & _ & _ & _ & _ & _ & Rs & _).
  destruct (verify_api ctx (sign_r o) (sign_s o) msg pk _ HV Hr Hs Hm HP) as (b & -> & Hb).
  replace b with true; [reflexivity |]. symmetry. apply Hb. split; [| lia]. rewrite <- (smF_of_Z _ G G_on_curve).
  destruct (b32_scalar msg Hm) as [Hsm Vm]. rewrite <- Vm. apply (signed_valid _ _ k); [| exact Hsm | exact Nr].
  assert (Em : sres (fst (sc_set_b32 msg)) = Fn_of_Z (be_val msg)) by (unfold sres; rewrite Vm; apply Zmod.of_Z_mod). now rewrite Em.
Qed.

(** Signing returns when an attempt within the fuel ends. *)
Lemma sign_ends fuel ctx mem msg key f data i : ctx_sign ctx -> bytes32 msg -> seckey_ok key -> nonce_fills (nonce_of f) msg key data ->
  (i < fuel)%nat -> Z.of_nat i < 2 ^ 32 ->
  attempt_ends (nonce_of f) msg key data (fst (sc_set_b32 key)) (fst (sc_set_b32 msg)) (Z.of_nat i) ->
  secp256k1_ecdsa_sign fuel ctx (Some mem) (Some msg) (Some key) f data <> NoResult.
Proof.
  intros HS Hm HK HF Hi Hb HA. unfold secp256k1_ecdsa_sign. rewrite (ctx_sign_built _ HS). run_checks. fold (nonce_of f).
  destruct (b32_scalar key (proj1 HK)) as [Hk _]. destruct (b32_scalar msg Hm) as [Hsm _]. destruct (sc_set_b32 key) as [sec ov]. cbn [fst] in HA, Hk.
  destruct (_ && _); [| discriminate].
  pose proof (sign_loop_ends (ecmult_gen_ctx ctx) (nonce_of f) msg key data None sec _ HS HF Hk Hsm fuel 0 i ltac:(lia) ltac:(lia) Hi HA) as NR.
  destruct (sign_loop _ _ _ _ _ _ _ _ _ _) as [l [rt o] | l |]; [| discriminate | contradiction]. destruct o; discriminate.
Qed.

Lemma sign_invalid_key fuel ctx mem msg key f data : ctx_sign ctx -> bytes32 key -> ~ seckey_ok key ->
  secp256k1_ecdsa_sign fuel ctx (Some mem) (Some msg) (Some key) f data = ret (0, Some (zeros 64)).
Proof.
  intros HS Hk NK. unfold secp256k1_ecdsa_sign. rewrite (ctx_sign_built _ HS). run_checks. pose proof (set_seckey key Hk) as H.
  destruct (sc_set_b32 key) as [sec ov]. destruct H as (_ & _ & -> & _). destruct (_ && _) eqn:E; [| reflexivity].
  exfalso. apply NK. apply andb_true_iff in E. split; [exact Hk | lia].
Qed.

(** * The default nonce function *)

Lemma nonce_generate_ok k : forall rng out, rfc_ok rng -> (k = O -> bytes32 out) ->
  exists nonce, nonce_generate_loop k rng out = Some nonce /\ bytes32 nonce.
Proof.
  induction k as [| k IH]; intros rng out Hr Ho; cbn [nonce_generate_loop]; [exists out; split; [reflexivity | now apply Ho] |].
  destruct (rfc_draw rng Hr) as (rng' & out' & -> & Hr' & Bo). cbn [bind]. now apply IH.
Qed.

Lemma nonce_default_fills msg key data : bytes32 msg -> bytes32 key -> match data with Some d => bytes32 d | None => True end ->
  nonce_fills secp256k1_nonce_function_default msg key data.
Proof.
  intros [Lm Bm] [Lk Bk] Hd counter. unfold secp256k1_nonce_function_default, nonce_function_rfc6979. cbv zeta.
  set (kd := match data with Some d => _ | None => _ end). destruct (Z.eqb_spec counter UINT_MAX) as [-> | _]; [reflexivity |].
  destruct (nonce_generate_ok (S (Z.to_nat counter)) (secp256k1_rfc6979_hmac_sha256_initialize kd) []) as (nonce & -> & Bn); [| discriminate | intros _; exact Bn].
  assert (H : limbs_lt 8 kd /\ (length kd <= 96)%nat).
  { unfold kd. assert (B : limbs_lt 8 (key ++ msg)) by (apply Forall_app; now split). destruct data as [d |]; [| split; [exact B | rewrite length_app; lia]].
    destruct Hd as [Ld Bd]. split; [apply Forall_app; now split | rewrite !length_app; lia]. }
  apply (rfc6979_initialize_ok kd (proj1 H)). lia.
Qed.

(** * Encodings of signatures *)

(** The default nonce function does not fail, so that signing with it returns 1. *)
Lemma sign_loop_default fuel gen msg32 seckey data recid sec msg : forall count rt o,
  sign_loop fuel gen secp256k1_nonce_function_default msg32 seckey data recid sec msg count = ret (rt, o) -> rt = 1 /\ o <> None.
Proof.
  induction fuel as [| fuel IH]; intros count rt o; [discriminate |]. cbn [sign_loop].
  unfold secp256k1_nonce_function_default at 1, nonce_function_rfc6979. cbv zeta. destruct (if count =? UINT_MAX then _ else _) as [nonce |]; [| discriminate].
  cbn [bind of_option]. rewrite rbind_ret. cbn [z2b Z.eqb negb].
  destruct (sc_set_b32 _) as [non ov]. destruct (_ && _); [| apply IH].
  destruct (secp256k1_ecdsa_sig_sign _ _ _ _ _) as [x |]; [| discriminate]. run_checks. destruct (z2b (sign_ret x)).
  - intros H. injection H as <- <-. split; [reflexivity | discriminate].
  - destruct (sign_loop _ _ _ _ _ _ _ _ _ _) eqn:E; intros H; try discriminate. apply (IH (u32 (count + 1))). now rewrite E.
Qed.

Lemma sign_default fuel ctx mem msg key data : ctx_sign ctx -> bytes32 msg -> seckey_ok key ->
  match data with Some d => bytes32 d | None => True end ->
  let r := secp256k1_ecdsa_sign fuel ctx (Some mem) (Some msg) (Some key) None data in
  r = NoResult \/ exists o k, r = ret (1, Some (secp256k1_ecdsa_signature_save (sign_r o) (sign_s o))) /\
    signed (Fn_of_Z (be_val key)) (Fn_of_Z (be_val msg)) k o.
Proof.
  intros HS Hm Hk Hd. cbv zeta. pose proof (nonce_default_fills msg key data Hm (proj1 Hk) Hd) as HF.
  destruct (sign_api fuel ctx mem msg key None data HS Hm Hk HF) as [E | H]; [now left | right].
  assert (D : forall rt sig, secp256k1_ecdsa_sign fuel ctx (Some mem) (Some msg) (Some key) None data = ret (rt, Some sig) -> rt = 1).
  { intros rt sig. unfold secp256k1_ecdsa_sign. rewrite (ctx_sign_built _ HS). run_checks. destruct (seckey_scalar key Hk) as (sec & -> & Hs & Vs).
    destruct Hk as [_ R]. rewrite sc_is_zero_ok, b2z_b2z, Vs by exact Hs. cbn [z2b Z.eqb negb andb]. destruct (Z.eqb_spec (be_val key) 0); [lia |]. cbn [negb].
    destruct (sign_loop _ _ _ _ _ _ _ _ _ _) as [l [rt' o] | |] eqn:EL; cbn [rbind]; try discriminate. intros H1.
    assert (El : l = []) by (destruct o, l; (reflexivity || discriminate H1)). subst l. apply sign_loop_default in EL. destruct EL as [-> _].
    destruct o; cbn in H1; now injection H1. }
  destruct H as [(rt & E & Er) | (rt & o & k & E & _ & Ho)]; pose proof (D _ _ E); subst rt; [discriminate Er |]. now exists o, k.
Qed.

Lemma der_api ctx mem out r s : sok r -> sok s -> (72 <= length out)%nat ->
  exists e, secp256k1_ecdsa_signature_serialize_der ctx (Some out) (Some (Z.of_nat (length out))) (Some (secp256k1_ecdsa_signature_save r s)) =
    ret (1, Some (Z.of_nat (length e)), Some (e ++ skipn (length e) out)) /\ (8 <= length e <= 72)%nat /\
  secp256k1_ecdsa_signature_parse_der ctx (Some mem) (Some e) = ret (1, Some (secp256k1_ecdsa_signature_save r s)).
Proof.
  intros Hr Hs Hl. unfold secp256k1_ecdsa_signature_serialize_der, secp256k1_ecdsa_signature_parse_der. run_checks. rewrite sig_load_save by assumption.
  destruct (sig_serialize_ok (Z.of_nat (length out)) r s Hr Hs) as [E Le]. rewrite E. clear E.
  set (e := der_sig (der_nat (sv r)) (der_nat (sv s))) in *. exists e. destruct (Z.ltb_spec (Z.of_nat (length out)) (Z.of_nat (length e))); [lia |].
  split; [reflexivity |]. split; [exact Le |]. destruct (strip_scalar r Hr) as (_ & Br & Mr & _). destruct (strip_scalar s Hs) as (_ & Bs & Ms & _).
  destruct (sig_parse_complete (der_nat (sv r)) (der_nat (sv s))) as (r' & s' & E & (Hr' & Vr) & (Hs' & Vs)); try assumption.
  - apply (limbs_lt_der_sig _ _ Br Bs). unfold e in Le. lia.
  - fold e. lia.
  - fold e in E. rewrite E. run_checks. rewrite int_val_nat in Vr, Vs by assumption.
    now rewrite (sv_inj r' r Hr' Hr Vr), (sv_inj s' s Hs' Hs Vs).
Qed.

Lemma compact_api ctx mem out r s : sok r -> sok s ->
  secp256k1_ecdsa_signature_serialize_compact ctx (Some out) (Some (secp256k1_ecdsa_signature_save r s)) =
    ret (1, Some (be_bytes 32 (sv r) ++ be_bytes 32 (sv s))) /\
  secp256k1_ecdsa_signature_parse_compact ctx (Some mem) (Some (be_bytes 32 (sv r) ++ be_bytes 32 (sv s))) =
    ret (1, Some (secp256k1_ecdsa_signature_save r s)).
Proof.
  intros Hr Hs. split.
  - unfold secp256k1_ecdsa_signature_serialize_compact. run_checks. now rewrite sig_load_save, !sc_get_b32_ok by assumption.
  - unfold secp256k1_ecdsa_signature_parse_compact. run_checks.
    rewrite firstn_app, skipn_app, length_be_bytes, Nat.sub_diag, firstn_O, app_nil_r, firstn_all2, skipn_all2 by (rewrite length_be_bytes; lia).
    cbn [skipn app]. now rewrite (set_scalar_bytes r Hr), (set_scalar_bytes s Hs).
Qed.

Lemma normalize_api ctx mem r s : sok r -> sok s -> exists s' b,
  secp256k1_ecdsa_signature_normalize ctx (Some mem) (Some (secp256k1_ecdsa_signature_save r s)) =
    ret (b2z b, Some (secp256k1_ecdsa_signature_save r s')) /\
  sok s' /\ sv s' <= secp_n / 2 /\ (b = true <-> secp_n / 2 < sv s) /\ sres s' = (if b then - sres s else sres s)%F.
Proof.
  intros Hr Hs. unfold secp256k1_ecdsa_signature_normalize. run_checks. rewrite sig_load_save, sc_is_high_ok, b2z_b2z by assumption.
  destruct (Z.ltb_spec (secp_n / 2) (sv s)) as [H | H].
  - exists (sc_negate s), true. destruct (sres_negate s Hs) as [Hn En]. pose proof (sv_opp s Hs H). repeat split; auto; lia.
  - exists s, false. repeat split; auto; lia || discriminate.
Qed.
End Spec.
