(* ===== verification/ApiKeys.v ===== *)
(** Keys in the public interface: tweaks, sums, Diffie-Hellman and recovery. *)

From Stdlib Require Import String ZArith Lia List Bool Zmod Field.
From S2P Require Import Prelude Limbs Primes Fp Curve CurveGroup FieldSpec FieldGen.
From S2P Require Import Group GroupSpec GroupOps GOrder Cofactor ScalarSpec ScalarGen Hash HashSpec HashThm.
From S2P Require Import Ecmult EcmultTable EcmultSpec EcmultGen EcmultGenSpec EcmultConst EcmultConstSpec Ecdsa EcdsaDer EcdsaSpec Eckey EckeySpec.
From S2P Require Import Recovery Api Secp256k1 Modules ApiSpec ApiSign.
Import ListNotations.
Open Scope Z_scope.

Section Spec.
Context {I : FieldImpl} {L : FieldLaws I} {J : ScalarImpl} {M : ScalarLaws J} {N : MemImpl I J} {NL : MemLaws L M N}.

(** * Tweaks *)

Lemma smF_be k P : secp P -> smF (Fn_of_Z (be_val k)) P = smul (be_val k) P.
Proof. apply smF_of_Z. Qed.

(** The bytes of a scalar as a secret key. *)
Lemma scalar_seckey a : sok a -> sv a <> 0 -> seckey_ok (be_bytes 32 (sv a)) /\ be_val (be_bytes 32 (sv a)) = sv a.
Proof.
  intros Ha Na. pose proof (sv_range a Ha) as R. assert (Hn : secp_n < 2 ^ 256) by reflexivity.
  assert (E : be_val (be_bytes 32 (sv a)) = sv a) by (rewrite be_val_bytes; apply Z.mod_small; change (8 * Z.of_nat 32) with 256; lia).
  split; [| exact E]. split; [split; [apply length_be_bytes | apply limbs_lt_be_bytes] | lia].
Qed.

(** The tweak as a scalar, when it is below the order. *)
Lemma tweak_scalar t : bytes32 t -> exists a ov, sc_set_b32 t = (a, ov) /\ sok a /\ sres a = Fn_of_Z (be_val t) /\
  z2b ov = (secp_n <=? be_val t) /\ (be_val t < secp_n -> sv a = be_val t).
Proof.
  intros Ht. pose proof (set_seckey t Ht) as H. destruct (sc_set_b32 t) as [a ov]. destruct H as (Ha & Va & _ & Eo). exists a, ov.
  split; [reflexivity |]. split; [exact Ha |]. split; [unfold sres; rewrite Va; apply Zmod.of_Z_mod |]. split; [exact Eo |].
  intros H. rewrite Va. apply Z.mod_small. destruct Ht as [_ Bt]. pose proof (be_val_bound t Bt). lia.
Qed.

Lemma multiple_zero a : sok a -> smF (sres a) G = Inf <-> sv a = 0.
Proof.
  intros Ha. rewrite <- (sres_zero a Ha). split; intros E; [| rewrite E; apply smF_0].
  destruct (Zmod.eqb (sres a) 0%F) eqn:D; [now apply Zmod.eqb_eq in D |]. exfalso.
  apply (smF_finite (sres a) G G_on_curve G_finite); [| exact E]. intros Z. rewrite Z, Zmod.eqb_refl in D. discriminate.
Qed.

(** Both sides of a tweak: they fail together, or the tweaked public key is the
    one of the tweaked secret key. *)
Definition tweak_agrees (R : list Z) (rs rp : result (Z * option (list Z))) (Q : point) : Prop :=
  (exists k' pk', rs = ret (1, Some k') /\ rp = ret (1, Some pk') /\ seckey_ok k' /\ pubkey_rep pk' (smul (be_val k') G) /\
   smul (be_val k') G = Q) \/
  (rs = ret (0, Some (zeros 32)) /\ rp = ret (0, Some (zeros 64)) /\ (secp_n <= be_val R \/ Q = Inf)).

Lemma tweak_result a q : sok a -> sv a <> 0 -> ge_wf q -> ge_pt q = smF (sres a) G ->
  seckey_ok (sc_get_b32 a) /\ pubkey_rep (secp256k1_pubkey_save q) (smul (be_val (sc_get_b32 a)) G) /\ smul (be_val (sc_get_b32 a)) G = smF (sres a) G.
Proof.
  intros Ha Na W P. destruct (scalar_seckey a Ha Na) as [HK EK]. rewrite sc_get_b32_ok, EK by exact Ha.
  rewrite (smF_sres a G Ha G_on_curve). split; [exact HK |]. split; [| reflexivity].
  apply pubkey_save_ok; [exact W | exact P | apply smF_secp, G_on_curve |]. now rewrite multiple_zero.
Qed.

Lemma tweak_add_api ctx key pk tweak : ctx_verify ctx -> seckey_ok key -> bytes32 tweak -> pubkey_rep pk (smul (be_val key) G) ->
  tweak_agrees tweak (secp256k1_ec_privkey_tweak_add ctx (Some key) (Some tweak)) (secp256k1_ec_pubkey_tweak_add ctx (Some pk) (Some tweak))
    (smul (be_val key + be_val tweak) G).
Proof.
  intros (t & Et & Ht) HK HT HP. unfold secp256k1_ec_privkey_tweak_add, secp256k1_ec_pubkey_tweak_add. rewrite Et. run_checks.
  destruct (tweak_scalar tweak HT) as (a & ov & -> & Ha & Ea & -> & Va). destruct (seckey_scalar key HK) as (sec & -> & Hs & Vs). cbn [fst].
  destruct (Z.leb_spec secp_n (be_val tweak)) as [Ho | Ho]; [right; auto |].
  pose proof (privkey_tweak_add_ok sec a Hs Ha) as Hpriv. destruct (secp256k1_eckey_privkey_tweak_add sec a) as [k' rt]. destruct Hpriv as (Hk' & Ek & ->).
  destruct (pubkey_load_ok ctx pk _ HP) as (q & -> & W & Pq & _ & NP). run_checks. cbn [z2b Z.eqb negb].
  assert (Sq : secp (ge_pt q)) by (rewrite Pq; apply HP). rewrite <- Pq in NP.
  pose proof (pubkey_tweak_add_ok t Ht q a W Sq NP Ha) as Hpub. destruct (secp256k1_eckey_pubkey_tweak_add t q a) as [q' rt]. cbv zeta in Hpub.
  assert (EQ : padd (ge_pt q) (smF (sres a) G) = smF (sres k') G).
  { rewrite Pq, Ek, smF_add by exact G_on_curve. f_equal. rewrite <- (smF_sres sec G Hs G_on_curve). now rewrite Vs. }
  assert (EK : smul (be_val key + be_val tweak) G = smF (sres k') G).
  { rewrite Ek, Ea. unfold sres. rewrite Vs, <- smF_of_Z by exact G_on_curve. f_equal. apply Zmod.of_Z_add. }
  rewrite EQ in Hpub. rewrite EK. destruct Hpub as [(-> & NI & W' & P') | (-> & EI & _)].
  - left. rewrite multiple_zero in NI by exact Hk'. destruct (Z.eqb_spec (sv k') 0); [contradiction |]. cbn [negb b2z z2b Z.eqb].
    destruct (tweak_result k' q' Hk' NI W' P') as (H1 & H2 & H3). exists (sc_get_b32 k'), (secp256k1_pubkey_save q'). auto.
  - right. pose proof EI as Z0. rewrite multiple_zero in Z0 by exact Hk'. rewrite Z0. cbn [Z.eqb negb b2z z2b]. auto.
Qed.

Lemma tweak_mul_api ctx key pk tweak : ctx_verify ctx -> seckey_ok key -> bytes32 tweak -> pubkey_rep pk (smul (be_val key) G) ->
  tweak_agrees tweak (secp256k1_ec_privkey_tweak_mul ctx (Some key) (Some tweak)) (secp256k1_ec_pubkey_tweak_mul ctx (Some pk) (Some tweak))
    (smul (be_val key * be_val tweak) G).
Proof.
  intros (t & Et & Ht) HK HT HP. unfold secp256k1_ec_privkey_tweak_mul, secp256k1_ec_pubkey_tweak_mul. rewrite Et. run_checks.
  destruct (tweak_scalar tweak HT) as (a & ov & -> & Ha & Ea & -> & Va). destruct (seckey_scalar key HK) as (sec & -> & Hs & Vs). cbn [fst].
  destruct (Z.leb_spec secp_n (be_val tweak)) as [Ho | Ho]; [right; auto |]. specialize (Va Ho).
  pose proof (privkey_tweak_mul_ok sec a Hs Ha) as Hpriv. destruct (secp256k1_eckey_privkey_tweak_mul sec a) as [k' rt]. destruct Hpriv as (Hk' & _ & Ek & ->).
  destruct (pubkey_load_ok ctx pk _ HP) as (q & -> & W & Pq & _ & NP). run_checks. cbn [z2b Z.eqb negb].
  assert (Sq : secp (ge_pt q)) by (rewrite Pq; apply HP). rewrite <- Pq in NP.
  pose proof (pubkey_tweak_mul_ok t Ht q a W Sq NP Ha) as Hpub. destruct (secp256k1_eckey_pubkey_tweak_mul t q a) as [q' rt].
  destruct Hpub as [(-> & Na & W' & P' & NI) | (-> & Z0 & _)].
  - left. specialize (Ek Na). destruct (Z.eqb_spec (sv a) 0); [contradiction |]. cbn [negb b2z z2b Z.eqb].
    assert (EQ : ge_pt q' = smF (sres k') G).
    { rewrite P', Pq, Ek. replace (sres sec * sres a)%F with (sres a * sres sec)%F by ring. rewrite smF_mul by exact G_on_curve.
      f_equal. rewrite <- (smF_sres sec G Hs G_on_curve). now rewrite Vs. }
    assert (EK : smul (be_val key * be_val tweak) G = smF (sres k') G).
    { rewrite Ek, Ea. unfold sres. rewrite Vs, <- smF_of_Z by exact G_on_curve. f_equal. apply Zmod.of_Z_mul. }
    rewrite EQ, multiple_zero in NI by exact Hk'. rewrite EK. destruct (tweak_result k' q' Hk' NI W' EQ) as (H1 & H2 & H3).
    exists (sc_get_b32 k'), (secp256k1_pubkey_save q'). auto.
  - right. rewrite Z0. cbn [Z.eqb negb b2z z2b]. split; [reflexivity |]. split; [reflexivity |]. right. rewrite <- Va, Z0, Z.mul_0_r. reflexivity.
Qed.

(** * Sums *)

Lemma combine_loop_ok ctx pks : forall Ps Qj P, Forall2 pubkey_rep pks Ps -> gej_at Qj P ->
  exists Qj', combine_loop ctx Qj pks = ret Qj' /\ gej_at Qj' (padd P (psum Ps)).
Proof.
  induction pks as [| pk pks IH]; intros Ps Qj P HF HQ; inversion HF as [| ? P1 ? Ps' H1 H2]; subst; cbn [combine_loop psum].
  - exists Qj. split; [reflexivity |]. now rewrite padd_inf_r.
  - destruct (pubkey_load_ok ctx pk P1 H1) as (q & -> & W & Pq & Fq & _). run_checks. assert (S1 : secp P1) by apply H1.
    destruct HQ as (WQ & PQ & SP). destruct (gej_add_ge_ok curve_b Qj q WQ W Fq) as [W' P']; [now rewrite PQ | now rewrite Pq |].
    destruct (IH Ps' (secp256k1_gej_add_ge Qj q) (padd P P1) H2) as (Qj' & E & A).
    { split; [exact W' |]. split; [now rewrite P', PQ, Pq | now apply padd_on_curve]. }
    rewrite E. run_checks. exists Qj'. split; [reflexivity |]. apply (at_eq _ _ _ A).
    apply (padd_assoc curve_b curve_b_nz); try assumption. apply psum_secp. clear -H2. induction H2 as [| ? ? ? ? H]; constructor; [apply H | assumption].
Qed.

Lemma combine_api ctx mem pks Ps : Forall2 pubkey_rep pks Ps -> pks <> [] ->
  (exists pk, secp256k1_ec_pubkey_combine ctx (Some mem) (Some pks) (Z.of_nat (length pks)) = ret (1, Some pk) /\ pubkey_rep pk (psum Ps)) \/
  (secp256k1_ec_pubkey_combine ctx (Some mem) (Some pks) (Z.of_nat (length pks)) = ret (0, Some (zeros 64)) /\ psum Ps = Inf).
Proof.
  intros HF Hn. unfold secp256k1_ec_pubkey_combine. run_checks. replace (1 <=? Z.of_nat (length pks)) with true by (destruct pks as [| k pks]; [contradiction |]; symmetry; apply Z.leb_le; cbn [length]; lia).
  run_checks. rewrite Nat2Z.id, firstn_all. destruct gej_set_infinity_ok as [W0 P0].
  destruct (combine_loop_ok ctx pks Ps secp256k1_gej_set_infinity Inf HF (conj W0 (conj P0 Logic.I))) as (Qj & -> & W & P & S). run_checks.
  change (padd Inf (psum Ps)) with (psum Ps) in P, S. unfold secp256k1_gej_is_infinity. destruct (z2b (gej_infinity Qj)) eqn:E.
  - right. split; [reflexivity |]. rewrite <- P. now apply gej_pt_inf.
  - left. eexists. split; [reflexivity |]. destruct (ge_set_gej_ok Qj W) as (Wq & Pq & _). rewrite P in Pq.
    apply pubkey_save_ok; try assumption. rewrite <- P. unfold gej_pt. rewrite E. discriminate.
Qed.
End Spec.
