(* ===== verification/ApiModules.v ===== *)
(** The modules and the extension functions in the public interface:
    Diffie-Hellman, recovery, and what the embedding program calls. *)

From Stdlib Require Import String ZArith Lia List Bool Zmod Field.
From S2P Require Import Prelude Limbs Primes Fp Curve CurveGroup FieldSpec FieldGen.
From S2P Require Import Group GroupSpec GroupOps GOrder Cofactor ScalarSpec ScalarGen Hash HashSpec HashThm.
From S2P Require Import Ecmult EcmultTable EcmultSpec EcmultGen EcmultGenSpec EcmultConst EcmultConstSpec Ecdsa EcdsaDer EcdsaSpec Eckey EckeySpec.
From S2P Require Import Recovery Api Secp256k1 Modules ApiSpec ApiSign ApiKeys.
Import ListNotations.
Open Scope Z_scope.

Section Spec.
Context {I : FieldImpl} {L : FieldLaws I} {J : ScalarImpl} {M : ScalarLaws J} {N : MemImpl I J} {NL : MemLaws L M N}.

(** * Diffie-Hellman *)

Lemma multiple_point k P : secp P -> P <> Inf -> seckey_ok k -> exists X Y, smul (be_val k) P = Aff X Y.
Proof.
  intros S NP [_ R]. apply finite_aff. apply small_multiple_finite; try assumption. now apply secp_order.
Qed.

Lemma limbs_lt_fe_bytes X : limbs_lt 8 (fe_bytes X).
Proof. apply limbs_lt_be_bytes. Qed.

Lemma ecdh_hash_ok res X Y : gej_wf res -> gej_pt res = Aff X Y -> ecdh_hash res = fips_sha256 (pub_compressed X Y).
Proof.
  intros W P. unfold ecdh_hash. cbv zeta. destruct (nonce_point res X Y W P) as [-> ->]. fold (fe_bytes X).
  pose proof (parity_range Y) as PR. assert (E2 : [2 .| parity Y] = [2 + parity Y]).
  { assert (C : parity Y = 0 \/ parity Y = 1) by lia. destruct C as [-> | ->]; reflexivity. }
  rewrite E2. set (sha0 := secp256k1_sha256_initialize sha256_new).
  assert (S0 : sha_of sha0 []) by (apply sha_init_ok; [reflexivity | apply limbs_lt_repeat; lia]).
  assert (B1 : limbs_lt 8 [2 + parity Y]) by (constructor; [lia | constructor]).
  pose proof (sha_write_ok _ _ _ (sha_write_ok _ _ _ S0 B1) (limbs_lt_fe_bytes X)) as S2. set (sha2 := secp256k1_sha256_write _ _) in *. clearbody sha2. clear sha0 S0.
  cbn [app] in S2. assert (Hl : Z.of_nat (length (2 + parity Y :: fe_bytes X)) < 2 ^ 61) by (cbn [length]; rewrite length_fe_bytes; lia).
  pose proof (sha_finalize_ok _ _ S2 Hl) as F. destruct (secp256k1_sha256_finalize sha2) as [sha' out]. apply F.
Qed.

Lemma ecdh_api ctx mem pk P k : pubkey_rep pk P -> seckey_ok k ->
  exists X Y, smul (be_val k) P = Aff X Y /\ secp256k1_ecdh ctx (Some mem) (Some pk) (Some k) = ret (1, Some (fips_sha256 (pub_compressed X Y))).
Proof.
  intros HP HK. destruct (pubkey_load_ok ctx pk P HP) as (q & Eq & W & Pq & Fq & NP). assert (S : secp P) by apply HP.
  destruct (multiple_point k P S NP HK) as (X & Y & E). exists X, Y. split; [exact E |].
  unfold secp256k1_ecdh. run_checks. rewrite Eq. run_checks. destruct (seckey_scalar k HK) as (s & -> & Hs & Vs). destruct HK as [_ R].
  rewrite sc_is_zero_ok, b2z_b2z, Vs by exact Hs. cbn [z2b Z.eqb negb orb]. destruct (Z.eqb_spec (be_val k) 0); [lia |].
  rewrite <- Pq in S. destruct (ecmult_const_ok q s W Fq S Hs) as [Wr Pr]. rewrite Pq, Vs, E in Pr. now rewrite (ecdh_hash_ok _ X Y Wr Pr).
Qed.

(** * Recoverable signatures *)

Lemma recoverable_load_save r s v : sok r -> sok s -> 0 <= v < 256 ->
  secp256k1_ecdsa_recoverable_signature_load (secp256k1_ecdsa_recoverable_signature_save r s v) = (r, s, v).
Proof.
  intros Hr Hs Hv. unfold secp256k1_ecdsa_recoverable_signature_load, secp256k1_ecdsa_recoverable_signature_save. rewrite sizeof_scalar_ok. cbn [Z.eqb Pos.eqb].
  destruct (scalar_bytes_ok r Hr) as (Lr & _ & Er). destruct (scalar_bytes_ok s Hs) as (Ls & _ & Es).
  rewrite <- app_assoc. rewrite firstn_app, Lr, Nat.sub_diag, firstn_O, app_nil_r, (firstn_all2 (scalar_bytes r)), Er by lia.
  rewrite skipn_app, Lr, Nat.sub_diag, (skipn_all2 (scalar_bytes r)) by lia. change (skipn 0 (scalar_bytes s ++ [u8 v])) with (scalar_bytes s ++ [u8 v]). cbn [app].
  rewrite firstn_app, Ls, Nat.sub_diag, firstn_O, app_nil_r, (firstn_all2 (scalar_bytes s)), Es by lia.
  rewrite app_nth2, Lr by lia. rewrite app_nth2, Ls by lia. cbn [nth Nat.sub]. unfold u8. now rewrite Z.mod_small by lia.
Qed.

Lemma recover_api ctx mem r s v msg : ctx_verify ctx -> sok r -> sok s -> 0 <= v < 256 -> bytes32 msg ->
  let rec := secp256k1_ecdsa_recover ctx (Some mem) (Some (secp256k1_ecdsa_recoverable_signature_save r s v)) (Some msg) in
  (exists pk X Y, rec = ret (1, Some pk) /\ nonce_at v (sv r) X Y /\ sv r <> 0 /\ sv s <> 0 /\
   pubkey_rep pk (recovered (sres r) (sres s) (Fn_of_Z (be_val msg)) X Y)) \/
  (rec = ret (0, Some (zeros 64)) /\ (sv r = 0 \/ sv s = 0 \/
   forall X Y, nonce_at v (sv r) X Y -> recovered (sres r) (sres s) (Fn_of_Z (be_val msg)) X Y = Inf)).
Proof.
  intros (t & Et & Ht) Hr Hs Hv Hm. cbv zeta. unfold secp256k1_ecdsa_recover. rewrite Et. run_checks. rewrite recoverable_load_save by assumption.
  destruct (b32_scalar msg Hm) as [Hsm Vm]. assert (Em : sres (fst (sc_set_b32 msg)) = Fn_of_Z (be_val msg)) by (unfold sres; rewrite Vm; apply Zmod.of_Z_mod).
  pose proof (new_ge_wf 1) as WC. apply Forall_inv in WC.
  pose proof (sig_recover_ok t Ht r s secp256k1_ge_clear _ v Hr Hs Hsm WC) as H.
  destruct (secp256k1_ecdsa_sig_recover t r s secp256k1_ge_clear (fst (sc_set_b32 msg)) v) as [q rt]. rewrite Em in H.
  destruct H as [(-> & Nr & Ns & W & NI & X & Y & HN & P) | (-> & H)]; cbn [z2b Z.eqb negb]; [left | right; auto].
  exists (secp256k1_pubkey_save q), X, Y. split; [reflexivity |]. split; [exact HN |]. split; [exact Nr |]. split; [exact Ns |].
  rewrite <- P. apply pubkey_save_ok; try assumption; [reflexivity |]. rewrite P. apply padd_on_curve; apply smF_secp; [apply HN | exact G_on_curve].
Qed.

Lemma signed_recid d m k o v : signed d m k o -> sign_recid o = Some v -> 0 <= v < 4.
Proof.
  intros (_ & _ & k' & X & Y & _ & _ & _ & _ & _ & Ev) E. rewrite E in Ev. pose proof (parity_range Y). destruct (secp_n <=? Zmod.to_Z X); cbn [b2z] in Ev; lia.
Qed.

Lemma sign_recoverable_api fuel ctx mem msg key f data : ctx_sign ctx -> bytes32 msg -> seckey_ok key -> nonce_fills (nonce_of f) msg key data ->
  let r := secp256k1_ecdsa_sign_recoverable fuel ctx (Some mem) (Some msg) (Some key) f data in
  r = NoResult \/ (exists rt, r = ret (rt, Some (zeros 65)) /\ z2b rt = false) \/
  (exists rt o k v, r = ret (rt, Some (secp256k1_ecdsa_recoverable_signature_save (sign_r o) (sign_s o) v)) /\ z2b rt = true /\
   signed (Fn_of_Z (be_val key)) (Fn_of_Z (be_val msg)) k o /\ sign_recid o = Some v /\ 0 <= v < 4).
Proof.
  intros HS Hm Hk HF. cbv zeta. unfold secp256k1_ecdsa_sign_recoverable. rewrite (ctx_sign_built _ HS). run_checks. fold (nonce_of f).
  destruct (seckey_scalar key Hk) as (sec & -> & Hs & Vs). destruct Hk as [_ R]. rewrite sc_is_zero_ok, b2z_b2z, Vs by exact Hs. cbn [z2b Z.eqb negb andb].
  destruct (Z.eqb_spec (be_val key) 0); [lia |]. cbn [negb]. destruct (b32_scalar msg Hm) as [Hsm Vm].
  assert (Em : sres (fst (sc_set_b32 msg)) = Fn_of_Z (be_val msg)) by (unfold sres; rewrite Vm; apply Zmod.of_Z_mod).
  destruct (sign_loop_ok (ecmult_gen_ctx ctx) (nonce_of f) msg key data (Some 0) sec _ HS HF Hs Hsm fuel 0) as [-> | [(rt & -> & Er) | (rt & o & k & -> & Er & Ho & Hrec)]];
    run_checks; [now left | right; left; now exists rt |]. right. right. rewrite Em in Ho. unfold sres at 1 in Ho. rewrite Vs in Ho.
  destruct (sign_recid o) as [v |] eqn:Ev; [| destruct Hrec as [Hrec _]; discriminate (Hrec eq_refl)].
  exists rt, o, k, v. split; [reflexivity |]. split; [exact Er |]. split; [exact Ho |]. split; [exact Ev | exact (signed_recid _ _ _ _ _ Ho Ev)].
Qed.

Lemma sign_recoverable_ends fuel ctx mem msg key f data i : ctx_sign ctx -> bytes32 msg -> seckey_ok key -> nonce_fills (nonce_of f) msg key data ->
  (i < fuel)%nat -> Z.of_nat i < 2 ^ 32 ->
  attempt_ends (nonce_of f) msg key data (fst (sc_set_b32 key)) (fst (sc_set_b32 msg)) (Z.of_nat i) ->
  secp256k1_ecdsa_sign_recoverable fuel ctx (Some mem) (Some msg) (Some key) f data <> NoResult.
Proof.
  intros HS Hm HK HF Hi Hb HA. unfold secp256k1_ecdsa_sign_recoverable. rewrite (ctx_sign_built _ HS). run_checks. fold (nonce_of f).
  destruct (b32_scalar key (proj1 HK)) as [Hk _]. destruct (b32_scalar msg Hm) as [Hsm _]. destruct (sc_set_b32 key) as [sec ov]. cbn [fst] in HA, Hk.
  destruct (_ && _); [| discriminate].
  pose proof (sign_loop_ends (ecmult_gen_ctx ctx) (nonce_of f) msg key data (Some 0) sec _ HS HF Hk Hsm fuel 0 i ltac:(lia) ltac:(lia) Hi HA) as NR.
  destruct (sign_loop _ _ _ _ _ _ _ _ _ _) as [l [rt o] | l |]; [| discriminate | contradiction]. destruct o; discriminate.
Qed.

(** The signer's key comes back from a signature and its identifier. *)
Lemma recover_of_signed ctx mem msg key k o v : ctx_verify ctx -> bytes32 msg -> seckey_ok key ->
  signed (Fn_of_Z (be_val key)) (Fn_of_Z (be_val msg)) k o -> sign_recid o = Some v -> 0 <= v < 4 -> sv (sign_r o) <> 0 ->
  exists pk, secp256k1_ecdsa_recover ctx (Some mem) (Some (secp256k1_ecdsa_recoverable_signature_save (sign_r o) (sign_s o) v)) (Some msg) = ret (1, Some pk) /\
  pubkey_rep pk (smul (be_val key) G).
Proof.
  intros HV Hm HK Ho Ev Rv Nr. pose proof Ho as (Hr & Hs & _ & _ & _ & _ & _ & _ & Rs & _).
  destruct (recover_signed _ _ _ _ _ Ho Ev Nr) as (X & Y & HN & HQ). rewrite (smF_of_Z _ G G_on_curve) in HQ.
  destruct (recover_api ctx mem (sign_r o) (sign_s o) v msg HV Hr Hs ltac:(lia) Hm) as [(pk & X' & Y' & E & HN' & _ & _ & HP) | (_ & [Z | [Z | H]])]; [| lia | lia |].
  - exists pk. split; [exact E |]. destruct (nonce_at_unique _ _ _ _ _ _ HN HN') as [<- <-]. now rewrite <- HQ.
  - exfalso. rewrite (H X Y HN) in HQ. symmetry in HQ. revert HQ. destruct HK as [_ R].
    apply small_multiple_finite; [exact G_on_curve | discriminate | exact G_order | exact R].
Qed.

(** * The extension functions *)

Lemma ext_parse ctx mem r s v : sok r -> sok s -> 0 <= v < 4 ->
  secp256k1_ecdsa_recoverable_signature_parse_compact ctx (Some mem) (Some (be_bytes 32 (sv r) ++ be_bytes 32 (sv s) ++ [v])) v =
  ret (1, Some (secp256k1_ecdsa_recoverable_signature_save r s v)).
Proof.
  intros Hr Hs Hv. unfold secp256k1_ecdsa_recoverable_signature_parse_compact. run_checks.
  replace ((0 <=? v) && (v <=? 3)) with true by lia. run_checks.
  rewrite firstn_app, length_be_bytes, Nat.sub_diag, firstn_O, app_nil_r, firstn_all2 by (rewrite length_be_bytes; lia).
  rewrite skipn_app, length_be_bytes, Nat.sub_diag, skipn_all2 by (rewrite length_be_bytes; lia). change (skipn 0 ?l) with l. cbn [app].
  rewrite firstn_app, length_be_bytes, Nat.sub_diag, firstn_O, app_nil_r, firstn_all2 by (rewrite length_be_bytes; lia).
  now rewrite (set_scalar_bytes r Hr), (set_scalar_bytes s Hs).
Qed.

Lemma nth_recid r s v : (be_bytes 32 r ++ be_bytes 32 s ++ [v]).[64] = v.
Proof.
  rewrite app_nth2, length_be_bytes by (rewrite length_be_bytes; lia). rewrite app_nth2, length_be_bytes by (rewrite length_be_bytes; lia). reflexivity.
Qed.

Lemma zeros_nil (l : list Z) k : (k <= length l)%nat -> l ++ zeros (k - length l) = l.
Proof. intros H. replace (k - length l)%nat with 0%nat by lia. apply app_nil_r. Qed.

(** Recovery from the compact signature prints the signer's key. *)
Lemma ext_recover_api ctx out msg key k o v : ctx_verify ctx -> bytes32 msg -> seckey_ok key -> length out = 65%nat ->
  signed (Fn_of_Z (be_val key)) (Fn_of_Z (be_val msg)) k o -> sign_recid o = Some v -> 0 <= v < 4 -> sv (sign_r o) <> 0 ->
  exists X Y, smul (be_val key) G = Aff X Y /\
  secp256k1_ext_ecdsa_recover ctx out (be_bytes 32 (sv (sign_r o)) ++ be_bytes 32 (sv (sign_s o)) ++ [v]) msg = ret (1, pub_uncompressed X Y).
Proof.
  intros HV Hm HK Lo Ho Ev Rv Nr. pose proof Ho as (Hr & Hs & _).
  destruct (multiple_point key G G_on_curve ltac:(discriminate) HK) as (X & Y & EP). exists X, Y. split; [exact EP |].
  unfold secp256k1_ext_ecdsa_recover. rewrite nth_recid, ext_parse by assumption. run_checks. cbn [z2b Z.eqb negb].
  destruct (recover_of_signed ctx (zeros 64) msg key k o v HV Hm HK Ho Ev Rv Nr) as (pk & -> & HP). run_checks. cbn [z2b Z.eqb negb]. rewrite EP in HP.
  pose proof (pubkey_serialize_api ctx out pk X Y false HP ltac:(rewrite Lo; reflexivity)) as E. rewrite Lo in E. cbv iota in E.
  change (Z.of_nat 65) with 65 in E. rewrite E. run_checks. rewrite zeros_nil by (rewrite length_pub_bytes; reflexivity). reflexivity.
Qed.

(** There is nothing to recover when [r] is zero. *)
Lemma ext_recover_zero ctx out msg r s v : ctx_verify ctx -> bytes32 msg -> sok r -> sok s -> 0 <= v < 4 -> sv r = 0 ->
  secp256k1_ext_ecdsa_recover ctx out (be_bytes 32 (sv r) ++ be_bytes 32 (sv s) ++ [v]) msg = ret (0, out).
Proof.
  intros HV Hm Hr Hs Rv Zr. unfold secp256k1_ext_ecdsa_recover. rewrite nth_recid, ext_parse by assumption. run_checks. cbn [z2b Z.eqb negb].
  destruct (recover_api ctx (zeros 64) r s v msg HV Hr Hs ltac:(lia) Hm) as [(pk & X & Y & _ & _ & Nr & _) | [-> _]]; [contradiction | reflexivity].
Qed.

(** Verification of a compact signature with an encoded key. *)
Lemma ext_verify_api ctx r s msg pub : ctx_verify ctx -> sok r -> sok s -> bytes32 msg -> limbs_lt 8 pub ->
  exists b : bool, secp256k1_ext_ecdsa_verify ctx (be_bytes 32 (sv r) ++ be_bytes 32 (sv s)) msg pub = ret (b2z b) /\
  (b = true <-> exists X Y, secp (Aff X Y) /\ pub_encodes pub X Y /\
   ecdsa_valid (Aff X Y) (be_val msg mod secp_n) (sv r) (sv s) /\ sv s <= secp_n / 2).
Proof.
  intros HV Hr Hs Hm HB. unfold secp256k1_ext_ecdsa_verify. destruct (compact_api ctx (zeros 64) [] r s Hr Hs) as [_ ->]. run_checks. cbn [z2b Z.eqb negb].
  destruct (pubkey_parse_api ctx (zeros 64) pub HB) as [(pk & X & Y & -> & HP & HE) | (-> & NE)]; run_checks; cbn [z2b Z.eqb negb].
  - destruct (verify_api ctx r s msg pk _ HV Hr Hs Hm HP) as (b & -> & Hb). exists b. split; [reflexivity |]. rewrite Hb. split.
    + intros H. exists X, Y. split; [apply HP | tauto].
    + intros (X' & Y' & S' & E' & H). destruct (pub_encodes_unique pub X Y X' Y' (proj1 (proj2 (proj2 HP))) S' HE E') as [-> ->]. exact H.
  - exists false. split; [reflexivity |]. split; [discriminate |]. intros (X & Y & S & E & _). exfalso. exact (NE X Y S E).
Qed.

(** Conversion between the encodings of a key, by the size of the output. *)
Lemma reencode_api ctx out pub : limbs_lt 8 pub -> length out = 33%nat \/ length out = 65%nat ->
  (exists X Y, secp (Aff X Y) /\ pub_encodes pub X Y /\
   secp256k1_ext_reencode_pubkey ctx out pub = ret (1, pub_bytes (length out =? 33)%nat X Y)) \/
  (secp256k1_ext_reencode_pubkey ctx out pub = ret (0, out) /\ forall X Y, secp (Aff X Y) -> ~ pub_encodes pub X Y).
Proof.
  intros HB Lo. unfold secp256k1_ext_reencode_pubkey.
  destruct (pubkey_parse_api ctx (zeros 64) pub HB) as [(pk & X & Y & -> & HP & HE) | (-> & NE)]; run_checks; cbn [z2b Z.eqb negb]; [left | right; now split].
  exists X, Y. split; [apply HP |]. split; [exact HE |].
  assert (E : (Z.of_nat (length out) =? 33) = (length out =? 33)%nat) by (destruct Lo as [-> | ->]; reflexivity). rewrite E.
  rewrite (pubkey_serialize_api ctx out pk X Y (length out =? 33)%nat HP) by (destruct Lo as [-> | ->]; reflexivity). run_checks.
  rewrite zeros_nil; [reflexivity |]. rewrite length_pub_bytes. destruct Lo as [-> | ->]; reflexivity.
Qed.

(** Multiplication of an encoded point of the curve. *)
Lemma scalar_mul_api ctx X Y k : secp (Aff X Y) -> seckey_ok k ->
  exists X' Y', smul (be_val k) (Aff X Y) = Aff X' Y' /\
  secp256k1_ext_scalar_mul ctx (Some (fe_bytes X ++ fe_bytes Y)) (Some k) = ret (1, Some (fe_bytes X' ++ fe_bytes Y')).
Proof.
  intros S HK. destruct (multiple_point k (Aff X Y) S ltac:(discriminate) HK) as (X' & Y' & E). exists X', Y'. split; [exact E |].
  unfold secp256k1_ext_scalar_mul. run_checks.
  rewrite firstn_app, skipn_app, length_fe_bytes, Nat.sub_diag, firstn_O, app_nil_r, firstn_all2, skipn_all2 by (rewrite length_fe_bytes; lia).
  change (skipn 0 (fe_bytes Y)) with (fe_bytes Y). cbn [app].
  destruct (set_fe_bytes X) as [Nx Vx]. destruct (set_fe_bytes Y) as [Ny Vy].
  set (x := fst (fe_set_b32 (fe_bytes X))) in *. set (y := fst (fe_set_b32 (fe_bytes Y))) in *.
  destruct (ge_result (secp256k1_ge_set_xy x y) 1 1 X Y (conj (norm_mag _ Nx) Vx) (conj (norm_mag _ Ny) Vy) eq_refl eq_refl) as [W P].
  destruct (seckey_scalar k HK) as (s & -> & Hs & Vs). destruct HK as [_ R]. rewrite sc_is_zero_ok, b2z_b2z, Vs by exact Hs. cbn [z2b Z.eqb negb orb].
  destruct (Z.eqb_spec (be_val k) 0); [lia |]. rewrite <- P in S. destruct (ecmult_const_ok _ s W eq_refl S Hs) as [Wr Pr]. rewrite P, Vs, E in Pr.
  now rewrite (proj1 (affine_bytes _ X' Y' Wr Pr)), (proj2 (affine_bytes _ X' Y' Wr Pr)).
Qed.
End Spec.
