(* ===== verification/Scalar8x32.v ===== *)
(** The scalar of [scalar_8x32.h] and [scalar_8x32_impl.h]: eight [uint32_t]
    words, an integer below the group order (the representation the build
    selects with [USE_SCALAR_8X32]).  This file holds every operation but the
    products, which are in the file of the same name ending in [Mul]. *)

From Stdlib Require Import ZArith Lia List Bool.
From S2P Require Import Prelude Limbs.
Import ListNotations.
Open Scope Z_scope.
Open Scope c_scope.

(** [uint32_t d[8]]. *)
Definition secp256k1_scalar := list Z.

Definition SECP256K1_SCALAR_CONST (d7 d6 d5 d4 d3 d2 d1 d0 : Z) : secp256k1_scalar :=
  [d0; d1; d2; d3; d4; d5; d6; d7].

(** Limbs of the order. *)
Definition SECP256K1_N_0 : Z := 0xD0364141.
Definition SECP256K1_N_1 : Z := 0xBFD25E8C.
Definition SECP256K1_N_2 : Z := 0xAF48A03B.
Definition SECP256K1_N_3 : Z := 0xBAAEDCE6.
Definition SECP256K1_N_4 : Z := 0xFFFFFFFE.
Definition SECP256K1_N_5 : Z := 0xFFFFFFFF.
Definition SECP256K1_N_6 : Z := 0xFFFFFFFF.
Definition SECP256K1_N_7 : Z := 0xFFFFFFFF.

(** Limbs of [2^256] minus the order. *)
Definition SECP256K1_N_C_0 : Z := u32 (not32 SECP256K1_N_0 + 1).
Definition SECP256K1_N_C_1 : Z := not32 SECP256K1_N_1.
Definition SECP256K1_N_C_2 : Z := not32 SECP256K1_N_2.
Definition SECP256K1_N_C_3 : Z := not32 SECP256K1_N_3.
Definition SECP256K1_N_C_4 : Z := 1.

(** Limbs of half the order. *)
Definition SECP256K1_N_H_0 : Z := 0x681B20A0.
Definition SECP256K1_N_H_1 : Z := 0xDFE92F46.
Definition SECP256K1_N_H_2 : Z := 0x57A4501D.
Definition SECP256K1_N_H_3 : Z := 0x5D576E73.
Definition SECP256K1_N_H_4 : Z := 0xFFFFFFFF.
Definition SECP256K1_N_H_5 : Z := 0xFFFFFFFF.
Definition SECP256K1_N_H_6 : Z := 0xFFFFFFFF.
Definition SECP256K1_N_H_7 : Z := 0x7FFFFFFF.

Definition secp256k1_scalar_clear : secp256k1_scalar := [0; 0; 0; 0; 0; 0; 0; 0].

Definition secp256k1_scalar_set_int (v : Z) : secp256k1_scalar := [v; 0; 0; 0; 0; 0; 0; 0].

Definition secp256k1_scalar_get_bits (a : secp256k1_scalar) (offset count : Z) : Z :=
  (a.[Z.to_nat (offset >> 5)] >> (offset .& 0x1F)) .& ((1 << count) - 1).

Definition secp256k1_scalar_get_bits_var (a : secp256k1_scalar) (offset count : Z) : Z :=
  if (offset + count - 1) >> 5 =? offset >> 5 then secp256k1_scalar_get_bits a offset count
  else
    ((a.[Z.to_nat (offset >> 5)] >> (offset .& 0x1F))
     .| u32 (a.[Z.to_nat ((offset >> 5) + 1)] << (32 - (offset .& 0x1F))))
    .& (u32 (1 << count) - 1).

(** [yes] and [no] are [int]s, [~] their complement. *)
Definition secp256k1_scalar_check_overflow (a : secp256k1_scalar) : Z :=
  let yes := 0 in
  let no := 0 in
  let no := no .| b2z (a.[7] <? SECP256K1_N_7) in
  let no := no .| b2z (a.[6] <? SECP256K1_N_6) in
  let no := no .| b2z (a.[5] <? SECP256K1_N_5) in
  let no := no .| b2z (a.[4] <? SECP256K1_N_4) in
  let yes := yes .| (b2z (a.[4] >? SECP256K1_N_4) .& Z.lnot no) in
  let no := no .| (b2z (a.[3] <? SECP256K1_N_3) .& Z.lnot yes) in
  let yes := yes .| (b2z (a.[3] >? SECP256K1_N_3) .& Z.lnot no) in
  let no := no .| (b2z (a.[2] <? SECP256K1_N_2) .& Z.lnot yes) in
  let yes := yes .| (b2z (a.[2] >? SECP256K1_N_2) .& Z.lnot no) in
  let no := no .| (b2z (a.[1] <? SECP256K1_N_1) .& Z.lnot yes) in
  let yes := yes .| (b2z (a.[1] >? SECP256K1_N_1) .& Z.lnot no) in
  let yes := yes .| (b2z (a.[0] >=? SECP256K1_N_0) .& Z.lnot no) in
  yes.

(** The words written to [*r]; the return value is [overflow]. *)
Definition secp256k1_scalar_reduce (r : secp256k1_scalar) (overflow : Z) : secp256k1_scalar :=
  let t := u64 (r.[0] + u32 (overflow * SECP256K1_N_C_0)) in
  let d0 := t .& 0xFFFFFFFF in let t := t >> 32 in
  let t := u64 (t + (r.[1] + u32 (overflow * SECP256K1_N_C_1))) in
  let d1 := t .& 0xFFFFFFFF in let t := t >> 32 in
  let t := u64 (t + (r.[2] + u32 (overflow * SECP256K1_N_C_2))) in
  let d2 := t .& 0xFFFFFFFF in let t := t >> 32 in
  let t := u64 (t + (r.[3] + u32 (overflow * SECP256K1_N_C_3))) in
  let d3 := t .& 0xFFFFFFFF in let t := t >> 32 in
  let t := u64 (t + (r.[4] + u32 (overflow * SECP256K1_N_C_4))) in
  let d4 := t .& 0xFFFFFFFF in let t := t >> 32 in
  let t := u64 (t + r.[5]) in
  let d5 := t .& 0xFFFFFFFF in let t := t >> 32 in
  let t := u64 (t + r.[6]) in
  let d6 := t .& 0xFFFFFFFF in let t := t >> 32 in
  let t := u64 (t + r.[7]) in
  let d7 := t .& 0xFFFFFFFF in
  [d0; d1; d2; d3; d4; d5; d6; d7].

(** Returns the sum and the return value. *)
Definition secp256k1_scalar_add (a b : secp256k1_scalar) : secp256k1_scalar * Z :=
  let t := u64 (a.[0] + b.[0]) in
  let d0 := t .& 0xFFFFFFFF in let t := t >> 32 in
  let t := u64 (t + (a.[1] + b.[1])) in
  let d1 := t .& 0xFFFFFFFF in let t := t >> 32 in
  let t := u64 (t + (a.[2] + b.[2])) in
  let d2 := t .& 0xFFFFFFFF in let t := t >> 32 in
  let t := u64 (t + (a.[3] + b.[3])) in
  let d3 := t .& 0xFFFFFFFF in let t := t >> 32 in
  let t := u64 (t + (a.[4] + b.[4])) in
  let d4 := t .& 0xFFFFFFFF in let t := t >> 32 in
  let t := u64 (t + (a.[5] + b.[5])) in
  let d5 := t .& 0xFFFFFFFF in let t := t >> 32 in
  let t := u64 (t + (a.[6] + b.[6])) in
  let d6 := t .& 0xFFFFFFFF in let t := t >> 32 in
  let t := u64 (t + (a.[7] + b.[7])) in
  let d7 := t .& 0xFFFFFFFF in let t := t >> 32 in
  let r := [d0; d1; d2; d3; d4; d5; d6; d7] in
  let overflow := t + secp256k1_scalar_check_overflow r in
  (secp256k1_scalar_reduce r overflow, overflow).

(** The [uint32_t] that [cadd_bit] adds to word [k]. *)
Definition cadd_word (bit k : Z) : Z := u32 (b2z (bit >> 5 =? k) << (bit .& 0x1F)).

Definition secp256k1_scalar_cadd_bit (r : secp256k1_scalar) (bit flag : Z) : secp256k1_scalar :=
  let bit := u32 (bit + (u32 (flag - 1) .& 0x100)) in
  let t := u64 (r.[0] + cadd_word bit 0) in
  let d0 := t .& 0xFFFFFFFF in let t := t >> 32 in
  let t := u64 (t + (r.[1] + cadd_word bit 1)) in
  let d1 := t .& 0xFFFFFFFF in let t := t >> 32 in
  let t := u64 (t + (r.[2] + cadd_word bit 2)) in
  let d2 := t .& 0xFFFFFFFF in let t := t >> 32 in
  let t := u64 (t + (r.[3] + cadd_word bit 3)) in
  let d3 := t .& 0xFFFFFFFF in let t := t >> 32 in
  let t := u64 (t + (r.[4] + cadd_word bit 4)) in
  let d4 := t .& 0xFFFFFFFF in let t := t >> 32 in
  let t := u64 (t + (r.[5] + cadd_word bit 5)) in
  let d5 := t .& 0xFFFFFFFF in let t := t >> 32 in
  let t := u64 (t + (r.[6] + cadd_word bit 6)) in
  let d6 := t .& 0xFFFFFFFF in let t := t >> 32 in
  let t := u64 (t + (r.[7] + cadd_word bit 7)) in
  let d7 := t .& 0xFFFFFFFF in
  [d0; d1; d2; d3; d4; d5; d6; d7].

(** Four bytes as a word, the first the lowest. *)
Definition word_of_bytes (b0 b1 b2 b3 : Z) : Z :=
  b0 .| u32 (b1 << 8) .| u32 (b2 << 16) .| u32 (b3 << 24).

(** Returns the scalar and [*overflow]. *)
Definition secp256k1_scalar_set_b32 (b32 : list Z) : secp256k1_scalar * Z :=
  let d0 := word_of_bytes b32.[31] b32.[30] b32.[29] b32.[28] in
  let d1 := word_of_bytes b32.[27] b32.[26] b32.[25] b32.[24] in
  let d2 := word_of_bytes b32.[23] b32.[22] b32.[21] b32.[20] in
  let d3 := word_of_bytes b32.[19] b32.[18] b32.[17] b32.[16] in
  let d4 := word_of_bytes b32.[15] b32.[14] b32.[13] b32.[12] in
  let d5 := word_of_bytes b32.[11] b32.[10] b32.[9] b32.[8] in
  let d6 := word_of_bytes b32.[7] b32.[6] b32.[5] b32.[4] in
  let d7 := word_of_bytes b32.[3] b32.[2] b32.[1] b32.[0] in
  let r := [d0; d1; d2; d3; d4; d5; d6; d7] in
  let over := secp256k1_scalar_check_overflow r in
  (secp256k1_scalar_reduce r over, over).

(** The four bytes of a word, the highest first. *)
Definition bytes_of_word (x : Z) : list Z := [u8 (x >> 24); u8 (x >> 16); u8 (x >> 8); u8 x].

Definition secp256k1_scalar_get_b32 (a : secp256k1_scalar) : list Z :=
  bytes_of_word a.[7] ++ bytes_of_word a.[6] ++ bytes_of_word a.[5] ++ bytes_of_word a.[4] ++
  bytes_of_word a.[3] ++ bytes_of_word a.[2] ++ bytes_of_word a.[1] ++ bytes_of_word a.[0].

Definition secp256k1_scalar_is_zero (a : secp256k1_scalar) : Z :=
  b2z ((a.[0] .| a.[1] .| a.[2] .| a.[3] .| a.[4] .| a.[5] .| a.[6] .| a.[7]) =? 0).

Definition secp256k1_scalar_negate (a : secp256k1_scalar) : secp256k1_scalar :=
  let nonzero := u32 (0xFFFFFFFF * b2z (secp256k1_scalar_is_zero a =? 0)) in
  let t := u64 (not32 a.[0] + SECP256K1_N_0 + 1) in
  let d0 := t .& nonzero in let t := t >> 32 in
  let t := u64 (t + (not32 a.[1] + SECP256K1_N_1)) in
  let d1 := t .& nonzero in let t := t >> 32 in
  let t := u64 (t + (not32 a.[2] + SECP256K1_N_2)) in
  let d2 := t .& nonzero in let t := t >> 32 in
  let t := u64 (t + (not32 a.[3] + SECP256K1_N_3)) in
  let d3 := t .& nonzero in let t := t >> 32 in
  let t := u64 (t + (not32 a.[4] + SECP256K1_N_4)) in
  let d4 := t .& nonzero in let t := t >> 32 in
  let t := u64 (t + (not32 a.[5] + SECP256K1_N_5)) in
  let d5 := t .& nonzero in let t := t >> 32 in
  let t := u64 (t + (not32 a.[6] + SECP256K1_N_6)) in
  let d6 := t .& nonzero in let t := t >> 32 in
  let t := u64 (t + (not32 a.[7] + SECP256K1_N_7)) in
  let d7 := t .& nonzero in
  [d0; d1; d2; d3; d4; d5; d6; d7].

Definition secp256k1_scalar_is_one (a : secp256k1_scalar) : Z :=
  b2z (((a.[0] .^ 1) .| a.[1] .| a.[2] .| a.[3] .| a.[4] .| a.[5] .| a.[6] .| a.[7]) =? 0).

Definition secp256k1_scalar_is_high (a : secp256k1_scalar) : Z :=
  let yes := 0 in
  let no := 0 in
  let no := no .| b2z (a.[7] <? SECP256K1_N_H_7) in
  let yes := yes .| (b2z (a.[7] >? SECP256K1_N_H_7) .& Z.lnot no) in
  let no := no .| (b2z (a.[6] <? SECP256K1_N_H_6) .& Z.lnot yes) in
  let no := no .| (b2z (a.[5] <? SECP256K1_N_H_5) .& Z.lnot yes) in
  let no := no .| (b2z (a.[4] <? SECP256K1_N_H_4) .& Z.lnot yes) in
  let no := no .| (b2z (a.[3] <? SECP256K1_N_H_3) .& Z.lnot yes) in
  let yes := yes .| (b2z (a.[3] >? SECP256K1_N_H_3) .& Z.lnot no) in
  let no := no .| (b2z (a.[2] <? SECP256K1_N_H_2) .& Z.lnot yes) in
  let yes := yes .| (b2z (a.[2] >? SECP256K1_N_H_2) .& Z.lnot no) in
  let no := no .| (b2z (a.[1] <? SECP256K1_N_H_1) .& Z.lnot yes) in
  let yes := yes .| (b2z (a.[1] >? SECP256K1_N_H_1) .& Z.lnot no) in
  let yes := yes .| (b2z (a.[0] >? SECP256K1_N_H_0) .& Z.lnot no) in
  yes.

(** Returns the scalar and the return value. *)
Definition secp256k1_scalar_cond_negate (r : secp256k1_scalar) (flag : Z) : secp256k1_scalar * Z :=
  let mask := u32 (b2z (negb (z2b flag)) - 1) in
  let nonzero := u32 (0xFFFFFFFF * b2z (secp256k1_scalar_is_zero r =? 0)) in
  let t := u64 ((r.[0] .^ mask) + ((SECP256K1_N_0 + 1) .& mask)) in
  let d0 := t .& nonzero in let t := t >> 32 in
  let t := u64 (t + ((r.[1] .^ mask) + (SECP256K1_N_1 .& mask))) in
  let d1 := t .& nonzero in let t := t >> 32 in
  let t := u64 (t + ((r.[2] .^ mask) + (SECP256K1_N_2 .& mask))) in
  let d2 := t .& nonzero in let t := t >> 32 in
  let t := u64 (t + ((r.[3] .^ mask) + (SECP256K1_N_3 .& mask))) in
  let d3 := t .& nonzero in let t := t >> 32 in
  let t := u64 (t + ((r.[4] .^ mask) + (SECP256K1_N_4 .& mask))) in
  let d4 := t .& nonzero in let t := t >> 32 in
  let t := u64 (t + ((r.[5] .^ mask) + (SECP256K1_N_5 .& mask))) in
  let d5 := t .& nonzero in let t := t >> 32 in
  let t := u64 (t + ((r.[6] .^ mask) + (SECP256K1_N_6 .& mask))) in
  let d6 := t .& nonzero in let t := t >> 32 in
  let t := u64 (t + ((r.[7] .^ mask) + (SECP256K1_N_7 .& mask))) in
  let d7 := t .& nonzero in
  ([d0; d1; d2; d3; d4; d5; d6; d7], 2 * b2z (mask =? 0) - 1).

(** Returns the shifted scalar and the bits shifted off. *)
Definition secp256k1_scalar_shr_int (r : secp256k1_scalar) (n : Z) : secp256k1_scalar * Z :=
  let ret := r.[0] .& ((1 << n) - 1) in
  let d0 := u32 ((r.[0] >> n) + u32 (r.[1] << (32 - n))) in
  let d1 := u32 ((r.[1] >> n) + u32 (r.[2] << (32 - n))) in
  let d2 := u32 ((r.[2] >> n) + u32 (r.[3] << (32 - n))) in
  let d3 := u32 ((r.[3] >> n) + u32 (r.[4] << (32 - n))) in
  let d4 := u32 ((r.[4] >> n) + u32 (r.[5] << (32 - n))) in
  let d5 := u32 ((r.[5] >> n) + u32 (r.[6] << (32 - n))) in
  let d6 := u32 ((r.[6] >> n) + u32 (r.[7] << (32 - n))) in
  let d7 := r.[7] >> n in
  ([d0; d1; d2; d3; d4; d5; d6; d7], ret).

(** Returns [r1] and [r2]. *)
Definition secp256k1_scalar_split_128 (a : secp256k1_scalar) : secp256k1_scalar * secp256k1_scalar :=
  ([a.[0]; a.[1]; a.[2]; a.[3]; 0; 0; 0; 0], [a.[4]; a.[5]; a.[6]; a.[7]; 0; 0; 0; 0]).

Definition secp256k1_scalar_eq (a b : secp256k1_scalar) : Z :=
  b2z (((a.[0] .^ b.[0]) .| (a.[1] .^ b.[1]) .| (a.[2] .^ b.[2]) .| (a.[3] .^ b.[3])
        .| (a.[4] .^ b.[4]) .| (a.[5] .^ b.[5]) .| (a.[6] .^ b.[6]) .| (a.[7] .^ b.[7])) =? 0).
