(* ===== verification/Scalar8x32Ops.v ===== *)
(** The additive operations, comparisons, conversions and bit access of the
    8x32 scalar, each equal to its counterpart on integers modulo the group
    order. *)

From Stdlib Require Import ZArith Lia List Bool.
From S2P Require Import Prelude Limbs ScalarWords Scalar8x32.
Import ListNotations.
Open Scope Z_scope.
Open Scope c_scope.

Definition sc_val (a : secp256k1_scalar) : Z := limbs_val 32 a.

(** Eight words. *)
Definition sc_wf (a : secp256k1_scalar) : Prop := length a = 8%nat /\ limbs_lt 32 a.

(** The invariant of a scalar: reduced modulo the order. *)
Definition sc_ok (a : secp256k1_scalar) : Prop := sc_wf a /\ sc_val a < secp_n.

(** The scalar of a residue. *)
Definition sc_of_Z (v : Z) : secp256k1_scalar := digits 32 8 (v mod secp_n).

Lemma sc_wf_bound a : sc_wf a -> 0 <= sc_val a < 2 ^ 256.
Proof.
  intros [L F]. pose proof (limbs_val_bound 32 a ltac:(lia) F) as H. rewrite L in H. exact H.
Qed.

Lemma sc_wf_digits v : sc_wf (digits 32 8 v).
Proof. split; [reflexivity | apply limbs_lt_digits; lia]. Qed.

Lemma sc_val_digits v : 0 <= v < 2 ^ 256 -> sc_val (digits 32 8 v) = v.
Proof. intros H. unfold sc_val. rewrite limbs_val_digits by lia. now apply Z.mod_small. Qed.

Lemma sc_digits a : sc_wf a -> a = digits 32 8 (sc_val a).
Proof. intros [L F]. rewrite <- L at 1. unfold sc_val. now rewrite digits_limbs_val by (lia || exact F). Qed.

Lemma sc_digits_eq a v : sc_wf a -> sc_val a = v -> a = digits 32 8 v.
Proof. intros H <-. now apply sc_digits. Qed.

Lemma sc_val_of_Z v : sc_val (sc_of_Z v) = v mod secp_n.
Proof. pose proof (mod_n_bound v). apply sc_val_digits. unfold secp_n in *; lia. Qed.

Lemma sc_ok_of_Z v : sc_ok (sc_of_Z v).
Proof. split; [apply sc_wf_digits |]. rewrite sc_val_of_Z. apply mod_n_bound. Qed.

(** A reduced scalar is determined by its residue. *)
Lemma sc_eq a v : sc_wf a -> sc_val a = v mod secp_n -> a = sc_of_Z v.
Proof. intros H E. unfold sc_of_Z. rewrite <- E. now apply sc_digits. Qed.

Lemma sc_ok_eq a : sc_ok a -> a = sc_of_Z (sc_val a).
Proof.
  intros [H Hn]. apply sc_eq; [exact H |]. pose proof (sc_wf_bound a H).
  now rewrite Z.mod_small by lia.
Qed.

(** * Comparisons *)

Lemma sc8_check_overflow_spec a : sc_wf a ->
  secp256k1_scalar_check_overflow a = b2z (secp_n <=? sc_val a).
Proof.
  intros H. sc_cases a H. unfold Rng in *.
  set (y := [_; _; _; _; _; _; _; _]). pattern (secp256k1_scalar_check_overflow y).
  apply wp_intro. subst y.
  cbv beta iota delta [secp256k1_scalar_check_overflow nth
    SECP256K1_N_0 SECP256K1_N_1 SECP256K1_N_2 SECP256K1_N_3 SECP256K1_N_4 SECP256K1_N_5
    SECP256K1_N_6 SECP256K1_N_7].
  assert (Y7 : b2z (a7 >? 0xFFFFFFFF) = 0) by (destruct (Z.gtb_spec a7 0xFFFFFFFF); [lia | reflexivity]).
  pose proof Y7 as Y6. rewrite (yes_keep 32 _ _ a6 0xFFFFFFFF) in Y6 by lia.
  pose proof Y6 as Y5. rewrite (yes_keep 32 _ _ a5 0xFFFFFFFF) in Y5 by lia.
  wp_name yes Eyes. wp_name no Eno. rewrite Eno. clear no Eno.
  flag_step Z.lor_0_l. flag_step (no_top 32). flag_step (no_top 32). flag_step (no_top 32).
  rewrite <- Y5 in Eyes. subst yes.
  flag_step (yes_step 32). flag_step (no_step 32). flag_step (yes_step 32). flag_step (no_step 32). flag_step (yes_step 32).
  flag_step (no_step 32). flag_step (yes_step 32). flag_step (yes_last 32).
  unfold wp. unfold sc_val; cbn [limbs_val]. do 2 f_equal; ring.
Qed.

Lemma sc8_is_high_spec a : sc_wf a ->
  secp256k1_scalar_is_high a = b2z (secp_n / 2 <? sc_val a).
Proof.
  intros H. sc_cases a H. unfold Rng in *.
  set (y := [_; _; _; _; _; _; _; _]). pattern (secp256k1_scalar_is_high y).
  apply wp_intro. subst y.
  cbv beta iota delta [secp256k1_scalar_is_high nth
    SECP256K1_N_H_0 SECP256K1_N_H_1 SECP256K1_N_H_2 SECP256K1_N_H_3 SECP256K1_N_H_4
    SECP256K1_N_H_5 SECP256K1_N_H_6 SECP256K1_N_H_7].
  wp_name yes Eyes. wp_name no Eno. rewrite Eyes, Eno. clear yes Eyes no Eno.
  flag_step Z.lor_0_l. flag_step Z.lor_0_l.
  replace (b2z (a7 >? 0x7FFFFFFF) .& Z.lnot (b2z (a7 <? 0x7FFFFFFF))) with (b2z (a7 >? 0x7FFFFFFF))
    by (rewrite b2z_andnot; f_equal; lia).
  flag_step (no_step 32). rewrite (yes_keep 32 _ _ a6 0xFFFFFFFF) by lia.
  flag_step (no_step 32). rewrite (yes_keep 32 _ _ a5 0xFFFFFFFF) by lia.
  flag_step (no_step 32). rewrite (yes_keep 32 _ _ a4 0xFFFFFFFF) by lia.
  flag_step (no_step 32). flag_step (yes_step 32). flag_step (no_step 32). flag_step (yes_step 32).
  flag_step (no_step 32). flag_step (yes_step 32). flag_step (yes_last_gt 32).
  unfold wp. unfold sc_val; cbn [limbs_val]. do 2 f_equal; ring.
Qed.

(** * Addition and reduction *)

Lemma sc8_reduce_spec r o : sc_wf r -> sc_wf (secp256k1_scalar_reduce r (b2z o)) /\
  sc_val (secp256k1_scalar_reduce r (b2z o)) = (sc_val r - b2z o * secp_n) mod 2 ^ 256.
Proof.
  intros H. sc_cases r H. set (l := [_; _; _; _; _; _; _; _]).
  pattern (secp256k1_scalar_reduce l (b2z o)). apply wp_intro. subst l.
  destruct o; cbv beta iota delta [secp256k1_scalar_reduce nth b2z]; const_words;
    repeat wp_step; wp_done; (split; [sc_words |]).
  - apply (mod_of_reduced _ _ (q6 - 1)); unfold sc_val, secp_n; cbn [limbs_val];
      unfold Rng in *; lia.
  - apply (mod_of_reduced _ _ q6); unfold sc_val, secp_n; cbn [limbs_val];
      unfold Rng in *; lia.
Qed.

(** A value below twice the order is reduced by one conditional subtraction. *)
Lemma reduce_once r t : sc_wf r -> 0 <= t -> sc_val r + 2 ^ 256 * t < 2 * secp_n ->
  let o := t + secp256k1_scalar_check_overflow r in
  o = b2z (secp_n <=? sc_val r + 2 ^ 256 * t) /\
  secp256k1_scalar_reduce r o = sc_of_Z (sc_val r + 2 ^ 256 * t).
Proof.
  intros H Ht Hv o. unfold o. rewrite sc8_check_overflow_spec by exact H.
  destruct (subtract_once (sc_val r) t (sc_wf_bound r H) Ht Hv) as [-> E]. split; [reflexivity |].
  destruct (sc8_reduce_spec r (secp_n <=? sc_val r + 2 ^ 256 * t) H) as [Hw Hr].
  apply sc_eq; [exact Hw |]. now rewrite Hr.
Qed.

Lemma sc8_add_spec a b : sc_ok a -> sc_ok b ->
  secp256k1_scalar_add a b =
  (sc_of_Z (sc_val a + sc_val b), b2z (secp_n <=? sc_val a + sc_val b)).
Proof.
  intros [Ha Na] [Hb Nb]. sc_cases a Ha. sc_cases b Hb.
  match goal with |- secp256k1_scalar_add ?x ?y = _ => pattern (secp256k1_scalar_add x y) end.
  apply wp_intro. cbv beta iota delta [secp256k1_scalar_add nth].
  repeat wp_step. wp_done. subst overflow r.
  set (r := [_; _; _; _; _; _; _; _]).
  assert (Hr : sc_wf r) by sc_words.
  match goal with |- (secp256k1_scalar_reduce r (?q + _), _) = _ =>
    assert (E' : sc_val r + 2 ^ 256 * q
      = sc_val [a0; a1; a2; a3; a4; a5; a6; a7] + sc_val [b0; b1; b2; b3; b4; b5; b6; b7]);
    [unfold r, sc_val; cbn [limbs_val]; lia |];
    destruct (reduce_once r q Hr) as [-> ->]; [unfold Rng in *; lia | lia | now rewrite E']
  end.
Qed.

(** * Adding a bit *)

(** The words [cadd_bit] adds make up [2^bit], or nothing from [2^256] on. *)
Lemma cadd_words bit : 0 <= bit < 512 ->
  limbs_val 32 (map (cadd_word bit) [0; 1; 2; 3; 4; 5; 6; 7]) = if bit <? 256 then 2 ^ bit else 0.
Proof.
  intros Hb.
  assert (E : bit = 32 * (bit >> 5) + (bit .& 0x1F)).
  { pose proof (split_bits 5 bit ltac:(lia)). change (Z.ones 5) with 0x1F in *.
    change (2 ^ 5) with 32 in *. lia. }
  assert (Hs : 0 <= bit .& 0x1F < 32).
  { change 0x1F with (Z.ones 5). rewrite Z.land_ones by lia. apply Z.mod_pos_bound. lia. }
  assert (Hq : 0 <= bit >> 5 < 16) by lia.
  unfold cadd_word. cbn [map]. set (s := bit .& 0x1F) in *. set (q := bit >> 5) in *.
  assert (0 < 2 ^ s) by (apply Z.pow_pos_nonneg; lia).
  assert (2 ^ s < 2 ^ 32) by (apply Z.pow_lt_mono_r; lia).
  assert (W : forall b, u32 (b2z b << s) = b2z b * 2 ^ s).
  { intros b. rewrite Z.shiftl_mul_pow2 by lia. apply u32_id. destruct b; cbn [b2z]; lia. }
  rewrite !W. cbn [limbs_val]. clearbody q s.
  destruct (Z.ltb_spec bit 256).
  - assert (2 ^ bit = 2 ^ (32 * q) * 2 ^ s) as -> by (rewrite E; apply Z.pow_add_r; lia).
    assert (q = 0 \/ q = 1 \/ q = 2 \/ q = 3 \/ q = 4 \/ q = 5 \/ q = 6 \/ q = 7) as Q by lia.
    decompose [or] Q; subst q; cbn [Z.eqb Pos.eqb b2z]; lia.
  - assert (F : forall k, k < 8 -> (q =? k) = false) by (intros; apply Z.eqb_neq; lia).
    rewrite !F by lia. reflexivity.
Qed.

Lemma sc8_cadd_bit_spec r bit flag : sc_wf r -> 0 <= bit < 256 ->
  sc_val r + b2z flag * 2 ^ bit < 2 ^ 256 ->
  secp256k1_scalar_cadd_bit r bit (b2z flag) = digits 32 8 (sc_val r + b2z flag * 2 ^ bit).
Proof.
  intros H Hb Hv. sc_cases r H.
  assert (Ebit : u32 (bit + (u32 (b2z flag - 1) .& 0x100)) = if flag then bit else bit + 256).
  { destruct flag; cbn [b2z];
      [change (u32 (1 - 1) .& 0x100) with 0 | change (u32 (0 - 1) .& 0x100) with 256];
      rewrite u32_id; lia. }
  pose proof (cadd_words (if flag then bit else bit + 256)) as C.
  match goal with |- secp256k1_scalar_cadd_bit ?x _ _ = _ =>
    pattern (secp256k1_scalar_cadd_bit x bit (b2z flag)) end.
  apply wp_intro. cbv beta iota delta [secp256k1_scalar_cadd_bit nth]. rewrite Ebit.
  set (b := if flag then bit else bit + 256) in *. cbn [map limbs_val] in C.
  wp_name b' Eb. subst b'.
  assert (R : forall k, Rng (cadd_word b k) 0xFFFFFFFF) by (intros; apply rng_u32).
  generalize dependent (cadd_word b). intros w C R.
  repeat wp_step. wp_done.
  assert (EC : (if b <? 256 then 2 ^ b else 0) = b2z flag * 2 ^ bit)
    by (unfold b; destruct flag; zcases; cbn [b2z]; lia).
  rewrite EC in C. specialize (C ltac:(unfold b; destruct flag; lia)).
  apply sc_digits_eq; [sc_words |]. unfold sc_val in *; cbn [limbs_val] in *.
  clear EC Ebit. clearbody b. unfold Rng in *. lia.
Qed.

(** * Bytes *)

Lemma sc8_word_of_bytes_spec b0 b1 b2 b3 : limbs_lt 8 [b0; b1; b2; b3] ->
  word_of_bytes b0 b1 b2 b3 = limbs_val 8 [b0; b1; b2; b3].
Proof.
  intros H. repeat (apply Forall_cons_iff in H; destruct H as [? H]).
  unfold word_of_bytes. rewrite !u32_id by (rewrite Z.shiftl_mul_pow2; lia).
  rewrite (lor_shiftl b0 b1 8), (lor_shiftl _ b2 16), (lor_shiftl _ b3 24) by lia.
  cbn [limbs_val]. ring.
Qed.

Lemma sc8_set_b32_spec b : limbs_lt 8 b -> length b = 32%nat ->
  secp256k1_scalar_set_b32 b = (sc_of_Z (be_val b), b2z (secp_n <=? be_val b)).
Proof.
  intros H L. list_cases b L. repeat (apply Forall_cons_iff in H; destruct H as [? H]).
  unfold secp256k1_scalar_set_b32. cbn [nth].
  rewrite !sc8_word_of_bytes_spec by (repeat constructor; lia).
  set (r := [_; _; _; _; _; _; _; _]).
  assert (Hr : sc_wf r) by (split; [reflexivity |]; unfold r; cbn [limbs_val]; repeat constructor; lia).
  assert (E : sc_val r = be_val [b0; b1; b2; b3; b4; b5; b6; b7; b8; b9; b10; b11; b12; b13; b14; b15;
    b16; b17; b18; b19; b20; b21; b22; b23; b24; b25; b26; b27; b28; b29; b30; b31])
    by (unfold r, sc_val, be_val; cbn [limbs_val rev app]; ring).
  pose proof (sc_wf_bound r Hr).
  destruct (reduce_once r 0 Hr) as [E0 E1]; [lia | unfold secp_n; lia |].
  rewrite Z.mul_0_r, Z.add_0_r, E in E0, E1. cbv zeta in *. now rewrite <- E1, <- E0.
Qed.

Lemma sc8_bytes_of_word_spec x : Rng x 0xFFFFFFFF -> exists b0 b1 b2 b3,
  bytes_of_word x = [b3; b2; b1; b0] /\ limbs_lt 8 [b0; b1; b2; b3] /\
  x = limbs_val 8 [b0; b1; b2; b3].
Proof.
  intros [H0 H1]. assert (B : forall y, 0 <= u8 y < 2 ^ 8) by (intros; now apply Z.mod_pos_bound).
  exists (u8 x), (u8 (x >> 8)), (u8 (x >> 16)), (u8 (x >> 24)).
  split; [reflexivity |]. split; [repeat constructor; apply B |].
  unfold u8. cbn [limbs_val]. rewrite !Z.shiftr_div_pow2 by lia.
  rewrite (Z.mod_small (x / 2 ^ 24)) by (split; [apply Z.div_pos | apply Z.div_lt_upper_bound]; lia).
  Z.div_mod_to_equations. lia.
Qed.

Lemma sc8_get_b32_spec a : sc_wf a -> secp256k1_scalar_get_b32 a = be_bytes 32 (sc_val a).
Proof.
  intros H. sc_cases a H. unfold secp256k1_scalar_get_b32. cbn [nth].
  repeat match goal with R : Rng ?x _ |- _ =>
    destruct (sc8_bytes_of_word_spec x R) as (? & ? & ? & ? & -> & ? & ->); clear R end.
  repeat match goal with H : limbs_lt _ _ |- _ =>
    repeat (apply Forall_cons_iff in H; destruct H as [? H]); clear H end.
  cbn [app]. set (l := _ :: _).
  assert (Hl : limbs_lt 8 l) by (unfold l; repeat (constructor; [assumption |]); constructor).
  rewrite <- (be_bytes_val l Hl). f_equal.
  unfold l, be_val, sc_val; cbn [limbs_val rev app]. ring.
Qed.

(** * Tests *)

Lemma sc8_is_zero_spec a : sc_wf a -> secp256k1_scalar_is_zero a = b2z (sc_val a =? 0).
Proof.
  intros H. sc_cases a H. cbv beta iota delta [secp256k1_scalar_is_zero nth]. f_equal.
  apply eq_true_iff_eq. rewrite !Z.eqb_eq, !Z.lor_eq_0_iff.
  unfold sc_val; cbn [limbs_val]. unfold Rng in *. lia.
Qed.

Lemma sc8_is_one_spec a : sc_wf a -> secp256k1_scalar_is_one a = b2z (sc_val a =? 1).
Proof.
  intros H. sc_cases a H. cbv beta iota delta [secp256k1_scalar_is_one nth]. f_equal.
  apply eq_true_iff_eq. rewrite !Z.eqb_eq, !Z.lor_eq_0_iff, Z.lxor_eq_0_iff.
  unfold sc_val; cbn [limbs_val]. unfold Rng in *. lia.
Qed.

Lemma sc8_eq_spec a b : sc_wf a -> sc_wf b ->
  secp256k1_scalar_eq a b = b2z (sc_val a =? sc_val b).
Proof.
  intros Ha Hb.
  assert (I : sc_val a = sc_val b -> a = b)
    by (intros E; rewrite (sc_digits a Ha), (sc_digits b Hb), E; reflexivity).
  destruct Ha as [La _], Hb as [Lb _]. list_cases a La. list_cases b Lb.
  cbv beta iota delta [secp256k1_scalar_eq nth]. f_equal.
  apply eq_true_iff_eq. rewrite !Z.eqb_eq, !Z.lor_eq_0_iff, !Z.lxor_eq_0_iff. split.
  - intros E. decompose [and] E. congruence.
  - intros E. injection (I E). tauto.
Qed.

(** * Negation *)

Lemma sc8_not32_spec x : Rng x 0xFFFFFFFF -> not32 x = 0xFFFFFFFF - x.
Proof. intros [H0 H1]. exact (lnot_word 32 x ltac:(lia) ltac:(lia)). Qed.

Lemma nonzero_mask a : sc_wf a ->
  u32 (0xFFFFFFFF * b2z (secp256k1_scalar_is_zero a =? 0)) = if sc_val a =? 0 then 0 else 0xFFFFFFFF.
Proof. intros H. rewrite sc8_is_zero_spec by exact H. destruct (sc_val a =? 0); reflexivity. Qed.

Lemma sc_of_Z_opp a k : sc_wf k -> sc_val a <> 0 -> sc_ok a -> sc_val k = secp_n - sc_val a ->
  k = sc_of_Z (- sc_val a).
Proof.
  intros Hk Hz [Ha Hn] E. apply sc_eq; [exact Hk |]. pose proof (sc_wf_bound a Ha).
  apply (mod_of_reduced _ _ (-1)); lia.
Qed.

Lemma sc8_negate_spec a : sc_ok a -> secp256k1_scalar_negate a = sc_of_Z (- sc_val a).
Proof.
  intros Ha. pose proof (nonzero_mask a (proj1 Ha)) as M.
  pose proof (fun k H Hz => sc_of_Z_opp a k H Hz Ha) as Hk. destruct Ha as [Ha Hn].
  destruct (Z.eqb_spec (sc_val a) 0) as [Hz | Hz].
  - rewrite Hz. unfold secp256k1_scalar_negate. rewrite M. cbv zeta. now rewrite !Z.land_0_r.
  - sc_cases a Ha. specialize (Hk (secp256k1_scalar_negate [a0; a1; a2; a3; a4; a5; a6; a7])).
    revert Hk.
    pattern (secp256k1_scalar_negate [a0; a1; a2; a3; a4; a5; a6; a7]). apply wp_intro.
    cbv beta iota delta [secp256k1_scalar_negate nth]. rewrite M.
    rewrite !sc8_not32_spec by assumption.
    cbv delta [SECP256K1_N_0 SECP256K1_N_1 SECP256K1_N_2 SECP256K1_N_3 SECP256K1_N_4
      SECP256K1_N_5 SECP256K1_N_6 SECP256K1_N_7].
    repeat wp_step. wp_done. intros Hk. apply Hk; [sc_words | exact Hz |].
    revert Hn. unfold sc_val, secp_n; cbn [limbs_val]. unfold Rng in *. lia.
Qed.

Lemma lxor_not32 x : Rng x 0xFFFFFFFF -> x .^ 0xFFFFFFFF = not32 x.
Proof. intros H. rewrite sc8_not32_spec by exact H. destruct H. exact (lxor_ones 32 x ltac:(lia) ltac:(lia)). Qed.

Lemma sc8_cond_negate_spec r flag : sc_ok r ->
  secp256k1_scalar_cond_negate r (b2z flag) =
  if flag then (sc_of_Z (- sc_val r), -1) else (r, 1).
Proof.
  intros Hr. destruct flag.
  - rewrite <- sc8_negate_spec by exact Hr. destruct Hr as [Hr _]. sc_cases r Hr.
    unfold secp256k1_scalar_cond_negate, secp256k1_scalar_negate. cbn [nth].
    change (u32 (b2z (negb (z2b (b2z true))) - 1)) with 0xFFFFFFFF.
    rewrite !lxor_not32 by assumption.
    change ((SECP256K1_N_0 + 1) .& 0xFFFFFFFF) with (SECP256K1_N_0 + 1).
    rewrite (Z.add_assoc (not32 r0)). reflexivity.
  - pose proof (nonzero_mask r (proj1 Hr)) as M. destruct Hr as [Hr Hn].
    change (b2z false) with 0. unfold secp256k1_scalar_cond_negate. rewrite M.
    change (u32 (b2z (negb (z2b 0)) - 1)) with 0. rewrite !Z.land_0_r, !Z.lxor_0_r.
    change (2 * b2z (0 =? 0) - 1) with 1. cbv zeta.
    destruct (Z.eqb_spec (sc_val r) 0) as [Hz | Hz].
    + rewrite !Z.land_0_r. f_equal. rewrite (sc_digits r Hr), Hz. reflexivity.
    + f_equal. sc_cases r Hr. cbn [nth]. rewrite !Z.add_0_r.
      set (F := 0xFFFFFFFF).
      assert (W : forall x, Rng x F -> u64 x = x /\ x .& F = x /\ x >> 32 = 0).
      { intros x [? ?]. unfold F, u64 in *. change 0xFFFFFFFF with (Z.ones 32).
        rewrite Z.shiftr_div_pow2, Z.land_ones by lia. rewrite !Z.mod_small, Z.div_small by lia. lia. }
      repeat match goal with R : Rng ?x _ |- _ =>
        destruct (W x R) as (E1 & E2 & E3); rewrite ?E1, ?E2, ?E3, ?Z.add_0_l; clear E1 E2 E3 R end.
      reflexivity.
Qed.

(** * Bit access and shifts *)

Lemma sc8_get_bits_spec a offset count : sc_wf a -> 0 <= offset -> 0 < count -> offset + count <= 256 ->
  (offset + count - 1) >> 5 = offset >> 5 ->
  secp256k1_scalar_get_bits a offset count = (sc_val a / 2 ^ offset) mod 2 ^ count.
Proof.
  intros [L F] Ho Hc Hoc Hw.
  destruct (offset_split 5 offset ltac:(lia) ltac:(lia)) as (E & Hs & Hq).
  destruct (offset_split 5 (offset + count - 1) ltac:(lia) ltac:(lia)) as (E' & Hs' & Hq'). change (2 ^ 5) with 32 in *.
  unfold secp256k1_scalar_get_bits, sc_val. change 0x1F with (Z.ones 5).
  rewrite (bits_in_word 32) by (assumption || lia). now rewrite <- E.
Qed.

Lemma sc8_get_bits_var_spec a offset count : sc_wf a -> 0 <= offset -> 0 < count < 32 ->
  offset + count <= 256 ->
  secp256k1_scalar_get_bits_var a offset count = (sc_val a / 2 ^ offset) mod 2 ^ count.
Proof.
  intros Ha Ho Hc Hoc. unfold secp256k1_scalar_get_bits_var.
  destruct (Z.eqb_spec ((offset + count - 1) >> 5) (offset >> 5)) as [Hw | Hw].
  - apply sc8_get_bits_spec; assumption || lia.
  - destruct Ha as [L F].
    destruct (offset_split 5 offset ltac:(lia) ltac:(lia)) as (E & Hs & Hq).
    destruct (offset_split 5 (offset + count - 1) ltac:(lia) ltac:(lia)) as (E' & Hs' & Hq'). change (2 ^ 5) with 32 in *.
    rewrite (u32_id (1 << count)) by (rewrite Z.shiftl_mul_pow2, Z.mul_1_l by lia; split;
      [apply Z.pow_nonneg | apply Z.pow_lt_mono_r]; lia).
    rewrite land_low by lia. change 0x1F with (Z.ones 5). unfold u32, sc_val.
    rewrite (word_across 32), mod_mod_pow by (assumption || lia). now rewrite <- E.
Qed.

Lemma sc8_shr_int_spec r n : sc_wf r -> 0 < n < 16 ->
  secp256k1_scalar_shr_int r n = (digits 32 8 (sc_val r / 2 ^ n), sc_val r mod 2 ^ n).
Proof.
  intros H Hn. pose proof (sc_wf_bound r H) as B. sc_cases r H.
  unfold secp256k1_scalar_shr_int. cbn [nth]. rewrite land_low, (Z.shiftr_div_pow2 r7) by lia.
  unfold u32. repeat match goal with |- context [(?x >> n) + (?y << _) mod _] =>
    let E := fresh in let L := fresh in
    destruct (shr_word 32 x y n) as [E L]; [lia | unfold Rng in *; lia |]; rewrite E; clear E end.
  assert (P : 0 < 2 ^ n) by (apply Z.pow_pos_nonneg; lia).
  assert (PQ : 2 ^ (32 - n) * 2 ^ n = 2 ^ 32) by (rewrite <- Z.pow_add_r by lia; f_equal; lia).
  assert (L7 : 0 <= r7 / 2 ^ n < 2 ^ 32).
  { unfold Rng in *. split; [apply Z.div_pos | apply Z.div_lt_upper_bound]; nia. }
  set (l := [_; _; _; _; _; _; _; _]).
  assert (V : sc_val [r0; r1; r2; r3; r4; r5; r6; r7] = 2 ^ n * sc_val l + r0 mod 2 ^ n).
  { unfold l, sc_val; cbn [limbs_val]. rewrite <- PQ.
    pose proof (fun x => Z.div_mod x (2 ^ n) ltac:(lia)) as D.
    rewrite (D r0) at 1. rewrite (D r1) at 1. rewrite (D r2) at 1. rewrite (D r3) at 1.
    rewrite (D r4) at 1. rewrite (D r5) at 1. rewrite (D r6) at 1. rewrite (D r7) at 1. ring. }
  pose proof (Z.mod_pos_bound r0 (2 ^ n) P).
  f_equal.
  - apply sc_digits_eq; [split; [reflexivity | repeat constructor; lia] |].
    apply Z.div_unique with (r0 mod 2 ^ n); [lia | exact V].
  - apply Z.mod_unique with (sc_val l); [lia | exact V].
Qed.

Lemma sc8_split_128_spec a : sc_wf a ->
  secp256k1_scalar_split_128 a =
  (digits 32 8 (sc_val a mod 2 ^ 128), digits 32 8 (sc_val a / 2 ^ 128)).
Proof.
  intros H. sc_cases a H. unfold secp256k1_scalar_split_128. cbn [nth].
  f_equal; (apply sc_digits_eq; [sc_words |]).
  - apply (mod_of_reduced _ _ (limbs_val 32 [a4; a5; a6; a7])); unfold sc_val; cbn [limbs_val];
      unfold Rng in *; lia.
  - unfold Rng in *. apply Z.div_unique with (limbs_val 32 [a0; a1; a2; a3]);
      unfold sc_val; cbn [limbs_val]; lia.
Qed.
