(* ===== verification/Scalar8x32Mul.v ===== *)
(** Products of 8x32 scalars: the 512-bit product and square, the three-stage
    reduction modulo the group order, multiplication and rounding shift. *)

From Stdlib Require Import ZArith Lia List Bool.
From S2P Require Import Prelude Limbs Accum ScalarSpec ScalarWords ScalarVal Scalar8x32 Scalar8x32Ops.
Import ListNotations.
Open Scope Z_scope.
Open Scope c_scope.

#[local] Abbreviation muladd := (Accum.muladd 32 32).
#[local] Abbreviation muladd_fast := (Accum.muladd_fast 32).
#[local] Abbreviation muladd2 := (Accum.muladd2 32 32).
#[local] Abbreviation sumadd := (Accum.sumadd 32 32).
#[local] Abbreviation sumadd_fast := (Accum.sumadd_fast 32).

Definition secp256k1_scalar_mul_512 (a b : secp256k1_scalar) : list Z :=
  let c := Acc 0 0 0 in
  let c := muladd_fast c a.[0] b.[0] in let l0 := c0 c in let c := extract_fast c in
  let c := muladd c a.[0] b.[1] in let c := muladd c a.[1] b.[0] in
  let l1 := c0 c in let c := extract c in
  let c := muladd c a.[0] b.[2] in let c := muladd c a.[1] b.[1] in
  let c := muladd c a.[2] b.[0] in let l2 := c0 c in let c := extract c in
  let c := muladd c a.[0] b.[3] in let c := muladd c a.[1] b.[2] in
  let c := muladd c a.[2] b.[1] in let c := muladd c a.[3] b.[0] in
  let l3 := c0 c in let c := extract c in
  let c := muladd c a.[0] b.[4] in let c := muladd c a.[1] b.[3] in
  let c := muladd c a.[2] b.[2] in let c := muladd c a.[3] b.[1] in
  let c := muladd c a.[4] b.[0] in let l4 := c0 c in let c := extract c in
  let c := muladd c a.[0] b.[5] in let c := muladd c a.[1] b.[4] in
  let c := muladd c a.[2] b.[3] in let c := muladd c a.[3] b.[2] in
  let c := muladd c a.[4] b.[1] in let c := muladd c a.[5] b.[0] in
  let l5 := c0 c in let c := extract c in
  let c := muladd c a.[0] b.[6] in let c := muladd c a.[1] b.[5] in
  let c := muladd c a.[2] b.[4] in let c := muladd c a.[3] b.[3] in
  let c := muladd c a.[4] b.[2] in let c := muladd c a.[5] b.[1] in
  let c := muladd c a.[6] b.[0] in let l6 := c0 c in let c := extract c in
  let c := muladd c a.[0] b.[7] in let c := muladd c a.[1] b.[6] in
  let c := muladd c a.[2] b.[5] in let c := muladd c a.[3] b.[4] in
  let c := muladd c a.[4] b.[3] in let c := muladd c a.[5] b.[2] in
  let c := muladd c a.[6] b.[1] in let c := muladd c a.[7] b.[0] in
  let l7 := c0 c in let c := extract c in
  let c := muladd c a.[1] b.[7] in let c := muladd c a.[2] b.[6] in
  let c := muladd c a.[3] b.[5] in let c := muladd c a.[4] b.[4] in
  let c := muladd c a.[5] b.[3] in let c := muladd c a.[6] b.[2] in
  let c := muladd c a.[7] b.[1] in let l8 := c0 c in let c := extract c in
  let c := muladd c a.[2] b.[7] in let c := muladd c a.[3] b.[6] in
  let c := muladd c a.[4] b.[5] in let c := muladd c a.[5] b.[4] in
  let c := muladd c a.[6] b.[3] in let c := muladd c a.[7] b.[2] in
  let l9 := c0 c in let c := extract c in
  let c := muladd c a.[3] b.[7] in let c := muladd c a.[4] b.[6] in
  let c := muladd c a.[5] b.[5] in let c := muladd c a.[6] b.[4] in
  let c := muladd c a.[7] b.[3] in let l10 := c0 c in let c := extract c in
  let c := muladd c a.[4] b.[7] in let c := muladd c a.[5] b.[6] in
  let c := muladd c a.[6] b.[5] in let c := muladd c a.[7] b.[4] in
  let l11 := c0 c in let c := extract c in
  let c := muladd c a.[5] b.[7] in let c := muladd c a.[6] b.[6] in
  let c := muladd c a.[7] b.[5] in let l12 := c0 c in let c := extract c in
  let c := muladd c a.[6] b.[7] in let c := muladd c a.[7] b.[6] in
  let l13 := c0 c in let c := extract c in
  let c := muladd_fast c a.[7] b.[7] in let l14 := c0 c in let c := extract_fast c in
  let l15 := c0 c in
  [l0; l1; l2; l3; l4; l5; l6; l7; l8; l9; l10; l11; l12; l13; l14; l15].

Definition secp256k1_scalar_sqr_512 (a : secp256k1_scalar) : list Z :=
  let c := Acc 0 0 0 in
  let c := muladd_fast c a.[0] a.[0] in let l0 := c0 c in let c := extract_fast c in
  let c := muladd2 c a.[0] a.[1] in let l1 := c0 c in let c := extract c in
  let c := muladd2 c a.[0] a.[2] in let c := muladd c a.[1] a.[1] in
  let l2 := c0 c in let c := extract c in
  let c := muladd2 c a.[0] a.[3] in let c := muladd2 c a.[1] a.[2] in
  let l3 := c0 c in let c := extract c in
  let c := muladd2 c a.[0] a.[4] in let c := muladd2 c a.[1] a.[3] in
  let c := muladd c a.[2] a.[2] in let l4 := c0 c in let c := extract c in
  let c := muladd2 c a.[0] a.[5] in let c := muladd2 c a.[1] a.[4] in
  let c := muladd2 c a.[2] a.[3] in let l5 := c0 c in let c := extract c in
  let c := muladd2 c a.[0] a.[6] in let c := muladd2 c a.[1] a.[5] in
  let c := muladd2 c a.[2] a.[4] in let c := muladd c a.[3] a.[3] in
  let l6 := c0 c in let c := extract c in
  let c := muladd2 c a.[0] a.[7] in let c := muladd2 c a.[1] a.[6] in
  let c := muladd2 c a.[2] a.[5] in let c := muladd2 c a.[3] a.[4] in
  let l7 := c0 c in let c := extract c in
  let c := muladd2 c a.[1] a.[7] in let c := muladd2 c a.[2] a.[6] in
  let c := muladd2 c a.[3] a.[5] in let c := muladd c a.[4] a.[4] in
  let l8 := c0 c in let c := extract c in
  let c := muladd2 c a.[2] a.[7] in let c := muladd2 c a.[3] a.[6] in
  let c := muladd2 c a.[4] a.[5] in let l9 := c0 c in let c := extract c in
  let c := muladd2 c a.[3] a.[7] in let c := muladd2 c a.[4] a.[6] in
  let c := muladd c a.[5] a.[5] in let l10 := c0 c in let c := extract c in
  let c := muladd2 c a.[4] a.[7] in let c := muladd2 c a.[5] a.[6] in
  let l11 := c0 c in let c := extract c in
  let c := muladd2 c a.[5] a.[7] in let c := muladd c a.[6] a.[6] in
  let l12 := c0 c in let c := extract c in
  let c := muladd2 c a.[6] a.[7] in let l13 := c0 c in let c := extract c in
  let c := muladd_fast c a.[7] a.[7] in let l14 := c0 c in let c := extract_fast c in
  let l15 := c0 c in
  [l0; l1; l2; l3; l4; l5; l6; l7; l8; l9; l10; l11; l12; l13; l14; l15].

(** [m[0..12] = l[0..7] + n[0..7] * N_C]. *)
Definition scalar_reduce_512_385 (l : list Z) : list Z :=
  let n0 := l.[8] in let n1 := l.[9] in let n2 := l.[10] in let n3 := l.[11] in
  let n4 := l.[12] in let n5 := l.[13] in let n6 := l.[14] in let n7 := l.[15] in
  let c := Acc l.[0] 0 0 in
  let c := muladd_fast c n0 SECP256K1_N_C_0 in let m0 := c0 c in let c := extract_fast c in
  let c := sumadd_fast c l.[1] in let c := muladd c n1 SECP256K1_N_C_0 in
  let c := muladd c n0 SECP256K1_N_C_1 in let m1 := c0 c in let c := extract c in
  let c := sumadd c l.[2] in let c := muladd c n2 SECP256K1_N_C_0 in
  let c := muladd c n1 SECP256K1_N_C_1 in let c := muladd c n0 SECP256K1_N_C_2 in
  let m2 := c0 c in let c := extract c in
  let c := sumadd c l.[3] in let c := muladd c n3 SECP256K1_N_C_0 in
  let c := muladd c n2 SECP256K1_N_C_1 in let c := muladd c n1 SECP256K1_N_C_2 in
  let c := muladd c n0 SECP256K1_N_C_3 in let m3 := c0 c in let c := extract c in
  let c := sumadd c l.[4] in let c := muladd c n4 SECP256K1_N_C_0 in
  let c := muladd c n3 SECP256K1_N_C_1 in let c := muladd c n2 SECP256K1_N_C_2 in
  let c := muladd c n1 SECP256K1_N_C_3 in let c := sumadd c n0 in
  let m4 := c0 c in let c := extract c in
  let c := sumadd c l.[5] in let c := muladd c n5 SECP256K1_N_C_0 in
  let c := muladd c n4 SECP256K1_N_C_1 in let c := muladd c n3 SECP256K1_N_C_2 in
  let c := muladd c n2 SECP256K1_N_C_3 in let c := sumadd c n1 in
  let m5 := c0 c in let c := extract c in
  let c := sumadd c l.[6] in let c := muladd c n6 SECP256K1_N_C_0 in
  let c := muladd c n5 SECP256K1_N_C_1 in let c := muladd c n4 SECP256K1_N_C_2 in
  let c := muladd c n3 SECP256K1_N_C_3 in let c := sumadd c n2 in
  let m6 := c0 c in let c := extract c in
  let c := sumadd c l.[7] in let c := muladd c n7 SECP256K1_N_C_0 in
  let c := muladd c n6 SECP256K1_N_C_1 in let c := muladd c n5 SECP256K1_N_C_2 in
  let c := muladd c n4 SECP256K1_N_C_3 in let c := sumadd c n3 in
  let m7 := c0 c in let c := extract c in
  let c := muladd c n7 SECP256K1_N_C_1 in let c := muladd c n6 SECP256K1_N_C_2 in
  let c := muladd c n5 SECP256K1_N_C_3 in let c := sumadd c n4 in
  let m8 := c0 c in let c := extract c in
  let c := muladd c n7 SECP256K1_N_C_2 in let c := muladd c n6 SECP256K1_N_C_3 in
  let c := sumadd c n5 in let m9 := c0 c in let c := extract c in
  let c := muladd c n7 SECP256K1_N_C_3 in let c := sumadd c n6 in
  let m10 := c0 c in let c := extract c in
  let c := sumadd_fast c n7 in let m11 := c0 c in let c := extract_fast c in
  let m12 := c0 c in
  [m0; m1; m2; m3; m4; m5; m6; m7; m8; m9; m10; m11; m12].

(** [p[0..8] = m[0..7] + m[8..12] * N_C]. *)
Definition scalar_reduce_385_258 (m : list Z) : list Z :=
  let c := Acc m.[0] 0 0 in
  let c := muladd_fast c m.[8] SECP256K1_N_C_0 in let p0 := c0 c in let c := extract_fast c in
  let c := sumadd_fast c m.[1] in let c := muladd c m.[9] SECP256K1_N_C_0 in
  let c := muladd c m.[8] SECP256K1_N_C_1 in let p1 := c0 c in let c := extract c in
  let c := sumadd c m.[2] in let c := muladd c m.[10] SECP256K1_N_C_0 in
  let c := muladd c m.[9] SECP256K1_N_C_1 in let c := muladd c m.[8] SECP256K1_N_C_2 in
  let p2 := c0 c in let c := extract c in
  let c := sumadd c m.[3] in let c := muladd c m.[11] SECP256K1_N_C_0 in
  let c := muladd c m.[10] SECP256K1_N_C_1 in let c := muladd c m.[9] SECP256K1_N_C_2 in
  let c := muladd c m.[8] SECP256K1_N_C_3 in let p3 := c0 c in let c := extract c in
  let c := sumadd c m.[4] in let c := muladd c m.[12] SECP256K1_N_C_0 in
  let c := muladd c m.[11] SECP256K1_N_C_1 in let c := muladd c m.[10] SECP256K1_N_C_2 in
  let c := muladd c m.[9] SECP256K1_N_C_3 in let c := sumadd c m.[8] in
  let p4 := c0 c in let c := extract c in
  let c := sumadd c m.[5] in let c := muladd c m.[12] SECP256K1_N_C_1 in
  let c := muladd c m.[11] SECP256K1_N_C_2 in let c := muladd c m.[10] SECP256K1_N_C_3 in
  let c := sumadd c m.[9] in let p5 := c0 c in let c := extract c in
  let c := sumadd c m.[6] in let c := muladd c m.[12] SECP256K1_N_C_2 in
  let c := muladd c m.[11] SECP256K1_N_C_3 in let c := sumadd c m.[10] in
  let p6 := c0 c in let c := extract c in
  let c := sumadd_fast c m.[7] in let c := muladd_fast c m.[12] SECP256K1_N_C_3 in
  let c := sumadd_fast c m.[11] in let p7 := c0 c in let c := extract_fast c in
  let p8 := c0 c in let p8 := u32 (p8 + m.[12]) in
  [p0; p1; p2; p3; p4; p5; p6; p7; p8].

(** [r[0..7] = p[0..7] + p[8] * N_C], with the carry [c] out of the top word. *)
Definition scalar_reduce_258_256 (p : list Z) : secp256k1_scalar * Z :=
  let c := u64 (p.[0] + SECP256K1_N_C_0 * p.[8]) in
  let d0 := c .& 0xFFFFFFFF in let c := c >> 32 in
  let c := u64 (c + (p.[1] + SECP256K1_N_C_1 * p.[8])) in
  let d1 := c .& 0xFFFFFFFF in let c := c >> 32 in
  let c := u64 (c + (p.[2] + SECP256K1_N_C_2 * p.[8])) in
  let d2 := c .& 0xFFFFFFFF in let c := c >> 32 in
  let c := u64 (c + (p.[3] + SECP256K1_N_C_3 * p.[8])) in
  let d3 := c .& 0xFFFFFFFF in let c := c >> 32 in
  let c := u64 (c + (p.[4] + p.[8])) in
  let d4 := c .& 0xFFFFFFFF in let c := c >> 32 in
  let c := u64 (c + p.[5]) in
  let d5 := c .& 0xFFFFFFFF in let c := c >> 32 in
  let c := u64 (c + p.[6]) in
  let d6 := c .& 0xFFFFFFFF in let c := c >> 32 in
  let c := u64 (c + p.[7]) in
  let d7 := c .& 0xFFFFFFFF in let c := c >> 32 in
  ([d0; d1; d2; d3; d4; d5; d6; d7], c).

Definition secp256k1_scalar_reduce_512 (l : list Z) : secp256k1_scalar :=
  let m := scalar_reduce_512_385 l in
  let p := scalar_reduce_385_258 m in
  let '(r, c) := scalar_reduce_258_256 p in
  secp256k1_scalar_reduce r (u32 (c + secp256k1_scalar_check_overflow r)).

Definition secp256k1_scalar_mul (a b : secp256k1_scalar) : secp256k1_scalar :=
  secp256k1_scalar_reduce_512 (secp256k1_scalar_mul_512 a b).

Definition secp256k1_scalar_sqr (a : secp256k1_scalar) : secp256k1_scalar :=
  secp256k1_scalar_reduce_512 (secp256k1_scalar_sqr_512 a).

(** Word [k] of the product shifted right: zero from [2^512] on, and nothing
    to fill in from above the last word. *)
Definition mul_shift_word (l : list Z) (shift k : Z) : Z :=
  let shiftlimbs := shift >> 5 in
  let shiftlow := shift .& 0x1F in
  let shifthigh := 32 - shiftlow in
  if shift <? 512 - 32 * k then
    (l.[Z.to_nat (k + shiftlimbs)] >> shiftlow)
    .| (if (shift <? 480 - 32 * k) && z2b shiftlow
        then u32 (l.[Z.to_nat (k + 1 + shiftlimbs)] << shifthigh) else 0)
  else 0.

Definition secp256k1_scalar_mul_shift_var (a b : secp256k1_scalar) (shift : Z) : secp256k1_scalar :=
  let l := secp256k1_scalar_mul_512 a b in
  let d0 := mul_shift_word l shift 0 in
  let d1 := mul_shift_word l shift 1 in
  let d2 := mul_shift_word l shift 2 in
  let d3 := mul_shift_word l shift 3 in
  let d4 := mul_shift_word l shift 4 in
  let d5 := mul_shift_word l shift 5 in
  let d6 := mul_shift_word l shift 6 in
  let d7 := if shift <? 288 then l.[Z.to_nat (7 + (shift >> 5))] >> (shift .& 0x1F) else 0 in
  secp256k1_scalar_cadd_bit [d0; d1; d2; d3; d4; d5; d6; d7] 0
    ((l.[Z.to_nat ((shift - 1) >> 5)] >> ((shift - 1) .& 0x1F)) .& 1).

(** The words of a product, once all macros are run. *)
Ltac words_done :=
  wp_done; repeat match goal with H : acc_is _ _ _ _ _ |- _ => clear H end;
  split; [reflexivity |]; split; [repeat constructor; unfold Rng in *; lia |].

Lemma sc8_mul_512_spec a b : sc_wf a -> sc_wf b ->
  length (secp256k1_scalar_mul_512 a b) = 16%nat /\
  limbs_lt 32 (secp256k1_scalar_mul_512 a b) /\
  limbs_val 32 (secp256k1_scalar_mul_512 a b) = sc_val a * sc_val b.
Proof.
  intros Ha Hb. sc_cases a Ha. sc_cases b Hb.
  match goal with |- context [secp256k1_scalar_mul_512 ?x ?y] =>
    pattern (secp256k1_scalar_mul_512 x y) end.
  apply wp_intro. cbv beta iota delta [secp256k1_scalar_mul_512 nth].
  repeat acc_step 32 32. words_done.
  unfold sc_val; cbn [limbs_val]. solve_carries. ring.
Qed.

Lemma sc8_sqr_512_spec a : sc_wf a ->
  length (secp256k1_scalar_sqr_512 a) = 16%nat /\
  limbs_lt 32 (secp256k1_scalar_sqr_512 a) /\
  limbs_val 32 (secp256k1_scalar_sqr_512 a) = sc_val a * sc_val a.
Proof.
  intros Ha. sc_cases a Ha.
  match goal with |- context [secp256k1_scalar_sqr_512 ?x] =>
    pattern (secp256k1_scalar_sqr_512 x) end.
  apply wp_intro. cbv beta iota delta [secp256k1_scalar_sqr_512 nth].
  repeat acc_step 32 32. words_done.
  unfold sc_val; cbn [limbs_val]. solve_carries. ring.
Qed.

(** Evaluate the constant words. *)
Ltac n_c_words :=
  change SECP256K1_N_C_0 with 0x2FC9BEBF; change SECP256K1_N_C_1 with 0x402DA173;
  change SECP256K1_N_C_2 with 0x50B75FC4; change SECP256K1_N_C_3 with 0x45512319.

Lemma sc8_reduce_512_385_spec l : length l = 16%nat -> limbs_lt 32 l ->
  let m := scalar_reduce_512_385 l in
  length m = 13%nat /\ limbs_lt 32 m /\ m.[12] <= 1 /\
  limbs_val 32 m = limbs_val 32 (firstn 8 l) + (2 ^ 256 - secp_n) * limbs_val 32 (skipn 8 l).
Proof.
  intros L F. assert (H := conj L F). clear L F. sc_cases l H. cbv zeta.
  match goal with |- context [scalar_reduce_512_385 ?x] => pattern (scalar_reduce_512_385 x) end.
  apply wp_intro. cbv beta iota delta [scalar_reduce_512_385 nth]. n_c_words.
  repeat (acc_step 32 32 || wp_step). words_done. split; [cbn [nth]; unfold Rng in *; lia |].
  unfold secp_n. cbn [limbs_val firstn skipn]. solve_carries. ring.
Qed.

Lemma sc8_reduce_385_258_spec m : length m = 13%nat -> limbs_lt 32 m -> m.[12] <= 1 ->
  let p := scalar_reduce_385_258 m in
  length p = 9%nat /\ limbs_lt 32 p /\
  limbs_val 32 p = limbs_val 32 (firstn 8 m) + (2 ^ 256 - secp_n) * limbs_val 32 (skipn 8 m).
Proof.
  intros L F. assert (H := conj L F). clear L F. sc_cases m H. cbv zeta. intros H12.
  cbn [nth] in H12. assert (Rng m12 1) by (unfold Rng in *; lia).
  match goal with R : Rng m12 0xFFFFFFFF |- _ => clear R end.
  match goal with |- context [scalar_reduce_385_258 ?x] => pattern (scalar_reduce_385_258 x) end.
  apply wp_intro. cbv beta iota delta [scalar_reduce_385_258 nth]. n_c_words.
  repeat (acc_step 32 32 || wp_step). words_done.
  unfold secp_n. cbn [limbs_val firstn skipn]. solve_carries. ring.
Qed.

Lemma sc8_reduce_258_256_spec p : length p = 9%nat -> limbs_lt 32 p -> p.[8] <= 2 ->
  let '(r, c) := scalar_reduce_258_256 p in
  sc_wf r /\ 0 <= c /\
  sc_val r + 2 ^ 256 * c = limbs_val 32 (firstn 8 p) + (2 ^ 256 - secp_n) * p.[8].
Proof.
  intros L F. assert (H := conj L F). clear L F. sc_cases p H. cbv zeta. intros H8.
  cbn [nth] in H8. assert (Rng p8 2) by (unfold Rng in *; lia).
  match goal with R : Rng p8 0xFFFFFFFF |- _ => clear R end.
  match goal with |- context [scalar_reduce_258_256 ?x] => pattern (scalar_reduce_258_256 x) end.
  apply wp_intro. cbv beta iota delta [scalar_reduce_258_256 nth]. n_c_words.
  repeat wp_step. wp_done. split; [sc_words |]. split; [unfold Rng in *; lia |].
  unfold sc_val, secp_n. cbn [limbs_val firstn nth]. solve_carries. ring.
Qed.

Lemma skipn_8_last p : length p = 9%nat -> limbs_val 32 (skipn 8 p) = p.[8].
Proof. intros L. list_cases p L. cbn. ring. Qed.

(** The three stages keep the residue, and the last leaves a value below twice
    the order. *)
Lemma sc8_reduce_512_spec l : length l = 16%nat -> limbs_lt 32 l ->
  secp256k1_scalar_reduce_512 l = sc_of_Z (limbs_val 32 l).
Proof.
  intros L F. unfold secp256k1_scalar_reduce_512.
  destruct (sc8_reduce_512_385_spec l L F) as (Lm & Fm & H12 & Vm).
  set (m := scalar_reduce_512_385 l) in *. clearbody m.
  destruct (sc8_reduce_385_258_spec m Lm Fm H12) as (Lp & Fp & Vp).
  set (p := scalar_reduce_385_258 m) in *. clearbody p. cbv zeta.
  pose proof (words_split 32 8 l ltac:(lia) F ltac:(lia) eq_refl) as Sl.
  pose proof (words_split 32 8 m ltac:(lia) Fm ltac:(lia) eq_refl) as Sm.
  pose proof (words_split 32 8 p ltac:(lia) Fp ltac:(lia) eq_refl) as Sp.
  rewrite skipn_8_last in Sp by exact Lp.
  pose proof (limbs_val_bound 32 l ltac:(lia) F) as Tl. rewrite L in Tl.
  pose proof (fun r => three_folds _ _ _ _ _ _ _ _ _ r Tl Sl Vm Sm Vp Sp) as R.
  pose proof (sc8_reduce_258_256_spec p Lp Fp (proj1 (R 0))) as Hr.
  destruct (scalar_reduce_258_256 p) as [r c]. destruct Hr as (Wr & Hc & Vr).
  destruct (proj2 (R _) Vr) as [Hv Hm]. destruct (reduce_once r c Wr Hc Hv) as [Eo Er]. cbv zeta in *.
  rewrite u32_id by (rewrite Eo; destruct (_ <=? _); cbn [b2z]; lia).
  rewrite Er. unfold sc_of_Z. now rewrite Hm.
Qed.

Lemma sc8_mul_spec a b : sc_wf a -> sc_wf b ->
  secp256k1_scalar_mul a b = sc_of_Z (sc_val a * sc_val b).
Proof.
  intros Ha Hb. destruct (sc8_mul_512_spec a b Ha Hb) as (L & F & V).
  unfold secp256k1_scalar_mul. now rewrite sc8_reduce_512_spec, V.
Qed.

Lemma sc8_sqr_spec a : sc_wf a -> secp256k1_scalar_sqr a = sc_of_Z (sc_val a * sc_val a).
Proof.
  intros Ha. destruct (sc8_sqr_512_spec a Ha) as (L & F & V).
  unfold secp256k1_scalar_sqr. now rewrite sc8_reduce_512_spec, V.
Qed.

(** * Rounded shift of a product *)

Lemma sc8_mul_shift_word_spec l shift k : length l = 16%nat -> limbs_lt 32 l -> 0 <= shift -> 0 <= k ->
  mul_shift_word l shift k = (limbs_val 32 l / 2 ^ (shift + 32 * k)) mod 2 ^ 32.
Proof.
  intros L F Hs Hk. destruct (offset_split 5 shift ltac:(lia) Hs) as (E & Hs' & Hq). change (2 ^ 5) with 32 in *.
  pose proof (shifted_word 32 l (shift >> 5) (shift .& Z.ones 5) k) as W. rewrite <- E in W.
  apply W; assumption || lia.
Qed.

(** The bit shifted out last. *)
Lemma sc8_round_bit_spec l shift : length l = 16%nat -> limbs_lt 32 l -> 0 < shift <= 512 ->
  (l.[Z.to_nat ((shift - 1) >> 5)] >> ((shift - 1) .& 0x1F)) .& 1 =
  (limbs_val 32 l / 2 ^ (shift - 1)) mod 2.
Proof.
  intros L F Hs. destruct (offset_split 5 (shift - 1) ltac:(lia) ltac:(lia)) as (E & Hs' & Hq).
  change (2 ^ 5) with 32 in *.
  pose proof (bits_in_word 32 l ltac:(lia) F ((shift - 1) >> 5) ((shift - 1) .& Z.ones 5) 1) as W.
  rewrite <- E in W. apply W; lia.
Qed.

Lemma mul_shift_digits W shift : 0 <= shift ->
  digits 32 8 (W / 2 ^ shift) =
  [(W / 2 ^ (shift + 32 * 0)) mod 2 ^ 32; (W / 2 ^ (shift + 32 * 1)) mod 2 ^ 32;
   (W / 2 ^ (shift + 32 * 2)) mod 2 ^ 32; (W / 2 ^ (shift + 32 * 3)) mod 2 ^ 32;
   (W / 2 ^ (shift + 32 * 4)) mod 2 ^ 32; (W / 2 ^ (shift + 32 * 5)) mod 2 ^ 32;
   (W / 2 ^ (shift + 32 * 6)) mod 2 ^ 32; (W / 2 ^ (shift + 32 * 7)) mod 2 ^ 32].
Proof.
  intros H. cbn [digits]. rewrite !div_div_pow by lia. rewrite <- !Z.add_assoc.
  change (32 * 0) with 0. rewrite Z.add_0_r. reflexivity.
Qed.

Lemma sc8_mul_shift_var_spec a b shift : sc_ok a -> sc_ok b -> 256 <= shift <= 512 ->
  secp256k1_scalar_mul_shift_var a b shift =
  digits 32 8 ((sc_val a * sc_val b + 2 ^ (shift - 1)) / 2 ^ shift).
Proof.
  intros [Ha Na] [Hb Nb] Hs. destruct (sc8_mul_512_spec a b Ha Hb) as (L & F & V).
  unfold secp256k1_scalar_mul_shift_var.
  set (l := secp256k1_scalar_mul_512 a b) in *. clearbody l. cbv zeta.
  replace (if shift <? 288 then _ else 0) with (mul_shift_word l shift 7).
  2:{ unfold mul_shift_word. change (512 - 32 * 7) with 288. change (480 - 32 * 7) with 256.
      rewrite (proj2 (Z.ltb_ge shift 256)) by lia. cbn [andb]. now rewrite Z.lor_0_r. }
  rewrite !sc8_mul_shift_word_spec, sc8_round_bit_spec, <- mul_shift_digits by (assumption || lia).
  pose proof (sc_wf_bound a Ha). pose proof (sc_wf_bound b Hb).
  destruct (round_bit (limbs_val 32 l) shift) as (f & -> & R & B1 & B2); [rewrite V; nia | exact Hs |].
  rewrite sc8_cadd_bit_spec; rewrite ?sc_val_digits by lia; try lia; [| apply sc_wf_digits].
  now rewrite <- V, R.
Qed.

(** * The interface

    The 8x32 representation implements the scalar interface. *)

#[export] Instance scalar_8x32 : ScalarImpl := {
  scalar := secp256k1_scalar;
  sc_const := SECP256K1_SCALAR_CONST;
  sc_d0 a := a.[0];
  sc_clear := secp256k1_scalar_clear;
  sc_set_int := secp256k1_scalar_set_int;
  sc_get_bits := secp256k1_scalar_get_bits;
  sc_get_bits_var := secp256k1_scalar_get_bits_var;
  sc_set_b32 := secp256k1_scalar_set_b32;
  sc_get_b32 := secp256k1_scalar_get_b32;
  sc_add := secp256k1_scalar_add;
  sc_cadd_bit := secp256k1_scalar_cadd_bit;
  sc_mul := secp256k1_scalar_mul;
  sc_sqr := secp256k1_scalar_sqr;
  sc_shr_int := secp256k1_scalar_shr_int;
  sc_negate := secp256k1_scalar_negate;
  sc_is_zero := secp256k1_scalar_is_zero;
  sc_is_one := secp256k1_scalar_is_one;
  sc_is_high := secp256k1_scalar_is_high;
  sc_cond_negate := secp256k1_scalar_cond_negate;
  sc_eq := secp256k1_scalar_eq;
  sc_split_128 := secp256k1_scalar_split_128;
  sc_mul_shift_var := secp256k1_scalar_mul_shift_var
}.

Lemma sc8_const_spec d7 d6 d5 d4 d3 d2 d1 d0 : limbs_lt 32 [d0; d1; d2; d3; d4; d5; d6; d7] ->
  SECP256K1_SCALAR_CONST d7 d6 d5 d4 d3 d2 d1 d0 =
  digits 32 8 (limbs_val 32 [d0; d1; d2; d3; d4; d5; d6; d7]).
Proof. intros H. apply sc_digits_eq; [split; [reflexivity | exact H] | reflexivity]. Qed.

Lemma sc8_d0_spec a : sc_wf a -> a.[0] mod 2 = sc_val a mod 2.
Proof.
  intros H. sc_cases a H. cbn [nth]. unfold sc_val; cbn [limbs_val].
  symmetry. apply (mod_eq_of _ _ (2 ^ 31 * limbs_val 32 [a1; a2; a3; a4; a5; a6; a7]));
    cbn [limbs_val]; lia.
Qed.

Lemma sc8_set_int_spec v : 0 <= v < 2 ^ 32 -> secp256k1_scalar_set_int v = digits 32 8 v.
Proof.
  intros H. apply sc_digits_eq; [split; [reflexivity | repeat constructor; lia] |].
  unfold secp256k1_scalar_set_int, sc_val. cbn [limbs_val]. ring.
Qed.

#[export] Instance scalar_8x32_val : ScalarVal scalar_8x32 := {
  swf := sc_wf;
  sval := sc_val;
  sof := digits 32 8;
  swf_bound := sc_wf_bound;
  swf_sof := sc_wf_digits;
  sval_sof := sc_val_digits;
  sof_sval := sc_digits;
  val_const := sc8_const_spec;
  val_d0 := sc8_d0_spec;
  val_clear := eq_refl;
  val_set_int := sc8_set_int_spec;
  val_get_bits a o c H Ho Hc Hoc E := sc8_get_bits_spec a o c H Ho (proj1 Hc) Hoc
    (eq_trans (Z.shiftr_div_pow2 _ 5 ltac:(lia)) (eq_trans E (eq_sym (Z.shiftr_div_pow2 _ 5 ltac:(lia)))));
  val_get_bits_var := sc8_get_bits_var_spec;
  val_set_b32 := sc8_set_b32_spec;
  val_get_b32 := sc8_get_b32_spec;
  val_add a b Ha Na Hb Nb := sc8_add_spec a b (conj Ha Na) (conj Hb Nb);
  val_cadd_bit := sc8_cadd_bit_spec;
  val_mul := sc8_mul_spec;
  val_sqr := sc8_sqr_spec;
  val_shr_int := sc8_shr_int_spec;
  val_negate a Ha Na := sc8_negate_spec a (conj Ha Na);
  val_is_zero := sc8_is_zero_spec;
  val_is_one := sc8_is_one_spec;
  val_is_high := sc8_is_high_spec;
  val_cond_negate a f Ha Na := sc8_cond_negate_spec a f (conj Ha Na);
  val_eq := sc8_eq_spec;
  val_split_128 := sc8_split_128_spec;
  val_mul_shift_var a b s Ha Na Hb Nb := sc8_mul_shift_var_spec a b s (conj Ha Na) (conj Hb Nb)
}.

#[export] Instance scalar_8x32_laws : ScalarLaws scalar_8x32 := laws_of_sval scalar_8x32_val.
