(* ===== verification/Scalar4x64.v ===== *)
(** The scalar of [scalar_4x64.h] and [scalar_4x64_impl.h]: four [uint64_t]
    words, an integer below the group order (the representation the build
    selects with [USE_SCALAR_4X64], for compilers with [__int128]), in the C
    code that is compiled without [USE_ASM_X86_64]. *)

From Stdlib Require Import ZArith Lia List Bool.
From S2P Require Import Prelude Limbs Accum.
Import ListNotations.
Open Scope Z_scope.
Open Scope c_scope.

(** [uint64_t d[4]]. *)
Definition secp256k1_scalar := list Z.

Definition SECP256K1_SCALAR_CONST (d7 d6 d5 d4 d3 d2 d1 d0 : Z) : secp256k1_scalar :=
  [u64 (d1 << 32) .| d0; u64 (d3 << 32) .| d2; u64 (d5 << 32) .| d4; u64 (d7 << 32) .| d6].

(** Limbs of the order. *)
Definition SECP256K1_N_0 : Z := 0xBFD25E8CD0364141.
Definition SECP256K1_N_1 : Z := 0xBAAEDCE6AF48A03B.
Definition SECP256K1_N_2 : Z := 0xFFFFFFFFFFFFFFFE.
Definition SECP256K1_N_3 : Z := 0xFFFFFFFFFFFFFFFF.

(** Limbs of [2^256] minus the order. *)
Definition SECP256K1_N_C_0 : Z := u64 (not64 SECP256K1_N_0 + 1).
Definition SECP256K1_N_C_1 : Z := not64 SECP256K1_N_1.
Definition SECP256K1_N_C_2 : Z := 1.

(** Limbs of half the order. *)
Definition SECP256K1_N_H_0 : Z := 0xDFE92F46681B20A0.
Definition SECP256K1_N_H_1 : Z := 0x5D576E7357A4501D.
Definition SECP256K1_N_H_2 : Z := 0xFFFFFFFFFFFFFFFF.
Definition SECP256K1_N_H_3 : Z := 0x7FFFFFFFFFFFFFFF.

Definition secp256k1_scalar_clear : secp256k1_scalar := [0; 0; 0; 0].

Definition secp256k1_scalar_set_int (v : Z) : secp256k1_scalar := [v; 0; 0; 0].

(** The return type is [unsigned int]. *)
Definition secp256k1_scalar_get_bits (a : secp256k1_scalar) (offset count : Z) : Z :=
  u32 ((a.[Z.to_nat (offset >> 6)] >> (offset .& 0x3F)) .& (u64 (1 << count) - 1)).

Definition secp256k1_scalar_get_bits_var (a : secp256k1_scalar) (offset count : Z) : Z :=
  if (offset + count - 1) >> 6 =? offset >> 6 then secp256k1_scalar_get_bits a offset count
  else
    u32 (((a.[Z.to_nat (offset >> 6)] >> (offset .& 0x3F))
          .| u64 (a.[Z.to_nat ((offset >> 6) + 1)] << (64 - (offset .& 0x3F))))
         .& (u64 (1 << count) - 1)).

(** [yes] and [no] are [int]s, [~] their complement; the third test for [no]
    does not look at [yes]. *)
Definition secp256k1_scalar_check_overflow (a : secp256k1_scalar) : Z :=
  let yes := 0 in
  let no := 0 in
  let no := no .| b2z (a.[3] <? SECP256K1_N_3) in
  let no := no .| b2z (a.[2] <? SECP256K1_N_2) in
  let yes := yes .| (b2z (a.[2] >? SECP256K1_N_2) .& Z.lnot no) in
  let no := no .| b2z (a.[1] <? SECP256K1_N_1) in
  let yes := yes .| (b2z (a.[1] >? SECP256K1_N_1) .& Z.lnot no) in
  let yes := yes .| (b2z (a.[0] >=? SECP256K1_N_0) .& Z.lnot no) in
  yes.

(** The words written to [*r]; the return value is [overflow]. *)
Definition secp256k1_scalar_reduce (r : secp256k1_scalar) (overflow : Z) : secp256k1_scalar :=
  let t := u128 (r.[0] + u64 (overflow * SECP256K1_N_C_0)) in
  let d0 := t .& 0xFFFFFFFFFFFFFFFF in let t := t >> 64 in
  let t := u128 (t + (r.[1] + u64 (overflow * SECP256K1_N_C_1))) in
  let d1 := t .& 0xFFFFFFFFFFFFFFFF in let t := t >> 64 in
  let t := u128 (t + (r.[2] + u32 (overflow * SECP256K1_N_C_2))) in
  let d2 := t .& 0xFFFFFFFFFFFFFFFF in let t := t >> 64 in
  let t := u128 (t + r.[3]) in
  let d3 := t .& 0xFFFFFFFFFFFFFFFF in
  [d0; d1; d2; d3].

(** Returns the sum and the return value. *)
Definition secp256k1_scalar_add (a b : secp256k1_scalar) : secp256k1_scalar * Z :=
  let t := u128 (a.[0] + b.[0]) in
  let d0 := t .& 0xFFFFFFFFFFFFFFFF in let t := t >> 64 in
  let t := u128 (t + (a.[1] + b.[1])) in
  let d1 := t .& 0xFFFFFFFFFFFFFFFF in let t := t >> 64 in
  let t := u128 (t + (a.[2] + b.[2])) in
  let d2 := t .& 0xFFFFFFFFFFFFFFFF in let t := t >> 64 in
  let t := u128 (t + (a.[3] + b.[3])) in
  let d3 := t .& 0xFFFFFFFFFFFFFFFF in let t := t >> 64 in
  let r := [d0; d1; d2; d3] in
  let overflow := t + secp256k1_scalar_check_overflow r in
  (secp256k1_scalar_reduce r overflow, overflow).

(** The [uint64_t] that [cadd_bit] adds to word [k]. *)
Definition cadd_word (bit k : Z) : Z := u64 (b2z (bit >> 6 =? k) << (bit .& 0x3F)).

Definition secp256k1_scalar_cadd_bit (r : secp256k1_scalar) (bit flag : Z) : secp256k1_scalar :=
  let bit := u32 (bit + (u32 (flag - 1) .& 0x100)) in
  let t := u128 (r.[0] + cadd_word bit 0) in
  let d0 := t .& 0xFFFFFFFFFFFFFFFF in let t := t >> 64 in
  let t := u128 (t + (r.[1] + cadd_word bit 1)) in
  let d1 := t .& 0xFFFFFFFFFFFFFFFF in let t := t >> 64 in
  let t := u128 (t + (r.[2] + cadd_word bit 2)) in
  let d2 := t .& 0xFFFFFFFFFFFFFFFF in let t := t >> 64 in
  let t := u128 (t + (r.[3] + cadd_word bit 3)) in
  let d3 := t .& 0xFFFFFFFFFFFFFFFF in
  [d0; d1; d2; d3].

(** Eight bytes as a word, the first the lowest. *)
Definition word_of_bytes (b0 b1 b2 b3 b4 b5 b6 b7 : Z) : Z :=
  b0 .| u64 (b1 << 8) .| u64 (b2 << 16) .| u64 (b3 << 24)
  .| u64 (b4 << 32) .| u64 (b5 << 40) .| u64 (b6 << 48) .| u64 (b7 << 56).

(** Returns the scalar and [*overflow]. *)
Definition secp256k1_scalar_set_b32 (b32 : list Z) : secp256k1_scalar * Z :=
  let d0 := word_of_bytes b32.[31] b32.[30] b32.[29] b32.[28] b32.[27] b32.[26] b32.[25] b32.[24] in
  let d1 := word_of_bytes b32.[23] b32.[22] b32.[21] b32.[20] b32.[19] b32.[18] b32.[17] b32.[16] in
  let d2 := word_of_bytes b32.[15] b32.[14] b32.[13] b32.[12] b32.[11] b32.[10] b32.[9] b32.[8] in
  let d3 := word_of_bytes b32.[7] b32.[6] b32.[5] b32.[4] b32.[3] b32.[2] b32.[1] b32.[0] in
  let r := [d0; d1; d2; d3] in
  let over := secp256k1_scalar_check_overflow r in
  (secp256k1_scalar_reduce r over, over).

(** The eight bytes of a word, the highest first. *)
Definition bytes_of_word (x : Z) : list Z :=
  [u8 (x >> 56); u8 (x >> 48); u8 (x >> 40); u8 (x >> 32);
   u8 (x >> 24); u8 (x >> 16); u8 (x >> 8); u8 x].

Definition secp256k1_scalar_get_b32 (a : secp256k1_scalar) : list Z :=
  bytes_of_word a.[3] ++ bytes_of_word a.[2] ++ bytes_of_word a.[1] ++ bytes_of_word a.[0].

Definition secp256k1_scalar_is_zero (a : secp256k1_scalar) : Z :=
  b2z ((a.[0] .| a.[1] .| a.[2] .| a.[3]) =? 0).

Definition secp256k1_scalar_negate (a : secp256k1_scalar) : secp256k1_scalar :=
  let nonzero := u64 (0xFFFFFFFFFFFFFFFF * b2z (secp256k1_scalar_is_zero a =? 0)) in
  let t := u128 (not64 a.[0] + SECP256K1_N_0 + 1) in
  let d0 := t .& nonzero in let t := t >> 64 in
  let t := u128 (t + (not64 a.[1] + SECP256K1_N_1)) in
  let d1 := t .& nonzero in let t := t >> 64 in
  let t := u128 (t + (not64 a.[2] + SECP256K1_N_2)) in
  let d2 := t .& nonzero in let t := t >> 64 in
  let t := u128 (t + (not64 a.[3] + SECP256K1_N_3)) in
  let d3 := t .& nonzero in
  [d0; d1; d2; d3].

Definition secp256k1_scalar_is_one (a : secp256k1_scalar) : Z :=
  b2z (((a.[0] .^ 1) .| a.[1] .| a.[2] .| a.[3]) =? 0).

Definition secp256k1_scalar_is_high (a : secp256k1_scalar) : Z :=
  let yes := 0 in
  let no := 0 in
  let no := no .| b2z (a.[3] <? SECP256K1_N_H_3) in
  let yes := yes .| (b2z (a.[3] >? SECP256K1_N_H_3) .& Z.lnot no) in
  let no := no .| (b2z (a.[2] <? SECP256K1_N_H_2) .& Z.lnot yes) in
  let no := no .| (b2z (a.[1] <? SECP256K1_N_H_1) .& Z.lnot yes) in
  let yes := yes .| (b2z (a.[1] >? SECP256K1_N_H_1) .& Z.lnot no) in
  let yes := yes .| (b2z (a.[0] >? SECP256K1_N_H_0) .& Z.lnot no) in
  yes.

(** Returns the scalar and the return value. *)
Definition secp256k1_scalar_cond_negate (r : secp256k1_scalar) (flag : Z) : secp256k1_scalar * Z :=
  let mask := u64 (b2z (negb (z2b flag)) - 1) in
  let nonzero := u64 (b2z (negb (secp256k1_scalar_is_zero r =? 0)) - 1) in
  let t := u128 ((r.[0] .^ mask) + (u64 (SECP256K1_N_0 + 1) .& mask)) in
  let d0 := t .& nonzero in let t := t >> 64 in
  let t := u128 (t + ((r.[1] .^ mask) + (SECP256K1_N_1 .& mask))) in
  let d1 := t .& nonzero in let t := t >> 64 in
  let t := u128 (t + ((r.[2] .^ mask) + (SECP256K1_N_2 .& mask))) in
  let d2 := t .& nonzero in let t := t >> 64 in
  let t := u128 (t + ((r.[3] .^ mask) + (SECP256K1_N_3 .& mask))) in
  let d3 := t .& nonzero in
  ([d0; d1; d2; d3], 2 * b2z (mask =? 0) - 1).

(** Returns the shifted scalar and the bits shifted off. *)
Definition secp256k1_scalar_shr_int (r : secp256k1_scalar) (n : Z) : secp256k1_scalar * Z :=
  let ret := r.[0] .& ((1 << n) - 1) in
  let d0 := u64 ((r.[0] >> n) + u64 (r.[1] << (64 - n))) in
  let d1 := u64 ((r.[1] >> n) + u64 (r.[2] << (64 - n))) in
  let d2 := u64 ((r.[2] >> n) + u64 (r.[3] << (64 - n))) in
  let d3 := r.[3] >> n in
  ([d0; d1; d2; d3], ret).

(** Returns [r1] and [r2]. *)
Definition secp256k1_scalar_split_128 (a : secp256k1_scalar) : secp256k1_scalar * secp256k1_scalar :=
  ([a.[0]; a.[1]; 0; 0], [a.[2]; a.[3]; 0; 0]).

Definition secp256k1_scalar_eq (a b : secp256k1_scalar) : Z :=
  b2z (((a.[0] .^ b.[0]) .| (a.[1] .^ b.[1]) .| (a.[2] .^ b.[2]) .| (a.[3] .^ b.[3])) =? 0).

(** * Products *)

Definition secp256k1_scalar_mul_512 (a b : secp256k1_scalar) : list Z :=
  (* 160 bit accumulator: c2 is a uint32_t *)
  let c := Acc 0 0 0 in
  let c := muladd_fast 64 c a.[0] b.[0] in let l0 := c0 c in let c := extract_fast c in
  let c := muladd 64 32 c a.[0] b.[1] in let c := muladd 64 32 c a.[1] b.[0] in
  let l1 := c0 c in let c := extract c in
  let c := muladd 64 32 c a.[0] b.[2] in let c := muladd 64 32 c a.[1] b.[1] in
  let c := muladd 64 32 c a.[2] b.[0] in let l2 := c0 c in let c := extract c in
  let c := muladd 64 32 c a.[0] b.[3] in let c := muladd 64 32 c a.[1] b.[2] in
  let c := muladd 64 32 c a.[2] b.[1] in let c := muladd 64 32 c a.[3] b.[0] in
  let l3 := c0 c in let c := extract c in
  let c := muladd 64 32 c a.[1] b.[3] in let c := muladd 64 32 c a.[2] b.[2] in
  let c := muladd 64 32 c a.[3] b.[1] in let l4 := c0 c in let c := extract c in
  let c := muladd 64 32 c a.[2] b.[3] in let c := muladd 64 32 c a.[3] b.[2] in
  let l5 := c0 c in let c := extract c in
  let c := muladd_fast 64 c a.[3] b.[3] in let l6 := c0 c in let c := extract_fast c in
  let l7 := c0 c in
  [l0; l1; l2; l3; l4; l5; l6; l7].

Definition secp256k1_scalar_sqr_512 (a : secp256k1_scalar) : list Z :=
  (* 160 bit accumulator: c2 is a uint32_t *)
  let c := Acc 0 0 0 in
  let c := muladd_fast 64 c a.[0] a.[0] in let l0 := c0 c in let c := extract_fast c in
  let c := muladd2 64 32 c a.[0] a.[1] in let l1 := c0 c in let c := extract c in
  let c := muladd2 64 32 c a.[0] a.[2] in let c := muladd 64 32 c a.[1] a.[1] in
  let l2 := c0 c in let c := extract c in
  let c := muladd2 64 32 c a.[0] a.[3] in let c := muladd2 64 32 c a.[1] a.[2] in
  let l3 := c0 c in let c := extract c in
  let c := muladd2 64 32 c a.[1] a.[3] in let c := muladd 64 32 c a.[2] a.[2] in
  let l4 := c0 c in let c := extract c in
  let c := muladd2 64 32 c a.[2] a.[3] in let l5 := c0 c in let c := extract c in
  let c := muladd_fast 64 c a.[3] a.[3] in let l6 := c0 c in let c := extract_fast c in
  let l7 := c0 c in
  [l0; l1; l2; l3; l4; l5; l6; l7].

(** [m[0..6] = l[0..3] + n[0..3] * N_C]; [m6] is a [uint32_t]. *)
Definition scalar_reduce_512_385 (l : list Z) : list Z :=
  let n0 := l.[4] in let n1 := l.[5] in let n2 := l.[6] in let n3 := l.[7] in
  let c := Acc l.[0] 0 0 in
  let c := muladd_fast 64 c n0 SECP256K1_N_C_0 in let m0 := c0 c in let c := extract_fast c in
  let c := sumadd_fast 64 c l.[1] in let c := muladd 64 64 c n1 SECP256K1_N_C_0 in
  let c := muladd 64 64 c n0 SECP256K1_N_C_1 in let m1 := c0 c in let c := extract c in
  let c := sumadd 64 64 c l.[2] in let c := muladd 64 64 c n2 SECP256K1_N_C_0 in
  let c := muladd 64 64 c n1 SECP256K1_N_C_1 in let c := sumadd 64 64 c n0 in
  let m2 := c0 c in let c := extract c in
  let c := sumadd 64 64 c l.[3] in let c := muladd 64 64 c n3 SECP256K1_N_C_0 in
  let c := muladd 64 64 c n2 SECP256K1_N_C_1 in let c := sumadd 64 64 c n1 in
  let m3 := c0 c in let c := extract c in
  let c := muladd 64 64 c n3 SECP256K1_N_C_1 in let c := sumadd 64 64 c n2 in
  let m4 := c0 c in let c := extract c in
  let c := sumadd_fast 64 c n3 in let m5 := c0 c in let c := extract_fast c in
  let m6 := c0 c in let m6 := u32 m6 in
  [m0; m1; m2; m3; m4; m5; m6].

(** [p[0..4] = m[0..3] + m[4..6] * N_C]; [p4] is a [uint32_t]. *)
Definition scalar_reduce_385_258 (m : list Z) : list Z :=
  let c := Acc m.[0] 0 0 in
  let c := muladd_fast 64 c m.[4] SECP256K1_N_C_0 in let p0 := c0 c in let c := extract_fast c in
  let c := sumadd_fast 64 c m.[1] in let c := muladd 64 64 c m.[5] SECP256K1_N_C_0 in
  let c := muladd 64 64 c m.[4] SECP256K1_N_C_1 in let p1 := c0 c in let c := extract c in
  let c := sumadd 64 64 c m.[2] in let c := muladd 64 64 c m.[6] SECP256K1_N_C_0 in
  let c := muladd 64 64 c m.[5] SECP256K1_N_C_1 in let c := sumadd 64 64 c m.[4] in
  let p2 := c0 c in let c := extract c in
  let c := sumadd_fast 64 c m.[3] in let c := muladd_fast 64 c m.[6] SECP256K1_N_C_1 in
  let c := sumadd_fast 64 c m.[5] in let p3 := c0 c in let c := extract_fast c in
  let p4 := c0 c in let p4 := u64 (p4 + m.[6]) in let p4 := u32 p4 in
  [p0; p1; p2; p3; p4].

(** [r[0..3] = p[0..3] + p[4] * N_C], with the carry [c] out of the top word. *)
Definition scalar_reduce_258_256 (p : list Z) : secp256k1_scalar * Z :=
  let c := u128 (p.[0] + SECP256K1_N_C_0 * p.[4]) in
  let d0 := c .& 0xFFFFFFFFFFFFFFFF in let c := c >> 64 in
  let c := u128 (c + (p.[1] + SECP256K1_N_C_1 * p.[4])) in
  let d1 := c .& 0xFFFFFFFFFFFFFFFF in let c := c >> 64 in
  let c := u128 (c + (p.[2] + p.[4])) in
  let d2 := c .& 0xFFFFFFFFFFFFFFFF in let c := c >> 64 in
  let c := u128 (c + p.[3]) in
  let d3 := c .& 0xFFFFFFFFFFFFFFFF in let c := c >> 64 in
  ([d0; d1; d2; d3], c).

Definition secp256k1_scalar_reduce_512 (l : list Z) : secp256k1_scalar :=
  let m := scalar_reduce_512_385 l in
  let p := scalar_reduce_385_258 m in
  let '(r, c) := scalar_reduce_258_256 p in
  secp256k1_scalar_reduce r (u32 (c + secp256k1_scalar_check_overflow r)).

Definition secp256k1_scalar_mul (a b : secp256k1_scalar) : secp256k1_scalar :=
  secp256k1_scalar_reduce_512 (secp256k1_scalar_mul_512 a b).

Definition secp256k1_scalar_sqr (a : secp256k1_scalar) : secp256k1_scalar :=
  secp256k1_scalar_reduce_512 (secp256k1_scalar_sqr_512 a).

(** Word [k] of the product shifted right: zero from [2^512] on, and nothing
    to fill in from above the last word. *)
Definition mul_shift_word (l : list Z) (shift k : Z) : Z :=
  let shiftlimbs := shift >> 6 in
  let shiftlow := shift .& 0x3F in
  let shifthigh := 64 - shiftlow in
  if shift <? 512 - 64 * k then
    (l.[Z.to_nat (k + shiftlimbs)] >> shiftlow)
    .| (if (shift <? 448 - 64 * k) && z2b shiftlow
        then u64 (l.[Z.to_nat (k + 1 + shiftlimbs)] << shifthigh) else 0)
  else 0.

(** The words of the product shifted right and rounded. *)
Definition shift_512 (l : list Z) (shift : Z) : secp256k1_scalar :=
  let d0 := mul_shift_word l shift 0 in
  let d1 := mul_shift_word l shift 1 in
  let d2 := mul_shift_word l shift 2 in
  let d3 := if shift <? 320 then l.[Z.to_nat (3 + (shift >> 6))] >> (shift .& 0x3F) else 0 in
  secp256k1_scalar_cadd_bit [d0; d1; d2; d3] 0
    ((l.[Z.to_nat ((shift - 1) >> 6)] >> ((shift - 1) .& 0x3F)) .& 1).

Definition secp256k1_scalar_mul_shift_var (a b : secp256k1_scalar) (shift : Z) : secp256k1_scalar :=
  let l := secp256k1_scalar_mul_512 a b in
  shift_512 l shift.
