(* ===== verification/Scalar4x64Ops.v ===== *)
(** The additive operations, comparisons, conversions and bit access of the
    4x64 scalar, each equal to its counterpart on integers modulo the group
    order. *)

From Stdlib Require Import ZArith Lia List Bool.
From S2P Require Import Prelude Limbs ScalarWords Scalar4x64.
Import ListNotations.
Open Scope Z_scope.
Open Scope c_scope.

Definition sc4_val (a : secp256k1_scalar) : Z := limbs_val 64 a.

(** Four words. *)
Definition sc4_wf (a : secp256k1_scalar) : Prop := length a = 4%nat /\ limbs_lt 64 a.

(** The invariant of a scalar: reduced modulo the order. *)
Definition sc4_ok (a : secp256k1_scalar) : Prop := sc4_wf a /\ sc4_val a < secp_n.

(** The scalar of a residue. *)
Definition sc4_of_Z (v : Z) : secp256k1_scalar := digits 64 4 (v mod secp_n).

Lemma sc4_wf_bound a : sc4_wf a -> 0 <= sc4_val a < 2 ^ 256.
Proof.
  intros [L F]. pose proof (limbs_val_bound 64 a ltac:(lia) F) as H. rewrite L in H. exact H.
Qed.

Lemma sc4_wf_digits v : sc4_wf (digits 64 4 v).
Proof. split; [reflexivity | apply limbs_lt_digits; lia]. Qed.

Lemma sc4_val_digits v : 0 <= v < 2 ^ 256 -> sc4_val (digits 64 4 v) = v.
Proof. intros H. unfold sc4_val. rewrite limbs_val_digits by lia. now apply Z.mod_small. Qed.

Lemma sc4_digits a : sc4_wf a -> a = digits 64 4 (sc4_val a).
Proof. intros [L F]. rewrite <- L at 1. unfold sc4_val. now rewrite digits_limbs_val by (lia || exact F). Qed.

Lemma sc4_digits_eq a v : sc4_wf a -> sc4_val a = v -> a = digits 64 4 v.
Proof. intros H <-. now apply sc4_digits. Qed.

(** A reduced scalar is determined by its residue. *)
Lemma sc4_eq a v : sc4_wf a -> sc4_val a = v mod secp_n -> a = sc4_of_Z v.
Proof. apply sc4_digits_eq. Qed.

(** * Comparisons *)

(** Once [yes] is set the later tests for [no] cannot clear it. *)
Lemma sc4_check_overflow_spec a : sc4_wf a ->
  secp256k1_scalar_check_overflow a = b2z (secp_n <=? sc4_val a).
Proof.
  intros H. sc_cases a H. unfold Rng in *.
  cbv beta iota zeta delta [secp256k1_scalar_check_overflow nth
    SECP256K1_N_0 SECP256K1_N_1 SECP256K1_N_2 SECP256K1_N_3].
  rewrite !Z.lor_0_l. repeat (rewrite b2z_lor || rewrite b2z_andnot).
  f_equal. unfold sc4_val, secp_n; cbn [limbs_val]. lia.
Qed.

Lemma sc4_is_high_spec a : sc4_wf a ->
  secp256k1_scalar_is_high a = b2z (secp_n / 2 <? sc4_val a).
Proof.
  intros H. sc_cases a H. unfold Rng in *.
  set (y := [_; _; _; _]). pattern (secp256k1_scalar_is_high y).
  apply wp_intro. subst y.
  cbv beta iota delta [secp256k1_scalar_is_high nth
    SECP256K1_N_H_0 SECP256K1_N_H_1 SECP256K1_N_H_2 SECP256K1_N_H_3].
  wp_name yes Eyes. wp_name no Eno. rewrite Eyes, Eno. clear yes Eyes no Eno.
  flag_step Z.lor_0_l. flag_step Z.lor_0_l.
  replace (b2z (a3 >? 0x7FFFFFFFFFFFFFFF) .& Z.lnot (b2z (a3 <? 0x7FFFFFFFFFFFFFFF)))
    with (b2z (a3 >? 0x7FFFFFFFFFFFFFFF)) by (rewrite b2z_andnot; f_equal; lia).
  flag_step (no_step 64). rewrite (yes_keep 64 _ _ a2 0xFFFFFFFFFFFFFFFF) by lia.
  flag_step (no_step 64). flag_step (yes_step 64). flag_step (yes_last_gt 64).
  unfold wp. unfold sc4_val; cbn [limbs_val]. do 2 f_equal; ring.
Qed.

(** * Addition and reduction *)

Lemma sc4_reduce_spec r o : sc4_wf r -> sc4_wf (secp256k1_scalar_reduce r (b2z o)) /\
  sc4_val (secp256k1_scalar_reduce r (b2z o)) = (sc4_val r - b2z o * secp_n) mod 2 ^ 256.
Proof.
  intros H. sc_cases r H. set (l := [_; _; _; _]).
  pattern (secp256k1_scalar_reduce l (b2z o)). apply wp_intro. subst l.
  destruct o; cbv beta iota delta [secp256k1_scalar_reduce nth b2z]; const_words;
    repeat wp_step; wp_done; (split; [sc_words |]).
  - apply (mod_of_reduced _ _ (q2 - 1)); unfold sc4_val, secp_n; cbn [limbs_val];
      unfold Rng in *; lia.
  - apply (mod_of_reduced _ _ q2); unfold sc4_val, secp_n; cbn [limbs_val];
      unfold Rng in *; lia.
Qed.

(** A value below twice the order is reduced by one conditional subtraction. *)
Lemma sc4_reduce_once r t : sc4_wf r -> 0 <= t -> sc4_val r + 2 ^ 256 * t < 2 * secp_n ->
  let o := t + secp256k1_scalar_check_overflow r in
  o = b2z (secp_n <=? sc4_val r + 2 ^ 256 * t) /\
  secp256k1_scalar_reduce r o = sc4_of_Z (sc4_val r + 2 ^ 256 * t).
Proof.
  intros H Ht Hv o. unfold o. rewrite sc4_check_overflow_spec by exact H.
  destruct (subtract_once (sc4_val r) t (sc4_wf_bound r H) Ht Hv) as [-> E]. split; [reflexivity |].
  destruct (sc4_reduce_spec r (secp_n <=? sc4_val r + 2 ^ 256 * t) H) as [Hw Hr].
  apply sc4_eq; [exact Hw |]. now rewrite Hr.
Qed.

Lemma sc4_add_spec a b : sc4_ok a -> sc4_ok b ->
  secp256k1_scalar_add a b =
  (sc4_of_Z (sc4_val a + sc4_val b), b2z (secp_n <=? sc4_val a + sc4_val b)).
Proof.
  intros [Ha Na] [Hb Nb]. sc_cases a Ha. sc_cases b Hb.
  match goal with |- secp256k1_scalar_add ?x ?y = _ => pattern (secp256k1_scalar_add x y) end.
  apply wp_intro. cbv beta iota delta [secp256k1_scalar_add nth].
  repeat wp_step. wp_done. subst overflow r.
  set (r := [_; _; _; _]).
  assert (Hr : sc4_wf r) by sc_words.
  match goal with |- (secp256k1_scalar_reduce r (?q + _), _) = _ =>
    assert (E' : sc4_val r + 2 ^ 256 * q = sc4_val [a0; a1; a2; a3] + sc4_val [b0; b1; b2; b3]);
    [unfold r, sc4_val; cbn [limbs_val]; lia |];
    destruct (sc4_reduce_once r q Hr) as [-> ->]; [unfold Rng in *; lia | lia | now rewrite E']
  end.
Qed.

(** * Adding a bit *)

(** The words [cadd_bit] adds make up [2^bit], or nothing from [2^256] on. *)
Lemma sc4_cadd_words bit : 0 <= bit < 512 ->
  limbs_val 64 (map (cadd_word bit) [0; 1; 2; 3]) = if bit <? 256 then 2 ^ bit else 0.
Proof.
  intros Hb. destruct (offset_split 6 bit ltac:(lia) ltac:(lia)) as (E & Hs & Hq).
  unfold cadd_word. change 0x3F with (Z.ones 6). change (2 ^ 6) with 64 in *. cbn [map].
  set (s := bit .& Z.ones 6) in *. set (q := bit >> 6) in *.
  assert (0 < 2 ^ s) by (apply Z.pow_pos_nonneg; lia).
  assert (2 ^ s < 2 ^ 64) by (apply Z.pow_lt_mono_r; lia).
  assert (W : forall b, u64 (b2z b << s) = b2z b * 2 ^ s).
  { intros b. rewrite Z.shiftl_mul_pow2 by lia. apply u64_id. destruct b; cbn [b2z]; lia. }
  rewrite !W. cbn [limbs_val]. clearbody q s.
  destruct (Z.ltb_spec bit 256).
  - assert (2 ^ bit = 2 ^ (64 * q) * 2 ^ s) as -> by (rewrite E; apply Z.pow_add_r; lia).
    assert (q = 0 \/ q = 1 \/ q = 2 \/ q = 3) as Q by lia.
    decompose [or] Q; subst q; cbn [Z.eqb Pos.eqb b2z]; lia.
  - assert (F : forall k, k < 4 -> (q =? k) = false) by (intros; apply Z.eqb_neq; lia).
    rewrite !F by lia. reflexivity.
Qed.

Lemma sc4_cadd_bit_spec r bit flag : sc4_wf r -> 0 <= bit < 256 ->
  sc4_val r + b2z flag * 2 ^ bit < 2 ^ 256 ->
  secp256k1_scalar_cadd_bit r bit (b2z flag) = digits 64 4 (sc4_val r + b2z flag * 2 ^ bit).
Proof.
  intros H Hb Hv. sc_cases r H.
  assert (Ebit : u32 (bit + (u32 (b2z flag - 1) .& 0x100)) = if flag then bit else bit + 256).
  { destruct flag; cbn [b2z];
      [change (u32 (1 - 1) .& 0x100) with 0 | change (u32 (0 - 1) .& 0x100) with 256];
      rewrite u32_id; lia. }
  pose proof (sc4_cadd_words (if flag then bit else bit + 256)) as C.
  match goal with |- secp256k1_scalar_cadd_bit ?x _ _ = _ =>
    pattern (secp256k1_scalar_cadd_bit x bit (b2z flag)) end.
  apply wp_intro. cbv beta iota delta [secp256k1_scalar_cadd_bit nth]. rewrite Ebit.
  set (b := if flag then bit else bit + 256) in *. cbn [map limbs_val] in C.
  wp_name b' Eb. subst b'.
  assert (R : forall k, Rng (cadd_word b k) 0xFFFFFFFFFFFFFFFF) by (intros; apply rng_u64).
  generalize dependent (cadd_word b). intros w C R.
  repeat wp_step. wp_done.
  assert (EC : (if b <? 256 then 2 ^ b else 0) = b2z flag * 2 ^ bit)
    by (unfold b; destruct flag; zcases; cbn [b2z]; lia).
  rewrite EC in C. specialize (C ltac:(unfold b; destruct flag; lia)).
  apply sc4_digits_eq; [sc_words |]. unfold sc4_val in *; cbn [limbs_val] in *.
  clear EC Ebit. clearbody b. unfold Rng in *. lia.
Qed.

(** * Bytes *)

Lemma sc4_word_of_bytes_spec b0 b1 b2 b3 b4 b5 b6 b7 : limbs_lt 8 [b0; b1; b2; b3; b4; b5; b6; b7] ->
  word_of_bytes b0 b1 b2 b3 b4 b5 b6 b7 = limbs_val 8 [b0; b1; b2; b3; b4; b5; b6; b7].
Proof.
  intros H. repeat (apply Forall_cons_iff in H; destruct H as [? H]).
  unfold word_of_bytes. rewrite !u64_id by (rewrite Z.shiftl_mul_pow2; lia).
  rewrite (lor_shiftl b0 b1 8), (lor_shiftl _ b2 16), (lor_shiftl _ b3 24), (lor_shiftl _ b4 32),
    (lor_shiftl _ b5 40), (lor_shiftl _ b6 48), (lor_shiftl _ b7 56) by lia.
  cbn [limbs_val]. ring.
Qed.

Lemma sc4_set_b32_spec b : limbs_lt 8 b -> length b = 32%nat ->
  secp256k1_scalar_set_b32 b = (sc4_of_Z (be_val b), b2z (secp_n <=? be_val b)).
Proof.
  intros H L. list_cases b L. repeat (apply Forall_cons_iff in H; destruct H as [? H]).
  unfold secp256k1_scalar_set_b32. cbn [nth].
  rewrite !sc4_word_of_bytes_spec by (repeat constructor; lia).
  set (r := [_; _; _; _]).
  assert (Hr : sc4_wf r) by (split; [reflexivity |]; unfold r; cbn [limbs_val]; repeat constructor; lia).
  assert (E : sc4_val r = be_val [b0; b1; b2; b3; b4; b5; b6; b7; b8; b9; b10; b11; b12; b13; b14; b15;
    b16; b17; b18; b19; b20; b21; b22; b23; b24; b25; b26; b27; b28; b29; b30; b31])
    by (unfold r, sc4_val, be_val; cbn [limbs_val rev app]; ring).
  pose proof (sc4_wf_bound r Hr).
  destruct (sc4_reduce_once r 0 Hr) as [E0 E1]; [lia | unfold secp_n; lia |].
  rewrite Z.mul_0_r, Z.add_0_r, E in E0, E1. cbv zeta in *. now rewrite <- E1, <- E0.
Qed.

(** The bytes of a word are its base-256 digits, the highest first. *)
Lemma sc4_bytes_of_word_spec x : bytes_of_word x = rev (digits 8 8 x).
Proof.
  cbn [digits rev app]. unfold bytes_of_word, u8. rewrite !Z.shiftr_div_pow2, !div_div_pow by lia. reflexivity.
Qed.

Lemma sc4_get_b32_spec a : sc4_wf a -> secp256k1_scalar_get_b32 a = be_bytes 32 (sc4_val a).
Proof.
  intros H. sc_cases a H. unfold secp256k1_scalar_get_b32. cbn [nth]. rewrite !sc4_bytes_of_word_spec.
  rewrite <- !rev_app_distr, <- !app_assoc.
  assert (L : forall x, limbs_lt 8 (digits 8 8 x)) by (intros; apply limbs_lt_digits; lia).
  rewrite <- (digits_limbs_val 8 (digits 8 8 a0 ++ _)) by (lia || (repeat (apply Forall_app; split); apply L)).
  unfold be_bytes. rewrite !length_app, !length_digits. do 2 f_equal.
  rewrite !limbs_val_app, !length_digits, !limbs_val_digits by lia.
  change (8 * Z.of_nat 8) with 64. unfold Rng in *. rewrite !Z.mod_small by lia.
  unfold sc4_val; cbn [limbs_val]. ring.
Qed.

(** * Tests *)

Lemma sc4_is_zero_spec a : sc4_wf a -> secp256k1_scalar_is_zero a = b2z (sc4_val a =? 0).
Proof.
  intros H. sc_cases a H. cbv beta iota delta [secp256k1_scalar_is_zero nth]. f_equal.
  apply eq_true_iff_eq. rewrite !Z.eqb_eq, !Z.lor_eq_0_iff.
  unfold sc4_val; cbn [limbs_val]. unfold Rng in *. lia.
Qed.

Lemma sc4_is_one_spec a : sc4_wf a -> secp256k1_scalar_is_one a = b2z (sc4_val a =? 1).
Proof.
  intros H. sc_cases a H. cbv beta iota delta [secp256k1_scalar_is_one nth]. f_equal.
  apply eq_true_iff_eq. rewrite !Z.eqb_eq, !Z.lor_eq_0_iff, Z.lxor_eq_0_iff.
  unfold sc4_val; cbn [limbs_val]. unfold Rng in *. lia.
Qed.

Lemma sc4_eq_spec a b : sc4_wf a -> sc4_wf b ->
  secp256k1_scalar_eq a b = b2z (sc4_val a =? sc4_val b).
Proof.
  intros Ha Hb.
  assert (I : sc4_val a = sc4_val b -> a = b)
    by (intros E; rewrite (sc4_digits a Ha), (sc4_digits b Hb), E; reflexivity).
  destruct Ha as [La _], Hb as [Lb _]. list_cases a La. list_cases b Lb.
  cbv beta iota delta [secp256k1_scalar_eq nth]. f_equal.
  apply eq_true_iff_eq. rewrite !Z.eqb_eq, !Z.lor_eq_0_iff, !Z.lxor_eq_0_iff. split.
  - intros E. decompose [and] E. congruence.
  - intros E. injection (I E). tauto.
Qed.

(** * Negation *)

Lemma not64_spec x : Rng x 0xFFFFFFFFFFFFFFFF -> not64 x = 0xFFFFFFFFFFFFFFFF - x.
Proof. intros [H0 H1]. exact (lnot_word 64 x ltac:(lia) ltac:(lia)). Qed.

Lemma lxor_not64 x : Rng x 0xFFFFFFFFFFFFFFFF -> x .^ 0xFFFFFFFFFFFFFFFF = not64 x.
Proof. intros H. rewrite not64_spec by exact H. destruct H. exact (lxor_ones 64 x ltac:(lia) ltac:(lia)). Qed.

(** The two ways the code builds the mask of a scalar that is not zero. *)
Lemma sc4_nonzero_mask a : sc4_wf a -> let m := if sc4_val a =? 0 then 0 else 0xFFFFFFFFFFFFFFFF in
  u64 (0xFFFFFFFFFFFFFFFF * b2z (secp256k1_scalar_is_zero a =? 0)) = m /\
  u64 (b2z (negb (secp256k1_scalar_is_zero a =? 0)) - 1) = m.
Proof. intros H. rewrite sc4_is_zero_spec by exact H. now destruct (sc4_val a =? 0). Qed.

Lemma sc4_negate_spec a : sc4_ok a -> secp256k1_scalar_negate a = sc4_of_Z (- sc4_val a).
Proof.
  intros [Ha Hn]. destruct (sc4_nonzero_mask a Ha) as [M _]. pose proof (sc4_wf_bound a Ha) as B.
  destruct (Z.eqb_spec (sc4_val a) 0) as [Hz | Hz].
  - rewrite Hz. unfold secp256k1_scalar_negate. rewrite M. cbv zeta. now rewrite !Z.land_0_r.
  - unfold sc4_of_Z. rewrite <- (mod_of_reduced (- sc4_val a) (secp_n - sc4_val a) (-1)) by lia. clear B.
    apply sc4_digits_eq; sc_cases a Ha; set (y := [_; _; _; _]) in *;
      pattern (secp256k1_scalar_negate y); apply wp_intro; subst y;
      cbv beta iota delta [secp256k1_scalar_negate nth]; rewrite M, !not64_spec by assumption;
      cbv delta [SECP256K1_N_0 SECP256K1_N_1 SECP256K1_N_2 SECP256K1_N_3]; repeat wp_step; wp_done.
    + sc_words.
    + revert Hn. unfold sc4_val, secp_n; cbn [limbs_val]. unfold Rng in *. lia.
Qed.

(** With the mask clear the words pass through. *)
Lemma sc4_copy x : Rng x 0xFFFFFFFFFFFFFFFF -> u128 x = x /\ x .& 0xFFFFFFFFFFFFFFFF = x /\ x >> 64 = 0.
Proof.
  intros [? ?]. unfold u128. change 0xFFFFFFFFFFFFFFFF with (Z.ones 64).
  rewrite Z.shiftr_div_pow2, Z.land_ones by lia. rewrite !Z.mod_small, Z.div_small by lia. lia.
Qed.

Lemma sc4_cond_negate_spec r flag : sc4_ok r ->
  secp256k1_scalar_cond_negate r (b2z flag) =
  if flag then (sc4_of_Z (- sc4_val r), -1) else (r, 1).
Proof.
  intros Hr. destruct (sc4_nonzero_mask r (proj1 Hr)) as [M1 M2].
  unfold secp256k1_scalar_cond_negate. rewrite M2, <- M1. destruct flag.
  - rewrite <- sc4_negate_spec by exact Hr. destruct Hr as [Hr _]. sc_cases r Hr.
    unfold secp256k1_scalar_negate. cbn [nth].
    change (u64 (b2z (negb (z2b (b2z true))) - 1)) with 0xFFFFFFFFFFFFFFFF.
    rewrite !lxor_not64 by assumption.
    change (u64 (SECP256K1_N_0 + 1) .& 0xFFFFFFFFFFFFFFFF) with (SECP256K1_N_0 + 1).
    rewrite (Z.add_assoc (not64 r0)). reflexivity.
  - destruct Hr as [Hr Hn]. rewrite M1.
    change (u64 (b2z (negb (z2b (b2z false))) - 1)) with 0. rewrite !Z.land_0_r, !Z.lxor_0_r.
    change (2 * b2z (0 =? 0) - 1) with 1. cbv zeta.
    destruct (Z.eqb_spec (sc4_val r) 0) as [Hz | Hz].
    + rewrite !Z.land_0_r. f_equal. rewrite (sc4_digits r Hr), Hz. reflexivity.
    + f_equal. sc_cases r Hr. cbn [nth]. rewrite !Z.add_0_r.
      repeat match goal with R : Rng ?x _ |- _ =>
        destruct (sc4_copy x R) as (E1 & E2 & E3); rewrite ?E1, ?E2, ?E3, ?Z.add_0_l; clear E1 E2 E3 R end.
      reflexivity.
Qed.

(** * Bit access and shifts *)

(** The low bits as an [unsigned int]. *)
Lemma sc4_low_bits x count : 0 < count < 32 -> u32 (x .& (u64 (1 << count) - 1)) = x mod 2 ^ count.
Proof.
  intros H. assert (0 < 2 ^ count) by (apply Z.pow_pos_nonneg; lia).
  assert (2 ^ count < 2 ^ 32) by (apply Z.pow_lt_mono_r; lia).
  rewrite (u64_id (1 << count)) by (rewrite Z.shiftl_mul_pow2, Z.mul_1_l; lia).
  rewrite land_low by lia. apply u32_id. pose proof (Z.mod_pos_bound x (2 ^ count)). lia.
Qed.

Lemma sc4_get_bits_spec a offset count : sc4_wf a -> 0 <= offset -> 0 < count < 32 -> offset + count <= 256 ->
  (offset + count - 1) >> 6 = offset >> 6 ->
  secp256k1_scalar_get_bits a offset count = (sc4_val a / 2 ^ offset) mod 2 ^ count.
Proof.
  intros [L F] Ho Hc Hoc Hw.
  destruct (offset_split 6 offset ltac:(lia) ltac:(lia)) as (E & Hs & Hq).
  destruct (offset_split 6 (offset + count - 1) ltac:(lia) ltac:(lia)) as (E' & Hs' & Hq').
  unfold secp256k1_scalar_get_bits, sc4_val. rewrite sc4_low_bits, <- land_low by lia.
  change 0x3F with (Z.ones 6). change (2 ^ 6) with 64 in *.
  rewrite (bits_in_word 64) by (assumption || lia). now rewrite <- E.
Qed.

Lemma sc4_get_bits_var_spec a offset count : sc4_wf a -> 0 <= offset -> 0 < count < 32 ->
  offset + count <= 256 ->
  secp256k1_scalar_get_bits_var a offset count = (sc4_val a / 2 ^ offset) mod 2 ^ count.
Proof.
  intros Ha Ho Hc Hoc. unfold secp256k1_scalar_get_bits_var.
  destruct (Z.eqb_spec ((offset + count - 1) >> 6) (offset >> 6)) as [Hw | Hw].
  - apply sc4_get_bits_spec; assumption || lia.
  - destruct Ha as [L F].
    destruct (offset_split 6 offset ltac:(lia) ltac:(lia)) as (E & Hs & Hq).
    destruct (offset_split 6 (offset + count - 1) ltac:(lia) ltac:(lia)) as (E' & Hs' & Hq').
    rewrite sc4_low_bits by lia. change 0x3F with (Z.ones 6). change (2 ^ 6) with 64 in *. unfold u64, sc4_val.
    rewrite (word_across 64), mod_mod_pow by (assumption || lia). now rewrite <- E.
Qed.

Lemma sc4_shr_int_spec r n : sc4_wf r -> 0 < n < 16 ->
  secp256k1_scalar_shr_int r n = (digits 64 4 (sc4_val r / 2 ^ n), sc4_val r mod 2 ^ n).
Proof.
  intros H Hn. pose proof (sc4_wf_bound r H) as B. sc_cases r H.
  unfold secp256k1_scalar_shr_int. cbn [nth]. rewrite land_low, (Z.shiftr_div_pow2 r3) by lia.
  unfold u64. repeat match goal with |- context [(?x >> n) + (?y << _) mod _] =>
    let E := fresh in let L := fresh in
    destruct (shr_word 64 x y n) as [E L]; [lia | unfold Rng in *; lia |]; rewrite E; clear E end.
  assert (P : 0 < 2 ^ n) by (apply Z.pow_pos_nonneg; lia).
  assert (PQ : 2 ^ (64 - n) * 2 ^ n = 2 ^ 64) by (rewrite <- Z.pow_add_r by lia; f_equal; lia).
  assert (L3 : 0 <= r3 / 2 ^ n < 2 ^ 64).
  { unfold Rng in *. split; [apply Z.div_pos | apply Z.div_lt_upper_bound]; nia. }
  set (l := [_; _; _; _]).
  assert (V : sc4_val [r0; r1; r2; r3] = 2 ^ n * sc4_val l + r0 mod 2 ^ n).
  { unfold l, sc4_val; cbn [limbs_val]. rewrite <- PQ.
    pose proof (fun x => Z.div_mod x (2 ^ n) ltac:(lia)) as D.
    rewrite (D r0) at 1. rewrite (D r1) at 1. rewrite (D r2) at 1. rewrite (D r3) at 1. ring. }
  pose proof (Z.mod_pos_bound r0 (2 ^ n) P).
  f_equal.
  - apply sc4_digits_eq; [split; [reflexivity | repeat constructor; lia] |].
    apply Z.div_unique with (r0 mod 2 ^ n); [lia | exact V].
  - apply Z.mod_unique with (sc4_val l); [lia | exact V].
Qed.

Lemma sc4_split_128_spec a : sc4_wf a ->
  secp256k1_scalar_split_128 a =
  (digits 64 4 (sc4_val a mod 2 ^ 128), digits 64 4 (sc4_val a / 2 ^ 128)).
Proof.
  intros H. sc_cases a H. unfold secp256k1_scalar_split_128. cbn [nth].
  f_equal; (apply sc4_digits_eq; [sc_words |]).
  - apply (mod_of_reduced _ _ (limbs_val 64 [a2; a3])); unfold sc4_val; cbn [limbs_val];
      unfold Rng in *; lia.
  - unfold Rng in *. apply Z.div_unique with (limbs_val 64 [a0; a1]);
      unfold sc4_val; cbn [limbs_val]; lia.
Qed.
