(* ===== verification/Scalar4x64Mul.v ===== *)
(** Products of 4x64 scalars: the 512-bit product and square with a 160-bit
    accumulator, the three-stage reduction modulo the group order,
    multiplication and rounding shift. *)

From Stdlib Require Import ZArith Lia List Bool.
From S2P Require Import Prelude Limbs Accum ScalarSpec ScalarWords ScalarVal Scalar4x64 Scalar4x64Ops.
Import ListNotations.
Open Scope Z_scope.
Open Scope c_scope.

(** The words of a product, once all macros are run. *)
Ltac words_done :=
  wp_done; repeat match goal with H : acc_is _ _ _ _ _ |- _ => clear H end;
  split; [reflexivity |]; split; [repeat constructor; unfold Rng in *; lia |].

(** The 32-bit [c2] does not overflow: a column has at most four products. *)
Lemma sc4_mul_512_spec a b : sc4_wf a -> sc4_wf b ->
  length (secp256k1_scalar_mul_512 a b) = 8%nat /\
  limbs_lt 64 (secp256k1_scalar_mul_512 a b) /\
  limbs_val 64 (secp256k1_scalar_mul_512 a b) = sc4_val a * sc4_val b.
Proof.
  intros Ha Hb. sc_cases a Ha. sc_cases b Hb.
  match goal with |- context [secp256k1_scalar_mul_512 ?x ?y] =>
    pattern (secp256k1_scalar_mul_512 x y) end.
  apply wp_intro. cbv beta iota delta [secp256k1_scalar_mul_512 nth].
  repeat acc_step 64 32. words_done.
  unfold sc4_val; cbn [limbs_val]. solve_carries. ring.
Qed.

Lemma sc4_sqr_512_spec a : sc4_wf a ->
  length (secp256k1_scalar_sqr_512 a) = 8%nat /\
  limbs_lt 64 (secp256k1_scalar_sqr_512 a) /\
  limbs_val 64 (secp256k1_scalar_sqr_512 a) = sc4_val a * sc4_val a.
Proof.
  intros Ha. sc_cases a Ha.
  match goal with |- context [secp256k1_scalar_sqr_512 ?x] =>
    pattern (secp256k1_scalar_sqr_512 x) end.
  apply wp_intro. cbv beta iota delta [secp256k1_scalar_sqr_512 nth].
  repeat acc_step 64 32. words_done.
  unfold sc4_val; cbn [limbs_val]. solve_carries. ring.
Qed.

(** Evaluate the constant words. *)
Ltac n_c_words :=
  change SECP256K1_N_C_0 with 0x402DA1732FC9BEBF; change SECP256K1_N_C_1 with 0x4551231950B75FC4.

Lemma sc4_reduce_512_385_spec l : length l = 8%nat -> limbs_lt 64 l ->
  let m := scalar_reduce_512_385 l in
  length m = 7%nat /\ limbs_lt 64 m /\ m.[6] <= 1 /\
  limbs_val 64 m = limbs_val 64 (firstn 4 l) + (2 ^ 256 - secp_n) * limbs_val 64 (skipn 4 l).
Proof.
  intros L F. assert (H := conj L F). clear L F. sc_cases l H. cbv zeta.
  match goal with |- context [scalar_reduce_512_385 ?x] => pattern (scalar_reduce_512_385 x) end.
  apply wp_intro. cbv beta iota delta [scalar_reduce_512_385 nth]. n_c_words.
  repeat (acc_step 64 64 || wp_step). words_done. split; [cbn [nth]; unfold Rng in *; lia |].
  unfold secp_n. cbn [limbs_val firstn skipn]. solve_carries. ring.
Qed.

Lemma sc4_reduce_385_258_spec m : length m = 7%nat -> limbs_lt 64 m -> m.[6] <= 1 ->
  let p := scalar_reduce_385_258 m in
  length p = 5%nat /\ limbs_lt 64 p /\
  limbs_val 64 p = limbs_val 64 (firstn 4 m) + (2 ^ 256 - secp_n) * limbs_val 64 (skipn 4 m).
Proof.
  intros L F. assert (H := conj L F). clear L F. sc_cases m H. cbv zeta. intros H6.
  cbn [nth] in H6. assert (Rng m6 1) by (unfold Rng in *; lia).
  match goal with R : Rng m6 0xFFFFFFFFFFFFFFFF |- _ => clear R end.
  match goal with |- context [scalar_reduce_385_258 ?x] => pattern (scalar_reduce_385_258 x) end.
  apply wp_intro. cbv beta iota delta [scalar_reduce_385_258 nth]. n_c_words.
  repeat (acc_step 64 64 || wp_step). words_done.
  unfold secp_n. cbn [limbs_val firstn skipn]. solve_carries. ring.
Qed.

Lemma sc4_reduce_258_256_spec p : length p = 5%nat -> limbs_lt 64 p -> p.[4] <= 2 ->
  let '(r, c) := scalar_reduce_258_256 p in
  sc4_wf r /\ 0 <= c /\
  sc4_val r + 2 ^ 256 * c = limbs_val 64 (firstn 4 p) + (2 ^ 256 - secp_n) * p.[4].
Proof.
  intros L F. assert (H := conj L F). clear L F. sc_cases p H. cbv zeta. intros H4.
  cbn [nth] in H4. assert (Rng p4 2) by (unfold Rng in *; lia).
  match goal with R : Rng p4 0xFFFFFFFFFFFFFFFF |- _ => clear R end.
  match goal with |- context [scalar_reduce_258_256 ?x] => pattern (scalar_reduce_258_256 x) end.
  apply wp_intro. cbv beta iota delta [scalar_reduce_258_256 nth]. n_c_words.
  repeat wp_step. wp_done. split; [sc_words |]. split; [unfold Rng in *; lia |].
  unfold sc4_val, secp_n. cbn [limbs_val firstn nth]. solve_carries. ring.
Qed.

Lemma skipn_4_last p : length p = 5%nat -> limbs_val 64 (skipn 4 p) = p.[4].
Proof. intros L. list_cases p L. cbn. ring. Qed.

(** The stages keep the residue, and the last leaves a value below twice the
    order. *)
Lemma sc4_reduce_stages l : length l = 8%nat -> limbs_lt 64 l ->
  let m := scalar_reduce_512_385 l in let p := scalar_reduce_385_258 m in
  (length m = 7%nat /\ limbs_lt 64 m /\ m.[6] <= 1) /\ (length p = 5%nat /\ limbs_lt 64 p /\ p.[4] <= 2) /\
  forall v, v = limbs_val 64 (firstn 4 p) + (2 ^ 256 - secp_n) * p.[4] -> v < 2 * secp_n /\ v mod secp_n = limbs_val 64 l mod secp_n.
Proof.
  intros L F. cbv zeta. destruct (sc4_reduce_512_385_spec l L F) as (Lm & Fm & H6 & Vm).
  set (m := scalar_reduce_512_385 l) in *. clearbody m.
  destruct (sc4_reduce_385_258_spec m Lm Fm H6) as (Lp & Fp & Vp). set (p := scalar_reduce_385_258 m) in *. clearbody p.
  pose proof (words_split 64 4 l ltac:(lia) F ltac:(lia) eq_refl) as Sl.
  pose proof (words_split 64 4 m ltac:(lia) Fm ltac:(lia) eq_refl) as Sm.
  pose proof (words_split 64 4 p ltac:(lia) Fp ltac:(lia) eq_refl) as Sp. rewrite skipn_4_last in Sp by exact Lp.
  pose proof (limbs_val_bound 64 l ltac:(lia) F) as Tl. rewrite L in Tl.
  pose proof (fun r => three_folds _ _ _ _ _ _ _ _ _ r Tl Sl Vm Sm Vp Sp) as R.
  split; [now split |]. split; [exact (conj Lp (conj Fp (proj1 (R 0)))) | exact (fun v => proj2 (R v))].
Qed.

Lemma sc4_reduce_512_spec l : length l = 8%nat -> limbs_lt 64 l ->
  secp256k1_scalar_reduce_512 l = sc4_of_Z (limbs_val 64 l).
Proof.
  intros L F. unfold secp256k1_scalar_reduce_512. destruct (sc4_reduce_stages l L F) as (_ & (Lp & Fp & H4) & R). cbv zeta in *.
  set (p := scalar_reduce_385_258 (scalar_reduce_512_385 l)) in *. clearbody p.
  pose proof (sc4_reduce_258_256_spec p Lp Fp H4) as Hr.
  destruct (scalar_reduce_258_256 p) as [r c]. destruct Hr as (Wr & Hc & Vr).
  destruct (R _ Vr) as [Hv Hm]. destruct (sc4_reduce_once r c Wr Hc Hv) as [Eo Er]. cbv zeta in *.
  rewrite u32_id by (rewrite Eo; destruct (_ <=? _); cbn [b2z]; lia).
  rewrite Er. unfold sc4_of_Z. now rewrite Hm.
Qed.

Lemma sc4_mul_spec a b : sc4_wf a -> sc4_wf b ->
  secp256k1_scalar_mul a b = sc4_of_Z (sc4_val a * sc4_val b).
Proof.
  intros Ha Hb. destruct (sc4_mul_512_spec a b Ha Hb) as (L & F & V).
  unfold secp256k1_scalar_mul. now rewrite sc4_reduce_512_spec, V.
Qed.

Lemma sc4_sqr_spec a : sc4_wf a -> secp256k1_scalar_sqr a = sc4_of_Z (sc4_val a * sc4_val a).
Proof.
  intros Ha. destruct (sc4_sqr_512_spec a Ha) as (L & F & V).
  unfold secp256k1_scalar_sqr. now rewrite sc4_reduce_512_spec, V.
Qed.

(** * Rounded shift of a product *)

Lemma sc4_mul_shift_word_spec l shift k : length l = 8%nat -> limbs_lt 64 l -> 0 <= shift -> 0 <= k ->
  mul_shift_word l shift k = (limbs_val 64 l / 2 ^ (shift + 64 * k)) mod 2 ^ 64.
Proof.
  intros L F Hs Hk. destruct (offset_split 6 shift ltac:(lia) Hs) as (E & Hs' & Hq). change (2 ^ 6) with 64 in *.
  pose proof (shifted_word 64 l (shift >> 6) (shift .& Z.ones 6) k) as W. rewrite <- E in W.
  apply W; assumption || lia.
Qed.

(** The bit shifted out last. *)
Lemma sc4_round_bit_spec l shift : length l = 8%nat -> limbs_lt 64 l -> 0 < shift <= 512 ->
  (l.[Z.to_nat ((shift - 1) >> 6)] >> ((shift - 1) .& 0x3F)) .& 1 =
  (limbs_val 64 l / 2 ^ (shift - 1)) mod 2.
Proof.
  intros L F Hs. destruct (offset_split 6 (shift - 1) ltac:(lia) ltac:(lia)) as (E & Hs' & Hq).
  change (2 ^ 6) with 64 in *.
  pose proof (bits_in_word 64 l ltac:(lia) F ((shift - 1) >> 6) ((shift - 1) .& Z.ones 6) 1) as W.
  rewrite <- E in W. apply W; lia.
Qed.

Lemma sc4_mul_shift_digits W shift : 0 <= shift ->
  digits 64 4 (W / 2 ^ shift) =
  [(W / 2 ^ (shift + 64 * 0)) mod 2 ^ 64; (W / 2 ^ (shift + 64 * 1)) mod 2 ^ 64;
   (W / 2 ^ (shift + 64 * 2)) mod 2 ^ 64; (W / 2 ^ (shift + 64 * 3)) mod 2 ^ 64].
Proof.
  intros H. cbn [digits]. rewrite !div_div_pow by lia. rewrite <- !Z.add_assoc.
  change (64 * 0) with 0. rewrite Z.add_0_r. reflexivity.
Qed.

Lemma sc4_shift_512_spec a b l shift : sc4_ok a -> sc4_ok b -> 256 <= shift <= 512 ->
  length l = 8%nat -> limbs_lt 64 l -> limbs_val 64 l = sc4_val a * sc4_val b ->
  shift_512 l shift = digits 64 4 ((sc4_val a * sc4_val b + 2 ^ (shift - 1)) / 2 ^ shift).
Proof.
  intros [Ha Na] [Hb Nb] Hs L F V. unfold shift_512. cbv zeta.
  replace (if shift <? 320 then _ else 0) with (mul_shift_word l shift 3).
  2:{ unfold mul_shift_word. change (512 - 64 * 3) with 320. change (448 - 64 * 3) with 256.
      rewrite (proj2 (Z.ltb_ge shift 256)) by lia. cbn [andb]. now rewrite Z.lor_0_r. }
  rewrite !sc4_mul_shift_word_spec, sc4_round_bit_spec, <- sc4_mul_shift_digits by (assumption || lia).
  pose proof (sc4_wf_bound a Ha). pose proof (sc4_wf_bound b Hb).
  destruct (round_bit (limbs_val 64 l) shift) as (f & -> & R & B1 & B2); [rewrite V; nia | exact Hs |].
  rewrite sc4_cadd_bit_spec; rewrite ?sc4_val_digits by lia; try lia; [| apply sc4_wf_digits].
  now rewrite <- V, R.
Qed.

Lemma sc4_mul_shift_var_spec a b shift : sc4_ok a -> sc4_ok b -> 256 <= shift <= 512 ->
  secp256k1_scalar_mul_shift_var a b shift =
  digits 64 4 ((sc4_val a * sc4_val b + 2 ^ (shift - 1)) / 2 ^ shift).
Proof.
  intros Ha Hb Hs. destruct (sc4_mul_512_spec a b (proj1 Ha) (proj1 Hb)) as (L & F & V). now apply sc4_shift_512_spec.
Qed.

(** * The interface

    The 4x64 representation implements the scalar interface. *)

(** The representation with the given products: those above, or those in
    assembly. *)
Definition scalar_4x64_with (mul : secp256k1_scalar -> secp256k1_scalar -> secp256k1_scalar) (sqr : secp256k1_scalar -> secp256k1_scalar)
    (mul_shift_var : secp256k1_scalar -> secp256k1_scalar -> Z -> secp256k1_scalar) : ScalarImpl := {|
  scalar := secp256k1_scalar;
  sc_const := SECP256K1_SCALAR_CONST;
  sc_d0 a := a.[0];
  sc_clear := secp256k1_scalar_clear;
  sc_set_int := secp256k1_scalar_set_int;
  sc_get_bits := secp256k1_scalar_get_bits;
  sc_get_bits_var := secp256k1_scalar_get_bits_var;
  sc_set_b32 := secp256k1_scalar_set_b32;
  sc_get_b32 := secp256k1_scalar_get_b32;
  sc_add := secp256k1_scalar_add;
  sc_cadd_bit := secp256k1_scalar_cadd_bit;
  sc_mul := mul;
  sc_sqr := sqr;
  sc_shr_int := secp256k1_scalar_shr_int;
  sc_negate := secp256k1_scalar_negate;
  sc_is_zero := secp256k1_scalar_is_zero;
  sc_is_one := secp256k1_scalar_is_one;
  sc_is_high := secp256k1_scalar_is_high;
  sc_cond_negate := secp256k1_scalar_cond_negate;
  sc_eq := secp256k1_scalar_eq;
  sc_split_128 := secp256k1_scalar_split_128;
  sc_mul_shift_var := mul_shift_var
|}.

Lemma sc4_const_word x y : 0 <= x < 2 ^ 32 -> 0 <= y < 2 ^ 32 -> u64 (y << 32) .| x = x + 2 ^ 32 * y.
Proof.
  intros Hx Hy. rewrite Z.lor_comm, u64_id by (rewrite Z.shiftl_mul_pow2; lia). apply lor_shiftl; lia.
Qed.

Lemma sc4_const_spec d7 d6 d5 d4 d3 d2 d1 d0 : limbs_lt 32 [d0; d1; d2; d3; d4; d5; d6; d7] ->
  SECP256K1_SCALAR_CONST d7 d6 d5 d4 d3 d2 d1 d0 =
  digits 64 4 (limbs_val 32 [d0; d1; d2; d3; d4; d5; d6; d7]).
Proof.
  intros H. repeat (apply Forall_cons_iff in H; destruct H as [? H]).
  unfold SECP256K1_SCALAR_CONST. rewrite !sc4_const_word by assumption.
  apply sc4_digits_eq; [sc_words |]. unfold sc4_val. cbn [limbs_val]. ring.
Qed.

Lemma sc4_d0_spec a : sc4_wf a -> a.[0] mod 2 = sc4_val a mod 2.
Proof.
  intros H. sc_cases a H. cbn [nth]. unfold sc4_val; cbn [limbs_val].
  symmetry. apply (mod_eq_of _ _ (2 ^ 63 * limbs_val 64 [a1; a2; a3])); cbn [limbs_val]; lia.
Qed.

Lemma sc4_set_int_spec v : 0 <= v < 2 ^ 32 -> secp256k1_scalar_set_int v = digits 64 4 v.
Proof.
  intros H. apply sc4_digits_eq; [split; [reflexivity | repeat constructor; lia] |].
  unfold secp256k1_scalar_set_int, sc4_val. cbn [limbs_val]. ring.
Qed.

(** Bits within a 32-bit word are within a 64-bit word. *)
Lemma sc4_same_word x y : x / 32 = y / 32 -> x >> 6 = y >> 6.
Proof.
  intros E. rewrite !Z.shiftr_div_pow2 by lia. change (2 ^ 6) with (32 * 2).
  now rewrite <- !Z.div_div, E by lia.
Qed.

(** What the interface needs of them. *)
Definition mul64_ok (mul : secp256k1_scalar -> secp256k1_scalar -> secp256k1_scalar) : Prop :=
  forall a b, sc4_wf a -> sc4_wf b -> mul a b = sc4_of_Z (sc4_val a * sc4_val b).

Definition sqr64_ok (sqr : secp256k1_scalar -> secp256k1_scalar) : Prop :=
  forall a, sc4_wf a -> sqr a = sc4_of_Z (sc4_val a * sc4_val a).

Definition shift64_ok (mul_shift_var : secp256k1_scalar -> secp256k1_scalar -> Z -> secp256k1_scalar) : Prop :=
  forall a b shift, sc4_ok a -> sc4_ok b -> 256 <= shift <= 512 ->
  mul_shift_var a b shift = digits 64 4 ((sc4_val a * sc4_val b + 2 ^ (shift - 1)) / 2 ^ shift).

Section With.
Variable mul : secp256k1_scalar -> secp256k1_scalar -> secp256k1_scalar.
Variable sqr : secp256k1_scalar -> secp256k1_scalar.
Variable mul_shift_var : secp256k1_scalar -> secp256k1_scalar -> Z -> secp256k1_scalar.
Hypothesis mul_spec : mul64_ok mul.
Hypothesis sqr_spec : sqr64_ok sqr.
Hypothesis mul_shift_var_spec : shift64_ok mul_shift_var.
Local Abbreviation impl := (scalar_4x64_with mul sqr mul_shift_var).

Definition scalar_4x64_val_with : ScalarVal impl := {|
  swf := (sc4_wf : scalar (ScalarImpl := impl) -> Prop);
  sval := sc4_val;
  sof := digits 64 4;
  swf_bound := sc4_wf_bound;
  swf_sof := sc4_wf_digits;
  sval_sof := sc4_val_digits;
  sof_sval := sc4_digits;
  val_const := sc4_const_spec;
  val_d0 := sc4_d0_spec;
  val_clear := eq_refl;
  val_set_int := sc4_set_int_spec;
  val_get_bits a o c H Ho Hc Hoc E := sc4_get_bits_spec a o c H Ho Hc Hoc (sc4_same_word _ _ E);
  val_get_bits_var := sc4_get_bits_var_spec;
  val_set_b32 := sc4_set_b32_spec;
  val_get_b32 := sc4_get_b32_spec;
  val_add a b Ha Na Hb Nb := sc4_add_spec a b (conj Ha Na) (conj Hb Nb);
  val_cadd_bit := sc4_cadd_bit_spec;
  val_mul := mul_spec;
  val_sqr := sqr_spec;
  val_shr_int := sc4_shr_int_spec;
  val_negate a Ha Na := sc4_negate_spec a (conj Ha Na);
  val_is_zero := sc4_is_zero_spec;
  val_is_one := sc4_is_one_spec;
  val_is_high := sc4_is_high_spec;
  val_cond_negate a f Ha Na := sc4_cond_negate_spec a f (conj Ha Na);
  val_eq := sc4_eq_spec;
  val_split_128 := sc4_split_128_spec;
  val_mul_shift_var a b s Ha Na Hb Nb := mul_shift_var_spec a b s (conj Ha Na) (conj Hb Nb)
|}.

Definition scalar_4x64_laws_with : ScalarLaws impl := laws_of_sval scalar_4x64_val_with.
End With.

Definition scalar_4x64 : ScalarImpl := scalar_4x64_with secp256k1_scalar_mul secp256k1_scalar_sqr secp256k1_scalar_mul_shift_var.

Definition scalar_4x64_laws : ScalarLaws scalar_4x64 :=
  scalar_4x64_laws_with _ _ _ sc4_mul_spec sc4_sqr_spec sc4_mul_shift_var_spec.

(** * What the 4x64 scalar promises *)

(** C24. The 4x64 scalar: sum, negation, product and square return the canonical
    words of the result modulo the order, the folding rounds do so for every
    512-bit integer, and 32 bytes are read modulo the order and written back. *)
Theorem scalar_4x64_correct a b l s : sc4_ok a -> sc4_ok b -> length l = 8%nat -> limbs_lt 64 l -> limbs_lt 8 s -> length s = 32%nat ->
  secp256k1_scalar_add a b = (sc4_of_Z (sc4_val a + sc4_val b), b2z (secp_n <=? sc4_val a + sc4_val b)) /\
  secp256k1_scalar_negate a = sc4_of_Z (- sc4_val a) /\
  secp256k1_scalar_mul a b = sc4_of_Z (sc4_val a * sc4_val b) /\
  secp256k1_scalar_sqr a = sc4_of_Z (sc4_val a * sc4_val a) /\
  secp256k1_scalar_reduce_512 l = sc4_of_Z (limbs_val 64 l) /\
  secp256k1_scalar_set_b32 s = (sc4_of_Z (be_val s), b2z (secp_n <=? be_val s)) /\
  secp256k1_scalar_get_b32 a = be_bytes 32 (sc4_val a).
Proof.
  intros Ha Hb Ll Fl Fs Ls. split; [now apply sc4_add_spec |]. split; [now apply sc4_negate_spec |].
  split; [apply sc4_mul_spec; [apply Ha | apply Hb] |]. split; [apply sc4_sqr_spec, Ha |].
  split; [now apply sc4_reduce_512_spec |]. split; [now apply sc4_set_b32_spec | apply sc4_get_b32_spec, Ha].
Qed.

(** [n - 1], the largest scalar. *)
Definition sc4_max : secp256k1_scalar := sc4_of_Z (-1).

Lemma scalar_4x64_correct_witness :
  secp256k1_scalar_mul sc4_max sc4_max = sc4_of_Z (sc4_val sc4_max * sc4_val sc4_max) /\
  secp256k1_scalar_reduce_512 (repeat 0xFFFFFFFFFFFFFFFF 8) = sc4_of_Z (limbs_val 64 (repeat 0xFFFFFFFFFFFFFFFF 8)).
Proof.
  assert (H : sc4_ok sc4_max) by (split; [apply sc4_wf_digits | vm_compute; reflexivity]).
  destruct (scalar_4x64_correct sc4_max sc4_max (repeat 0xFFFFFFFFFFFFFFFF 8) (repeat 0x7F 32) H H) as (_ & _ & Em & _ & Er & _);
    [reflexivity | repeat constructor; lia | repeat constructor; lia | reflexivity |]. split; [exact Em | exact Er].
Defined.
