(* ===== verification/X86.v ===== *)
(** The x86-64 instructions that the inline assembly of the library uses, in
    the operand order of its sources (source first), with an executable
    semantics and the steps that run a program symbolically.

    Memory consists of objects, arrays of 64-bit words; a pointer is an object
    and a byte offset, and a program that computes with pointers or leaves an
    object is stuck.  Only the carry flag is modelled.  It is known after the
    additions; the other instructions leave it unknown, and an [adcq] that needs
    it then is stuck.  [Arg n] is the operand [%n] of the [asm] statement:
    the compiler replaces it by a register, a slot of the stack or a constant. *)

From Stdlib Require Import ZArith Lia List Bool.
From S2P Require Import Prelude Limbs.
Import ListNotations.
Open Scope Z_scope.
Open Scope c_scope.

(** * Syntax *)

Inductive reg : Type :=
  | RAX | RBX | RCX | RDX | RSI | RDI | R8 | R9 | R10 | R11 | R12 | R13 | R14 | R15.

Definition reg_eq_dec (a b : reg) : {a = b} + {a <> b}.
Proof. decide equality. Defined.

Inductive operand : Type :=
  | Imm (v : Z)
  | Reg (r : reg)
  | Mem (offset : Z) (base : reg)
  | Slot (n : nat)
  | Arg (n : nat).

Coercion Reg : reg >-> operand.

Inductive instr : Type :=
  | movq (src dst : operand)
  | addq (src dst : operand)
  | adcq (src dst : operand)
  | mulq (src : operand)
  | andq (src dst : operand)
  | orq (src dst : operand)
  | xorq (src dst : operand)
  | shlq (k : Z) (dst : operand)
  | shrq (k : Z) (dst : operand)
  | shrdq (k : Z) (src : reg) (dst : operand)
  | leaq (base index : reg) (scale : Z) (dst : reg).

(** The operands of the statement replaced by where the compiler put them. *)
Definition place (args : list operand) (o : operand) : operand :=
  match o with
  | Arg n => nth n args o
  | _ => o
  end.

Definition inst (args : list operand) (i : instr) : instr :=
  let p := place args in
  match i with
  | movq a b => movq (p a) (p b)
  | addq a b => addq (p a) (p b)
  | adcq a b => adcq (p a) (p b)
  | mulq a => mulq (p a)
  | andq a b => andq (p a) (p b)
  | orq a b => orq (p a) (p b)
  | xorq a b => xorq (p a) (p b)
  | shlq k b => shlq k (p b)
  | shrq k b => shrq k (p b)
  | shrdq k r b => shrdq k r (p b)
  | leaq a b k d => leaq a b k d
  end.

(** * State *)

Inductive val : Type :=
  | Word (v : Z)
  | Ptr (object : nat) (offset : Z).

Record regs : Type := Regs {
  rax : val; rbx : val; rcx : val; rdx : val; rsi : val; rdi : val; r8 : val; r9 : val;
  r10 : val; r11 : val; r12 : val; r13 : val; r14 : val; r15 : val
}.

Record state : Type := State {
  registers : regs;
  carry : option Z;
  slots : list val;
  objects : list (list Z)
}.

Definition get (g : regs) (r : reg) : val :=
  match r with
  | RAX => rax g | RBX => rbx g | RCX => rcx g | RDX => rdx g | RSI => rsi g | RDI => rdi g | R8 => r8 g
  | R9 => r9 g | R10 => r10 g | R11 => r11 g | R12 => r12 g | R13 => r13 g | R14 => r14 g | R15 => r15 g
  end.

Definition set (r : reg) (v : val) (g : regs) : regs :=
  let '(Regs a b c d si di x8 x9 x10 x11 x12 x13 x14 x15) := g in
  match r with
  | RAX => Regs v b c d si di x8 x9 x10 x11 x12 x13 x14 x15
  | RBX => Regs a v c d si di x8 x9 x10 x11 x12 x13 x14 x15
  | RCX => Regs a b v d si di x8 x9 x10 x11 x12 x13 x14 x15
  | RDX => Regs a b c v si di x8 x9 x10 x11 x12 x13 x14 x15
  | RSI => Regs a b c d v di x8 x9 x10 x11 x12 x13 x14 x15
  | RDI => Regs a b c d si v x8 x9 x10 x11 x12 x13 x14 x15
  | R8 => Regs a b c d si di v x9 x10 x11 x12 x13 x14 x15
  | R9 => Regs a b c d si di x8 v x10 x11 x12 x13 x14 x15
  | R10 => Regs a b c d si di x8 x9 v x11 x12 x13 x14 x15
  | R11 => Regs a b c d si di x8 x9 x10 v x12 x13 x14 x15
  | R12 => Regs a b c d si di x8 x9 x10 x11 v x13 x14 x15
  | R13 => Regs a b c d si di x8 x9 x10 x11 x12 v x14 x15
  | R14 => Regs a b c d si di x8 x9 x10 x11 x12 x13 v x15
  | R15 => Regs a b c d si di x8 x9 x10 x11 x12 x13 x14 v
  end.

Definition set_reg (r : reg) (v : val) (s : state) : state :=
  State (set r v (registers s)) (carry s) (slots s) (objects s).

Definition set_carry (c : option Z) (s : state) : state :=
  State (registers s) c (slots s) (objects s).

(** The word at [offset] of an object, if it is one. *)
Definition word_at (offset : Z) (o : list Z) : option nat :=
  let n := Z.to_nat (offset / 8) in
  if (offset mod 8 =? 0) && (0 <=? offset) && (n <? length o)%nat then Some n else None.

Definition load (s : state) (v : val) (offset : Z) : option val :=
  match v with
  | Word _ => None
  | Ptr k off =>
      match word_at (off + offset) (nth k (objects s) []) with
      | Some n => Some (Word (nth n (nth k (objects s) []) 0))
      | None => None
      end
  end.

Definition store (s : state) (v : val) (offset : Z) (x : Z) : option state :=
  match v with
  | Word _ => None
  | Ptr k off =>
      match word_at (off + offset) (nth k (objects s) []) with
      | Some n => Some (State (registers s) (carry s) (slots s) (upd k (upd n x (nth k (objects s) [])) (objects s)))
      | None => None
      end
  end.

Definition read (s : state) (o : operand) : option val :=
  match o with
  | Imm v => Some (Word v)
  | Reg r => Some (get (registers s) r)
  | Mem off b => load s (get (registers s) b) off
  | Slot n => nth_error (slots s) n
  | Arg _ => None
  end.

(** [xorq] of a register with itself clears it, whatever it holds. *)
Definition same_reg (a b : operand) : bool :=
  match a, b with
  | Reg a, Reg b => if reg_eq_dec a b then true else false
  | _, _ => false
  end.

(** A word that instructions compute with. *)
Definition read_word (s : state) (o : operand) : option Z :=
  match read s o with
  | Some (Word v) => Some v
  | _ => None
  end.

Definition write (o : operand) (v : val) (s : state) : option state :=
  match o with
  | Reg r => Some (set_reg r v s)
  | Mem off b => match v with Word x => store s (get (registers s) b) off x | Ptr _ _ => None end
  | Slot n =>
      match nth_error (slots s) n with
      | Some _ => Some (State (registers s) (carry s) (upd n v (slots s)) (objects s))
      | None => None
      end
  | Imm _ | Arg _ => None
  end.

(** * Execution *)

(** The word a register gets, and what is carried out of it. *)
Definition low64 (t : Z) : Z := t .& 0xFFFFFFFFFFFFFFFF.
Definition high64 (t : Z) : Z := t >> 64.

(** One instruction, followed by [next]. *)
Definition exec (i : instr) (s : state) (next : state -> option state) : option state :=
  match i with
  | movq a b =>
      match read s a with
      | Some v => match write b v s with Some s => next s | None => None end
      | None => None
      end
  | addq a b =>
      match read_word s b, read_word s a with
      | Some x, Some y =>
          let t := x + y in let v := low64 t in let c := high64 t in
          match write b (Word v) s with Some s => next (set_carry (Some c) s) | None => None end
      | _, _ => None
      end
  | adcq a b =>
      match read_word s b, read_word s a, carry s with
      | Some x, Some y, Some z =>
          let t := x + y + z in let v := low64 t in let c := high64 t in
          match write b (Word v) s with Some s => next (set_carry (Some c) s) | None => None end
      | _, _, _ => None
      end
  | mulq a =>
      match read_word s (Reg RAX), read_word s a with
      | Some x, Some y =>
          let t := x * y in let v := low64 t in let h := high64 t in
          next (set_carry None (set_reg RDX (Word h) (set_reg RAX (Word v) s)))
      | _, _ => None
      end
  | andq a b =>
      match read_word s b, read_word s a with
      | Some x, Some y =>
          let v := x .& y in match write b (Word v) s with Some s => next (set_carry None s) | None => None end
      | _, _ => None
      end
  | orq a b =>
      match read_word s b, read_word s a with
      | Some x, Some y =>
          let v := x .| y in match write b (Word v) s with Some s => next (set_carry None s) | None => None end
      | _, _ => None
      end
  | xorq a b =>
      if same_reg a b then match write b (Word 0) s with Some s => next (set_carry None s) | None => None end
      else match read_word s b, read_word s a with
      | Some x, Some y =>
          let v := x .^ y in match write b (Word v) s with Some s => next (set_carry None s) | None => None end
      | _, _ => None
      end
  | shlq k b =>
      match read_word s b with
      | Some x =>
          let v := u64 (x << k) in match write b (Word v) s with Some s => next (set_carry None s) | None => None end
      | None => None
      end
  | shrq k b =>
      match read_word s b with
      | Some x =>
          let v := x >> k in match write b (Word v) s with Some s => next (set_carry None s) | None => None end
      | None => None
      end
  | shrdq k r b =>
      match read_word s b, read_word s (Reg r) with
      | Some x, Some y =>
          let v := u64 ((x >> k) .| (y << (64 - k))) in
          match write b (Word v) s with Some s => next (set_carry None s) | None => None end
      | _, _ => None
      end
  | leaq a b k d =>
      match read_word s (Reg a), read_word s (Reg b) with
      | Some x, Some y => let v := u64 (x + y * k) in next (set_reg d (Word v) s)
      | _, _ => None
      end
  end.

Fixpoint run (p : list instr) (s : state) : option state :=
  match p with
  | [] => Some s
  | i :: p => exec i s (run p)
  end.

(** What a program leaves in object [k]. *)
Definition result (k : nat) (o : option state) : list Z :=
  match o with
  | Some s => nth k (objects s) []
  | None => []
  end.

(** Some registers to start from. *)
Definition regs0 : regs :=
  let z := Word 0 in Regs z z z z z z z z z z z z z z.

(** The program runs to its end, in a state that satisfies [P]. *)
Definition ends_in (P : state -> Prop) (o : option state) : Prop :=
  match o with
  | Some s => P s
  | None => False
  end.

(** It changes no object but the [k]-th, and what it leaves there satisfies [Q]. *)
Definition leaves (k : nat) (objs : list (list Z)) (Q : list Z -> Prop) : option state -> Prop :=
  ends_in (fun s => objects s = upd k (nth k (objects s) []) objs /\ Q (nth k (objects s) [])).

Lemma leaves_result k objs Q o : leaves k objs Q o -> Q (result k o).
Proof. destruct o; [exact (@proj2 _ _) | intros []]. Qed.

(** * Registers a program may change *)

Definition dest (o : operand) : list reg :=
  match o with Reg r => [r] | _ => [] end.

Definition writes (i : instr) : list reg :=
  match i with
  | movq _ b | addq _ b | adcq _ b | andq _ b | orq _ b | xorq _ b | shlq _ b | shrq _ b | shrdq _ _ b => dest b
  | mulq _ => [RAX; RDX]
  | leaq _ _ _ d => [d]
  end.

(** Only registers of [clobbers] are written. *)
Definition clobbers_only (clobbers : list reg) (p : list instr) : bool :=
  forallb (fun r => existsb (fun c => if reg_eq_dec r c then true else false) clobbers) (flat_map writes p).

Lemma get_set r r' v g : r <> r' -> get (set r v g) r' = get g r'.
Proof. intros N. destruct g, r, r'; reflexivity || now destruct N. Qed.

Lemma write_keeps o v s s' r : write o v s = Some s' -> ~ In r (dest o) -> get (registers s') r = get (registers s) r.
Proof.
  destruct o; cbn; intros E N; try discriminate.
  - injection E as <-. apply get_set. intros ->. now apply N; left.
  - destruct v; [| discriminate]. unfold store in E. destruct (get _ _); [discriminate |].
    destruct (word_at _ _); [injection E as <- | discriminate]. reflexivity.
  - destruct (nth_error _ _); [injection E as <- | discriminate]. reflexivity.
Qed.

Lemma exec_keeps i s next s' r : exec i s next = Some s' -> ~ In r (writes i) ->
  exists s1, next s1 = Some s' /\ get (registers s1) r = get (registers s) r.
Proof.
  intros E N. destruct i; cbn [exec writes] in E, N; cbv zeta in E;
    repeat match type of E with
           | match write ?o ?v ?s with _ => _ end = _ => let W := fresh "W" in destruct (write o v s) eqn:W; [| discriminate E]
           | match ?x with _ => _ end = _ => destruct x; [| discriminate E]
           | (if ?x then _ else _) = _ => destruct x
           end;
    first [ eexists; split; [exact E | cbn [set_carry registers]; eapply write_keeps; eassumption]
          | eexists; split; [exact E |]; cbn in N; cbn [set_carry set_reg registers]; rewrite !get_set by tauto; reflexivity ].
Qed.

Lemma run_keeps p : forall s s' r, run p s = Some s' -> ~ In r (flat_map writes p) -> get (registers s') r = get (registers s) r.
Proof.
  induction p as [| i p IH]; cbn [run flat_map]; intros s s' r E N; [now injection E as <- |].
  rewrite in_app_iff in N. destruct (exec_keeps i s _ s' r E ltac:(tauto)) as (s1 & E1 & <-). apply (IH s1); tauto.
Qed.

Lemma clobbers_only_run l p s s' r : clobbers_only l p = true -> run p s = Some s' -> ~ In r l ->
  get (registers s') r = get (registers s) r.
Proof.
  unfold clobbers_only. rewrite forallb_forall. intros C E N. apply (run_keeps p s s' r E). intros H.
  specialize (C r H). apply existsb_exists in C as (c & Hc & D). destruct (reg_eq_dec r c) as [-> |]; [now apply N | discriminate].
Qed.

(** * Symbolic execution

    A goal [wp (run p s) Q] is run one instruction at a time, as the [let]
    chains of the C functions are: every computed word becomes a variable with
    its equation and its range. *)

Lemma wp_run_cons i p s Q : wp (exec i s (run p)) Q -> wp (run (i :: p) s) Q.
Proof. exact id. Qed.

Lemma word_split t : t = low64 t + 2 ^ 64 * high64 t.
Proof. exact (split_bits 64 t ltac:(lia)). Qed.

Lemma rng_low64 t : 0 <= t -> Rng (low64 t) 0xFFFFFFFFFFFFFFFF.
Proof. intros H. apply rng_land; [exact H | apply rng_cst; reflexivity]. Qed.

(** A result that fits in a word. *)
Lemma wp_word_fits {T} e B (k : Z -> Z -> T) (Q : T -> Prop) : Rng e B -> (B <? 2 ^ 64) = true ->
  (forall t, t = e -> Rng t B -> wp (k t 0) Q) -> wp (let t := e in let v := low64 t in let c := high64 t in k v c) Q.
Proof.
  intros R HB H. apply Z.ltb_lt in HB. cbv zeta. assert (high64 e = 0) as E.
  { unfold high64. rewrite Z.shiftr_div_pow2 by lia. apply Z.div_small. unfold Rng in R. lia. }
  pose proof (word_split e) as S. rewrite E in S |- *. replace (low64 e) with e by lia. now apply H.
Qed.

(** A result that is split into a word and what is carried out of it. *)
Lemma wp_word_carry {T} e B (k : Z -> Z -> T) (Q : T -> Prop) : Rng e B ->
  (forall t c, t + 2 ^ 64 * c = e -> Rng t 0xFFFFFFFFFFFFFFFF -> Rng c (B >> 64) -> wp (k t c) Q) ->
  wp (let t := e in let v := low64 t in let c := high64 t in k v c) Q.
Proof.
  intros R H. cbv zeta. apply H; [symmetry; apply word_split | apply rng_low64, R | now apply rng_shiftr].
Qed.

(** The part below bit [k] of a word that is already split there. *)
Lemma land_split k r q : 0 <= k -> 0 <= r < 2 ^ k -> (r + 2 ^ k * q) .& Z.ones k = r.
Proof. intros Hk Hr. rewrite Z.land_ones, Z.mul_comm, Z.mod_add by lia. now apply Z.mod_small. Qed.

(** [shrdq]: the low bits of the upper word above the high bits of the lower. *)
Lemma shrd_join k q y B : 0 < k < 64 -> Rng q (2 ^ (64 - k) - 1) -> Rng y B -> B < 2 ^ k ->
  u64 (q .| (y << (64 - k))) = q + 2 ^ (64 - k) * y.
Proof.
  intros Hk Hq Hy HB. unfold Rng in *. rewrite lor_shiftl by lia. apply u64_id.
  assert (2 ^ 64 = 2 ^ (64 - k) * 2 ^ k) by (rewrite <- Z.pow_add_r by lia; f_equal; lia). nia.
Qed.

(** [orq] of a word shifted by [k] bits and one of [k] bits. *)
Lemma lor_join k v x q : 0 <= k -> v = x * 2 ^ k -> 0 <= q < 2 ^ k -> v .| q = v + q.
Proof.
  intros Hk -> Hq. rewrite Z.lor_comm, <- Z.shiftl_mul_pow2, lor_shiftl, Z.shiftl_mul_pow2 by lia. ring.
Qed.

(** Offsets and lengths are numbers: find the word. *)
Ltac find_word :=
  repeat match goal with
  | |- context [word_at ?x ?o] => let n := eval vm_compute in (word_at x o) in change (word_at x o) with n
  end.

Ltac unfold_exec :=
  cbv beta iota delta [exec read read_word write load store set_reg set_carry get set same_reg reg_eq_dec reg_rec reg_rect
    registers carry slots objects rax rbx rcx rdx rsi rdi r8 r9 r10 r11 r12 r13 r14 r15 nth nth_error upd].

(** Name a word with its carry. *)
Ltac x86_word :=
  lazymatch goal with
  | |- wp (let t := ?e in let v := low64 t in let c := high64 t in @?k v c) ?Q =>
      let R := fresh "R" in let t := fresh "t" in let c := fresh "k" in let E := fresh "E" in let Rt := fresh "R" in let Rc := fresh "R" in
      rng_of e R;
      first [ refine (wp_word_fits e _ k Q R eq_refl _); clear R; intros t E Rt
            | refine (wp_word_carry e _ k Q R _); clear R; intros t c E Rt Rc; rng_norm Rc; change (2 ^ 64) with 0x10000000000000000 in E ];
      cbv beta
  end.

(** Masks and shifts at bit [k] of a word, which is split there. *)
Ltac x86_bits x k :=
  tryif is_var x then split_at x k
  else lazymatch x with
  | ?r + ?p * ?q =>
      first [ match goal with |- context [Z.land x ?m] => replace (Z.land x m) with r by (symmetry; apply (land_split k r q); unfold Rng in *; lia) end
            | replace (Z.shiftr x k) with q by (symmetry; apply (shiftr_split k r q); unfold Rng in *; lia) ]
  end.

(** One step: an instruction, or a word it computes. *)
Ltac x86_step :=
  lazymatch goal with
  | |- wp (run (_ :: _) _) _ => apply wp_run_cons; unfold_exec; find_word; unfold_exec
  | |- wp (let t := _ in let v := low64 t in let c := high64 t in _) _ => x86_word
  | |- wp (let v := u64 (Z.lor (Z.shiftr ?x ?k) (Z.shiftl ?y ?k')) in _) _ => x86_bits x k
  | |- wp (let v := u64 (Z.lor ?q (Z.shiftl ?y ?k)) in _) _ =>
      let k' := eval vm_compute in (64 - k) in
      let p := eval vm_compute in (2 ^ k) in
      erewrite (shrd_join k' q y) by first [typeclasses eauto | lia]; change (2 ^ (64 - k')) with p
  | |- wp (let v := Z.land ?x ?m in _) _ => let k := eval vm_compute in (Z.log2 (m + 1)) in x86_bits x k
  | |- wp (let v := Z.shiftr ?x ?k in _) _ => x86_bits x k
  | E : ?x = ?t * ?p |- wp (let v := Z.lor ?x ?q in _) _ =>
      let k := eval vm_compute in (Z.log2 p) in
      rewrite (lor_join k x t q ltac:(lia) E) by (unfold Rng in *; lia)
  | |- wp (let v := _ in _) _ => wp_step
  end.

(** Write out the text of a program, from a state whose shape is known, and run it. *)
Ltac x86_run :=
  unfold leaves;
  match goal with |- ends_in _ (run ?p _) => let p' := eval vm_compute in p in change p with p' end;
  match goal with |- ends_in ?P ?o => refine (wp_intro o (ends_in P) _) end;
  repeat x86_step; cbv beta delta [wp]; cbn [run ends_in slots objects nth nth_error]; try (split; [reflexivity |]).

(** The equations of the words, solved for the low parts. *)
Ltac solve_words :=
  repeat match goal with R : Rng _ _ |- _ => clear R end;
  repeat match goal with
         | E : ?x + _ + _ = _ |- _ => apply (proj1 (Z.add_move_r _ _ _)) in E
         | E : ?x + _ = _ |- _ => is_var x; apply (proj1 (Z.add_move_r _ _ _)) in E; subst x
         | E : ?x = _ |- _ => is_var x; subst x
         end.
