(* ===== verification/Scalar4x64Asm.v ===== *)
(** Products of 4x64 scalars in x86-64 assembly, the [USE_ASM_X86_64] branches of
    [scalar_4x64_impl.h]: the five [asm] statements of the 512-bit product and
    square and of the reduction modulo the group order, run by the semantics of
    [X86].  They compute the same words as the branches in C. *)

From Stdlib Require Import ZArith Lia List Bool.
From S2P Require Import Prelude Limbs Accum ScalarSpec ScalarWords ScalarVal Scalar4x64 Scalar4x64Ops Scalar4x64Mul X86.
Import ListNotations.
Open Scope Z_scope.
Open Scope c_scope.

(** * The programs *)

(** Reduce 512 bits into 385: [%0] to [%6] are [m0] to [m6], [%8] and [%9] the words
    of [2^256 - n]; [l] is in [rsi]. *)
Definition reduce_512_asm_1 : list instr := [
    (* Preload. *)
    movq (Mem 32 RSI) R11; movq (Mem 40 RSI) R12; movq (Mem 48 RSI) R13; movq (Mem 56 RSI) R14;
    (* Initialize r8,r9,r10 *)
    movq (Mem 0 RSI) R8; xorq R9 R9; xorq R10 R10;
    (* (r8,r9) += n0 * c0 *)
    movq (Arg 8) RAX; mulq R11; addq RAX R8; adcq RDX R9;
    (* extract m0 *)
    movq R8 (Arg 0); xorq R8 R8;
    (* (r9,r10) += l1 *)
    addq (Mem 8 RSI) R9; adcq (Imm 0) R10;
    (* (r9,r10,r8) += n1 * c0 *)
    movq (Arg 8) RAX; mulq R12; addq RAX R9; adcq RDX R10; adcq (Imm 0) R8;
    (* (r9,r10,r8) += n0 * c1 *)
    movq (Arg 9) RAX; mulq R11; addq RAX R9; adcq RDX R10; adcq (Imm 0) R8;
    (* extract m1 *)
    movq R9 (Arg 1); xorq R9 R9;
    (* (r10,r8,r9) += l2 *)
    addq (Mem 16 RSI) R10; adcq (Imm 0) R8; adcq (Imm 0) R9;
    (* (r10,r8,r9) += n2 * c0 *)
    movq (Arg 8) RAX; mulq R13; addq RAX R10; adcq RDX R8; adcq (Imm 0) R9;
    (* (r10,r8,r9) += n1 * c1 *)
    movq (Arg 9) RAX; mulq R12; addq RAX R10; adcq RDX R8; adcq (Imm 0) R9;
    (* (r10,r8,r9) += n0 *)
    addq R11 R10; adcq (Imm 0) R8; adcq (Imm 0) R9;
    (* extract m2 *)
    movq R10 (Arg 2); xorq R10 R10;
    (* (r8,r9,r10) += l3 *)
    addq (Mem 24 RSI) R8; adcq (Imm 0) R9; adcq (Imm 0) R10;
    (* (r8,r9,r10) += n3 * c0 *)
    movq (Arg 8) RAX; mulq R14; addq RAX R8; adcq RDX R9; adcq (Imm 0) R10;
    (* (r8,r9,r10) += n2 * c1 *)
    movq (Arg 9) RAX; mulq R13; addq RAX R8; adcq RDX R9; adcq (Imm 0) R10;
    (* (r8,r9,r10) += n1 *)
    addq R12 R8; adcq (Imm 0) R9; adcq (Imm 0) R10;
    (* extract m3 *)
    movq R8 (Arg 3); xorq R8 R8;
    (* (r9,r10,r8) += n3 * c1 *)
    movq (Arg 9) RAX; mulq R14; addq RAX R9; adcq RDX R10; adcq (Imm 0) R8;
    (* (r9,r10,r8) += n2 *)
    addq R13 R9; adcq (Imm 0) R10; adcq (Imm 0) R8;
    (* extract m4 *)
    movq R9 (Arg 4);
    (* (r10,r8) += n3 *)
    addq R14 R10; adcq (Imm 0) R8;
    (* extract m5 *)
    movq R10 (Arg 5);
    (* extract m6 *)
    movq R8 (Arg 6)
  ].

(** Reduce 385 bits into 258: [%0] to [%4] are [p0] to [p4], [%5] to [%11] are [m0] to
    [m6]. *)
Definition reduce_512_asm_2 : list instr := [
    (* Preload *)
    movq (Arg 9) R11; movq (Arg 10) R12; movq (Arg 11) R13;
    (* Initialize (r8,r9,r10) *)
    movq (Arg 5) R8; xorq R9 R9; xorq R10 R10;
    (* (r8,r9) += m4 * c0 *)
    movq (Arg 12) RAX; mulq R11; addq RAX R8; adcq RDX R9;
    (* extract p0 *)
    movq R8 (Arg 0); xorq R8 R8;
    (* (r9,r10) += m1 *)
    addq (Arg 6) R9; adcq (Imm 0) R10;
    (* (r9,r10,r8) += m5 * c0 *)
    movq (Arg 12) RAX; mulq R12; addq RAX R9; adcq RDX R10; adcq (Imm 0) R8;
    (* (r9,r10,r8) += m4 * c1 *)
    movq (Arg 13) RAX; mulq R11; addq RAX R9; adcq RDX R10; adcq (Imm 0) R8;
    (* extract p1 *)
    movq R9 (Arg 1); xorq R9 R9;
    (* (r10,r8,r9) += m2 *)
    addq (Arg 7) R10; adcq (Imm 0) R8; adcq (Imm 0) R9;
    (* (r10,r8,r9) += m6 * c0 *)
    movq (Arg 12) RAX; mulq R13; addq RAX R10; adcq RDX R8; adcq (Imm 0) R9;
    (* (r10,r8,r9) += m5 * c1 *)
    movq (Arg 13) RAX; mulq R12; addq RAX R10; adcq RDX R8; adcq (Imm 0) R9;
    (* (r10,r8,r9) += m4 *)
    addq R11 R10; adcq (Imm 0) R8; adcq (Imm 0) R9;
    (* extract p2 *)
    movq R10 (Arg 2);
    (* (r8,r9) += m3 *)
    addq (Arg 8) R8; adcq (Imm 0) R9;
    (* (r8,r9) += m6 * c1 *)
    movq (Arg 13) RAX; mulq R13; addq RAX R8; adcq RDX R9;
    (* (r8,r9) += m5 *)
    addq R12 R8; adcq (Imm 0) R9;
    (* extract p3 *)
    movq R8 (Arg 3);
    (* (r9) += m6 *)
    addq R13 R9;
    (* extract p4 *)
    movq R9 (Arg 4)
  ].

(** Reduce 258 bits into 256: [%0] is [c], [%1] to [%5] are [p0] to [p4], and [%6],
    which is [rdi], is [r]. *)
Definition reduce_512_asm_3 : list instr := [
    (* Preload *)
    movq (Arg 5) R10;
    (* (rax,rdx) = p4 * c0 *)
    movq (Arg 7) RAX; mulq R10;
    (* (rax,rdx) += p0 *)
    addq (Arg 1) RAX; adcq (Imm 0) RDX;
    (* extract r0 *)
    movq RAX (Mem 0 RDI);
    (* Move to (r8,r9) *)
    movq RDX R8; xorq R9 R9;
    (* (r8,r9) += p1 *)
    addq (Arg 2) R8; adcq (Imm 0) R9;
    (* (r8,r9) += p4 * c1 *)
    movq (Arg 8) RAX; mulq R10; addq RAX R8; adcq RDX R9;
    (* Extract r1 *)
    movq R8 (Mem 8 RDI); xorq R8 R8;
    (* (r9,r8) += p4 *)
    addq R10 R9; adcq (Imm 0) R8;
    (* (r9,r8) += p2 *)
    addq (Arg 3) R9; adcq (Imm 0) R8;
    (* Extract r2 *)
    movq R9 (Mem 16 RDI); xorq R9 R9;
    (* (r8,r9) += p3 *)
    addq (Arg 4) R8; adcq (Imm 0) R9;
    (* Extract r3 *)
    movq R8 (Mem 24 RDI);
    (* Extract c *)
    movq R9 (Arg 0)
  ].

(** The product: [l] is in [rsi], [a] in [rdi] and [b] in [rdx]. *)
Definition mul_512_asm : list instr := [
    (* Preload *)
    movq (Mem 0 RDI) R15; movq (Mem 8 RDI) RBX; movq (Mem 16 RDI) RCX; movq (Mem 0 RDX) R11;
    movq (Mem 8 RDX) R12; movq (Mem 16 RDX) R13; movq (Mem 24 RDX) R14;
    (* (rax,rdx) = a0 * b0 *)
    movq R15 RAX; mulq R11;
    (* Extract l0 *)
    movq RAX (Mem 0 RSI);
    (* (r8,r9,r10) = (rdx) *)
    movq RDX R8; xorq R9 R9; xorq R10 R10;
    (* (r8,r9,r10) += a0 * b1 *)
    movq R15 RAX; mulq R12; addq RAX R8; adcq RDX R9; adcq (Imm 0) R10;
    (* (r8,r9,r10) += a1 * b0 *)
    movq RBX RAX; mulq R11; addq RAX R8; adcq RDX R9; adcq (Imm 0) R10;
    (* Extract l1 *)
    movq R8 (Mem 8 RSI); xorq R8 R8;
    (* (r9,r10,r8) += a0 * b2 *)
    movq R15 RAX; mulq R13; addq RAX R9; adcq RDX R10; adcq (Imm 0) R8;
    (* (r9,r10,r8) += a1 * b1 *)
    movq RBX RAX; mulq R12; addq RAX R9; adcq RDX R10; adcq (Imm 0) R8;
    (* (r9,r10,r8) += a2 * b0 *)
    movq RCX RAX; mulq R11; addq RAX R9; adcq RDX R10; adcq (Imm 0) R8;
    (* Extract l2 *)
    movq R9 (Mem 16 RSI); xorq R9 R9;
    (* (r10,r8,r9) += a0 * b3 *)
    movq R15 RAX; mulq R14; addq RAX R10; adcq RDX R8; adcq (Imm 0) R9;
    (* Preload a3 *)
    movq (Mem 24 RDI) R15;
    (* (r10,r8,r9) += a1 * b2 *)
    movq RBX RAX; mulq R13; addq RAX R10; adcq RDX R8; adcq (Imm 0) R9;
    (* (r10,r8,r9) += a2 * b1 *)
    movq RCX RAX; mulq R12; addq RAX R10; adcq RDX R8; adcq (Imm 0) R9;
    (* (r10,r8,r9) += a3 * b0 *)
    movq R15 RAX; mulq R11; addq RAX R10; adcq RDX R8; adcq (Imm 0) R9;
    (* Extract l3 *)
    movq R10 (Mem 24 RSI); xorq R10 R10;
    (* (r8,r9,r10) += a1 * b3 *)
    movq RBX RAX; mulq R14; addq RAX R8; adcq RDX R9; adcq (Imm 0) R10;
    (* (r8,r9,r10) += a2 * b2 *)
    movq RCX RAX; mulq R13; addq RAX R8; adcq RDX R9; adcq (Imm 0) R10;
    (* (r8,r9,r10) += a3 * b1 *)
    movq R15 RAX; mulq R12; addq RAX R8; adcq RDX R9; adcq (Imm 0) R10;
    (* Extract l4 *)
    movq R8 (Mem 32 RSI); xorq R8 R8;
    (* (r9,r10,r8) += a2 * b3 *)
    movq RCX RAX; mulq R14; addq RAX R9; adcq RDX R10; adcq (Imm 0) R8;
    (* (r9,r10,r8) += a3 * b2 *)
    movq R15 RAX; mulq R13; addq RAX R9; adcq RDX R10; adcq (Imm 0) R8;
    (* Extract l5 *)
    movq R9 (Mem 40 RSI);
    (* (r10,r8) += a3 * b3 *)
    movq R15 RAX; mulq R14; addq RAX R10; adcq RDX R8;
    (* Extract l6 *)
    movq R10 (Mem 48 RSI);
    (* Extract l7 *)
    movq R8 (Mem 56 RSI)
  ].

(** The square: [l] is in [rsi] and [a] in [rdi]. *)
Definition sqr_512_asm : list instr := [
    (* Preload *)
    movq (Mem 0 RDI) R11; movq (Mem 8 RDI) R12; movq (Mem 16 RDI) R13; movq (Mem 24 RDI) R14;
    (* (rax,rdx) = a0 * a0 *)
    movq R11 RAX; mulq R11;
    (* Extract l0 *)
    movq RAX (Mem 0 RSI);
    (* (r8,r9,r10) = (rdx,0) *)
    movq RDX R8; xorq R9 R9; xorq R10 R10;
    (* (r8,r9,r10) += 2 * a0 * a1 *)
    movq R11 RAX; mulq R12; addq RAX R8; adcq RDX R9; adcq (Imm 0) R10; addq RAX R8; adcq RDX R9;
    adcq (Imm 0) R10;
    (* Extract l1 *)
    movq R8 (Mem 8 RSI); xorq R8 R8;
    (* (r9,r10,r8) += 2 * a0 * a2 *)
    movq R11 RAX; mulq R13; addq RAX R9; adcq RDX R10; adcq (Imm 0) R8; addq RAX R9; adcq RDX R10;
    adcq (Imm 0) R8;
    (* (r9,r10,r8) += a1 * a1 *)
    movq R12 RAX; mulq R12; addq RAX R9; adcq RDX R10; adcq (Imm 0) R8;
    (* Extract l2 *)
    movq R9 (Mem 16 RSI); xorq R9 R9;
    (* (r10,r8,r9) += 2 * a0 * a3 *)
    movq R11 RAX; mulq R14; addq RAX R10; adcq RDX R8; adcq (Imm 0) R9; addq RAX R10; adcq RDX R8;
    adcq (Imm 0) R9;
    (* (r10,r8,r9) += 2 * a1 * a2 *)
    movq R12 RAX; mulq R13; addq RAX R10; adcq RDX R8; adcq (Imm 0) R9; addq RAX R10; adcq RDX R8;
    adcq (Imm 0) R9;
    (* Extract l3 *)
    movq R10 (Mem 24 RSI); xorq R10 R10;
    (* (r8,r9,r10) += 2 * a1 * a3 *)
    movq R12 RAX; mulq R14; addq RAX R8; adcq RDX R9; adcq (Imm 0) R10; addq RAX R8; adcq RDX R9;
    adcq (Imm 0) R10;
    (* (r8,r9,r10) += a2 * a2 *)
    movq R13 RAX; mulq R13; addq RAX R8; adcq RDX R9; adcq (Imm 0) R10;
    (* Extract l4 *)
    movq R8 (Mem 32 RSI); xorq R8 R8;
    (* (r9,r10,r8) += 2 * a2 * a3 *)
    movq R13 RAX; mulq R14; addq RAX R9; adcq RDX R10; adcq (Imm 0) R8; addq RAX R9; adcq RDX R10;
    adcq (Imm 0) R8;
    (* Extract l5 *)
    movq R9 (Mem 40 RSI);
    (* (r10,r8) += a3 * a3 *)
    movq R14 RAX; mulq R14; addq RAX R10; adcq RDX R8;
    (* Extract l6 *)
    movq R10 (Mem 48 RSI);
    (* Extract l7 *)
    movq R8 (Mem 56 RSI)
  ].

(** * The functions *)

(** [l] is object 2, [a] and [b] are objects 0 and 1. *)
Definition secp256k1_scalar_mul_512 (g : regs) (a b x : list Z) : option state :=
  run mul_512_asm (State (set RSI (Ptr 2 0) (set RDI (Ptr 0 0) (set RDX (Ptr 1 0) g))) None [] [a; b; x]).

Definition secp256k1_scalar_sqr_512 (g : regs) (a x : list Z) : option state :=
  run sqr_512_asm (State (set RSI (Ptr 1 0) (set RDI (Ptr 0 0) g)) None [] [a; x]).

(** Words whose value is that of [m] up to what was carried out of them. *)
Lemma words_carry l m k : limbs_lt 64 l -> limbs_lt 64 m -> length l = length m -> 0 <= k ->
  limbs_val 64 l + 2 ^ (64 * Z.of_nat (length l)) * k = limbs_val 64 m -> l = m.
Proof.
  intros Hl Hm L Hk E. pose proof (limbs_val_bound 64 l ltac:(lia) Hl). pose proof (limbs_val_bound 64 m ltac:(lia) Hm) as B.
  rewrite <- L in B. apply (limbs_val_inj 64); try assumption || lia. assert (k = 0) by nia. subst k. lia.
Qed.

Ltac words_lt := repeat constructor; unfold Rng in *; lia.

Lemma mul_512_asm_spec g a b x : sc4_wf a -> sc4_wf b -> length x = 8%nat ->
  leaves 2 [a; b; x] (fun l => l = Scalar4x64.secp256k1_scalar_mul_512 a b) (secp256k1_scalar_mul_512 g a b x).
Proof.
  intros Ha Hb Hx. destruct (sc4_mul_512_spec a b Ha Hb) as (L & F & V). set (m := Scalar4x64.secp256k1_scalar_mul_512 a b) in *. clearbody m.
  sc_cases a Ha. sc_cases b Hb. list_cases x Hx. destruct g.
  unfold secp256k1_scalar_mul_512. x86_run.
  apply (words_carry _ m k43); [words_lt | exact F | now rewrite L | unfold Rng in *; lia |].
  rewrite V. unfold sc4_val. cbn [limbs_val length]. change (2 ^ (64 * Z.of_nat 8)) with (2 ^ 512). solve_words. ring.
Qed.

Lemma sqr_512_asm_spec g a x : sc4_wf a -> length x = 8%nat ->
  leaves 1 [a; x] (fun l => l = Scalar4x64.secp256k1_scalar_sqr_512 a) (secp256k1_scalar_sqr_512 g a x).
Proof.
  intros Ha Hx. destruct (sc4_sqr_512_spec a Ha) as (L & F & V). set (m := Scalar4x64.secp256k1_scalar_sqr_512 a) in *. clearbody m.
  sc_cases a Ha. list_cases x Hx. destruct g.
  unfold secp256k1_scalar_sqr_512. x86_run.
  apply (words_carry _ m k37); [words_lt | exact F | now rewrite L | unfold Rng in *; lia |].
  rewrite V. unfold sc4_val. cbn [limbs_val length]. change (2 ^ (64 * Z.of_nat 8)) with (2 ^ 512). solve_words. ring.
Qed.

(** The frame: [m0] to [m6] are slots 0 to 6, [p0] to [p4] slots 7 to 11, [c] slot 12. *)
Definition m_slots : list operand := map Slot (seq 0 7).
Definition p_slots : list operand := map Slot (seq 7 5).
Definition n_c : list operand := [Imm SECP256K1_N_C_0; Imm SECP256K1_N_C_1].

Definition reduce_512_385 (g : regs) (frame : list val) (l x : list Z) : option state :=
  run (map (inst (m_slots ++ Reg RSI :: n_c)) reduce_512_asm_1) (State (set RSI (Ptr 0 0) g) None frame [l; x]).

Definition reduce_385_258 (g : regs) (frame : list val) (l x : list Z) : option state :=
  run (map (inst (p_slots ++ m_slots ++ n_c)) reduce_512_asm_2) (State g None frame [l; x]).

Definition reduce_258_256 (g : regs) (frame : list val) (l x : list Z) : option state :=
  run (map (inst (Slot 12 :: p_slots ++ Reg RDI :: n_c)) reduce_512_asm_3) (State (set RDI (Ptr 1 0) g) None frame [l; x]).

Lemma reduce_512_385_asm_spec g frame l x : length l = 8%nat -> limbs_lt 64 l -> length frame = 13%nat ->
  ends_in (fun s => objects s = [l; x] /\ slots s = map Word (scalar_reduce_512_385 l) ++ skipn 7 frame) (reduce_512_385 g frame l x).
Proof.
  intros L F Lf. destruct (sc4_reduce_512_385_spec l L F) as (Lm & Fm & H6 & V). set (m := scalar_reduce_512_385 l) in *. clearbody m.
  assert (H := conj L F). clear L F. sc_cases l H. list_cases frame Lf. destruct g.
  unfold reduce_512_385. x86_run.
  refine (f_equal (fun m => map Word m ++ _) (_ : [t1; t10; t24; t38; t45; t48; t49] = m)).
  apply (words_carry _ m 0); [words_lt | exact Fm | now rewrite Lm | lia |].
  rewrite V. unfold secp_n. cbn [limbs_val length firstn skipn]. solve_words. ring.
Qed.

Lemma reduce_385_258_asm_spec g m rest l x : length m = 7%nat -> limbs_lt 64 m -> m.[6] <= 1 -> length rest = 6%nat ->
  ends_in (fun s => objects s = [l; x] /\ slots s = map Word m ++ map Word (scalar_reduce_385_258 m) ++ skipn 5 rest)
    (reduce_385_258 g (map Word m ++ rest) l x).
Proof.
  intros L F H6 Lr. destruct (sc4_reduce_385_258_spec m L F H6) as (Lp & Fp & V). set (p := scalar_reduce_385_258 m) in *. clearbody p.
  assert (H := conj L F). clear L F. sc_cases m H. list_cases rest Lr. destruct g. cbn [nth] in H6.
  assert (Rng m6 1) by (unfold Rng in *; lia). match goal with R : Rng m6 0xFFFFFFFFFFFFFFFF |- _ => clear R end.
  unfold reduce_385_258. cbn [map app]. x86_run.
  refine (f_equal (fun p => Word m0 :: Word m1 :: Word m2 :: Word m3 :: Word m4 :: Word m5 :: Word m6 :: map Word p ++ _)
    (_ : [t1; t10; t24; t32; t34] = p)).
  apply (words_carry _ p 0); [words_lt | exact Fp | now rewrite Lp | lia |].
  rewrite V. unfold secp_n. cbn [limbs_val length firstn skipn]. solve_words. ring.
Qed.

(** A scalar and what was carried out of it are determined by their value. *)
Lemma words_top d r t o : sc4_wf d -> sc4_wf r -> sc4_val d + 2 ^ 256 * t = sc4_val r + 2 ^ 256 * o -> d = r /\ t = o.
Proof.
  intros Hd Hr E. pose proof (sc4_wf_bound d Hd). pose proof (sc4_wf_bound r Hr). assert (t = o) by nia. subst t.
  split; [| reflexivity]. apply (limbs_val_inj 64); [lia | apply Hd | apply Hr | now rewrite (proj1 Hd), (proj1 Hr) | unfold sc4_val in E; lia].
Qed.

Lemma reduce_258_256_asm_spec g ms p c l x : length ms = 7%nat -> length p = 5%nat -> limbs_lt 64 p -> p.[4] <= 2 -> length x = 4%nat ->
  ends_in (fun s => objects s = [l; fst (scalar_reduce_258_256 p)] /\ nth_error (slots s) 12 = Some (Word (snd (scalar_reduce_258_256 p))))
    (reduce_258_256 g (ms ++ map Word p ++ [c]) l x).
Proof.
  intros Lm L F H4 Lx. pose proof (sc4_reduce_258_256_spec p L F H4) as H. destruct (scalar_reduce_258_256 p) as [r o].
  destruct H as ((Lr & Fr) & Ho & V). cbn [fst snd].
  assert (H := conj L F). clear L F. sc_cases p H. list_cases ms Lm. list_cases x Lx. destruct g. cbn [nth] in H4, V.
  assert (Rng p4 2) by (unfold Rng in *; lia). match goal with R : Rng p4 0xFFFFFFFFFFFFFFFF |- _ => clear R end.
  unfold reduce_258_256. cbn [map app]. x86_run.
  destruct (words_top [t1; t6; t10; t12] r t13 o) as [-> ->]; [sc_words | now split | | now split].
  rewrite V. unfold sc4_val, secp_n. cbn [limbs_val firstn]. solve_words. ring.
Qed.

(** The registers may hold anything before each statement, apart from the
    operands; [r] is object 1. *)
Definition secp256k1_scalar_reduce_512 (g1 g2 g3 : regs) (frame : list val) (l x : list Z) : option secp256k1_scalar :=
  let* s := reduce_512_385 g1 frame l x in
  let* s := reduce_385_258 g2 (slots s) l x in
  let* s := reduce_258_256 g3 (slots s) l x in
  let* c := read_word s (Slot 12) in
  let r := nth 1 (objects s) [] in
  Some (secp256k1_scalar_reduce r (u32 (c + secp256k1_scalar_check_overflow r))).

Lemma reduce_512_asm_spec g1 g2 g3 frame l x : length l = 8%nat -> limbs_lt 64 l -> length frame = 13%nat -> length x = 4%nat ->
  secp256k1_scalar_reduce_512 g1 g2 g3 frame l x = Some (Scalar4x64.secp256k1_scalar_reduce_512 l).
Proof.
  intros L F Lf Lx. unfold secp256k1_scalar_reduce_512, Scalar4x64.secp256k1_scalar_reduce_512.
  destruct (sc4_reduce_stages l L F) as ((Lm & Fm & H6) & (Lp & Fp & H4) & _). cbv zeta in *.
  pose proof (reduce_512_385_asm_spec g1 frame l x L F Lf) as A1. set (m := scalar_reduce_512_385 l) in *. clearbody m.
  destruct (reduce_512_385 g1 frame l x) as [s1 |]; [destruct A1 as [_ E1] | destruct A1].
  pose proof (reduce_385_258_asm_spec g2 m (skipn 7 frame) l x Lm Fm H6 ltac:(rewrite length_skipn, Lf; reflexivity)) as A2.
  set (p := scalar_reduce_385_258 m) in *. clearbody p. cbn [bind]. rewrite E1.
  destruct (reduce_385_258 g2 _ l x) as [s2 |]; [destruct A2 as [_ E2] | destruct A2]. cbn [bind]. rewrite E2.
  destruct (skipn 5 (skipn 7 frame)) as [| c []] eqn:Ec; try (apply (f_equal (@length _)) in Ec; rewrite !length_skipn, Lf in Ec; discriminate Ec).
  pose proof (reduce_258_256_asm_spec g3 (map Word m) p c l x ltac:(now rewrite length_map) Lp Fp H4 Lx) as A3.
  destruct (reduce_258_256 g3 _ l x) as [s3 |]; [destruct A3 as [E3 E4] | destruct A3].
  cbn [bind]. unfold read_word, read. rewrite E3, E4. destruct (scalar_reduce_258_256 p) as [r o]. reflexivity.
Qed.

(** * Registers

    Each statement with its operands placed, and the registers it declares as
    changed. *)
Definition scalar_statements : list (list instr * list reg) := [
  (mul_512_asm, [RDX; RAX; RBX; RCX; R8; R9; R10; R11; R12; R13; R14; R15]);
  (sqr_512_asm, [RAX; RDX; R8; R9; R10; R11; R12; R13; R14]);
  (map (inst (m_slots ++ Reg RSI :: n_c)) reduce_512_asm_1, [RAX; RDX; R8; R9; R10; R11; R12; R13; R14]);
  (map (inst (p_slots ++ m_slots ++ n_c)) reduce_512_asm_2, [RAX; RDX; R8; R9; R10; R11; R12; R13]);
  (map (inst (Slot 12 :: p_slots ++ Reg RDI :: n_c)) reduce_512_asm_3, [RAX; RDX; R8; R9; R10])
].

Lemma scalar_clobbers : Forall (fun '(p, c) => clobbers_only c p = true) scalar_statements.
Proof. repeat constructor. Qed.

(** The constraint of [m0] is not an early clobber, so that it may share the
    register of [l]; the statement then loses [l] before it has read it all. *)
Definition reduce_512_385_shared (g : regs) (frame : list val) (l x : list Z) : option state :=
  run (map (inst (Reg RSI :: tl m_slots ++ Reg RSI :: n_c)) reduce_512_asm_1) (State (set RSI (Ptr 0 0) g) None frame [l; x]).

Lemma reduce_512_385_shared_stuck g frame l x : length l = 8%nat -> reduce_512_385_shared g frame l x = None.
Proof. intros L. list_cases l L. destruct g. reflexivity. Qed.

(** * The scalar built with the assembly *)

Definition product_512 (a b : secp256k1_scalar) : list Z := result 2 (secp256k1_scalar_mul_512 regs0 a b (repeat 0 8)).

Definition square_512 (a : secp256k1_scalar) : list Z := result 1 (secp256k1_scalar_sqr_512 regs0 a (repeat 0 8)).

Definition reduced_512 (l : list Z) : secp256k1_scalar :=
  match secp256k1_scalar_reduce_512 regs0 regs0 regs0 (repeat (Word 0) 13) l (repeat 0 4) with
  | Some r => r
  | None => []
  end.

Definition secp256k1_scalar_mul (a b : secp256k1_scalar) : secp256k1_scalar := reduced_512 (product_512 a b).

Definition secp256k1_scalar_sqr (a : secp256k1_scalar) : secp256k1_scalar := reduced_512 (square_512 a).

Definition secp256k1_scalar_mul_shift_var (a b : secp256k1_scalar) (shift : Z) : secp256k1_scalar :=
  shift_512 (product_512 a b) shift.

Lemma product_512_ok a b : sc4_wf a -> sc4_wf b -> product_512 a b = Scalar4x64.secp256k1_scalar_mul_512 a b.
Proof. intros Ha Hb. exact (leaves_result _ _ _ _ (mul_512_asm_spec regs0 a b (repeat 0 8) Ha Hb eq_refl)). Qed.

Lemma square_512_ok a : sc4_wf a -> square_512 a = Scalar4x64.secp256k1_scalar_sqr_512 a.
Proof. intros Ha. exact (leaves_result _ _ _ _ (sqr_512_asm_spec regs0 a (repeat 0 8) Ha eq_refl)). Qed.

Lemma reduced_512_ok l : length l = 8%nat -> limbs_lt 64 l -> reduced_512 l = sc4_of_Z (limbs_val 64 l).
Proof. intros L F. unfold reduced_512. rewrite reduce_512_asm_spec by auto. now apply sc4_reduce_512_spec. Qed.

Lemma mul_asm_ok a b : sc4_wf a -> sc4_wf b -> secp256k1_scalar_mul a b = sc4_of_Z (sc4_val a * sc4_val b).
Proof.
  intros Ha Hb. destruct (sc4_mul_512_spec a b Ha Hb) as (L & F & V).
  unfold secp256k1_scalar_mul. now rewrite product_512_ok, reduced_512_ok, V.
Qed.

Lemma sqr_asm_ok a : sc4_wf a -> secp256k1_scalar_sqr a = sc4_of_Z (sc4_val a * sc4_val a).
Proof.
  intros Ha. destruct (sc4_sqr_512_spec a Ha) as (L & F & V).
  unfold secp256k1_scalar_sqr. now rewrite square_512_ok, reduced_512_ok, V.
Qed.

Lemma mul_shift_var_asm_ok a b shift : sc4_ok a -> sc4_ok b -> 256 <= shift <= 512 ->
  secp256k1_scalar_mul_shift_var a b shift = digits 64 4 ((sc4_val a * sc4_val b + 2 ^ (shift - 1)) / 2 ^ shift).
Proof.
  intros Ha Hb Hs. unfold secp256k1_scalar_mul_shift_var. rewrite product_512_ok by (apply Ha || apply Hb).
  now apply sc4_mul_shift_var_spec.
Qed.

Definition scalar_4x64_asm : ScalarImpl := scalar_4x64_with secp256k1_scalar_mul secp256k1_scalar_sqr secp256k1_scalar_mul_shift_var.

Definition scalar_4x64_asm_laws : ScalarLaws scalar_4x64_asm := scalar_4x64_laws_with _ _ _ mul_asm_ok sqr_asm_ok mul_shift_var_asm_ok.

(** C26. The assembly of the scalars computes what the C branches do: from any
    registers and stack frame, the product, the square and the reduction of
    512 bits run to their end, write nothing but their results, which are the
    same words, and change no register they do not declare.  This needs the
    outputs of the first reduction to be placed away from [rsi]: with [m0] in
    that register, which its constraint allows, the statement reads memory
    through [m0] and does not compute the reduction. *)
Theorem scalar_asm_equivalent g g2 g3 frame a b l x y : sc4_wf a -> sc4_wf b -> length l = 8%nat -> limbs_lt 64 l ->
  length frame = 13%nat -> length x = 8%nat -> length y = 4%nat ->
  leaves 2 [a; b; x] (fun r => r = Scalar4x64.secp256k1_scalar_mul_512 a b) (secp256k1_scalar_mul_512 g a b x) /\
  leaves 1 [a; x] (fun r => r = Scalar4x64.secp256k1_scalar_sqr_512 a) (secp256k1_scalar_sqr_512 g a x) /\
  secp256k1_scalar_reduce_512 g g2 g3 frame l y = Some (Scalar4x64.secp256k1_scalar_reduce_512 l) /\
  (forall p c s s' q, In (p, c) scalar_statements -> run p s = Some s' -> ~ In q c -> get (registers s') q = get (registers s) q) /\
  reduce_512_385_shared g frame l y = None.
Proof.
  intros Ha Hb L F Lf Lx Ly. split; [now apply mul_512_asm_spec |]. split; [now apply sqr_512_asm_spec |].
  split; [now apply reduce_512_asm_spec |]. split; [| now apply reduce_512_385_shared_stuck].
  intros p c s s' q Hp. pose proof (proj1 (Forall_forall _ _) scalar_clobbers _ Hp) as C. exact (clobbers_only_run c p s s' q C).
Qed.

Lemma scalar_asm_equivalent_witness :
  secp256k1_scalar_reduce_512 regs0 regs0 regs0 (repeat (Word 0) 13) (repeat 0xFFFFFFFFFFFFFFFF 8) (repeat 0 4) =
    Some (Scalar4x64.secp256k1_scalar_reduce_512 (repeat 0xFFFFFFFFFFFFFFFF 8)) /\
  product_512 sc4_max sc4_max = digits 64 8 (sc4_val sc4_max * sc4_val sc4_max).
Proof.
  assert (H : sc4_wf sc4_max) by apply sc4_wf_digits. split; [| vm_compute; reflexivity].
  destruct (scalar_asm_equivalent regs0 regs0 regs0 (repeat (Word 0) 13) sc4_max sc4_max (repeat 0xFFFFFFFFFFFFFFFF 8) (repeat 0 8) (repeat 0 4) H H)
    as (_ & _ & E & _); [reflexivity | repeat constructor; lia | reflexivity | reflexivity | reflexivity |]. exact E.
Defined.
