(* ===== verification/ScalarThm.v ===== *)
(** What the scalar code promises: the ring of integers modulo the group order
    in canonical 32-bit limbs, byte strings, the inverse and the lambda split. *)

From Stdlib Require Import ZArith Lia List Bool Zmod Field.
From S2P Require Import Prelude Limbs Primes Fp ScalarSpec ScalarGen.
From S2P Require Import Scalar8x32 Scalar8x32Ops Scalar8x32Mul.
Import ListNotations.
Open Scope Z_scope.

(** [n - 1], the largest scalar. *)
Definition sc_max : secp256k1_scalar := sc_of_Z (-1).

Lemma sc_max_ok : sc_ok sc_max.
Proof. apply sc_ok_of_Z. Qed.

Lemma sc_of_Z_mod v : sc_of_Z (v mod secp_n) = sc_of_Z v.
Proof. unfold sc_of_Z. now rewrite Z.mod_mod by discriminate. Qed.

(** C23. Addition, negation, product and square return the canonical limbs of
    the result modulo the order, and addition reports the wrap-around. *)
Theorem scalar_ring_correct a b : sc_ok a -> sc_ok b ->
  secp256k1_scalar_add a b = (sc_of_Z (sc_val a + sc_val b), b2z (secp_n <=? sc_val a + sc_val b)) /\
  secp256k1_scalar_mul a b = sc_of_Z (sc_val a * sc_val b) /\
  secp256k1_scalar_sqr a = sc_of_Z (sc_val a * sc_val a) /\
  secp256k1_scalar_negate a = sc_of_Z (- sc_val a).
Proof.
  intros Ha Hb. split; [now apply sc8_add_spec |].
  split; [now apply sc8_mul_spec; [apply Ha | apply Hb] |].
  split; [apply sc8_sqr_spec, Ha | now apply sc8_negate_spec].
Qed.

Lemma scalar_ring_correct_witness :
  sc_ok sc_max /\ secp256k1_scalar_mul sc_max sc_max = sc_of_Z (sc_val sc_max * sc_val sc_max).
Proof. exact (conj sc_max_ok (proj1 (proj2 (scalar_ring_correct sc_max sc_max sc_max_ok sc_max_ok)))). Defined.

(** The three folding rounds reduce every 512-bit integer to the canonical
    limbs of its residue: no carry is lost, also for products that are not of
    reduced scalars. *)
Theorem scalar_reduce_512_correct l : length l = 16%nat -> limbs_lt 32 l ->
  secp256k1_scalar_reduce_512 l = sc_of_Z (limbs_val 32 l).
Proof. apply sc8_reduce_512_spec. Qed.

Lemma scalar_reduce_512_correct_witness :
  secp256k1_scalar_reduce_512 (repeat 0xFFFFFFFF 16) = sc_of_Z (limbs_val 32 (repeat 0xFFFFFFFF 16)).
Proof. apply scalar_reduce_512_correct; [reflexivity |]. repeat constructor; lia. Defined.

(** Parsing 32 bytes reduces modulo the order and reports values not
    below it; printing is the inverse of parsing on scalars, and parsing of
    printing on the values below the order. *)
Theorem scalar_b32_roundtrip b a : limbs_lt 8 b -> length b = 32%nat -> sc_ok a ->
  secp256k1_scalar_set_b32 b = (sc_of_Z (be_val b), b2z (secp_n <=? be_val b)) /\
  (be_val b < secp_n -> secp256k1_scalar_get_b32 (fst (secp256k1_scalar_set_b32 b)) = b) /\
  secp256k1_scalar_set_b32 (secp256k1_scalar_get_b32 a) = (a, 0).
Proof.
  intros Hb Hl Ha. pose proof (sv_range (I := scalar_8x32) a Ha : 0 <= sc_val a < _) as Hr. pose proof (sc8_set_b32_spec b Hb Hl) as E.
  split; [exact E |]. rewrite E. cbn [fst]. split.
  - intros Hv. rewrite sc8_get_b32_spec by apply sc_ok_of_Z. rewrite sc_val_of_Z.
    pose proof (be_val_bound b Hb) as B. rewrite Z.mod_small by lia. rewrite <- Hl. now apply be_bytes_val.
  - rewrite sc8_get_b32_spec by apply Ha. rewrite sc8_set_b32_spec by (auto using limbs_lt_be_bytes, length_be_bytes).
    rewrite be_val_bytes. change (8 * Z.of_nat 32) with 256. rewrite Z.mod_small by (unfold secp_n in Hr; lia).
    rewrite (proj2 (Z.leb_gt _ _)) by lia. f_equal.
    symmetry. now apply sc_ok_eq.
Qed.

Lemma scalar_b32_roundtrip_witness :
  secp256k1_scalar_get_b32 (fst (secp256k1_scalar_set_b32 (repeat 0x7F 32))) = repeat 0x7F 32.
Proof.
  apply (scalar_b32_roundtrip (repeat 0x7F 32) sc_max);
    [repeat constructor; lia | reflexivity | exact sc_max_ok | vm_compute; reflexivity].
Defined.

Section Generic.
Context {I : ScalarImpl} {L : ScalarLaws I}.

(** The addition chain computes the inverse modulo the order, and zero for
    zero. *)
Theorem scalar_inverse_correct a : sok a ->
  sok (secp256k1_scalar_inverse a) /\
  (sv a * sv (secp256k1_scalar_inverse a)) mod secp_n = if sv a =? 0 then 0 else 1.
Proof.
  intros Ha. destruct (scalar_inverse_ok a Ha) as [Hi E]. split; [exact Hi |].
  destruct (Z.eqb_spec (sv a) 0) as [-> | N]; [reflexivity |].
  assert (Nz : sres a <> 0%F).
  { intros Z. apply N. pose proof (sv_range a Ha). apply (f_equal Zmod.to_Z) in Z.
    unfold sres, Fn_of_Z in Z. rewrite Zmod.unsigned_of_Z, Z.mod_small in Z by assumption. exact Z. }
  assert (P : (sres a * sres (secp256k1_scalar_inverse a) = 1)%F) by (rewrite E; field; exact Nz).
  unfold sres, Fn_of_Z in P. rewrite <- Zmod.of_Z_mul in P. apply (f_equal Zmod.to_Z) in P.
  now rewrite Zmod.unsigned_of_Z in P.
Qed.

(** The split returns [r1], [r2] with [r1 + lambda * r2 = a] modulo the
    order, each within [2^128] of zero modulo the order, so that both halves
    of an endomorphism multiplication have half the length. *)
Theorem scalar_split_lambda_correct a : sok a ->
  let '(r1, r2) := secp256k1_scalar_split_lambda a in
  sok r1 /\ sok r2 /\ (sv r1 + lambda * sv r2) mod secp_n = sv a /\
  exists k1 k2, Z.abs k1 < 2 ^ 128 /\ Z.abs k2 < 2 ^ 128 /\ sv r1 = k1 mod secp_n /\ sv r2 = k2 mod secp_n.
Proof. exact (split_lambda_spec a). Qed.
End Generic.

Lemma scalar_inverse_correct_witness :
  let a := sc_max : scalar in (sv a * sv (secp256k1_scalar_inverse a)) mod secp_n = if sv a =? 0 then 0 else 1.
Proof. exact (proj2 (scalar_inverse_correct (I := scalar_8x32) sc_max sc_max_ok)). Defined.

Lemma scalar_split_lambda_correct_witness :
  let '(r1, r2) := secp256k1_scalar_split_lambda (sc_max : scalar) in (sv r1 + lambda * sv r2) mod secp_n = sv (sc_max : scalar).
Proof.
  pose proof (scalar_split_lambda_correct (I := scalar_8x32) sc_max sc_max_ok) as H.
  destruct (secp256k1_scalar_split_lambda _) as [r1 r2]. exact (proj1 (proj2 (proj2 H))).
Defined.
