(* ===== verification/Field10x26.v ===== *)
(** The field element of [field_10x26.h] and [field_10x26_impl.h]: ten limbs of
    26 bits in [uint32_t]s (the representation the build selects with
    [USE_FIELD_10X26]).  Definitions are the C functions statement by
    statement; theorems relate them to integers modulo the field prime. *)

From Stdlib Require Import ZArith Lia List Bool.
From S2P Require Import Prelude Limbs.
Import ListNotations.
Open Scope Z_scope.

(** [uint32_t n[10]]. *)
Definition secp256k1_fe := list Z.

(** [uint32_t n[8]]. *)
Definition secp256k1_fe_storage := list Z.

(** [SECP256K1_FE_CONST_INNER], on [uint32_t] words. *)
Definition SECP256K1_FE_CONST (d7 d6 d5 d4 d3 d2 d1 d0 : Z) : secp256k1_fe :=
  [ d0 .& 0x3FFFFFF;
    (d0 >> 26) .| ((d1 .& 0xFFFFF) << 6);
    (d1 >> 20) .| ((d2 .& 0x3FFF) << 12);
    (d2 >> 14) .| ((d3 .& 0xFF) << 18);
    (d3 >> 8) .| ((d4 .& 0x3) << 24);
    (d4 >> 2) .& 0x3FFFFFF;
    (d4 >> 28) .| ((d5 .& 0x3FFFFF) << 4);
    (d5 >> 22) .| ((d6 .& 0xFFFF) << 10);
    (d6 >> 16) .| ((d7 .& 0x3FF) << 16);
    d7 >> 10 ].

(** [SECP256K1_FE_STORAGE_CONST]. *)
Definition SECP256K1_FE_STORAGE_CONST (d7 d6 d5 d4 d3 d2 d1 d0 : Z) : secp256k1_fe_storage :=
  [d0; d1; d2; d3; d4; d5; d6; d7].

(** The [VERIFY] check of an element with its [magnitude] and [normalized]
    fields; [unsigned long] is 64 bits wide. *)
Definition secp256k1_fe_verify (d : secp256k1_fe) (magnitude : Z) (normalized : bool) : bool :=
  let m := if normalized then 1 else 2 * magnitude in
  let r := (d.[0] <=? 0x3FFFFFF * m) in
  let r := r && (d.[1] <=? 0x3FFFFFF * m) in
  let r := r && (d.[2] <=? 0x3FFFFFF * m) in
  let r := r && (d.[3] <=? 0x3FFFFFF * m) in
  let r := r && (d.[4] <=? 0x3FFFFFF * m) in
  let r := r && (d.[5] <=? 0x3FFFFFF * m) in
  let r := r && (d.[6] <=? 0x3FFFFFF * m) in
  let r := r && (d.[7] <=? 0x3FFFFFF * m) in
  let r := r && (d.[8] <=? 0x3FFFFFF * m) in
  let r := r && (d.[9] <=? 0x03FFFFF * m) in
  let r := r && (magnitude >=? 0) in
  let r := r && (magnitude <=? 32) in
  if normalized then
    let r := r && (magnitude <=? 1) in
    if r && (d.[9] =? 0x03FFFFF) then
      let mid := d.[8] .& d.[7] .& d.[6] .& d.[5] .& d.[4] .& d.[3] .& d.[2] in
      if mid =? 0x3FFFFFF then
        r && (d.[1] + 0x40 + ((d.[0] + 0x3D1) >> 26) <=? 0x3FFFFFF)
      else r
    else r
  else r.

Definition secp256k1_fe_normalize (r : secp256k1_fe) : secp256k1_fe :=
  let t0 := r.[0] in let t1 := r.[1] in let t2 := r.[2] in let t3 := r.[3] in
  let t4 := r.[4] in let t5 := r.[5] in let t6 := r.[6] in let t7 := r.[7] in
  let t8 := r.[8] in let t9 := r.[9] in
  let x := t9 >> 22 in let t9 := t9 .& 0x03FFFFF in
  let t0 := u32 (t0 + x * 0x3D1) in let t1 := u32 (t1 + (x << 6)) in
  let t1 := u32 (t1 + (t0 >> 26)) in let t0 := t0 .& 0x3FFFFFF in
  let t2 := u32 (t2 + (t1 >> 26)) in let t1 := t1 .& 0x3FFFFFF in
  let t3 := u32 (t3 + (t2 >> 26)) in let t2 := t2 .& 0x3FFFFFF in let m := t2 in
  let t4 := u32 (t4 + (t3 >> 26)) in let t3 := t3 .& 0x3FFFFFF in let m := m .& t3 in
  let t5 := u32 (t5 + (t4 >> 26)) in let t4 := t4 .& 0x3FFFFFF in let m := m .& t4 in
  let t6 := u32 (t6 + (t5 >> 26)) in let t5 := t5 .& 0x3FFFFFF in let m := m .& t5 in
  let t7 := u32 (t7 + (t6 >> 26)) in let t6 := t6 .& 0x3FFFFFF in let m := m .& t6 in
  let t8 := u32 (t8 + (t7 >> 26)) in let t7 := t7 .& 0x3FFFFFF in let m := m .& t7 in
  let t9 := u32 (t9 + (t8 >> 26)) in let t8 := t8 .& 0x3FFFFFF in let m := m .& t8 in
  let x := (t9 >> 22) .| (b2z (t9 =? 0x03FFFFF) .& b2z (m =? 0x3FFFFFF)
             .& b2z (t1 + 0x40 + ((t0 + 0x3D1) >> 26) >? 0x3FFFFFF)) in
  let t0 := u32 (t0 + x * 0x3D1) in let t1 := u32 (t1 + (x << 6)) in
  let t1 := u32 (t1 + (t0 >> 26)) in let t0 := t0 .& 0x3FFFFFF in
  let t2 := u32 (t2 + (t1 >> 26)) in let t1 := t1 .& 0x3FFFFFF in
  let t3 := u32 (t3 + (t2 >> 26)) in let t2 := t2 .& 0x3FFFFFF in
  let t4 := u32 (t4 + (t3 >> 26)) in let t3 := t3 .& 0x3FFFFFF in
  let t5 := u32 (t5 + (t4 >> 26)) in let t4 := t4 .& 0x3FFFFFF in
  let t6 := u32 (t6 + (t5 >> 26)) in let t5 := t5 .& 0x3FFFFFF in
  let t7 := u32 (t7 + (t6 >> 26)) in let t6 := t6 .& 0x3FFFFFF in
  let t8 := u32 (t8 + (t7 >> 26)) in let t7 := t7 .& 0x3FFFFFF in
  let t9 := u32 (t9 + (t8 >> 26)) in let t8 := t8 .& 0x3FFFFFF in
  let t9 := t9 .& 0x03FFFFF in
  [t0; t1; t2; t3; t4; t5; t6; t7; t8; t9].

Definition secp256k1_fe_normalize_weak (r : secp256k1_fe) : secp256k1_fe :=
  let t0 := r.[0] in let t1 := r.[1] in let t2 := r.[2] in let t3 := r.[3] in
  let t4 := r.[4] in let t5 := r.[5] in let t6 := r.[6] in let t7 := r.[7] in
  let t8 := r.[8] in let t9 := r.[9] in
  let x := t9 >> 22 in let t9 := t9 .& 0x03FFFFF in
  let t0 := u32 (t0 + x * 0x3D1) in let t1 := u32 (t1 + (x << 6)) in
  let t1 := u32 (t1 + (t0 >> 26)) in let t0 := t0 .& 0x3FFFFFF in
  let t2 := u32 (t2 + (t1 >> 26)) in let t1 := t1 .& 0x3FFFFFF in
  let t3 := u32 (t3 + (t2 >> 26)) in let t2 := t2 .& 0x3FFFFFF in
  let t4 := u32 (t4 + (t3 >> 26)) in let t3 := t3 .& 0x3FFFFFF in
  let t5 := u32 (t5 + (t4 >> 26)) in let t4 := t4 .& 0x3FFFFFF in
  let t6 := u32 (t6 + (t5 >> 26)) in let t5 := t5 .& 0x3FFFFFF in
  let t7 := u32 (t7 + (t6 >> 26)) in let t6 := t6 .& 0x3FFFFFF in
  let t8 := u32 (t8 + (t7 >> 26)) in let t7 := t7 .& 0x3FFFFFF in
  let t9 := u32 (t9 + (t8 >> 26)) in let t8 := t8 .& 0x3FFFFFF in
  [t0; t1; t2; t3; t4; t5; t6; t7; t8; t9].

Definition secp256k1_fe_normalize_var (r : secp256k1_fe) : secp256k1_fe :=
  let t0 := r.[0] in let t1 := r.[1] in let t2 := r.[2] in let t3 := r.[3] in
  let t4 := r.[4] in let t5 := r.[5] in let t6 := r.[6] in let t7 := r.[7] in
  let t8 := r.[8] in let t9 := r.[9] in
  let x := t9 >> 22 in let t9 := t9 .& 0x03FFFFF in
  let t0 := u32 (t0 + x * 0x3D1) in let t1 := u32 (t1 + (x << 6)) in
  let t1 := u32 (t1 + (t0 >> 26)) in let t0 := t0 .& 0x3FFFFFF in
  let t2 := u32 (t2 + (t1 >> 26)) in let t1 := t1 .& 0x3FFFFFF in
  let t3 := u32 (t3 + (t2 >> 26)) in let t2 := t2 .& 0x3FFFFFF in let m := t2 in
  let t4 := u32 (t4 + (t3 >> 26)) in let t3 := t3 .& 0x3FFFFFF in let m := m .& t3 in
  let t5 := u32 (t5 + (t4 >> 26)) in let t4 := t4 .& 0x3FFFFFF in let m := m .& t4 in
  let t6 := u32 (t6 + (t5 >> 26)) in let t5 := t5 .& 0x3FFFFFF in let m := m .& t5 in
  let t7 := u32 (t7 + (t6 >> 26)) in let t6 := t6 .& 0x3FFFFFF in let m := m .& t6 in
  let t8 := u32 (t8 + (t7 >> 26)) in let t7 := t7 .& 0x3FFFFFF in let m := m .& t7 in
  let t9 := u32 (t9 + (t8 >> 26)) in let t8 := t8 .& 0x3FFFFFF in let m := m .& t8 in
  let x := (t9 >> 22) .| (b2z (t9 =? 0x03FFFFF) .& b2z (m =? 0x3FFFFFF)
             .& b2z (t1 + 0x40 + ((t0 + 0x3D1) >> 26) >? 0x3FFFFFF)) in
  if z2b x then
    let t0 := u32 (t0 + 0x3D1) in let t1 := u32 (t1 + (x << 6)) in
    let t1 := u32 (t1 + (t0 >> 26)) in let t0 := t0 .& 0x3FFFFFF in
    let t2 := u32 (t2 + (t1 >> 26)) in let t1 := t1 .& 0x3FFFFFF in
    let t3 := u32 (t3 + (t2 >> 26)) in let t2 := t2 .& 0x3FFFFFF in
    let t4 := u32 (t4 + (t3 >> 26)) in let t3 := t3 .& 0x3FFFFFF in
    let t5 := u32 (t5 + (t4 >> 26)) in let t4 := t4 .& 0x3FFFFFF in
    let t6 := u32 (t6 + (t5 >> 26)) in let t5 := t5 .& 0x3FFFFFF in
    let t7 := u32 (t7 + (t6 >> 26)) in let t6 := t6 .& 0x3FFFFFF in
    let t8 := u32 (t8 + (t7 >> 26)) in let t7 := t7 .& 0x3FFFFFF in
    let t9 := u32 (t9 + (t8 >> 26)) in let t8 := t8 .& 0x3FFFFFF in
    let t9 := t9 .& 0x03FFFFF in
    [t0; t1; t2; t3; t4; t5; t6; t7; t8; t9]
  else [t0; t1; t2; t3; t4; t5; t6; t7; t8; t9].

Definition secp256k1_fe_normalizes_to_zero (r : secp256k1_fe) : Z :=
  let t0 := r.[0] in let t1 := r.[1] in let t2 := r.[2] in let t3 := r.[3] in
  let t4 := r.[4] in let t5 := r.[5] in let t6 := r.[6] in let t7 := r.[7] in
  let t8 := r.[8] in let t9 := r.[9] in
  let x := t9 >> 22 in let t9 := t9 .& 0x03FFFFF in
  let t0 := u32 (t0 + x * 0x3D1) in let t1 := u32 (t1 + (x << 6)) in
  let t1 := u32 (t1 + (t0 >> 26)) in let t0 := t0 .& 0x3FFFFFF in
  let z0 := t0 in let z1 := t0 .^ 0x3D0 in
  let t2 := u32 (t2 + (t1 >> 26)) in let t1 := t1 .& 0x3FFFFFF in
  let z0 := z0 .| t1 in let z1 := z1 .& (t1 .^ 0x40) in
  let t3 := u32 (t3 + (t2 >> 26)) in let t2 := t2 .& 0x3FFFFFF in
  let z0 := z0 .| t2 in let z1 := z1 .& t2 in
  let t4 := u32 (t4 + (t3 >> 26)) in let t3 := t3 .& 0x3FFFFFF in
  let z0 := z0 .| t3 in let z1 := z1 .& t3 in
  let t5 := u32 (t5 + (t4 >> 26)) in let t4 := t4 .& 0x3FFFFFF in
  let z0 := z0 .| t4 in let z1 := z1 .& t4 in
  let t6 := u32 (t6 + (t5 >> 26)) in let t5 := t5 .& 0x3FFFFFF in
  let z0 := z0 .| t5 in let z1 := z1 .& t5 in
  let t7 := u32 (t7 + (t6 >> 26)) in let t6 := t6 .& 0x3FFFFFF in
  let z0 := z0 .| t6 in let z1 := z1 .& t6 in
  let t8 := u32 (t8 + (t7 >> 26)) in let t7 := t7 .& 0x3FFFFFF in
  let z0 := z0 .| t7 in let z1 := z1 .& t7 in
  let t9 := u32 (t9 + (t8 >> 26)) in let t8 := t8 .& 0x3FFFFFF in
  let z0 := z0 .| t8 in let z1 := z1 .& t8 in
  let z0 := z0 .| t9 in let z1 := z1 .& (t9 .^ 0x3C00000) in
  b2z (z0 =? 0) .| b2z (z1 =? 0x3FFFFFF).

Definition secp256k1_fe_normalizes_to_zero_var (r : secp256k1_fe) : Z :=
  let t0 := r.[0] in
  let t9 := r.[9] in
  let x := t9 >> 22 in
  let t0 := u32 (t0 + x * 0x3D1) in
  let z0 := t0 .& 0x3FFFFFF in
  let z1 := z0 .^ 0x3D0 in
  if negb (z0 =? 0) && negb (z1 =? 0x3FFFFFF) then 0
  else
  let t1 := r.[1] in let t2 := r.[2] in let t3 := r.[3] in let t4 := r.[4] in
  let t5 := r.[5] in let t6 := r.[6] in let t7 := r.[7] in let t8 := r.[8] in
  let t9 := t9 .& 0x03FFFFF in
  let t1 := u32 (t1 + (x << 6)) in
  let t1 := u32 (t1 + (t0 >> 26)) in
  let t2 := u32 (t2 + (t1 >> 26)) in let t1 := t1 .& 0x3FFFFFF in
  let z0 := z0 .| t1 in let z1 := z1 .& (t1 .^ 0x40) in
  let t3 := u32 (t3 + (t2 >> 26)) in let t2 := t2 .& 0x3FFFFFF in
  let z0 := z0 .| t2 in let z1 := z1 .& t2 in
  let t4 := u32 (t4 + (t3 >> 26)) in let t3 := t3 .& 0x3FFFFFF in
  let z0 := z0 .| t3 in let z1 := z1 .& t3 in
  let t5 := u32 (t5 + (t4 >> 26)) in let t4 := t4 .& 0x3FFFFFF in
  let z0 := z0 .| t4 in let z1 := z1 .& t4 in
  let t6 := u32 (t6 + (t5 >> 26)) in let t5 := t5 .& 0x3FFFFFF in
  let z0 := z0 .| t5 in let z1 := z1 .& t5 in
  let t7 := u32 (t7 + (t6 >> 26)) in let t6 := t6 .& 0x3FFFFFF in
  let z0 := z0 .| t6 in let z1 := z1 .& t6 in
  let t8 := u32 (t8 + (t7 >> 26)) in let t7 := t7 .& 0x3FFFFFF in
  let z0 := z0 .| t7 in let z1 := z1 .& t7 in
  let t9 := u32 (t9 + (t8 >> 26)) in let t8 := t8 .& 0x3FFFFFF in
  let z0 := z0 .| t8 in let z1 := z1 .& t8 in
  let z0 := z0 .| t9 in let z1 := z1 .& (t9 .^ 0x3C00000) in
  b2z (z0 =? 0) .| b2z (z1 =? 0x3FFFFFF).

Definition secp256k1_fe_set_int (a : Z) : secp256k1_fe :=
  [u32 a; 0; 0; 0; 0; 0; 0; 0; 0; 0].

Definition secp256k1_fe_is_zero (a : secp256k1_fe) : Z :=
  b2z ((a.[0] .| a.[1] .| a.[2] .| a.[3] .| a.[4] .| a.[5] .| a.[6] .| a.[7] .| a.[8] .| a.[9]) =? 0).

Definition secp256k1_fe_is_odd (a : secp256k1_fe) : Z := a.[0] .& 1.

Definition secp256k1_fe_clear : secp256k1_fe := [0; 0; 0; 0; 0; 0; 0; 0; 0; 0].

Definition secp256k1_fe_cmp_var (a b : secp256k1_fe) : Z := fe_cmp_loop 10 a b.

(** The body of the double loop of [secp256k1_fe_set_b32] at [i], [j]. *)
Definition fe_set_b32_step (a : list Z) (i j : nat) (r : secp256k1_fe) : secp256k1_fe :=
  let limb := ((8 * i + 2 * j) / 26)%nat in
  let shift := Z.of_nat ((8 * i + 2 * j) mod 26) in
  upd limb (r.[limb] .| (((a.[31 - i] >> (2 * Z.of_nat j)) .& 0x3) << shift)) r.

(** [for (i=0; i<32; i++) for (j=0; j<4; j++)], [k] iterations of the outer loop. *)
Fixpoint fe_set_b32_loop (a : list Z) (k : nat) (r : secp256k1_fe) : secp256k1_fe :=
  match k with
  | O => r
  | S i =>
      let r := fe_set_b32_loop a i r in
      let r := fe_set_b32_step a i 0 r in
      let r := fe_set_b32_step a i 1 r in
      let r := fe_set_b32_step a i 2 r in
      fe_set_b32_step a i 3 r
  end.

(** Returns the element written to [*r] and the return value. *)
Definition secp256k1_fe_set_b32 (a : list Z) : secp256k1_fe * Z :=
  let r := fe_set_b32_loop a 32 [0; 0; 0; 0; 0; 0; 0; 0; 0; 0] in
  if (r.[9] =? 0x3FFFFF)
     && ((r.[8] .& r.[7] .& r.[6] .& r.[5] .& r.[4] .& r.[3] .& r.[2]) =? 0x3FFFFFF)
     && (r.[1] + 0x40 + ((r.[0] + 0x3D1) >> 26) >? 0x3FFFFFF)
  then (r, 0)
  else (r, 1).

(** One step of the inner loop of [secp256k1_fe_get_b32] on [c]. *)
Definition fe_get_b32_step (a : secp256k1_fe) (i j : nat) (c : Z) : Z :=
  let limb := ((8 * i + 2 * j) / 26)%nat in
  let shift := Z.of_nat ((8 * i + 2 * j) mod 26) in
  c .| (((a.[limb] >> shift) .& 0x3) << (2 * Z.of_nat j)).

(** The byte the inner loop leaves in [c], stored at [r[31-i]]. *)
Definition fe_get_b32_byte (a : secp256k1_fe) (i : nat) : Z :=
  u8 (fe_get_b32_step a i 3 (fe_get_b32_step a i 2
       (fe_get_b32_step a i 1 (fe_get_b32_step a i 0 0)))).

(** [for (i=0; i<32; i++) r[31-i] = c], [k] iterations. *)
Fixpoint fe_get_b32_loop (a : secp256k1_fe) (k : nat) (r : list Z) : list Z :=
  match k with
  | O => r
  | S i => upd (31 - i) (fe_get_b32_byte a i) (fe_get_b32_loop a i r)
  end.

(** Every byte of the output buffer is written; [repeat 0 32] stands for its
    contents before. *)
Definition secp256k1_fe_get_b32 (a : secp256k1_fe) : list Z :=
  fe_get_b32_loop a 32 (repeat 0 32).

Definition secp256k1_fe_negate (a : secp256k1_fe) (m : Z) : secp256k1_fe :=
  [ u32 (0x3FFFC2F * 2 * (m + 1) - a.[0]);
    u32 (0x3FFFFBF * 2 * (m + 1) - a.[1]);
    u32 (0x3FFFFFF * 2 * (m + 1) - a.[2]);
    u32 (0x3FFFFFF * 2 * (m + 1) - a.[3]);
    u32 (0x3FFFFFF * 2 * (m + 1) - a.[4]);
    u32 (0x3FFFFFF * 2 * (m + 1) - a.[5]);
    u32 (0x3FFFFFF * 2 * (m + 1) - a.[6]);
    u32 (0x3FFFFFF * 2 * (m + 1) - a.[7]);
    u32 (0x3FFFFFF * 2 * (m + 1) - a.[8]);
    u32 (0x03FFFFF * 2 * (m + 1) - a.[9]) ].

Definition secp256k1_fe_mul_int (r : secp256k1_fe) (a : Z) : secp256k1_fe :=
  [ u32 (r.[0] * a); u32 (r.[1] * a); u32 (r.[2] * a); u32 (r.[3] * a); u32 (r.[4] * a);
    u32 (r.[5] * a); u32 (r.[6] * a); u32 (r.[7] * a); u32 (r.[8] * a); u32 (r.[9] * a) ].

Definition secp256k1_fe_add (r a : secp256k1_fe) : secp256k1_fe :=
  [ u32 (r.[0] + a.[0]); u32 (r.[1] + a.[1]); u32 (r.[2] + a.[2]); u32 (r.[3] + a.[3]);
    u32 (r.[4] + a.[4]); u32 (r.[5] + a.[5]); u32 (r.[6] + a.[6]); u32 (r.[7] + a.[7]);
    u32 (r.[8] + a.[8]); u32 (r.[9] + a.[9]) ].

(** [(x & mask0) | (y & mask1)] with the masks of a conditional move. *)
Definition cmov32 (x y mask0 mask1 : Z) : Z := (x .& mask0) .| (y .& mask1).

Definition secp256k1_fe_cmov (r a : secp256k1_fe) (flag : Z) : secp256k1_fe :=
  let mask0 := u32 (flag + not32 0) in
  let mask1 := not32 mask0 in
  [ cmov32 r.[0] a.[0] mask0 mask1; cmov32 r.[1] a.[1] mask0 mask1;
    cmov32 r.[2] a.[2] mask0 mask1; cmov32 r.[3] a.[3] mask0 mask1;
    cmov32 r.[4] a.[4] mask0 mask1; cmov32 r.[5] a.[5] mask0 mask1;
    cmov32 r.[6] a.[6] mask0 mask1; cmov32 r.[7] a.[7] mask0 mask1;
    cmov32 r.[8] a.[8] mask0 mask1; cmov32 r.[9] a.[9] mask0 mask1 ].

Definition secp256k1_fe_storage_cmov (r a : secp256k1_fe_storage) (flag : Z) : secp256k1_fe_storage :=
  let mask0 := u32 (flag + not32 0) in
  let mask1 := not32 mask0 in
  [ cmov32 r.[0] a.[0] mask0 mask1; cmov32 r.[1] a.[1] mask0 mask1;
    cmov32 r.[2] a.[2] mask0 mask1; cmov32 r.[3] a.[3] mask0 mask1;
    cmov32 r.[4] a.[4] mask0 mask1; cmov32 r.[5] a.[5] mask0 mask1;
    cmov32 r.[6] a.[6] mask0 mask1; cmov32 r.[7] a.[7] mask0 mask1 ].

Definition secp256k1_fe_to_storage (a : secp256k1_fe) : secp256k1_fe_storage :=
  [ a.[0] .| u32 (a.[1] << 26);
    (a.[1] >> 6) .| u32 (a.[2] << 20);
    (a.[2] >> 12) .| u32 (a.[3] << 14);
    (a.[3] >> 18) .| u32 (a.[4] << 8);
    (a.[4] >> 24) .| u32 (a.[5] << 2) .| u32 (a.[6] << 28);
    (a.[6] >> 4) .| u32 (a.[7] << 22);
    (a.[7] >> 10) .| u32 (a.[8] << 16);
    (a.[8] >> 16) .| u32 (a.[9] << 10) ].

Definition secp256k1_fe_from_storage (a : secp256k1_fe_storage) : secp256k1_fe :=
  [ a.[0] .& 0x3FFFFFF;
    (a.[0] >> 26) .| (u32 (a.[1] << 6) .& 0x3FFFFFF);
    (a.[1] >> 20) .| (u32 (a.[2] << 12) .& 0x3FFFFFF);
    (a.[2] >> 14) .| (u32 (a.[3] << 18) .& 0x3FFFFFF);
    (a.[3] >> 8) .| (u32 (a.[4] << 24) .& 0x3FFFFFF);
    (a.[4] >> 2) .& 0x3FFFFFF;
    (a.[4] >> 28) .| (u32 (a.[5] << 4) .& 0x3FFFFFF);
    (a.[5] >> 22) .| (u32 (a.[6] << 10) .& 0x3FFFFFF);
    (a.[6] >> 16) .| (u32 (a.[7] << 16) .& 0x3FFFFFF);
    a.[7] >> 10 ].

(** * Representation *)

(** The integer an element represents, before reduction. *)
Definition fe_val (a : secp256k1_fe) : Z := limbs_val 26 a.

(** The magnitude invariant of [secp256k1_fe_verify]. *)
Definition fe_mag (m : Z) (a : secp256k1_fe) : Prop :=
  length a = 10%nat /\
  Forall (fun x => Rng x (0x3FFFFFF * (2 * m))) (firstn 9 a) /\ Rng a.[9] (0x3FFFFF * (2 * m)).

(** The limbs after one carry pass. *)
Definition fe_limbs (top : Z) (a : secp256k1_fe) : Prop :=
  length a = 10%nat /\ Forall (fun x => Rng x 0x3FFFFFF) (firstn 9 a) /\ Rng a.[9] top.

(** The [normalized] invariant: canonical limbs of a value below the prime. *)
Definition fe_norm (a : secp256k1_fe) : Prop := fe_limbs 0x3FFFFF a /\ fe_val a < secp_p.

Lemma fe_mag_weaken m m' a : m <= m' -> fe_mag m a -> fe_mag m' a.
Proof.
  intros Hm (HL & HF & HT). repeat split; try assumption; try (destruct HT; lia).
  - eapply Forall_impl; [| exact HF]. cbv beta. unfold Rng. lia.
Qed.

Lemma normalize_weak_spec a : fe_mag 31 a ->
  fe_limbs 0x40003E (secp256k1_fe_normalize_weak a) /\
  fe_val (secp256k1_fe_normalize_weak a) = fe_val a - (a.[9] >> 22) * secp_p.
Proof.
  intros H. fe_cases a H.
  pattern (secp256k1_fe_normalize_weak [a0; a1; a2; a3; a4; a5; a6; a7; a8; a9]).
  apply wp_intro. wp_run secp256k1_fe_normalize_weak.
  split; [fe_bounds |]. unfold fe_val, secp_p; cbn [limbs_val].
  lia.
Qed.

(** The constant-time test for a value at or above the prime, after one carry
    pass; bit 256 is [q]. *)
Lemma ge_p_test t0 t1 t2 t3 t4 t5 t6 t7 t8 t9 q :
  Rng t0 0x3FFFFFF -> Rng t1 0x3FFFFFF -> Rng t2 0x3FFFFFF -> Rng t3 0x3FFFFFF ->
  Rng t4 0x3FFFFFF -> Rng t5 0x3FFFFFF -> Rng t6 0x3FFFFFF -> Rng t7 0x3FFFFFF ->
  Rng t8 0x3FFFFFF -> Rng t9 0x3FFFFF -> Rng q 1 ->
  q .| (b2z (t9 + 0x400000 * q =? 0x3FFFFF)
        .& b2z ((t2 .& t3 .& t4 .& t5 .& t6 .& t7 .& t8) =? 0x3FFFFFF)
        .& b2z (t1 + 0x40 + ((t0 + 0x3D1) >> 26) >? 0x3FFFFFF))
  = b2z (secp_p <=? fe_val [t0; t1; t2; t3; t4; t5; t6; t7; t8; t9 + 0x400000 * q]).
Proof.
  intros. rewrite (rng_b2z_of q) at 1 by assumption.
  rewrite !b2z_land, b2z_lor. f_equal.
  assert (Hm : (t2 .& t3 .& t4 .& t5 .& t6 .& t7 .& t8) = 0x3FFFFFF <->
    t2 = 0x3FFFFFF /\ t3 = 0x3FFFFFF /\ t4 = 0x3FFFFFF /\ t5 = 0x3FFFFFF /\
    t6 = 0x3FFFFFF /\ t7 = 0x3FFFFFF /\ t8 = 0x3FFFFFF).
  { rewrite !land_full_iff by (repeat apply rng_land_same; assumption). tauto. }
  unfold fe_val, secp_p; cbn [limbs_val]. unfold Rng in *.
  apply eq_true_iff_eq.
  rewrite orb_true_iff, !andb_true_iff, !Z.eqb_eq, Hm, Z.gtb_lt, Z.leb_le.
  change (t0 + 977 >> 26) with ((t0 + 977) >> 26).
  rewrite Z.shiftr_div_pow2 by lia.
  (Z.div_mod_to_equations; lia).
Qed.

(** Rewrite the word [x] that selects the final reduction. *)
Ltac fe_select_x :=
  repeat match goal with
         | E : ?m = Z.land _ _ |- _ => is_var m; subst m
         end;
  lazymatch goal with
  | E : ?x = Z.lor _ _ |- _ => rewrite ge_p_test in E by assumption
  end.

(** Limbs with all but the top one at 26 bits and the top one at 22. *)
Lemma fe_limbs_bound a : fe_limbs 0x3FFFFF a -> 0 <= fe_val a < 2 ^ 256.
Proof.
  intros H. fe_cases a H. unfold fe_val; cbn [limbs_val]. unfold Rng in *. lia.
Qed.

(** Case on whether the second pass subtracts the prime, then conclude by
    linear arithmetic on the recorded carries. *)
Ltac fe_final_cases :=
  unfold fe_val, secp_p in *; cbn [limbs_val] in *;
  lazymatch goal with
  | E : ?x = b2z (?a <=? ?b) |- _ =>
      destruct (Z.leb_spec a b); cbn [b2z] in *; subst x; try discriminate
  end;
  unfold Rng in *; lia.

Lemma normalize_spec a : fe_mag 31 a ->
  fe_norm (secp256k1_fe_normalize a) /\ fe_val (secp256k1_fe_normalize a) = fe_val a mod secp_p.
Proof.
  intros H. fe_cases a H.
  pattern (secp256k1_fe_normalize [a0; a1; a2; a3; a4; a5; a6; a7; a8; a9]).
  apply wp_intro. wp_run secp256k1_fe_normalize. fe_select_x.
  unfold fe_norm. split; [split; [fe_bounds | fe_final_cases] |].
  apply (mod_of_reduced _ _ (q + x)); fe_final_cases.
Qed.

(** The variable-time version skips the second pass when it subtracts nothing. *)
Lemma normalize_var_spec a : fe_mag 31 a ->
  fe_norm (secp256k1_fe_normalize_var a) /\
  fe_val (secp256k1_fe_normalize_var a) = fe_val a mod secp_p.
Proof.
  intros H. fe_cases a H.
  pattern (secp256k1_fe_normalize_var [a0; a1; a2; a3; a4; a5; a6; a7; a8; a9]).
  apply wp_intro. wp_run secp256k1_fe_normalize_var. fe_select_x.
  destruct (z2b x) eqn:Hx.
  - repeat wp_step. wp_done. unfold fe_norm. split; [split; [fe_bounds | fe_final_cases] |].
    apply (mod_of_reduced _ _ (q + x)); fe_final_cases.
  - wp_done. assert (q9 = 0) by fe_final_cases. subst q9.
    unfold fe_norm. split; [split; [fe_bounds | fe_final_cases] |].
    apply (mod_of_reduced _ _ (q + x)); fe_final_cases.
Qed.

(** After one carry pass, zero modulo the prime is the raw value [0] or [p]. *)
Lemma zero_test t0 t1 t2 t3 t4 t5 t6 t7 t8 t9 :
  Rng t0 0x3FFFFFF -> Rng t1 0x3FFFFFF -> Rng t2 0x3FFFFFF -> Rng t3 0x3FFFFFF ->
  Rng t4 0x3FFFFFF -> Rng t5 0x3FFFFFF -> Rng t6 0x3FFFFFF -> Rng t7 0x3FFFFFF ->
  Rng t8 0x3FFFFFF -> Rng t9 0x40003E ->
  b2z ((t0 .| t1 .| t2 .| t3 .| t4 .| t5 .| t6 .| t7 .| t8 .| t9) =? 0)
  .| b2z (((t0 .^ 0x3D0) .& (t1 .^ 0x40) .& t2 .& t3 .& t4 .& t5 .& t6 .& t7 .& t8
           .& (t9 .^ 0x3C00000)) =? 0x3FFFFFF)
  = b2z (fe_val [t0; t1; t2; t3; t4; t5; t6; t7; t8; t9] mod secp_p =? 0).
Proof.
  intros. rewrite b2z_lor. f_equal. apply eq_true_iff_eq.
  assert (Rng (t0 .^ 0x3D0) 0x3FFFFFF) by (apply (rng_lxor 26); [lia | assumption | limb_bounds]).
  assert (Rng (t1 .^ 0x40) 0x3FFFFFF) by (apply (rng_lxor 26); [lia | assumption | limb_bounds]).
  assert (Rng (t9 .^ 0x3C00000) 0x3FFFFFF) by (apply (rng_lxor 26); [lia | limb_bounds | limb_bounds]).
  rewrite orb_true_iff, !Z.eqb_eq, !Z.lor_eq_0_iff.
  rewrite !land_full_iff by (repeat apply rng_land_same; assumption).
  rewrite (lxor_full_iff _ t0 _ 0x3FFFC2F), (lxor_full_iff _ t1 _ 0x3FFFFBF),
    (lxor_full_iff _ t9 _ 0x3FFFFF) by reflexivity.
  rewrite mod_eq_0_iff by (unfold fe_val, secp_p, Rng in *; cbn [limbs_val]; lia).
  unfold fe_val, secp_p; cbn [limbs_val]. unfold Rng in *. lia.
Qed.

(** The tail shared by both zero tests. *)
Ltac fe_zero_tail k :=
  subst; rewrite zero_test by limb_bounds; do 2 f_equal;
  apply (mod_eq_of _ _ k); [discriminate |];
  unfold fe_val, secp_p; cbn [limbs_val]; lia.

Lemma normalizes_to_zero_spec a : fe_mag 31 a ->
  secp256k1_fe_normalizes_to_zero a = b2z (fe_val a mod secp_p =? 0).
Proof.
  intros H. fe_cases a H.
  pattern (secp256k1_fe_normalizes_to_zero [a0; a1; a2; a3; a4; a5; a6; a7; a8; a9]).
  apply wp_intro. wp_run secp256k1_fe_normalizes_to_zero. fe_zero_tail (- q).
Qed.

(** A multiple of the prime has [0] or the low limb of [p] as the low limb after
    the carry pass. *)
Lemma low_limb_of_zero a t h : fe_mag 31 a -> fe_val a mod secp_p = 0 ->
  t + 2 ^ 26 * h = a.[0] + (a.[9] >> 22) * 977 -> Rng t 0x3FFFFFF -> t = 0 \/ t = 0x3FFFC2F.
Proof.
  intros Ha Hz Ht Rt. pose proof (normalize_weak_spec a Ha) as [Hw Hv].
  set (w := secp256k1_fe_normalize_weak a) in *. set (k := a.[9] >> 22) in *.
  assert (Hb : 0 <= fe_val w < 2 * secp_p).
  { clear -Hw. clearbody w. fe_cases w Hw. unfold fe_val, secp_p; cbn [limbs_val].
    unfold Rng in *. lia. }
  assert (Hm : fe_val w mod secp_p = 0).
  { rewrite Hv, <- Hz. apply (mod_eq_of _ _ (- k)); [discriminate | ring]. }
  apply mod_eq_0_iff in Hm; [| assumption]. clearbody w k.
  fe_cases a Ha. unfold fe_val in Hv at 2. cbn [limbs_val nth] in *.
  unfold Rng, secp_p in *. lia.
Qed.

Lemma normalizes_to_zero_var_spec a : fe_mag 31 a ->
  secp256k1_fe_normalizes_to_zero_var a = b2z (fe_val a mod secp_p =? 0).
Proof.
  intros H. pose proof (low_limb_of_zero a) as Hlow. specialize (Hlow) with (1 := H).
  fe_cases a H.
  pattern (secp256k1_fe_normalizes_to_zero_var [a0; a1; a2; a3; a4; a5; a6; a7; a8; a9]).
  apply wp_intro. wp_run secp256k1_fe_normalizes_to_zero_var.
  destruct (negb (t1 =? 0) && negb (z1 =? 67108863)) eqn:Hc.
  - wp_done. destruct (Z.eqb_spec (fe_val [a0; a1; a2; a3; a4; a5; a6; a7; a8; a10 + 4194304 * q]
        mod secp_p) 0) as [Hz |]; [exfalso | reflexivity].
    apply andb_true_iff in Hc as [H0 H1]. apply negb_true_iff, Z.eqb_neq in H0, H1.
    subst z1. rewrite (lxor_full_iff _ t1 _ 0x3FFFC2F) in H1 by reflexivity.
    destruct (Hlow t1 q0 Hz); [| assumption | tauto | tauto]. cbn [nth].
    rewrite (shiftr_split 22) by (unfold Rng in *; lia). lia.
  - repeat wp_step. wp_done. fe_zero_tail (- q).
Qed.

(** * Linear operations and their magnitudes *)

Ltac fe_u32 :=
  repeat match goal with
         | |- context [u32 ?e] => rewrite (u32_id e) by (unfold Rng in *; nia)
         end.

Lemma negate_spec a m : 0 <= m <= 31 -> fe_mag m a ->
  fe_mag (m + 1) (secp256k1_fe_negate a m) /\
  fe_val (secp256k1_fe_negate a m) = 2 * (m + 1) * secp_p - fe_val a.
Proof.
  intros Hm H. fe_cases a H. cbv beta iota delta [secp256k1_fe_negate nth]. fe_u32.
  split; [fe_mag_intro |]. unfold fe_val, secp_p; cbn [limbs_val]. ring.
Qed.

Lemma add_spec r a m m' : 0 <= m -> 0 <= m' -> m + m' <= 32 -> fe_mag m r -> fe_mag m' a ->
  fe_mag (m + m') (secp256k1_fe_add r a) /\
  fe_val (secp256k1_fe_add r a) = fe_val r + fe_val a.
Proof.
  intros H0 H1 Hm Hr Ha. fe_cases r Hr. fe_cases a Ha.
  cbv beta iota delta [secp256k1_fe_add nth]. fe_u32.
  split; [fe_mag_intro |]. unfold fe_val; cbn [limbs_val]. ring.
Qed.

Lemma mul_int_spec r m a : 0 <= m -> 0 <= a -> m * a <= 32 -> fe_mag m r ->
  fe_mag (m * a) (secp256k1_fe_mul_int r a) /\
  fe_val (secp256k1_fe_mul_int r a) = fe_val r * a.
Proof.
  intros Hm Ha Hma H. fe_cases r H. cbv beta iota delta [secp256k1_fe_mul_int nth]. fe_u32.
  split; [fe_mag_intro |]. unfold fe_val; cbn [limbs_val]. ring.
Qed.

Lemma fe_norm_mag a : fe_norm a -> fe_mag 1 a.
Proof. intros [H _]. fe_cases a H. fe_mag_intro. Qed.

Lemma fe_norm_val a : fe_norm a -> 0 <= fe_val a < secp_p.
Proof. intros [H Hp]. pose proof (fe_limbs_bound a H). lia. Qed.

Lemma fe_limbs_lt a : fe_limbs 0x3FFFFF a -> limbs_lt 26 a.
Proof. intros H. fe_cases a H. unfold Rng in *. repeat constructor; lia. Qed.

(** Normalised elements with the same value are the same limbs. *)
Lemma fe_norm_inj a b : fe_norm a -> fe_norm b -> fe_val a = fe_val b -> a = b.
Proof.
  intros [Ha _] [Hb _] H. apply (limbs_val_inj 26); try (now apply fe_limbs_lt); try lia.
  - now rewrite (proj1 Ha), (proj1 Hb).
  - exact H.
Qed.

Lemma set_int_spec a : 0 <= a < 2 ^ 26 ->
  fe_norm (secp256k1_fe_set_int a) /\ fe_val (secp256k1_fe_set_int a) = a.
Proof.
  intros H. unfold secp256k1_fe_set_int, fe_norm. rewrite u32_id by lia.
  unfold fe_val; cbn [limbs_val]. repeat split; try (unfold secp_p; lia).
  - repeat (constructor; [unfold Rng; lia |]). constructor.
  - cbn; lia.
  - cbn; lia.
Qed.

Lemma is_zero_spec a : fe_norm a -> secp256k1_fe_is_zero a = b2z (fe_val a =? 0).
Proof.
  intros [H _]. fe_cases a H. cbv beta iota delta [secp256k1_fe_is_zero nth]. f_equal.
  apply eq_true_iff_eq. rewrite !Z.eqb_eq, !Z.lor_eq_0_iff.
  unfold fe_val; cbn [limbs_val]. unfold Rng in *. lia.
Qed.

Lemma is_odd_spec a : fe_norm a -> secp256k1_fe_is_odd a = fe_val a mod 2.
Proof.
  intros [H _]. fe_cases a H. cbv beta iota delta [secp256k1_fe_is_odd nth].
  change 1 with (Z.ones 1). rewrite Z.land_ones by lia.
  unfold fe_val; cbn [limbs_val]. change (2 ^ 1) with 2. Z.div_mod_to_equations. lia.
Qed.

Lemma cmp_var_spec a b : fe_norm a -> fe_norm b ->
  secp256k1_fe_cmp_var a b = match fe_val a ?= fe_val b with Gt => 1 | Lt => -1 | Eq => 0 end.
Proof.
  intros [Ha _] [Hb _]. unfold secp256k1_fe_cmp_var.
  pose proof (proj1 Ha) as La. pose proof (proj1 Hb) as Lb.
  rewrite (fe_cmp_loop_spec 26) by (try (now apply fe_limbs_lt); lia).
  now rewrite !firstn_all2 by lia.
Qed.
