(* ===== verification/Field10x26Ser.v ===== *)
(** Serialization of the 10x26 field element: 32-byte big-endian strings, the
    packed storage form, constants, and the [VERIFY] checker. *)

From Stdlib Require Import ZArith Lia List Bool.
From S2P Require Import Prelude Limbs Field10x26.
Import ListNotations.
Open Scope Z_scope.

(** * Bytes *)

Lemma limb_index i j : (i < 32)%nat -> (j < 4)%nat ->
  let s := (8 * i + 2 * j)%nat in
  (s / 26 < 10)%nat /\ (s mod 26 <= 24)%nat /\
  26 * Z.of_nat (s / 26) + Z.of_nat (s mod 26) = 8 * Z.of_nat i + 2 * Z.of_nat j.
Proof.
  intros Hi Hj s.
  pose proof (Nat.div_mod_eq s 26). pose proof (Nat.mod_upper_bound s 26 ltac:(lia)).
  subst s. lia.
Qed.

Lemma set_b32_step_spec a i j : limbs_lt 8 a -> length a = 32%nat -> (i < 32)%nat -> (j < 4)%nat ->
  let s := 8 * Z.of_nat i + 2 * Z.of_nat j in
  fe_set_b32_step a i j (digits 26 10 (be_val a mod 2 ^ s)) =
  digits 26 10 (be_val a mod 2 ^ (s + 2)).
Proof.
  intros Ha Hl Hi Hj s. destruct (limb_index i j Hi Hj) as (H1 & H2 & H3).
  unfold fe_set_b32_step. fold s in H3.
  rewrite (upd_digits 26 10 _ _ _ _ 2); try lia.
  - rewrite H3, mod_pow_add by lia. do 3 f_equal.
    replace (31 - i)%nat with (32 - 1 - i)%nat by lia. rewrite nth_be by assumption.
    change 3 with (Z.ones 2). rewrite Z.land_ones, Z.shiftr_div_pow2 by lia.
    rewrite field_mod, Z.div_div by (try apply Z.pow_nonzero; try apply Z.pow_pos_nonneg; lia).
    now rewrite <- Z.pow_add_r by lia.
  - change 3 with (Z.ones 2). rewrite Z.land_ones by lia. apply Z.mod_pos_bound. reflexivity.
  - rewrite H3. apply Z.mod_pos_bound, Z.pow_pos_nonneg; lia.
Qed.

Lemma set_b32_loop_spec a k : limbs_lt 8 a -> length a = 32%nat -> (k <= 32)%nat ->
  fe_set_b32_loop a k (digits 26 10 0) = digits 26 10 (be_val a mod 2 ^ (8 * Z.of_nat k)).
Proof.
  intros Ha Hl. induction k as [| i IH]; intros Hk.
  - cbn [fe_set_b32_loop]. now rewrite Z.mul_0_r, Z.mod_1_r.
  - cbn [fe_set_b32_loop]. rewrite IH by lia.
    replace (8 * Z.of_nat i) with (8 * Z.of_nat i + 2 * Z.of_nat 0) at 1 by lia.
    rewrite set_b32_step_spec by lia || assumption.
    replace (8 * Z.of_nat i + 2 * Z.of_nat 0 + 2) with (8 * Z.of_nat i + 2 * Z.of_nat 1) by lia.
    rewrite set_b32_step_spec by lia || assumption.
    replace (8 * Z.of_nat i + 2 * Z.of_nat 1 + 2) with (8 * Z.of_nat i + 2 * Z.of_nat 2) by lia.
    rewrite set_b32_step_spec by lia || assumption.
    replace (8 * Z.of_nat i + 2 * Z.of_nat 2 + 2) with (8 * Z.of_nat i + 2 * Z.of_nat 3) by lia.
    rewrite set_b32_step_spec by lia || assumption.
    do 2 f_equal. f_equal. lia.
Qed.

(** The overflow test of [secp256k1_fe_set_b32] on canonical limbs. *)
Lemma ge_p_cond r : fe_limbs 0x3FFFFF r ->
  (r.[9] =? 0x3FFFFF)
  && ((r.[8] .& r.[7] .& r.[6] .& r.[5] .& r.[4] .& r.[3] .& r.[2]) =? 0x3FFFFFF)
  && (r.[1] + 0x40 + ((r.[0] + 0x3D1) >> 26) >? 0x3FFFFFF) = (secp_p <=? fe_val r).
Proof.
  intros H. fe_cases r H. cbn [nth]. apply eq_true_iff_eq.
  rewrite !andb_true_iff, !Z.eqb_eq, Z.gtb_lt, Z.leb_le.
  rewrite !land_full_iff by (repeat apply rng_land_same; assumption).
  rewrite Z.shiftr_div_pow2 by lia.
  unfold fe_val, secp_p; cbn [limbs_val]. unfold Rng in *. Z.div_mod_to_equations. lia.
Qed.

Lemma fe_limbs_digits v : 0 <= v < 2 ^ 256 -> fe_limbs 0x3FFFFF (digits 26 10 v).
Proof.
  intros Hv. assert (B : forall x, 0 <= x mod 2 ^ 26 <= 0x3FFFFFF).
  { intros x. pose proof (Z.mod_pos_bound x (2 ^ 26) eq_refl). lia. }
  split; [reflexivity |]. cbn [digits firstn nth]. split; [repeat constructor; apply B |].
  split; [apply B |]. rewrite !Z.div_div by lia.
  apply Z.le_trans with (v / 2 ^ 234); [apply Z.mod_le; [apply Z.div_pos|]; lia |].
  apply Z.lt_succ_r, Z.div_lt_upper_bound; lia.
Qed.

Lemma fe_val_digits v : 0 <= v < 2 ^ 256 -> fe_val (digits 26 10 v) = v.
Proof. intros Hv. unfold fe_val. rewrite limbs_val_digits, Z.mod_small by lia. reflexivity. Qed.

Lemma set_b32_spec a : limbs_lt 8 a -> length a = 32%nat ->
  secp256k1_fe_set_b32 a = (digits 26 10 (be_val a), b2z (be_val a <? secp_p)).
Proof.
  intros Ha Hl. pose proof (be_val_bound a Ha) as Hb. rewrite Hl in Hb.
  change (2 ^ (8 * Z.of_nat 32)) with (2 ^ 256) in Hb.
  unfold secp256k1_fe_set_b32. change [0; 0; 0; 0; 0; 0; 0; 0; 0; 0] with (digits 26 10 0).
  rewrite set_b32_loop_spec by (assumption || lia).
  change (8 * Z.of_nat 32) with 256. rewrite Z.mod_small by lia. cbv zeta.
  rewrite ge_p_cond by now apply fe_limbs_digits.
  rewrite fe_val_digits, Z.leb_antisym by assumption.
  now destruct (be_val a <? secp_p).
Qed.

Lemma get_b32_step_spec a i j : fe_limbs 0x3FFFFF a -> (i < 32)%nat -> (j < 4)%nat ->
  let X := fe_val a / 2 ^ (8 * Z.of_nat i) in
  fe_get_b32_step a i j (X mod 2 ^ (2 * Z.of_nat j)) = X mod 2 ^ (2 * Z.of_nat j + 2).
Proof.
  intros Ha Hi Hj X. destruct (limb_index i j Hi Hj) as (H1 & H2 & H3).
  unfold fe_get_b32_step.
  rewrite lor_shiftl; [| lia | apply Z.mod_pos_bound, Z.pow_pos_nonneg; lia].
  rewrite mod_pow_add by lia. do 2 f_equal.
  pose proof (fe_limbs_bound a Ha). unfold fe_val in *.
  rewrite <- (digits_limbs_val 26 a ltac:(lia) (fe_limbs_lt a Ha)) at 1.
  rewrite (proj1 Ha), nth_digits by lia.
  change 3 with (Z.ones 2). rewrite Z.land_ones, Z.shiftr_div_pow2, field_mod by lia.
  subst X. rewrite !Z.div_div by (try apply Z.pow_nonzero; try apply Z.pow_pos_nonneg; lia).
  rewrite <- !Z.pow_add_r, H3 by lia. reflexivity.
Qed.

Lemma get_b32_byte_spec a i : fe_limbs 0x3FFFFF a -> (i < 32)%nat ->
  fe_get_b32_byte a i = (fe_val a / 2 ^ (8 * Z.of_nat i)) mod 2 ^ 8.
Proof.
  intros Ha Hi. unfold fe_get_b32_byte. set (X := fe_val a / 2 ^ (8 * Z.of_nat i)).
  replace (fe_get_b32_step a i 0 0) with (X mod 2 ^ 2)
    by (symmetry; rewrite <- (Z.mod_1_r X) at 1; exact (get_b32_step_spec a i 0 Ha Hi ltac:(lia))).
  pose proof (get_b32_step_spec a i 1 Ha Hi ltac:(lia)) as H1.
  pose proof (get_b32_step_spec a i 2 Ha Hi ltac:(lia)) as H2.
  pose proof (get_b32_step_spec a i 3 Ha Hi ltac:(lia)) as H3.
  cbv zeta in *. fold X in H1, H2, H3. cbn [Z.of_nat Pos.of_succ_nat Pos.succ] in *.
  change (2 * 1) with 2 in *. change (2 + 2) with (2 * 2) in *.
  change (2 * 2 + 2) with (2 * 3) in *. change (2 * 3 + 2) with 8 in *.
  rewrite H1, H2, H3. unfold u8. now rewrite Z.mod_mod.
Qed.

Lemma get_b32_spec a : fe_limbs 0x3FFFFF a ->
  secp256k1_fe_get_b32 a = be_bytes 32 (fe_val a).
Proof.
  intros Ha. unfold secp256k1_fe_get_b32.
  enough (H : forall k, (k <= 32)%nat ->
    fe_get_b32_loop a k (repeat 0 32) = repeat 0 (32 - k) ++ be_bytes k (fe_val a))
    by exact (H 32%nat (le_n _)).
  induction k as [| i IH]; intros Hk; [reflexivity |].
  cbn [fe_get_b32_loop]. rewrite IH by lia.
  replace (32 - i)%nat with (S (31 - i)) by lia. rewrite upd_repeat.
  replace (32 - S i)%nat with (31 - i)%nat by lia. f_equal.
  unfold be_bytes. rewrite digits_snoc, rev_app_distr by lia.
  now rewrite get_b32_byte_spec by (assumption || lia).
Qed.

(** * Storage *)

Lemma to_storage_spec a : fe_limbs 0x3FFFFF a ->
  limbs_lt 32 (secp256k1_fe_to_storage a) /\
  length (secp256k1_fe_to_storage a) = 8%nat /\
  limbs_val 32 (secp256k1_fe_to_storage a) = fe_val a.
Proof.
  intros H. fe_cases a H. unfold Rng in *.
  cbv beta iota delta [secp256k1_fe_to_storage nth].
  replace (a0 .| u32 (a1 << 26)) with ((a0 >> 0) .| u32 (a1 << 26)) by now rewrite Z.shiftr_0_r.
  replace ((a4 >> 24) .| u32 (a5 << 2) .| u32 (a6 << 28))
    with ((a4 / 2 ^ 24 + 2 ^ 2 * (a5 mod 2 ^ 30) >> 0) .| u32 (a6 << 28))
    by (unfold u32; now rewrite Z.shiftr_0_r, <- (pack_word 32) by lia).
  unfold u32. rewrite !pack_word by (try lia; Z.div_mod_to_equations; lia).
  unfold fe_val, limbs_lt; cbn [limbs_val]. split; [| split; [reflexivity |]].
  - repeat constructor; try (Z.div_mod_to_equations; lia).
  - Z.div_mod_to_equations. lia.
Qed.

Lemma from_storage_spec s : limbs_lt 32 s -> length s = 8%nat ->
  fe_limbs 0x3FFFFF (secp256k1_fe_from_storage s) /\
  fe_val (secp256k1_fe_from_storage s) = limbs_val 32 s.
Proof.
  intros H Hl. list_cases s Hl. repeat (apply Forall_cons_iff in H; destruct H as [? H]).
  cbv beta iota delta [secp256k1_fe_from_storage nth].
  unfold u32. change 0x3FFFFFF with (Z.ones 26). rewrite !unpack_limb by lia.
  rewrite !Z.land_ones, !Z.shiftr_div_pow2 by lia.
  unfold fe_val, fe_limbs; cbn [limbs_val firstn nth length]. unfold Rng.
  split; [split; [reflexivity | split] |].
  - repeat constructor; try (Z.div_mod_to_equations; lia).
  - Z.div_mod_to_equations. lia.
  - Z.div_mod_to_equations. lia.
Qed.

(** * Conditional moves *)

Lemma cmov32_spec x y b : 0 <= x < 2 ^ 32 -> 0 <= y < 2 ^ 32 ->
  let mask0 := u32 (b2z b + not32 0) in
  cmov32 x y mask0 (not32 mask0) = if b then y else x.
Proof. intros Hx Hy. rewrite <- (mask_select 32 x y b) by (assumption || lia). now destruct b. Qed.

Lemma cmov_spec r a b : length r = 10%nat -> length a = 10%nat -> limbs_lt 32 r -> limbs_lt 32 a ->
  secp256k1_fe_cmov r a (b2z b) = if b then a else r.
Proof.
  intros Lr La Hr Ha. list_cases r Lr. list_cases a La.
  repeat (apply Forall_cons_iff in Hr; destruct Hr as [? Hr]).
  repeat (apply Forall_cons_iff in Ha; destruct Ha as [? Ha]).
  cbv beta iota zeta delta [secp256k1_fe_cmov nth].
  rewrite !cmov32_spec by assumption. now destruct b.
Qed.

Lemma storage_cmov_spec r a b : length r = 8%nat -> length a = 8%nat ->
  limbs_lt 32 r -> limbs_lt 32 a ->
  secp256k1_fe_storage_cmov r a (b2z b) = if b then a else r.
Proof.
  intros Lr La Hr Ha. list_cases r Lr. list_cases a La.
  repeat (apply Forall_cons_iff in Hr; destruct Hr as [? Hr]).
  repeat (apply Forall_cons_iff in Ha; destruct Ha as [? Ha]).
  cbv beta iota zeta delta [secp256k1_fe_storage_cmov nth].
  rewrite !cmov32_spec by assumption. now destruct b.
Qed.

Lemma fe_mag_u32 m a : m <= 32 -> fe_mag m a -> limbs_lt 32 a.
Proof. intros Hm H. fe_cases a H. unfold Rng in *. repeat constructor; lia. Qed.

(** * Constants *)

Lemma fe_const_spec d7 d6 d5 d4 d3 d2 d1 d0 : limbs_lt 32 [d0; d1; d2; d3; d4; d5; d6; d7] ->
  fe_limbs 0x3FFFFF (SECP256K1_FE_CONST d7 d6 d5 d4 d3 d2 d1 d0) /\
  fe_val (SECP256K1_FE_CONST d7 d6 d5 d4 d3 d2 d1 d0) = limbs_val 32 [d0; d1; d2; d3; d4; d5; d6; d7].
Proof.
  intros H. repeat (apply Forall_cons_iff in H; destruct H as [? H]).
  unfold SECP256K1_FE_CONST.
  change 0xFFFFF with (Z.ones 20). change 0x3FFF with (Z.ones 14). change 0xFF with (Z.ones 8).
  change 0x3FFFFFF with (Z.ones 26). change 0x3FFFFF with (Z.ones 22).
  change 0xFFFF with (Z.ones 16). change 0x3FF with (Z.ones 10). change 3 with (Z.ones 2).
  rewrite !const_limb by lia. rewrite !Z.land_ones, !Z.shiftr_div_pow2 by lia.
  unfold fe_val, fe_limbs; cbn [limbs_val firstn nth length]. unfold Rng.
  split; [split; [reflexivity | split] |].
  - repeat constructor; try (Z.div_mod_to_equations; lia).
  - change (Z.ones 22) with 4194303. Z.div_mod_to_equations. lia.
  - Z.div_mod_to_equations. lia.
Qed.

(** * The [VERIFY] checker *)

Ltac bool_to_Z :=
  rewrite ?andb_true_iff, ?Z.leb_le, ?Z.geb_le.

Lemma verify_magnitude_spec d m : length d = 10%nat -> Forall (fun x => 0 <= x) d ->
  secp256k1_fe_verify d m false = true <-> 0 <= m <= 32 /\ fe_mag m d.
Proof.
  intros L H. list_cases d L. repeat (apply Forall_cons_iff in H; destruct H as [? H]).
  cbv beta iota zeta delta [secp256k1_fe_verify nth]. bool_to_Z.
  unfold fe_mag; cbn [length firstn nth]. rewrite !Forall_cons_iff. unfold Rng.
  split; intros; repeat split; try constructor; intuition lia.
Qed.

Lemma verify_normalized_spec d m : length d = 10%nat -> Forall (fun x => 0 <= x) d ->
  secp256k1_fe_verify d m true = true <-> 0 <= m <= 1 /\ fe_norm d.
Proof.
  intros L H.
  assert (HL : fe_limbs 0x3FFFFF d <->
    (d.[0] <=? 0x3FFFFFF) && (d.[1] <=? 0x3FFFFFF) && (d.[2] <=? 0x3FFFFFF)
    && (d.[3] <=? 0x3FFFFFF) && (d.[4] <=? 0x3FFFFFF) && (d.[5] <=? 0x3FFFFFF)
    && (d.[6] <=? 0x3FFFFFF) && (d.[7] <=? 0x3FFFFFF) && (d.[8] <=? 0x3FFFFFF)
    && (d.[9] <=? 0x3FFFFF) = true).
  { list_cases d L. repeat (apply Forall_cons_iff in H; destruct H as [? H]).
    unfold fe_limbs; cbn [length firstn nth]. rewrite !Forall_cons_iff. unfold Rng. bool_to_Z.
    split; intros; repeat split; try constructor; intuition lia. }
  unfold secp256k1_fe_verify, fe_norm. cbv zeta. rewrite !Z.mul_1_r.
  destruct (_ && _ && _ && _ && _ && _ && _ && _ && _ && (d.[9] <=? 0x3FFFFF)) eqn:E.
  - assert (E' : fe_limbs 0x3FFFFF d) by now apply HL.
    pose proof (ge_p_cond d E') as Hc. rewrite Z.gtb_ltb, Z.ltb_antisym in Hc.
    assert (Hm : (m >=? 0) && (m <=? 32) && (m <=? 1) = true <-> 0 <= m <= 1)
      by (bool_to_Z; lia).
    rewrite andb_true_l.
    destruct ((m >=? 0) && (m <=? 32) && (m <=? 1)) eqn:Em; cbn [andb].
    + destruct (d.[9] =? 4194303), (_ .& d.[2] =? 67108863),
        (d.[1] + 64 + (d.[0] + 977 >> 26) <=? 67108863); cbn [andb negb] in Hc |- *;
        symmetry in Hc; first [apply Z.leb_le in Hc | apply Z.leb_gt in Hc];
        intuition (try discriminate; lia).
    + split; [discriminate |]. intros [Hm' _]. apply Hm in Hm'. discriminate.
  - rewrite !andb_false_l. cbn [andb]. split; [discriminate |].
    intros (_ & Hl & _). apply HL in Hl. discriminate.
Qed.

(** A limb pattern of magnitude 32, the largest [secp256k1_fe_verify] accepts. *)
Definition fe_mag32_max : secp256k1_fe :=
  [0xFFFFFFC0; 0xFFFFFFC0; 0xFFFFFFC0; 0xFFFFFFC0; 0xFFFFFFC0;
   0xFFFFFFC0; 0xFFFFFFC0; 0xFFFFFFC0; 0xFFFFFFC0; 0xFFFFFC0].
