(* ===== verification/Field10x26Mul.v ===== *)
(** Multiplication and squaring of 10x26 field elements
    ([secp256k1_fe_mul_inner], [secp256k1_fe_sqr_inner]): no [uint64_t]
    accumulator overflows for inputs of magnitude at most 8, and the result
    represents the product modulo the prime with magnitude 1.  With them the
    representation implements the interface of [FieldSpec]. *)

From Stdlib Require Import ZArith Lia List Bool Zmod.
From S2P Require Import Prelude Limbs Fp FieldSpec FieldVal Field10x26 Field10x26Ser.
Import ListNotations.
Open Scope Z_scope.

(** Columns 0 to 3 of the product, with columns 9 to 13 folded onto them; the
    continuation receives the carries [c], [d] and the finished limbs. *)
Definition fe_mul_inner_0_3 (a b : secp256k1_fe)
  (k : Z -> Z -> Z -> Z -> Z -> Z -> Z -> secp256k1_fe) : secp256k1_fe :=
  let d := u64 (a.[0] * b.[9] + a.[1] * b.[8] + a.[2] * b.[7] + a.[3] * b.[6]
      + a.[4] * b.[5] + a.[5] * b.[4] + a.[6] * b.[3] + a.[7] * b.[2] + a.[8] * b.[1]
      + a.[9] * b.[0]) in
  let t9 := d .& 0x3FFFFFF in let d := d >> 26 in let c := u64 (a.[0] * b.[0]) in
  let d := u64 (d + (a.[1] * b.[9] + a.[2] * b.[8] + a.[3] * b.[7] + a.[4] * b.[6]
      + a.[5] * b.[5] + a.[6] * b.[4] + a.[7] * b.[3] + a.[8] * b.[2] + a.[9] * b.[1])) in
  let u0 := d .& 0x3FFFFFF in let d := d >> 26 in let c := u64 (c + (u0 * 0x3D10)) in
  let t0 := c .& 0x3FFFFFF in let c := c >> 26 in let c := u64 (c + (u0 * 0x400)) in
  let c := u64 (c + (a.[0] * b.[1] + a.[1] * b.[0])) in
  let d := u64 (d + (a.[2] * b.[9] + a.[3] * b.[8] + a.[4] * b.[7] + a.[5] * b.[6]
      + a.[6] * b.[5] + a.[7] * b.[4] + a.[8] * b.[3] + a.[9] * b.[2])) in
  let u1 := d .& 0x3FFFFFF in let d := d >> 26 in let c := u64 (c + (u1 * 0x3D10)) in
  let t1 := c .& 0x3FFFFFF in let c := c >> 26 in let c := u64 (c + (u1 * 0x400)) in
  let c := u64 (c + (a.[0] * b.[2] + a.[1] * b.[1] + a.[2] * b.[0])) in
  let d := u64 (d + (a.[3] * b.[9] + a.[4] * b.[8] + a.[5] * b.[7] + a.[6] * b.[6]
      + a.[7] * b.[5] + a.[8] * b.[4] + a.[9] * b.[3])) in
  let u2 := d .& 0x3FFFFFF in let d := d >> 26 in let c := u64 (c + (u2 * 0x3D10)) in
  let t2 := c .& 0x3FFFFFF in let c := c >> 26 in let c := u64 (c + (u2 * 0x400)) in
  let c := u64 (c + (a.[0] * b.[3] + a.[1] * b.[2] + a.[2] * b.[1] + a.[3] * b.[0])) in
  let d := u64 (d + (a.[4] * b.[9] + a.[5] * b.[8] + a.[6] * b.[7] + a.[7] * b.[6]
      + a.[8] * b.[5] + a.[9] * b.[4])) in
  let u3 := d .& 0x3FFFFFF in let d := d >> 26 in let c := u64 (c + (u3 * 0x3D10)) in
  let t3 := c .& 0x3FFFFFF in let c := c >> 26 in let c := u64 (c + (u3 * 0x400)) in
  k c d t9 t0 t1 t2 t3.

(** Columns 4 to 8, with columns 14 to 18 folded onto them. *)
Definition fe_mul_inner_4_8 (a b : secp256k1_fe) (c d t9 t0 t1 t2 t3 : Z)
  (k : Z -> Z -> Z -> Z -> Z -> Z -> Z -> Z -> Z -> Z -> Z -> Z -> secp256k1_fe) : secp256k1_fe :=
  let c := u64 (c + (a.[0] * b.[4] + a.[1] * b.[3] + a.[2] * b.[2] + a.[3] * b.[1]
      + a.[4] * b.[0])) in
  let d := u64 (d + (a.[5] * b.[9] + a.[6] * b.[8] + a.[7] * b.[7] + a.[8] * b.[6]
      + a.[9] * b.[5])) in
  let u4 := d .& 0x3FFFFFF in let d := d >> 26 in let c := u64 (c + (u4 * 0x3D10)) in
  let t4 := c .& 0x3FFFFFF in let c := c >> 26 in let c := u64 (c + (u4 * 0x400)) in
  let c := u64 (c + (a.[0] * b.[5] + a.[1] * b.[4] + a.[2] * b.[3] + a.[3] * b.[2]
      + a.[4] * b.[1] + a.[5] * b.[0])) in
  let d := u64 (d + (a.[6] * b.[9] + a.[7] * b.[8] + a.[8] * b.[7] + a.[9] * b.[6])) in
  let u5 := d .& 0x3FFFFFF in let d := d >> 26 in let c := u64 (c + (u5 * 0x3D10)) in
  let t5 := c .& 0x3FFFFFF in let c := c >> 26 in let c := u64 (c + (u5 * 0x400)) in
  let c := u64 (c + (a.[0] * b.[6] + a.[1] * b.[5] + a.[2] * b.[4] + a.[3] * b.[3]
      + a.[4] * b.[2] + a.[5] * b.[1] + a.[6] * b.[0])) in
  let d := u64 (d + (a.[7] * b.[9] + a.[8] * b.[8] + a.[9] * b.[7])) in
  let u6 := d .& 0x3FFFFFF in let d := d >> 26 in let c := u64 (c + (u6 * 0x3D10)) in
  let t6 := c .& 0x3FFFFFF in let c := c >> 26 in let c := u64 (c + (u6 * 0x400)) in
  let c := u64 (c + (a.[0] * b.[7] + a.[1] * b.[6] + a.[2] * b.[5] + a.[3] * b.[4]
      + a.[4] * b.[3] + a.[5] * b.[2] + a.[6] * b.[1] + a.[7] * b.[0])) in
  let d := u64 (d + (a.[8] * b.[9] + a.[9] * b.[8])) in let u7 := d .& 0x3FFFFFF in
  let d := d >> 26 in let c := u64 (c + (u7 * 0x3D10)) in let t7 := c .& 0x3FFFFFF in
  let c := c >> 26 in let c := u64 (c + (u7 * 0x400)) in
  let c := u64 (c + (a.[0] * b.[8] + a.[1] * b.[7] + a.[2] * b.[6] + a.[3] * b.[5]
      + a.[4] * b.[4] + a.[5] * b.[3] + a.[6] * b.[2] + a.[7] * b.[1] + a.[8] * b.[0])) in
  let d := u64 (d + (a.[9] * b.[9])) in let u8 := d .& 0x3FFFFFF in let d := d >> 26 in
  let c := u64 (c + (u8 * 0x3D10)) in
  k c d u8 t9 t0 t1 t2 t3 t4 t5 t6 t7.

(** The last reduction. *)
Definition fe_mul_inner_final (c d u8 t9 t0 t1 t2 t3 t4 t5 t6 t7 : Z) : secp256k1_fe :=
  let r3 := t3 in let r4 := t4 in let r5 := t5 in let r6 := t6 in let r7 := t7 in
  let r8 := c .& 0x3FFFFFF in let c := c >> 26 in let c := u64 (c + (u8 * 0x400)) in
  let c := u64 (c + (d * 0x3D10 + t9)) in let r9 := c .& 0x3FFFFF in let c := c >> 22 in
  let c := u64 (c + (d * 0x4000)) in let d := u64 (c * 0x3D1 + t0) in
  let r0 := d .& 0x3FFFFFF in let d := d >> 26 in let d := u64 (d + (c * 0x40 + t1)) in
  let r1 := d .& 0x3FFFFFF in let d := d >> 26 in let d := u64 (d + (t2)) in
  let r2 := u32 d in
  [r0; r1; r2; r3; r4; r5; r6; r7; r8; r9].

Definition secp256k1_fe_mul_inner (a b : secp256k1_fe) : secp256k1_fe :=
  fe_mul_inner_0_3 a b (fun c d t9 t0 t1 t2 t3 =>
    fe_mul_inner_4_8 a b c d t9 t0 t1 t2 t3 fe_mul_inner_final).

(** The same columns of a square, products off the diagonal taken twice. *)
Definition fe_sqr_inner_0_3 (a : secp256k1_fe)
  (k : Z -> Z -> Z -> Z -> Z -> Z -> Z -> secp256k1_fe) : secp256k1_fe :=
  let d := u64 (u32 (a.[0] * 2) * a.[9] + u32 (a.[1] * 2) * a.[8] + u32 (a.[2] * 2) * a.[7]
      + u32 (a.[3] * 2) * a.[6] + u32 (a.[4] * 2) * a.[5]) in
  let t9 := d .& 0x3FFFFFF in let d := d >> 26 in let c := u64 (a.[0] * a.[0]) in
  let d := u64 (d + (u32 (a.[1] * 2) * a.[9] + u32 (a.[2] * 2) * a.[8]
      + u32 (a.[3] * 2) * a.[7] + u32 (a.[4] * 2) * a.[6] + a.[5] * a.[5])) in
  let u0 := d .& 0x3FFFFFF in let d := d >> 26 in let c := u64 (c + (u0 * 0x3D10)) in
  let t0 := c .& 0x3FFFFFF in let c := c >> 26 in let c := u64 (c + (u0 * 0x400)) in
  let c := u64 (c + (u32 (a.[0] * 2) * a.[1])) in
  let d := u64 (d + (u32 (a.[2] * 2) * a.[9] + u32 (a.[3] * 2) * a.[8]
      + u32 (a.[4] * 2) * a.[7] + u32 (a.[5] * 2) * a.[6])) in
  let u1 := d .& 0x3FFFFFF in let d := d >> 26 in let c := u64 (c + (u1 * 0x3D10)) in
  let t1 := c .& 0x3FFFFFF in let c := c >> 26 in let c := u64 (c + (u1 * 0x400)) in
  let c := u64 (c + (u32 (a.[0] * 2) * a.[2] + a.[1] * a.[1])) in
  let d := u64 (d + (u32 (a.[3] * 2) * a.[9] + u32 (a.[4] * 2) * a.[8]
      + u32 (a.[5] * 2) * a.[7] + a.[6] * a.[6])) in
  let u2 := d .& 0x3FFFFFF in let d := d >> 26 in let c := u64 (c + (u2 * 0x3D10)) in
  let t2 := c .& 0x3FFFFFF in let c := c >> 26 in let c := u64 (c + (u2 * 0x400)) in
  let c := u64 (c + (u32 (a.[0] * 2) * a.[3] + u32 (a.[1] * 2) * a.[2])) in
  let d := u64 (d + (u32 (a.[4] * 2) * a.[9] + u32 (a.[5] * 2) * a.[8]
      + u32 (a.[6] * 2) * a.[7])) in
  let u3 := d .& 0x3FFFFFF in let d := d >> 26 in let c := u64 (c + (u3 * 0x3D10)) in
  let t3 := c .& 0x3FFFFFF in let c := c >> 26 in let c := u64 (c + (u3 * 0x400)) in
  k c d t9 t0 t1 t2 t3.

Definition fe_sqr_inner_4_8 (a : secp256k1_fe) (c d t9 t0 t1 t2 t3 : Z)
  (k : Z -> Z -> Z -> Z -> Z -> Z -> Z -> Z -> Z -> Z -> Z -> Z -> secp256k1_fe) : secp256k1_fe :=
  let c := u64 (c + (u32 (a.[0] * 2) * a.[4] + u32 (a.[1] * 2) * a.[3] + a.[2] * a.[2])) in
  let d := u64 (d + (u32 (a.[5] * 2) * a.[9] + u32 (a.[6] * 2) * a.[8] + a.[7] * a.[7])) in
  let u4 := d .& 0x3FFFFFF in let d := d >> 26 in let c := u64 (c + (u4 * 0x3D10)) in
  let t4 := c .& 0x3FFFFFF in let c := c >> 26 in let c := u64 (c + (u4 * 0x400)) in
  let c := u64 (c + (u32 (a.[0] * 2) * a.[5] + u32 (a.[1] * 2) * a.[4]
      + u32 (a.[2] * 2) * a.[3])) in
  let d := u64 (d + (u32 (a.[6] * 2) * a.[9] + u32 (a.[7] * 2) * a.[8])) in
  let u5 := d .& 0x3FFFFFF in let d := d >> 26 in let c := u64 (c + (u5 * 0x3D10)) in
  let t5 := c .& 0x3FFFFFF in let c := c >> 26 in let c := u64 (c + (u5 * 0x400)) in
  let c := u64 (c + (u32 (a.[0] * 2) * a.[6] + u32 (a.[1] * 2) * a.[5]
      + u32 (a.[2] * 2) * a.[4] + a.[3] * a.[3])) in
  let d := u64 (d + (u32 (a.[7] * 2) * a.[9] + a.[8] * a.[8])) in
  let u6 := d .& 0x3FFFFFF in let d := d >> 26 in let c := u64 (c + (u6 * 0x3D10)) in
  let t6 := c .& 0x3FFFFFF in let c := c >> 26 in let c := u64 (c + (u6 * 0x400)) in
  let c := u64 (c + (u32 (a.[0] * 2) * a.[7] + u32 (a.[1] * 2) * a.[6]
      + u32 (a.[2] * 2) * a.[5] + u32 (a.[3] * 2) * a.[4])) in
  let d := u64 (d + (u32 (a.[8] * 2) * a.[9])) in let u7 := d .& 0x3FFFFFF in
  let d := d >> 26 in let c := u64 (c + (u7 * 0x3D10)) in let t7 := c .& 0x3FFFFFF in
  let c := c >> 26 in let c := u64 (c + (u7 * 0x400)) in
  let c := u64 (c + (u32 (a.[0] * 2) * a.[8] + u32 (a.[1] * 2) * a.[7]
      + u32 (a.[2] * 2) * a.[6] + u32 (a.[3] * 2) * a.[5] + a.[4] * a.[4])) in
  let d := u64 (d + (a.[9] * a.[9])) in let u8 := d .& 0x3FFFFFF in let d := d >> 26 in
  let c := u64 (c + (u8 * 0x3D10)) in
  k c d u8 t9 t0 t1 t2 t3 t4 t5 t6 t7.

Definition fe_sqr_inner_final (c d u8 t9 t0 t1 t2 t3 t4 t5 t6 t7 : Z) : secp256k1_fe :=
  let r3 := t3 in let r4 := t4 in let r5 := t5 in let r6 := t6 in let r7 := t7 in
  let r8 := c .& 0x3FFFFFF in let c := c >> 26 in let c := u64 (c + (u8 * 0x400)) in
  let c := u64 (c + (d * 0x3D10 + t9)) in let r9 := c .& 0x3FFFFF in let c := c >> 22 in
  let c := u64 (c + (d * 0x4000)) in let d := u64 (c * 0x3D1 + t0) in
  let r0 := d .& 0x3FFFFFF in let d := d >> 26 in let d := u64 (d + (c * 0x40 + t1)) in
  let r1 := d .& 0x3FFFFFF in let d := d >> 26 in let d := u64 (d + (t2)) in
  let r2 := u32 d in
  [r0; r1; r2; r3; r4; r5; r6; r7; r8; r9].

Definition secp256k1_fe_sqr_inner (a : secp256k1_fe) : secp256k1_fe :=
  fe_sqr_inner_0_3 a (fun c d t9 t0 t1 t2 t3 =>
    fe_sqr_inner_4_8 a c d t9 t0 t1 t2 t3 fe_sqr_inner_final).

Definition secp256k1_fe_mul (a b : secp256k1_fe) : secp256k1_fe := secp256k1_fe_mul_inner a b.

Definition secp256k1_fe_sqr (a : secp256k1_fe) : secp256k1_fe := secp256k1_fe_sqr_inner a.

Lemma mul_inner_spec a b : fe_mag 8 a -> fe_mag 8 b ->
  fe_mag 1 (secp256k1_fe_mul_inner a b) /\
  fe_val (secp256k1_fe_mul_inner a b) mod secp_p = (fe_val a * fe_val b) mod secp_p.
Proof.
  intros Ha Hb. fe_cases a Ha. fe_cases b Hb.
  match goal with |- context [secp256k1_fe_mul_inner ?x ?y] => pattern (secp256k1_fe_mul_inner x y) end.
  apply wp_intro.
  cbv beta iota delta [secp256k1_fe_mul_inner fe_mul_inner_0_3 fe_mul_inner_4_8 fe_mul_inner_final nth].
  repeat wp_step. wp_done.
  split; [fe_bounds |].
  apply (mod_eq_of _ _ (- (16 * limbs_val 26 [d1; d2; d3; d4; d5; d6; d7; d8; d9; q16] + c26)));
    [discriminate |].
  unfold fe_val, secp_p; cbn [limbs_val].
  solve_carries. ring.
Qed.

Lemma sqr_inner_spec a : fe_mag 8 a ->
  fe_mag 1 (secp256k1_fe_sqr_inner a) /\
  fe_val (secp256k1_fe_sqr_inner a) mod secp_p = (fe_val a * fe_val a) mod secp_p.
Proof.
  intros Ha. fe_cases a Ha.
  match goal with |- context [secp256k1_fe_sqr_inner ?x] => pattern (secp256k1_fe_sqr_inner x) end.
  apply wp_intro.
  cbv beta iota delta [secp256k1_fe_sqr_inner fe_sqr_inner_0_3 fe_sqr_inner_4_8 fe_sqr_inner_final nth].
  rewrite !u32_id by (unfold Rng in *; lia).
  repeat wp_step. wp_done.
  split; [fe_bounds |].
  apply (mod_eq_of _ _ (- (16 * limbs_val 26 [d1; d2; d3; d4; d5; d6; d7; d8; d9; q16] + c26)));
    [discriminate |].
  unfold fe_val, secp_p; cbn [limbs_val].
  solve_carries. ring.
Qed.

(** * The interface

    The 10x26 representation implements the field interface. *)

#[export] Instance field_10x26 : FieldImpl := {
  fe := secp256k1_fe;
  fe_storage := secp256k1_fe_storage;
  fe_const := SECP256K1_FE_CONST;
  fe_normalize := secp256k1_fe_normalize;
  fe_normalize_weak := secp256k1_fe_normalize_weak;
  fe_normalize_var := secp256k1_fe_normalize_var;
  fe_normalizes_to_zero := secp256k1_fe_normalizes_to_zero;
  fe_normalizes_to_zero_var := secp256k1_fe_normalizes_to_zero_var;
  fe_set_int := secp256k1_fe_set_int;
  fe_clear := secp256k1_fe_clear;
  fe_is_zero := secp256k1_fe_is_zero;
  fe_is_odd := secp256k1_fe_is_odd;
  fe_cmp_var := secp256k1_fe_cmp_var;
  fe_set_b32 := secp256k1_fe_set_b32;
  fe_get_b32 := secp256k1_fe_get_b32;
  fe_negate := secp256k1_fe_negate;
  fe_mul_int := secp256k1_fe_mul_int;
  fe_add := secp256k1_fe_add;
  fe_mul := secp256k1_fe_mul;
  fe_sqr := secp256k1_fe_sqr;
  fe_to_storage := secp256k1_fe_to_storage;
  fe_from_storage := secp256k1_fe_from_storage;
  fe_storage_cmov := secp256k1_fe_storage_cmov;
  fe_cmov := secp256k1_fe_cmov
}.

Definition storage_ok (s : secp256k1_fe_storage) : Prop := limbs_lt 32 s /\ length s = 8%nat.

Lemma fe_limbs_mag top a : top <= 0x3FFFFF * 2 -> fe_limbs top a -> fe_mag 1 a.
Proof.
  intros Ht (HL & HF & HT). split; [exact HL |]. split.
  - eapply Forall_impl; [| exact HF]. cbv beta. unfold Rng. lia.
  - unfold Rng in *. lia.
Qed.

#[export] Instance field_10x26_val : FieldVal field_10x26.
Proof.
  refine {| vmag := fe_mag : Z -> fe (FieldImpl := field_10x26) -> Prop; vnorm := fe_norm; val := fe_val;
            vst_ok := storage_ok : fe_storage (FieldImpl := field_10x26) -> Prop; vst_val := limbs_val 32 |}.
  - exact fe_mag_weaken.
  - exact fe_norm_mag.
  - exact fe_norm_val.
  - exact fe_norm_inj.
  - intros d7 d6 d5 d4 d3 d2 d1 d0 H v Hv. destruct (fe_const_spec d7 d6 d5 d4 d3 d2 d1 d0 H) as [Hl E].
    unfold fe_norm. cbn [fe_const field_10x26]. rewrite E. auto.
  - exact normalize_spec.
  - intros a H. destruct (normalize_weak_spec a H) as [Hn E]. split; [apply (fe_limbs_mag 0x40003E); [lia | exact Hn] |].
    cbn [fe_normalize_weak field_10x26]. rewrite E. apply (mod_eq_of _ _ (- (a.[9] >> 22))); [discriminate | ring].
  - exact normalize_var_spec.
  - exact normalizes_to_zero_spec.
  - exact normalizes_to_zero_var_spec.
  - exact set_int_spec.
  - exact (set_int_spec 0 ltac:(lia)).
  - exact is_zero_spec.
  - exact is_odd_spec.
  - exact cmp_var_spec.
  - intros b Hb Hl. cbn [fe_set_b32 field_10x26]. rewrite set_b32_spec by assumption. cbn [fst snd].
    pose proof (be_val_bound b Hb) as B. rewrite Hl in B. change (8 * Z.of_nat 32) with 256 in B.
    pose proof (fe_limbs_digits _ B) as Ld. pose proof (fe_val_digits _ B) as Vd.
    split; [reflexivity |]. split; [apply (fe_limbs_mag 0x3FFFFF); [lia | exact Ld] |]. unfold fe_norm. rewrite Vd. auto.
  - intros a H. apply get_b32_spec, H.
  - exact negate_spec.
  - exact mul_int_spec.
  - exact add_spec.
  - exact mul_inner_spec.
  - exact sqr_inner_spec.
  - intros a H. destruct (to_storage_spec a (proj1 H)) as (Hl & HL & E). repeat split; assumption.
  - intros s [H HL]. destruct (from_storage_spec s H HL) as [Hl E]. split; [apply (fe_limbs_mag 0x3FFFFF); [lia | exact Hl] |].
    split; [exact E |]. intros Hp. split; [exact Hl | exact (eq_ind_r (fun v => v < secp_p) Hp E)].
  - intros r a b [? ?] [? ?]. now apply storage_cmov_spec.
  - intros r a b Hr Ha. apply cmov_spec; try (apply Hr || apply Ha); now apply (fe_mag_u32 31).
Defined.

#[export] Instance field_10x26_laws : FieldLaws field_10x26 := laws_of_val field_10x26_val.

(** * What the field promises to its callers *)

(** The canonical limbs of a residue. *)
Definition fe_of_Z (v : Z) : secp256k1_fe := digits 26 10 (v mod secp_p).

Lemma mod_p_bound v : 0 <= v mod secp_p < secp_p.
Proof. apply Z.mod_pos_bound. reflexivity. Qed.

Lemma fe_val_of_Z v : fe_val (fe_of_Z v) = v mod secp_p.
Proof.
  pose proof (mod_p_bound v). apply fe_val_digits. unfold secp_p in *; lia.
Qed.

Lemma fe_norm_of_Z v : fe_norm (fe_of_Z v).
Proof.
  pose proof (mod_p_bound v). split; [| rewrite fe_val_of_Z; lia].
  apply fe_limbs_digits. unfold secp_p in *; lia.
Qed.

Lemma fe_norm_eq a v : fe_norm a -> fe_val a = v mod secp_p -> a = fe_of_Z v.
Proof.
  intros Ha Hv. apply fe_norm_inj; [exact Ha | apply fe_norm_of_Z |].
  now rewrite fe_val_of_Z.
Qed.

Lemma normalize_of_Z a : fe_mag 31 a -> secp256k1_fe_normalize a = fe_of_Z (fe_val a).
Proof. intros H. destruct (normalize_spec a H). now apply fe_norm_eq. Qed.

Lemma fe_of_Z_congr v w : v mod secp_p = w mod secp_p -> fe_of_Z v = fe_of_Z w.
Proof. unfold fe_of_Z. now intros ->. Qed.

(** A concrete element of magnitude 8 with every limb at its bound. *)
Definition fe_mag8_max : secp256k1_fe :=
  [0x3FFFFFF0; 0x3FFFFFF0; 0x3FFFFFF0; 0x3FFFFFF0; 0x3FFFFFF0;
   0x3FFFFFF0; 0x3FFFFFF0; 0x3FFFFFF0; 0x3FFFFFF0; 0x3FFFFF0].

Ltac fe_mag_check := repeat split; repeat constructor; unfold Rng; cbn; lia.

Lemma fe_mag8_max_ok m : 8 <= m -> fe_mag m fe_mag8_max.
Proof. intros H. apply (fe_mag_weaken 8); [exact H |]. fe_mag_check. Qed.

(** C20. Multiplication and squaring of elements of magnitude at most 8 overflow
    no accumulator, return magnitude 1, and normalise to the canonical limbs of
    the product modulo the prime. *)
Theorem fe_mul_sqr_correct a b : fe_mag 8 a -> fe_mag 8 b ->
  fe_mag 1 (secp256k1_fe_mul a b) /\ fe_mag 1 (secp256k1_fe_sqr a) /\
  secp256k1_fe_normalize (secp256k1_fe_mul a b) = fe_of_Z (fe_val a * fe_val b) /\
  secp256k1_fe_normalize (secp256k1_fe_sqr a) = fe_of_Z (fe_val a * fe_val a).
Proof.
  intros Ha Hb. destruct (mul_inner_spec a b Ha Hb) as [Hm Hv].
  destruct (sqr_inner_spec a Ha) as [Hm' Hv'].
  split; [exact Hm |]. split; [exact Hm' |].
  split; rewrite normalize_of_Z by (eapply fe_mag_weaken; [| eassumption]; lia);
    now apply fe_of_Z_congr.
Qed.

Lemma fe_mul_sqr_correct_witness :
  fe_mag 8 fe_mag8_max /\
  secp256k1_fe_normalize (secp256k1_fe_mul fe_mag8_max fe_mag8_max)
  = fe_of_Z (fe_val fe_mag8_max * fe_val fe_mag8_max).
Proof.
  split; [apply fe_mag8_max_ok; lia |].
  apply (fe_mul_sqr_correct fe_mag8_max fe_mag8_max); apply fe_mag8_max_ok; lia.
Defined.

(** C21. For magnitude at most 31 both normalisations return the canonical limbs
    of the residue, and weak normalisation keeps the residue at magnitude 1. *)
Theorem fe_normalize_correct a : fe_mag 31 a ->
  secp256k1_fe_normalize a = fe_of_Z (fe_val a) /\
  secp256k1_fe_normalize_var a = fe_of_Z (fe_val a) /\
  fe_mag 1 (secp256k1_fe_normalize_weak a) /\
  secp256k1_fe_normalize (secp256k1_fe_normalize_weak a) = fe_of_Z (fe_val a).
Proof.
  intros H. destruct (normalize_var_spec a H). destruct (normalize_weak_spec a H) as [Hw Hv].
  assert (fe_mag 1 (secp256k1_fe_normalize_weak a)).
  { destruct Hw as (? & HF & HT). repeat split; try assumption.
    - eapply Forall_impl; [| exact HF]. cbv beta. unfold Rng. lia.
    - destruct HT; lia.
    - destruct HT; lia. }
  split; [now apply normalize_of_Z |]. split; [now apply fe_norm_eq |].
  split; [assumption |].
  rewrite normalize_of_Z by (eapply fe_mag_weaken; [| eassumption]; lia).
  apply fe_of_Z_congr. rewrite Hv.
  apply (mod_eq_of _ _ (- (nth 9 a 0 >> 22))); [discriminate | ring].
Qed.

Lemma fe_normalize_correct_witness :
  fe_mag 31 fe_mag8_max /\
  secp256k1_fe_normalize_var fe_mag8_max = fe_of_Z (fe_val fe_mag8_max).
Proof.
  split; [apply fe_mag8_max_ok; lia |].
  apply (fe_normalize_correct fe_mag8_max), fe_mag8_max_ok; lia.
Defined.

(** * Magnitude 32 *)

(** The first two limbs that the first pass of [secp256k1_fe_normalize] computes. *)
Definition first_low (a : secp256k1_fe) : Z := u32 (a.[0] + (a.[9] >> 22) * 0x3D1).
Definition first_next (a : secp256k1_fe) : Z := u32 (u32 (a.[1] + ((a.[9] >> 22) << 6)) + (first_low a >> 26)).

(** The element after these two steps. *)
Definition first_steps (a : secp256k1_fe) : secp256k1_fe :=
  [first_low a .& 0x3FFFFFF; first_next a; a.[2]; a.[3]; a.[4]; a.[5]; a.[6]; a.[7]; a.[8]; a.[9] .& 0x03FFFFF].

Lemma land_ones26 x : x .& 0x3FFFFFF = x mod 2 ^ 26.
Proof. exact (Z.land_ones x 26 ltac:(lia)). Qed.

Lemma land_ones22 x : x .& 0x03FFFFF = x mod 2 ^ 22.
Proof. exact (Z.land_ones x 22 ltac:(lia)). Qed.

(** Doing them twice changes nothing. *)
Lemma normalize_first_steps a : length a = 10%nat -> secp256k1_fe_normalize a = secp256k1_fe_normalize (first_steps a).
Proof.
  intros L. list_cases a L. unfold first_steps, first_next, first_low. cbv beta iota delta [nth].
  set (p := u32 (a0 + (a9 >> 22) * 0x3D1)). set (q := u32 (u32 (a1 + (a9 >> 22 << 6)) + (p >> 26))).
  assert (E1 : (a9 .& 0x3FFFFF) >> 22 = 0) by (rewrite land_ones22, Z.shiftr_div_pow2 by lia; apply Z.div_small, Z.mod_pos_bound; lia).
  assert (E2 : (p .& 0x3FFFFFF) .& 0x3FFFFFF = p .& 0x3FFFFFF) by (now rewrite <- Z.land_assoc).
  pose proof (Z.mod_pos_bound p (2 ^ 26) ltac:(lia)) as Rp. rewrite <- land_ones26 in Rp.
  assert (E3 : u32 (p .& 0x3FFFFFF) = p .& 0x3FFFFFF) by (apply Z.mod_small; lia).
  assert (E4 : (p .& 0x3FFFFFF) >> 26 = 0) by (rewrite Z.shiftr_div_pow2 by lia; apply Z.div_small; lia).
  assert (E5 : u32 q = q) by (apply Z.mod_mod; lia).
  assert (E6 : (a9 .& 0x3FFFFF) .& 0x3FFFFF = a9 .& 0x3FFFFF) by (now rewrite <- Z.land_assoc).
  cbv beta iota zeta delta [secp256k1_fe_normalize nth].
  rewrite E1, Z.mul_0_l, Z.shiftl_0_l, !Z.add_0_r, E3, E4, E2, Z.add_0_r, !E5, E6. reflexivity.
Qed.

(** From there no addition overflows. *)
Lemma normalize_carried a0 a1 a2 a3 a4 a5 a6 a7 a8 a9 : Rng a0 0x3FFFFFF -> Rng a1 0xFFFFFFFF ->
  Forall (fun x => Rng x 0xFFFFFFC0) [a2; a3; a4; a5; a6; a7; a8] -> Rng a9 0x3FFFFF ->
  let a := [a0; a1; a2; a3; a4; a5; a6; a7; a8; a9] in
  fe_norm (secp256k1_fe_normalize a) /\ fe_val (secp256k1_fe_normalize a) = fe_val a mod secp_p.
Proof.
  intros R0 R1 F R9. repeat (apply Forall_cons_iff in F; let R := fresh "R" in destruct F as [R F]). clear F. cbv zeta.
  pattern (secp256k1_fe_normalize [a0; a1; a2; a3; a4; a5; a6; a7; a8; a9]).
  apply wp_intro. wp_run secp256k1_fe_normalize. fe_select_x.
  unfold fe_norm. split; [split; [fe_bounds | fe_final_cases] |].
  apply (mod_of_reduced _ _ (q + x)); fe_final_cases.
Qed.

(** What the two steps make of the value: [2^32] is lost when the first of them
    overflows and [2^58] when the second does. *)
Lemma first_steps_val a : fe_mag 32 a ->
  let x := a.[9] >> 22 in let t0 := a.[0] + x * 0x3D1 in let t1 := a.[1] + (x << 6) + (u32 t0 >> 26) in
  fe_val (first_steps a) = fe_val a - 2 ^ 32 * (t0 / 2 ^ 32) - 2 ^ 58 * (t1 / 2 ^ 32) - x * secp_p.
Proof.
  intros H. fe_cases a H. cbv zeta. unfold first_steps, first_next, first_low. cbn [nth].
  rewrite land_ones26, land_ones22. unfold u32. rewrite Zplus_mod_idemp_l. rewrite !Z.shiftr_div_pow2, Z.shiftl_mul_pow2 by lia.
  unfold fe_val, secp_p; cbn [limbs_val]. set (x := a9 / 2 ^ 22). set (p := (a0 + x * 977) mod 2 ^ 32).
  rewrite (Z.mod_eq (_ + _ + _) (2 ^ 32)) by lia. rewrite (Z.mod_eq p (2 ^ 26)) by lia. unfold p at 1. rewrite (Z.mod_eq (_ + _) (2 ^ 32)) by lia.
  rewrite (Z.mod_eq a9 (2 ^ 22)) by lia. fold x. lia.
Qed.

(** Each of the two sums exceeds its word at most once. *)
Lemma first_carries a : fe_mag 32 a ->
  let x := a.[9] >> 22 in let t0 := a.[0] + x * 0x3D1 in let t1 := a.[1] + (x << 6) + (u32 t0 >> 26) in
  0 <= t0 < 2 * 2 ^ 32 /\ 0 <= t1 < 2 * 2 ^ 32.
Proof.
  intros H. fe_cases a H. cbv zeta. cbn [nth]. unfold u32. rewrite !Z.shiftr_div_pow2, Z.shiftl_mul_pow2 by lia. unfold Rng in *.
  Z.div_mod_to_equations. lia.
Qed.

Lemma normalize_steps a : fe_mag 32 a ->
  fe_norm (secp256k1_fe_normalize a) /\ fe_val (secp256k1_fe_normalize a) = fe_val (first_steps a) mod secp_p.
Proof.
  intros H. rewrite normalize_first_steps by apply H. fe_cases a H. unfold first_steps. cbn [nth]. apply normalize_carried.
  - rewrite land_ones26. pose proof (Z.mod_pos_bound (first_low [a0; a1; a2; a3; a4; a5; a6; a7; a8; a9]) (2 ^ 26) ltac:(lia)). unfold Rng. lia.
  - match goal with |- Rng (first_next ?l) _ => pose proof (Z.mod_pos_bound (u32 (nth 1 l 0 + ((nth 9 l 0 >> 22) << 6)) + (first_low l >> 26)) (2 ^ 32) ltac:(lia)) as B end.
    unfold first_next, Rng. unfold u32 at 1 3. lia.
  - repeat constructor; unfold Rng in *; lia.
  - rewrite land_ones22. pose proof (Z.mod_pos_bound a9 (2 ^ 22) ltac:(lia)). unfold Rng. lia.
Qed.

(** What is lost is no multiple of the prime. *)
Lemma overflow_residue v t0 t1 : 0 <= t0 < 2 * 2 ^ 32 -> 0 <= t1 < 2 * 2 ^ 32 ->
  (v - 2 ^ 32 * (t0 / 2 ^ 32) - 2 ^ 58 * (t1 / 2 ^ 32)) mod secp_p = v mod secp_p -> t0 < 2 ^ 32 /\ t1 < 2 ^ 32.
Proof.
  intros R0 R1 Q. set (l := 2 ^ 32 * (t0 / 2 ^ 32) + 2 ^ 58 * (t1 / 2 ^ 32)).
  assert (Rl : 0 <= l < secp_p) by (unfold l, secp_p; Z.div_mod_to_equations; lia).
  assert (Z0 : l mod secp_p = 0).
  { replace l with (v - (v - l)) by ring. rewrite Zminus_mod. replace (v - l) with (v - 2 ^ 32 * (t0 / 2 ^ 32) - 2 ^ 58 * (t1 / 2 ^ 32)) by (unfold l; ring).
    now rewrite Q, Z.sub_diag. }
  rewrite Z.mod_small in Z0 by exact Rl. unfold l in Z0. Z.div_mod_to_equations. lia.
Qed.

(** C31. Magnitude 32, the largest the [VERIFY] check accepts: only the additions
    to the two lowest limbs can exceed [uint32_t], and normalisation returns the
    canonical limbs of the value minus [2^32] or [2^58] for each that does.  So
    the residue is right exactly if neither overflows, and the bound 31 of the
    other theorems cannot be raised to 32. *)
Theorem normalize_overflows_at_32 a : length a = 10%nat -> Forall (fun x => 0 <= x) a -> secp256k1_fe_verify a 32 false = true ->
  let x := a.[9] >> 22 in let t0 := a.[0] + x * 0x3D1 in let t1 := a.[1] + (x << 6) + (u32 t0 >> 26) in
  secp256k1_fe_normalize a = fe_of_Z (fe_val a - 2 ^ 32 * (t0 / 2 ^ 32) - 2 ^ 58 * (t1 / 2 ^ 32)) /\
  (secp256k1_fe_normalize a = fe_of_Z (fe_val a) <-> t0 < 2 ^ 32 /\ t1 < 2 ^ 32).
Proof.
  intros L F V. apply verify_magnitude_spec in V as [_ H]; try assumption. pose proof (first_steps_val a H) as E. cbv zeta in *.
  set (x := a.[9] >> 22) in *. set (t0 := a.[0] + x * 0x3D1) in *. set (t1 := a.[1] + (x << 6) + (u32 t0 >> 26)) in *.
  destruct (first_carries a H) as (R0 & R1). fold x t0 t1 in R0, R1.
  assert (N : secp256k1_fe_normalize a = fe_of_Z (fe_val a - 2 ^ 32 * (t0 / 2 ^ 32) - 2 ^ 58 * (t1 / 2 ^ 32))).
  { destruct (normalize_steps a H) as [N1 N2]. apply fe_norm_eq; [exact N1 |]. rewrite N2, E. apply (mod_eq_of _ _ (- x)); [discriminate | ring]. }
  split; [exact N |]. rewrite N. split.
  - intros Q. apply (f_equal fe_val) in Q. rewrite !fe_val_of_Z in Q. apply overflow_residue in Q; lia.
  - intros [Q0 Q1]. rewrite (Z.div_small t0), (Z.div_small t1) by lia. f_equal. ring.
Qed.

Lemma normalize_overflows_at_32_witness : secp256k1_fe_verify fe_mag32_max 32 false = true /\
  secp256k1_fe_normalize fe_mag32_max <> fe_of_Z (fe_val fe_mag32_max).
Proof.
  split; [reflexivity |]. intros Q.
  destruct (proj1 (proj2 (normalize_overflows_at_32 fe_mag32_max eq_refl ltac:(repeat constructor; lia) eq_refl)) Q) as [Q0 _].
  vm_compute in Q0. discriminate.
Defined.
