(* ===== verification/Field5x52.v ===== *)
(** The field element of [field_5x52.h] and [field_5x52_impl.h]: five limbs of
    52 bits in [uint64_t]s (the representation of builds with [USE_FIELD_5X52]
    and a 128-bit integer type).  This file holds every operation but the
    products, which are in the file of the same name ending in [Mul]. *)

From Stdlib Require Import ZArith Lia List Bool.
From S2P Require Import Prelude Limbs.
Import ListNotations.
Open Scope Z_scope.

(** [uint64_t n[5]]. *)
Definition secp256k1_fe := list Z.

(** [uint64_t n[4]]. *)
Definition secp256k1_fe_storage := list Z.

(** [SECP256K1_FE_CONST_INNER], on [uint32_t] words. *)
Definition SECP256K1_FE_CONST (d7 d6 d5 d4 d3 d2 d1 d0 : Z) : secp256k1_fe :=
  [ d0 .| ((d1 .& 0xFFFFF) << 32);
    (d1 >> 20) .| (d2 << 12) .| ((d3 .& 0xFF) << 44);
    (d3 >> 8) .| ((d4 .& 0xFFFFFFF) << 24);
    (d4 >> 28) .| (d5 << 4) .| ((d6 .& 0xFFFF) << 36);
    (d6 >> 16) .| (d7 << 16) ].

(** [SECP256K1_FE_STORAGE_CONST]. *)
Definition SECP256K1_FE_STORAGE_CONST (d7 d6 d5 d4 d3 d2 d1 d0 : Z) : secp256k1_fe_storage :=
  [d0 .| (d1 << 32); d2 .| (d3 << 32); d4 .| (d5 << 32); d6 .| (d7 << 32)].

(** The [VERIFY] check of an element with its [magnitude] and [normalized]
    fields. *)
Definition secp256k1_fe_verify (d : secp256k1_fe) (magnitude : Z) (normalized : bool) : bool :=
  let m := if normalized then 1 else 2 * magnitude in
  let r := (d.[0] <=? 0xFFFFFFFFFFFFF * m) in
  let r := r && (d.[1] <=? 0xFFFFFFFFFFFFF * m) in
  let r := r && (d.[2] <=? 0xFFFFFFFFFFFFF * m) in
  let r := r && (d.[3] <=? 0xFFFFFFFFFFFFF * m) in
  let r := r && (d.[4] <=? 0x0FFFFFFFFFFFF * m) in
  let r := r && (magnitude >=? 0) in
  let r := r && (magnitude <=? 2048) in
  if normalized then
    let r := r && (magnitude <=? 1) in
    if r && (d.[4] =? 0x0FFFFFFFFFFFF) && ((d.[3] .& d.[2] .& d.[1]) =? 0xFFFFFFFFFFFFF) then
      r && (d.[0] <? 0xFFFFEFFFFFC2F)
    else r
  else r.

Definition secp256k1_fe_normalize (r : secp256k1_fe) : secp256k1_fe :=
  let t0 := r.[0] in let t1 := r.[1] in let t2 := r.[2] in let t3 := r.[3] in let t4 := r.[4] in
  let x := t4 >> 48 in let t4 := t4 .& 0x0FFFFFFFFFFFF in
  let t0 := u64 (t0 + x * 0x1000003D1) in
  let t1 := u64 (t1 + (t0 >> 52)) in let t0 := t0 .& 0xFFFFFFFFFFFFF in
  let t2 := u64 (t2 + (t1 >> 52)) in let t1 := t1 .& 0xFFFFFFFFFFFFF in let m := t1 in
  let t3 := u64 (t3 + (t2 >> 52)) in let t2 := t2 .& 0xFFFFFFFFFFFFF in let m := m .& t2 in
  let t4 := u64 (t4 + (t3 >> 52)) in let t3 := t3 .& 0xFFFFFFFFFFFFF in let m := m .& t3 in
  let x := (t4 >> 48) .| (b2z (t4 =? 0x0FFFFFFFFFFFF) .& b2z (m =? 0xFFFFFFFFFFFFF)
             .& b2z (t0 >=? 0xFFFFEFFFFFC2F)) in
  let t0 := u64 (t0 + x * 0x1000003D1) in
  let t1 := u64 (t1 + (t0 >> 52)) in let t0 := t0 .& 0xFFFFFFFFFFFFF in
  let t2 := u64 (t2 + (t1 >> 52)) in let t1 := t1 .& 0xFFFFFFFFFFFFF in
  let t3 := u64 (t3 + (t2 >> 52)) in let t2 := t2 .& 0xFFFFFFFFFFFFF in
  let t4 := u64 (t4 + (t3 >> 52)) in let t3 := t3 .& 0xFFFFFFFFFFFFF in
  let t4 := t4 .& 0x0FFFFFFFFFFFF in
  [t0; t1; t2; t3; t4].

Definition secp256k1_fe_normalize_weak (r : secp256k1_fe) : secp256k1_fe :=
  let t0 := r.[0] in let t1 := r.[1] in let t2 := r.[2] in let t3 := r.[3] in let t4 := r.[4] in
  let x := t4 >> 48 in let t4 := t4 .& 0x0FFFFFFFFFFFF in
  let t0 := u64 (t0 + x * 0x1000003D1) in
  let t1 := u64 (t1 + (t0 >> 52)) in let t0 := t0 .& 0xFFFFFFFFFFFFF in
  let t2 := u64 (t2 + (t1 >> 52)) in let t1 := t1 .& 0xFFFFFFFFFFFFF in
  let t3 := u64 (t3 + (t2 >> 52)) in let t2 := t2 .& 0xFFFFFFFFFFFFF in
  let t4 := u64 (t4 + (t3 >> 52)) in let t3 := t3 .& 0xFFFFFFFFFFFFF in
  [t0; t1; t2; t3; t4].

Definition secp256k1_fe_normalize_var (r : secp256k1_fe) : secp256k1_fe :=
  let t0 := r.[0] in let t1 := r.[1] in let t2 := r.[2] in let t3 := r.[3] in let t4 := r.[4] in
  let x := t4 >> 48 in let t4 := t4 .& 0x0FFFFFFFFFFFF in
  let t0 := u64 (t0 + x * 0x1000003D1) in
  let t1 := u64 (t1 + (t0 >> 52)) in let t0 := t0 .& 0xFFFFFFFFFFFFF in
  let t2 := u64 (t2 + (t1 >> 52)) in let t1 := t1 .& 0xFFFFFFFFFFFFF in let m := t1 in
  let t3 := u64 (t3 + (t2 >> 52)) in let t2 := t2 .& 0xFFFFFFFFFFFFF in let m := m .& t2 in
  let t4 := u64 (t4 + (t3 >> 52)) in let t3 := t3 .& 0xFFFFFFFFFFFFF in let m := m .& t3 in
  let x := (t4 >> 48) .| (b2z (t4 =? 0x0FFFFFFFFFFFF) .& b2z (m =? 0xFFFFFFFFFFFFF)
             .& b2z (t0 >=? 0xFFFFEFFFFFC2F)) in
  if z2b x then
    let t0 := u64 (t0 + 0x1000003D1) in
    let t1 := u64 (t1 + (t0 >> 52)) in let t0 := t0 .& 0xFFFFFFFFFFFFF in
    let t2 := u64 (t2 + (t1 >> 52)) in let t1 := t1 .& 0xFFFFFFFFFFFFF in
    let t3 := u64 (t3 + (t2 >> 52)) in let t2 := t2 .& 0xFFFFFFFFFFFFF in
    let t4 := u64 (t4 + (t3 >> 52)) in let t3 := t3 .& 0xFFFFFFFFFFFFF in
    let t4 := t4 .& 0x0FFFFFFFFFFFF in
    [t0; t1; t2; t3; t4]
  else [t0; t1; t2; t3; t4].

Definition secp256k1_fe_normalizes_to_zero (r : secp256k1_fe) : Z :=
  let t0 := r.[0] in let t1 := r.[1] in let t2 := r.[2] in let t3 := r.[3] in let t4 := r.[4] in
  let x := t4 >> 48 in let t4 := t4 .& 0x0FFFFFFFFFFFF in
  let t0 := u64 (t0 + x * 0x1000003D1) in
  let t1 := u64 (t1 + (t0 >> 52)) in let t0 := t0 .& 0xFFFFFFFFFFFFF in
  let z0 := t0 in let z1 := t0 .^ 0x1000003D0 in
  let t2 := u64 (t2 + (t1 >> 52)) in let t1 := t1 .& 0xFFFFFFFFFFFFF in
  let z0 := z0 .| t1 in let z1 := z1 .& t1 in
  let t3 := u64 (t3 + (t2 >> 52)) in let t2 := t2 .& 0xFFFFFFFFFFFFF in
  let z0 := z0 .| t2 in let z1 := z1 .& t2 in
  let t4 := u64 (t4 + (t3 >> 52)) in let t3 := t3 .& 0xFFFFFFFFFFFFF in
  let z0 := z0 .| t3 in let z1 := z1 .& t3 in
  let z0 := z0 .| t4 in let z1 := z1 .& (t4 .^ 0xF000000000000) in
  b2z (z0 =? 0) .| b2z (z1 =? 0xFFFFFFFFFFFFF).

Definition secp256k1_fe_normalizes_to_zero_var (r : secp256k1_fe) : Z :=
  let t0 := r.[0] in
  let t4 := r.[4] in
  let x := t4 >> 48 in
  let t0 := u64 (t0 + x * 0x1000003D1) in
  let z0 := t0 .& 0xFFFFFFFFFFFFF in
  let z1 := z0 .^ 0x1000003D0 in
  if negb (z0 =? 0) && negb (z1 =? 0xFFFFFFFFFFFFF) then 0
  else
  let t1 := r.[1] in let t2 := r.[2] in let t3 := r.[3] in
  let t4 := t4 .& 0x0FFFFFFFFFFFF in
  let t1 := u64 (t1 + (t0 >> 52)) in
  let t2 := u64 (t2 + (t1 >> 52)) in let t1 := t1 .& 0xFFFFFFFFFFFFF in
  let z0 := z0 .| t1 in let z1 := z1 .& t1 in
  let t3 := u64 (t3 + (t2 >> 52)) in let t2 := t2 .& 0xFFFFFFFFFFFFF in
  let z0 := z0 .| t2 in let z1 := z1 .& t2 in
  let t4 := u64 (t4 + (t3 >> 52)) in let t3 := t3 .& 0xFFFFFFFFFFFFF in
  let z0 := z0 .| t3 in let z1 := z1 .& t3 in
  let z0 := z0 .| t4 in let z1 := z1 .& (t4 .^ 0xF000000000000) in
  b2z (z0 =? 0) .| b2z (z1 =? 0xFFFFFFFFFFFFF).

Definition secp256k1_fe_set_int (a : Z) : secp256k1_fe := [u64 a; 0; 0; 0; 0].

Definition secp256k1_fe_is_zero (a : secp256k1_fe) : Z :=
  b2z ((a.[0] .| a.[1] .| a.[2] .| a.[3] .| a.[4]) =? 0).

Definition secp256k1_fe_is_odd (a : secp256k1_fe) : Z := a.[0] .& 1.

Definition secp256k1_fe_clear : secp256k1_fe := [0; 0; 0; 0; 0].

Definition secp256k1_fe_cmp_var (a b : secp256k1_fe) : Z := fe_cmp_loop 5 a b.

(** The body of the double loop of [secp256k1_fe_set_b32] at [i], [j]. *)
Definition fe_set_b32_step (a : list Z) (i j : nat) (r : secp256k1_fe) : secp256k1_fe :=
  let limb := ((8 * i + 4 * j) / 52)%nat in
  let shift := Z.of_nat ((8 * i + 4 * j) mod 52) in
  upd limb (r.[limb] .| (((a.[31 - i] >> (4 * Z.of_nat j)) .& 0xF) << shift)) r.

(** [for (i=0; i<32; i++) for (j=0; j<2; j++)], [k] iterations of the outer loop. *)
Fixpoint fe_set_b32_loop (a : list Z) (k : nat) (r : secp256k1_fe) : secp256k1_fe :=
  match k with
  | O => r
  | S i =>
      let r := fe_set_b32_loop a i r in
      let r := fe_set_b32_step a i 0 r in
      fe_set_b32_step a i 1 r
  end.

(** Returns the element written to [*r] and the return value. *)
Definition secp256k1_fe_set_b32 (a : list Z) : secp256k1_fe * Z :=
  let r := fe_set_b32_loop a 32 [0; 0; 0; 0; 0] in
  if (r.[4] =? 0x0FFFFFFFFFFFF) && ((r.[3] .& r.[2] .& r.[1]) =? 0xFFFFFFFFFFFFF) && (r.[0] >=? 0xFFFFEFFFFFC2F)
  then (r, 0)
  else (r, 1).

(** One step of the inner loop of [secp256k1_fe_get_b32] on [c]. *)
Definition fe_get_b32_step (a : secp256k1_fe) (i j : nat) (c : Z) : Z :=
  let limb := ((8 * i + 4 * j) / 52)%nat in
  let shift := Z.of_nat ((8 * i + 4 * j) mod 52) in
  c .| (((a.[limb] >> shift) .& 0xF) << (4 * Z.of_nat j)).

(** The byte the inner loop leaves in [c], stored at [r[31-i]]. *)
Definition fe_get_b32_byte (a : secp256k1_fe) (i : nat) : Z :=
  u8 (fe_get_b32_step a i 1 (fe_get_b32_step a i 0 0)).

(** [for (i=0; i<32; i++) r[31-i] = c], [k] iterations. *)
Fixpoint fe_get_b32_loop (a : secp256k1_fe) (k : nat) (r : list Z) : list Z :=
  match k with
  | O => r
  | S i => upd (31 - i) (fe_get_b32_byte a i) (fe_get_b32_loop a i r)
  end.

(** Every byte of the output buffer is written; [repeat 0 32] stands for its
    contents before. *)
Definition secp256k1_fe_get_b32 (a : secp256k1_fe) : list Z :=
  fe_get_b32_loop a 32 (repeat 0 32).

Definition secp256k1_fe_negate (a : secp256k1_fe) (m : Z) : secp256k1_fe :=
  [ u64 (0xFFFFEFFFFFC2F * 2 * (m + 1) - a.[0]);
    u64 (0xFFFFFFFFFFFFF * 2 * (m + 1) - a.[1]);
    u64 (0xFFFFFFFFFFFFF * 2 * (m + 1) - a.[2]);
    u64 (0xFFFFFFFFFFFFF * 2 * (m + 1) - a.[3]);
    u64 (0x0FFFFFFFFFFFF * 2 * (m + 1) - a.[4]) ].

Definition secp256k1_fe_mul_int (r : secp256k1_fe) (a : Z) : secp256k1_fe :=
  [u64 (r.[0] * a); u64 (r.[1] * a); u64 (r.[2] * a); u64 (r.[3] * a); u64 (r.[4] * a)].

Definition secp256k1_fe_add (r a : secp256k1_fe) : secp256k1_fe :=
  [u64 (r.[0] + a.[0]); u64 (r.[1] + a.[1]); u64 (r.[2] + a.[2]); u64 (r.[3] + a.[3]); u64 (r.[4] + a.[4])].

(** [(x & mask0) | (y & mask1)] with the masks of a conditional move. *)
Definition cmov64 (x y mask0 mask1 : Z) : Z := (x .& mask0) .| (y .& mask1).

Definition secp256k1_fe_cmov (r a : secp256k1_fe) (flag : Z) : secp256k1_fe :=
  let mask0 := u64 (flag + not64 0) in
  let mask1 := not64 mask0 in
  [ cmov64 r.[0] a.[0] mask0 mask1; cmov64 r.[1] a.[1] mask0 mask1; cmov64 r.[2] a.[2] mask0 mask1;
    cmov64 r.[3] a.[3] mask0 mask1; cmov64 r.[4] a.[4] mask0 mask1 ].

Definition secp256k1_fe_storage_cmov (r a : secp256k1_fe_storage) (flag : Z) : secp256k1_fe_storage :=
  let mask0 := u64 (flag + not64 0) in
  let mask1 := not64 mask0 in
  [ cmov64 r.[0] a.[0] mask0 mask1; cmov64 r.[1] a.[1] mask0 mask1; cmov64 r.[2] a.[2] mask0 mask1;
    cmov64 r.[3] a.[3] mask0 mask1 ].

Definition secp256k1_fe_to_storage (a : secp256k1_fe) : secp256k1_fe_storage :=
  [ a.[0] .| u64 (a.[1] << 52);
    (a.[1] >> 12) .| u64 (a.[2] << 40);
    (a.[2] >> 24) .| u64 (a.[3] << 28);
    (a.[3] >> 36) .| u64 (a.[4] << 16) ].

Definition secp256k1_fe_from_storage (a : secp256k1_fe_storage) : secp256k1_fe :=
  [ a.[0] .& 0xFFFFFFFFFFFFF;
    (a.[0] >> 52) .| (u64 (a.[1] << 12) .& 0xFFFFFFFFFFFFF);
    (a.[1] >> 40) .| (u64 (a.[2] << 24) .& 0xFFFFFFFFFFFFF);
    (a.[2] >> 28) .| (u64 (a.[3] << 36) .& 0xFFFFFFFFFFFFF);
    a.[3] >> 16 ].

(** * Representation *)

(** The integer an element represents, before reduction. *)
Definition fe_val (a : secp256k1_fe) : Z := limbs_val 52 a.

(** The magnitude invariant of [secp256k1_fe_verify]. *)
Definition fe_mag (m : Z) (a : secp256k1_fe) : Prop :=
  length a = 5%nat /\
  Forall (fun x => Rng x (0xFFFFFFFFFFFFF * (2 * m))) (firstn 4 a) /\ Rng a.[4] (0xFFFFFFFFFFFF * (2 * m)).

(** The limbs after one carry pass. *)
Definition fe_limbs (top : Z) (a : secp256k1_fe) : Prop :=
  length a = 5%nat /\ Forall (fun x => Rng x 0xFFFFFFFFFFFFF) (firstn 4 a) /\ Rng a.[4] top.

(** The [normalized] invariant: canonical limbs of a value below the prime. *)
Definition fe_norm (a : secp256k1_fe) : Prop := fe_limbs 0xFFFFFFFFFFFF a /\ fe_val a < secp_p.

Lemma fe52_mag_weaken m m' a : m <= m' -> fe_mag m a -> fe_mag m' a.
Proof.
  intros Hm (HL & HF & HT). repeat split; try assumption; try (destruct HT; lia).
  - eapply Forall_impl; [| exact HF]. cbv beta. unfold Rng. lia.
Qed.

(** * Normalisation *)

Lemma normalize_weak52_spec a : fe_mag 31 a ->
  fe_limbs 0x100000000003E (secp256k1_fe_normalize_weak a) /\
  fe_val (secp256k1_fe_normalize_weak a) = fe_val a - (a.[4] >> 48) * secp_p.
Proof.
  intros H. fe_cases a H.
  pattern (secp256k1_fe_normalize_weak [a0; a1; a2; a3; a4]).
  apply wp_intro. wp_run secp256k1_fe_normalize_weak.
  split; [fe_bounds |]. unfold fe_val, secp_p; cbn [limbs_val].
  lia.
Qed.

(** The constant-time test for a value at or above the prime, after one carry
    pass; bit 256 is [q]. *)
Lemma ge_p_test52 t0 t1 t2 t3 t4 q :
  Rng t0 0xFFFFFFFFFFFFF -> Rng t1 0xFFFFFFFFFFFFF -> Rng t2 0xFFFFFFFFFFFFF -> Rng t3 0xFFFFFFFFFFFFF ->
  Rng t4 0xFFFFFFFFFFFF -> Rng q 1 ->
  q .| (b2z (t4 + 0x1000000000000 * q =? 0xFFFFFFFFFFFF) .& b2z ((t1 .& t2 .& t3) =? 0xFFFFFFFFFFFFF)
        .& b2z (t0 >=? 0xFFFFEFFFFFC2F))
  = b2z (secp_p <=? fe_val [t0; t1; t2; t3; t4 + 0x1000000000000 * q]).
Proof.
  intros. rewrite (rng_b2z_of q) at 1 by assumption.
  rewrite !b2z_land, b2z_lor. f_equal.
  unfold fe_val, secp_p; cbn [limbs_val]. apply eq_true_iff_eq.
  rewrite orb_true_iff, !andb_true_iff, !Z.eqb_eq, Z.geb_le, Z.leb_le.
  rewrite !land_full_iff by (repeat apply rng_land_same; assumption). unfold Rng in *. lia.
Qed.

(** Rewrite the word [x] that selects the final reduction. *)
Ltac fe_select_x :=
  repeat match goal with
         | E : ?m = Z.land _ _ |- _ => is_var m; subst m
         end;
  lazymatch goal with
  | E : ?x = Z.lor _ _ |- _ => rewrite ge_p_test52 in E by assumption
  end.

Lemma fe52_limbs_bound a : fe_limbs 0xFFFFFFFFFFFF a -> 0 <= fe_val a < 2 ^ 256.
Proof.
  intros H. fe_cases a H. unfold fe_val; cbn [limbs_val]. unfold Rng in *. lia.
Qed.

(** Case on whether the second pass subtracts the prime, then conclude by
    linear arithmetic on the recorded carries. *)
Ltac fe_final_cases :=
  unfold fe_val, secp_p in *; cbn [limbs_val] in *;
  lazymatch goal with
  | E : ?x = b2z (?a <=? ?b) |- _ =>
      destruct (Z.leb_spec a b); cbn [b2z] in *; subst x; try discriminate
  end;
  unfold Rng in *; lia.

Lemma normalize52_spec a : fe_mag 31 a ->
  fe_norm (secp256k1_fe_normalize a) /\ fe_val (secp256k1_fe_normalize a) = fe_val a mod secp_p.
Proof.
  intros H. fe_cases a H.
  pattern (secp256k1_fe_normalize [a0; a1; a2; a3; a4]).
  apply wp_intro. wp_run secp256k1_fe_normalize. fe_select_x.
  unfold fe_norm. split; [split; [fe_bounds | fe_final_cases] |].
  apply (mod_of_reduced _ _ (q + x)); fe_final_cases.
Qed.

(** The variable-time version skips the second pass when it subtracts nothing. *)
Lemma normalize_var52_spec a : fe_mag 31 a ->
  fe_norm (secp256k1_fe_normalize_var a) /\
  fe_val (secp256k1_fe_normalize_var a) = fe_val a mod secp_p.
Proof.
  intros H. fe_cases a H.
  pattern (secp256k1_fe_normalize_var [a0; a1; a2; a3; a4]).
  apply wp_intro. wp_run secp256k1_fe_normalize_var. fe_select_x.
  destruct (z2b x) eqn:Hx.
  - repeat wp_step. wp_done. unfold fe_norm. split; [split; [fe_bounds | fe_final_cases] |].
    apply (mod_of_reduced _ _ (q + x)); fe_final_cases.
  - wp_done. assert (q4 = 0) by fe_final_cases. subst q4.
    unfold fe_norm. split; [split; [fe_bounds | fe_final_cases] |].
    apply (mod_of_reduced _ _ (q + x)); fe_final_cases.
Qed.

(** After one carry pass, zero modulo the prime is the raw value [0] or [p]. *)
Lemma zero_test52 t0 t1 t2 t3 t4 :
  Rng t0 0xFFFFFFFFFFFFF -> Rng t1 0xFFFFFFFFFFFFF -> Rng t2 0xFFFFFFFFFFFFF -> Rng t3 0xFFFFFFFFFFFFF ->
  Rng t4 0x100000000003E ->
  b2z ((t0 .| t1 .| t2 .| t3 .| t4) =? 0)
  .| b2z (((t0 .^ 0x1000003D0) .& t1 .& t2 .& t3 .& (t4 .^ 0xF000000000000)) =? 0xFFFFFFFFFFFFF)
  = b2z (fe_val [t0; t1; t2; t3; t4] mod secp_p =? 0).
Proof.
  intros. rewrite b2z_lor. f_equal. apply eq_true_iff_eq.
  assert (Rng (t0 .^ 0x1000003D0) 0xFFFFFFFFFFFFF) by (apply (rng_lxor 52); [lia | assumption | limb_bounds]).
  assert (Rng (t4 .^ 0xF000000000000) 0xFFFFFFFFFFFFF) by (apply (rng_lxor 52); [lia | limb_bounds | limb_bounds]).
  rewrite orb_true_iff, !Z.eqb_eq, !Z.lor_eq_0_iff.
  rewrite !land_full_iff by (repeat apply rng_land_same; assumption).
  rewrite (lxor_full_iff _ t0 _ 0xFFFFEFFFFFC2F), (lxor_full_iff _ t4 _ 0xFFFFFFFFFFFF) by reflexivity.
  rewrite mod_eq_0_iff by (unfold fe_val, secp_p, Rng in *; cbn [limbs_val]; lia).
  unfold fe_val, secp_p; cbn [limbs_val]. unfold Rng in *. lia.
Qed.

(** The tail shared by both zero tests. *)
Ltac fe_zero_tail k :=
  subst; rewrite zero_test52 by limb_bounds; do 2 f_equal;
  apply (mod_eq_of _ _ k); [discriminate |];
  unfold fe_val, secp_p; cbn [limbs_val]; lia.

Lemma normalizes_to_zero52_spec a : fe_mag 31 a ->
  secp256k1_fe_normalizes_to_zero a = b2z (fe_val a mod secp_p =? 0).
Proof.
  intros H. fe_cases a H.
  pattern (secp256k1_fe_normalizes_to_zero [a0; a1; a2; a3; a4]).
  apply wp_intro. wp_run secp256k1_fe_normalizes_to_zero. fe_zero_tail (- q).
Qed.

(** A multiple of the prime has [0] or the low limb of [p] as the low limb after
    the carry pass. *)
Lemma low_limb52_of_zero a t h : fe_mag 31 a -> fe_val a mod secp_p = 0 ->
  t + 2 ^ 52 * h = a.[0] + (a.[4] >> 48) * 0x1000003D1 -> Rng t 0xFFFFFFFFFFFFF -> t = 0 \/ t = 0xFFFFEFFFFFC2F.
Proof.
  intros Ha Hz Ht Rt. pose proof (normalize_weak52_spec a Ha) as [Hw Hv].
  set (w := secp256k1_fe_normalize_weak a) in *. set (k := a.[4] >> 48) in *.
  assert (Hb : 0 <= fe_val w < 2 * secp_p).
  { clear -Hw. clearbody w. fe_cases w Hw. unfold fe_val, secp_p; cbn [limbs_val].
    unfold Rng in *. lia. }
  assert (Hm : fe_val w mod secp_p = 0).
  { rewrite Hv, <- Hz. apply (mod_eq_of _ _ (- k)); [discriminate | ring]. }
  apply mod_eq_0_iff in Hm; [| assumption]. clearbody w k.
  fe_cases a Ha. unfold fe_val in Hv at 2. cbn [limbs_val nth] in *.
  unfold Rng, secp_p in *. lia.
Qed.

Lemma normalizes_to_zero_var52_spec a : fe_mag 31 a ->
  secp256k1_fe_normalizes_to_zero_var a = b2z (fe_val a mod secp_p =? 0).
Proof.
  intros H. pose proof (low_limb52_of_zero a) as Hlow. specialize (Hlow) with (1 := H).
  fe_cases a H.
  pattern (secp256k1_fe_normalizes_to_zero_var [a0; a1; a2; a3; a4]).
  apply wp_intro. wp_run secp256k1_fe_normalizes_to_zero_var.
  destruct (negb (t1 =? 0) && negb (z1 =? 4503599627370495)) eqn:Hc.
  - wp_done. destruct (Z.eqb_spec (fe_val [a0; a1; a2; a3; a5 + 281474976710656 * q]
        mod secp_p) 0) as [Hz |]; [exfalso | reflexivity].
    apply andb_true_iff in Hc as [H0 H1]. apply negb_true_iff, Z.eqb_neq in H0, H1.
    subst z1. rewrite (lxor_full_iff _ t1 _ 0xFFFFEFFFFFC2F) in H1 by reflexivity.
    destruct (Hlow t1 q0 Hz); [| assumption | tauto | tauto]. cbn [nth].
    rewrite (shiftr_split 48) by (unfold Rng in *; lia). lia.
  - repeat wp_step. wp_done. fe_zero_tail (- q).
Qed.

(** * Linear operations and their magnitudes *)

Ltac fe_u64 :=
  repeat match goal with
         | |- context [u64 ?e] => rewrite (u64_id e) by (unfold Rng in *; nia)
         end.

Lemma negate52_spec a m : 0 <= m <= 31 -> fe_mag m a ->
  fe_mag (m + 1) (secp256k1_fe_negate a m) /\
  fe_val (secp256k1_fe_negate a m) = 2 * (m + 1) * secp_p - fe_val a.
Proof.
  intros Hm H. fe_cases a H. cbv beta iota delta [secp256k1_fe_negate nth]. fe_u64.
  split; [fe_mag_intro |]. unfold fe_val, secp_p; cbn [limbs_val]. ring.
Qed.

Lemma add52_spec r a m m' : 0 <= m -> 0 <= m' -> m + m' <= 32 -> fe_mag m r -> fe_mag m' a ->
  fe_mag (m + m') (secp256k1_fe_add r a) /\
  fe_val (secp256k1_fe_add r a) = fe_val r + fe_val a.
Proof.
  intros H0 H1 Hm Hr Ha. fe_cases r Hr. fe_cases a Ha.
  cbv beta iota delta [secp256k1_fe_add nth]. fe_u64.
  split; [fe_mag_intro |]. unfold fe_val; cbn [limbs_val]. ring.
Qed.

Lemma mul_int52_spec r m a : 0 <= m -> 0 <= a -> m * a <= 32 -> fe_mag m r ->
  fe_mag (m * a) (secp256k1_fe_mul_int r a) /\
  fe_val (secp256k1_fe_mul_int r a) = fe_val r * a.
Proof.
  intros Hm Ha Hma H. fe_cases r H. cbv beta iota delta [secp256k1_fe_mul_int nth]. fe_u64.
  split; [fe_mag_intro |]. unfold fe_val; cbn [limbs_val]. ring.
Qed.

Lemma fe52_norm_mag a : fe_norm a -> fe_mag 1 a.
Proof. intros [H _]. fe_cases a H. fe_mag_intro. Qed.

Lemma fe52_norm_val a : fe_norm a -> 0 <= fe_val a < secp_p.
Proof. intros [H Hp]. pose proof (fe52_limbs_bound a H). lia. Qed.

Lemma fe52_limbs_lt a : fe_limbs 0xFFFFFFFFFFFF a -> limbs_lt 52 a.
Proof. intros H. fe_cases a H. unfold Rng in *. repeat constructor; lia. Qed.

(** Normalised elements with the same value are the same limbs. *)
Lemma fe52_norm_inj a b : fe_norm a -> fe_norm b -> fe_val a = fe_val b -> a = b.
Proof.
  intros [Ha _] [Hb _] H. apply (limbs_val_inj 52); try (now apply fe52_limbs_lt); try lia.
  - now rewrite (proj1 Ha), (proj1 Hb).
  - exact H.
Qed.

Lemma set_int52_spec a : 0 <= a < 2 ^ 26 ->
  fe_norm (secp256k1_fe_set_int a) /\ fe_val (secp256k1_fe_set_int a) = a.
Proof.
  intros H. unfold secp256k1_fe_set_int, fe_norm. rewrite u64_id by lia.
  unfold fe_val; cbn [limbs_val]. repeat split; try (unfold secp_p; lia).
  - repeat (constructor; [unfold Rng; lia |]). constructor.
  - cbn; lia.
  - cbn; lia.
Qed.

Lemma is_zero52_spec a : fe_norm a -> secp256k1_fe_is_zero a = b2z (fe_val a =? 0).
Proof.
  intros [H _]. fe_cases a H. cbv beta iota delta [secp256k1_fe_is_zero nth]. f_equal.
  apply eq_true_iff_eq. rewrite !Z.eqb_eq, !Z.lor_eq_0_iff.
  unfold fe_val; cbn [limbs_val]. unfold Rng in *. lia.
Qed.

Lemma is_odd52_spec a : fe_norm a -> secp256k1_fe_is_odd a = fe_val a mod 2.
Proof.
  intros [H _]. fe_cases a H. cbv beta iota delta [secp256k1_fe_is_odd nth].
  change 1 with (Z.ones 1). rewrite Z.land_ones by lia.
  unfold fe_val; cbn [limbs_val]. change (2 ^ 1) with 2. Z.div_mod_to_equations. lia.
Qed.

Lemma cmp_var52_spec a b : fe_norm a -> fe_norm b ->
  secp256k1_fe_cmp_var a b = match fe_val a ?= fe_val b with Gt => 1 | Lt => -1 | Eq => 0 end.
Proof.
  intros [Ha _] [Hb _]. unfold secp256k1_fe_cmp_var.
  pose proof (proj1 Ha) as La. pose proof (proj1 Hb) as Lb.
  rewrite (fe_cmp_loop_spec 52) by (try (now apply fe52_limbs_lt); lia).
  now rewrite !firstn_all2 by lia.
Qed.
