(* ===== verification/Field5x52Ser.v ===== *)
(** Serialization of the 5x52 field element: 32-byte big-endian strings, the
    packed storage form, constants, conditional moves and the [VERIFY]
    checker. *)

From Stdlib Require Import ZArith Lia List Bool.
From S2P Require Import Prelude Limbs Field5x52.
Import ListNotations.
Open Scope Z_scope.

(** * Bytes *)

Lemma limb_index52 i j : (i < 32)%nat -> (j < 2)%nat ->
  let s := (8 * i + 4 * j)%nat in
  (s / 52 < 5)%nat /\ (s mod 52 <= 48)%nat /\
  52 * Z.of_nat (s / 52) + Z.of_nat (s mod 52) = 8 * Z.of_nat i + 4 * Z.of_nat j.
Proof.
  intros Hi Hj s.
  pose proof (Nat.div_mod_eq s 52). pose proof (Nat.mod_upper_bound s 52 ltac:(lia)).
  subst s. lia.
Qed.

Lemma set_b32_step52_spec a i j : limbs_lt 8 a -> length a = 32%nat -> (i < 32)%nat -> (j < 2)%nat ->
  let s := 8 * Z.of_nat i + 4 * Z.of_nat j in
  fe_set_b32_step a i j (digits 52 5 (be_val a mod 2 ^ s)) =
  digits 52 5 (be_val a mod 2 ^ (s + 4)).
Proof.
  intros Ha Hl Hi Hj s. destruct (limb_index52 i j Hi Hj) as (H1 & H2 & H3).
  unfold fe_set_b32_step. fold s in H3.
  rewrite (upd_digits 52 5 _ _ _ _ 4); try lia.
  - rewrite H3, mod_pow_add by lia. do 3 f_equal.
    replace (31 - i)%nat with (32 - 1 - i)%nat by lia. rewrite nth_be by assumption.
    change 15 with (Z.ones 4). rewrite Z.land_ones, Z.shiftr_div_pow2 by lia.
    rewrite field_mod, Z.div_div by (try apply Z.pow_nonzero; try apply Z.pow_pos_nonneg; lia).
    now rewrite <- Z.pow_add_r by lia.
  - change 15 with (Z.ones 4). rewrite Z.land_ones by lia. apply Z.mod_pos_bound. reflexivity.
  - rewrite H3. apply Z.mod_pos_bound, Z.pow_pos_nonneg; lia.
Qed.

Lemma set_b32_loop52_spec a k : limbs_lt 8 a -> length a = 32%nat -> (k <= 32)%nat ->
  fe_set_b32_loop a k (digits 52 5 0) = digits 52 5 (be_val a mod 2 ^ (8 * Z.of_nat k)).
Proof.
  intros Ha Hl. induction k as [| i IH]; intros Hk.
  - cbn [fe_set_b32_loop]. now rewrite Z.mul_0_r, Z.mod_1_r.
  - cbn [fe_set_b32_loop]. rewrite IH by lia.
    replace (8 * Z.of_nat i) with (8 * Z.of_nat i + 4 * Z.of_nat 0) at 1 by lia.
    rewrite set_b32_step52_spec by lia || assumption.
    replace (8 * Z.of_nat i + 4 * Z.of_nat 0 + 4) with (8 * Z.of_nat i + 4 * Z.of_nat 1) by lia.
    rewrite set_b32_step52_spec by lia || assumption.
    do 2 f_equal. f_equal. lia.
Qed.

(** The overflow test of [secp256k1_fe_set_b32] on canonical limbs. *)
Lemma ge_p_cond52 r : fe_limbs 0xFFFFFFFFFFFF r ->
  (r.[4] =? 0xFFFFFFFFFFFF) && ((r.[3] .& r.[2] .& r.[1]) =? 0xFFFFFFFFFFFFF) && (r.[0] >=? 0xFFFFEFFFFFC2F)
  = (secp_p <=? fe_val r).
Proof.
  intros H. fe_cases r H. cbn [nth]. apply eq_true_iff_eq.
  rewrite !andb_true_iff, !Z.eqb_eq, Z.geb_le, Z.leb_le.
  rewrite !land_full_iff by (repeat apply rng_land_same; assumption).
  unfold fe_val, secp_p; cbn [limbs_val]. unfold Rng in *. lia.
Qed.

Lemma fe52_limbs_digits v : 0 <= v < 2 ^ 256 -> fe_limbs 0xFFFFFFFFFFFF (digits 52 5 v).
Proof.
  intros Hv. assert (B : forall x, 0 <= x mod 2 ^ 52 <= 0xFFFFFFFFFFFFF).
  { intros x. pose proof (Z.mod_pos_bound x (2 ^ 52) eq_refl). lia. }
  split; [reflexivity |]. cbn [digits firstn nth]. split; [repeat constructor; apply B |].
  split; [apply B |]. rewrite !Z.div_div by lia.
  apply Z.le_trans with (v / 2 ^ 208); [apply Z.mod_le; [apply Z.div_pos|]; lia |].
  apply Z.lt_succ_r, Z.div_lt_upper_bound; lia.
Qed.

Lemma fe52_val_digits v : 0 <= v < 2 ^ 256 -> fe_val (digits 52 5 v) = v.
Proof. intros Hv. unfold fe_val. rewrite limbs_val_digits, Z.mod_small by lia. reflexivity. Qed.

Lemma set_b32_52_spec a : limbs_lt 8 a -> length a = 32%nat ->
  secp256k1_fe_set_b32 a = (digits 52 5 (be_val a), b2z (be_val a <? secp_p)).
Proof.
  intros Ha Hl. pose proof (be_val_bound a Ha) as Hb. rewrite Hl in Hb.
  change (2 ^ (8 * Z.of_nat 32)) with (2 ^ 256) in Hb.
  unfold secp256k1_fe_set_b32. change [0; 0; 0; 0; 0] with (digits 52 5 0).
  rewrite set_b32_loop52_spec by (assumption || lia).
  change (8 * Z.of_nat 32) with 256. rewrite Z.mod_small by lia. cbv zeta.
  rewrite ge_p_cond52 by now apply fe52_limbs_digits.
  rewrite fe52_val_digits, Z.leb_antisym by assumption.
  now destruct (be_val a <? secp_p).
Qed.

Lemma get_b32_step52_spec a i j : fe_limbs 0xFFFFFFFFFFFF a -> (i < 32)%nat -> (j < 2)%nat ->
  let X := fe_val a / 2 ^ (8 * Z.of_nat i) in
  fe_get_b32_step a i j (X mod 2 ^ (4 * Z.of_nat j)) = X mod 2 ^ (4 * Z.of_nat j + 4).
Proof.
  intros Ha Hi Hj X. destruct (limb_index52 i j Hi Hj) as (H1 & H2 & H3).
  unfold fe_get_b32_step.
  rewrite lor_shiftl; [| lia | apply Z.mod_pos_bound, Z.pow_pos_nonneg; lia].
  rewrite mod_pow_add by lia. do 2 f_equal.
  pose proof (fe52_limbs_bound a Ha). unfold fe_val in *.
  rewrite <- (digits_limbs_val 52 a ltac:(lia) (fe52_limbs_lt a Ha)) at 1.
  rewrite (proj1 Ha), nth_digits by lia.
  change 15 with (Z.ones 4). rewrite Z.land_ones, Z.shiftr_div_pow2, field_mod by lia.
  subst X. rewrite !Z.div_div by (try apply Z.pow_nonzero; try apply Z.pow_pos_nonneg; lia).
  rewrite <- !Z.pow_add_r, H3 by lia. reflexivity.
Qed.

Lemma get_b32_byte52_spec a i : fe_limbs 0xFFFFFFFFFFFF a -> (i < 32)%nat ->
  fe_get_b32_byte a i = (fe_val a / 2 ^ (8 * Z.of_nat i)) mod 2 ^ 8.
Proof.
  intros Ha Hi. unfold fe_get_b32_byte. set (X := fe_val a / 2 ^ (8 * Z.of_nat i)).
  replace (fe_get_b32_step a i 0 0) with (X mod 2 ^ 4)
    by (symmetry; rewrite <- (Z.mod_1_r X) at 1; exact (get_b32_step52_spec a i 0 Ha Hi ltac:(lia))).
  pose proof (get_b32_step52_spec a i 1 Ha Hi ltac:(lia)) as H1.
  cbv zeta in *. fold X in H1. cbn [Z.of_nat Pos.of_succ_nat Pos.succ] in *.
  change (4 * 1) with 4 in *. change (4 + 4) with 8 in *. rewrite H1. unfold u8. now rewrite Z.mod_mod.
Qed.

Lemma get_b32_52_spec a : fe_limbs 0xFFFFFFFFFFFF a ->
  secp256k1_fe_get_b32 a = be_bytes 32 (fe_val a).
Proof.
  intros Ha. unfold secp256k1_fe_get_b32.
  enough (H : forall k, (k <= 32)%nat ->
    fe_get_b32_loop a k (repeat 0 32) = repeat 0 (32 - k) ++ be_bytes k (fe_val a))
    by exact (H 32%nat (le_n _)).
  induction k as [| i IH]; intros Hk; [reflexivity |].
  cbn [fe_get_b32_loop]. rewrite IH by lia.
  replace (32 - i)%nat with (S (31 - i)) by lia. rewrite upd_repeat.
  replace (32 - S i)%nat with (31 - i)%nat by lia. f_equal.
  unfold be_bytes. rewrite digits_snoc, rev_app_distr by lia.
  now rewrite get_b32_byte52_spec by (assumption || lia).
Qed.

(** * Storage *)

Lemma to_storage52_spec a : fe_limbs 0xFFFFFFFFFFFF a ->
  limbs_lt 64 (secp256k1_fe_to_storage a) /\
  length (secp256k1_fe_to_storage a) = 4%nat /\
  limbs_val 64 (secp256k1_fe_to_storage a) = fe_val a.
Proof.
  intros H. fe_cases a H. unfold Rng in *.
  cbv beta iota delta [secp256k1_fe_to_storage nth].
  replace (a0 .| u64 (a1 << 52)) with ((a0 >> 0) .| u64 (a1 << 52)) by now rewrite Z.shiftr_0_r.
  unfold u64. rewrite !pack_word by lia.
  unfold fe_val, limbs_lt; cbn [limbs_val]. split; [| split; [reflexivity |]].
  - repeat constructor; try (Z.div_mod_to_equations; lia).
  - Z.div_mod_to_equations. lia.
Qed.

Lemma from_storage52_spec s : limbs_lt 64 s -> length s = 4%nat ->
  fe_limbs 0xFFFFFFFFFFFF (secp256k1_fe_from_storage s) /\
  fe_val (secp256k1_fe_from_storage s) = limbs_val 64 s.
Proof.
  intros H Hl. list_cases s Hl. repeat (apply Forall_cons_iff in H; destruct H as [? H]).
  cbv beta iota delta [secp256k1_fe_from_storage nth].
  unfold u64. change 0xFFFFFFFFFFFFF with (Z.ones 52). rewrite !unpack_limb by lia.
  rewrite !Z.land_ones, !Z.shiftr_div_pow2 by lia.
  unfold fe_val, fe_limbs; cbn [limbs_val firstn nth length]. unfold Rng.
  split; [split; [reflexivity | split] |].
  - repeat constructor; try (Z.div_mod_to_equations; lia).
  - Z.div_mod_to_equations. lia.
  - Z.div_mod_to_equations. lia.
Qed.

(** * Conditional moves *)

Lemma cmov64_spec x y b : 0 <= x < 2 ^ 64 -> 0 <= y < 2 ^ 64 ->
  let mask0 := u64 (b2z b + not64 0) in
  cmov64 x y mask0 (not64 mask0) = if b then y else x.
Proof. intros Hx Hy. rewrite <- (mask_select 64 x y b) by (assumption || lia). now destruct b. Qed.

Lemma cmov52_spec r a b : length r = 5%nat -> length a = 5%nat -> limbs_lt 64 r -> limbs_lt 64 a ->
  secp256k1_fe_cmov r a (b2z b) = if b then a else r.
Proof.
  intros Lr La Hr Ha. list_cases r Lr. list_cases a La.
  repeat (apply Forall_cons_iff in Hr; destruct Hr as [? Hr]).
  repeat (apply Forall_cons_iff in Ha; destruct Ha as [? Ha]).
  cbv beta iota zeta delta [secp256k1_fe_cmov nth].
  rewrite !cmov64_spec by assumption. now destruct b.
Qed.

Lemma storage_cmov52_spec r a b : length r = 4%nat -> length a = 4%nat ->
  limbs_lt 64 r -> limbs_lt 64 a ->
  secp256k1_fe_storage_cmov r a (b2z b) = if b then a else r.
Proof.
  intros Lr La Hr Ha. list_cases r Lr. list_cases a La.
  repeat (apply Forall_cons_iff in Hr; destruct Hr as [? Hr]).
  repeat (apply Forall_cons_iff in Ha; destruct Ha as [? Ha]).
  cbv beta iota zeta delta [secp256k1_fe_storage_cmov nth].
  rewrite !cmov64_spec by assumption. now destruct b.
Qed.

Lemma fe52_mag_u64 m a : m <= 2048 -> fe_mag m a -> limbs_lt 64 a.
Proof. intros Hm H. fe_cases a H. unfold Rng in *. repeat constructor; lia. Qed.

(** * Constants *)

(** A limb joined from the top of one word, a whole word and the bottom of a
    third. *)
Lemma const_limb3 x y z i k n m : 0 <= i <= 32 -> 0 <= k -> 0 <= n -> i + k = 32 -> m = 32 + k -> 0 <= x < 2 ^ 32 -> 0 <= y < 2 ^ 32 ->
  (x >> i) .| (y << k) .| ((z .& Z.ones n) << m) = x / 2 ^ i + 2 ^ k * y + 2 ^ m * (z mod 2 ^ n).
Proof.
  intros Hi Hk Hn Eik -> Hx Hy. rewrite Z.land_ones, Z.shiftr_div_pow2 by lia.
  pose proof (div_lt x i k ltac:(lia) Hk ltac:(now rewrite Eik)) as B. rewrite (lor_shiftl (x / 2 ^ i) y k) by lia.
  apply lor_shiftl; [lia |]. rewrite Z.pow_add_r by lia. nia.
Qed.

Lemma fe52_const_spec d7 d6 d5 d4 d3 d2 d1 d0 : limbs_lt 32 [d0; d1; d2; d3; d4; d5; d6; d7] ->
  fe_limbs 0xFFFFFFFFFFFF (SECP256K1_FE_CONST d7 d6 d5 d4 d3 d2 d1 d0) /\
  fe_val (SECP256K1_FE_CONST d7 d6 d5 d4 d3 d2 d1 d0) = limbs_val 32 [d0; d1; d2; d3; d4; d5; d6; d7].
Proof.
  intros H. repeat (apply Forall_cons_iff in H; destruct H as [? H]).
  unfold SECP256K1_FE_CONST.
  change 0xFFFFF with (Z.ones 20). change 0xFF with (Z.ones 8). change 0xFFFFFFF with (Z.ones 28). change 0xFFFF with (Z.ones 16).
  rewrite (const_limb3 d1 d2 d3 20 12 8 44) by lia. rewrite (const_limb3 d4 d5 d6 28 4 16 36) by lia. rewrite (const_limb d3 d4 8 24 28) by lia.
  rewrite Z.land_ones, (lor_shiftl d0) by lia. rewrite Z.shiftr_div_pow2 by lia. pose proof (div_lt d6 16 16 ltac:(lia) ltac:(lia) ltac:(assumption)).
  rewrite lor_shiftl by lia.
  unfold fe_val, fe_limbs; cbn [limbs_val firstn nth length]. unfold Rng.
  split; [split; [reflexivity | split] |].
  - repeat constructor; try (Z.div_mod_to_equations; lia).
  - Z.div_mod_to_equations. lia.
  - Z.div_mod_to_equations. lia.
Qed.

(** * The [VERIFY] checker *)

Lemma verify_magnitude52_spec d m : length d = 5%nat -> Forall (fun x => 0 <= x) d ->
  secp256k1_fe_verify d m false = true <-> 0 <= m <= 2048 /\ fe_mag m d.
Proof.
  intros L H. list_cases d L. repeat (apply Forall_cons_iff in H; destruct H as [? H]).
  cbv beta iota zeta delta [secp256k1_fe_verify nth]. rewrite !andb_true_iff, !Z.leb_le, Z.geb_le.
  unfold fe_mag; cbn [length firstn nth]. rewrite !Forall_cons_iff. unfold Rng.
  split; intros; repeat split; try constructor; intuition lia.
Qed.

Lemma verify_normalized52_spec d m : length d = 5%nat -> Forall (fun x => 0 <= x) d ->
  secp256k1_fe_verify d m true = true <-> 0 <= m <= 1 /\ fe_norm d.
Proof.
  intros L H. assert (HL : fe_limbs 0xFFFFFFFFFFFF d <-> (d.[0] <=? 0xFFFFFFFFFFFFF) && (d.[1] <=? 0xFFFFFFFFFFFFF)
    && (d.[2] <=? 0xFFFFFFFFFFFFF) && (d.[3] <=? 0xFFFFFFFFFFFFF) && (d.[4] <=? 0xFFFFFFFFFFFF) = true).
  { list_cases d L. repeat (apply Forall_cons_iff in H; destruct H as [? H]).
    unfold fe_limbs; cbn [length firstn nth]. rewrite !Forall_cons_iff. unfold Rng. rewrite !andb_true_iff, !Z.leb_le.
    split; intros; repeat split; try constructor; intuition lia. }
  unfold secp256k1_fe_verify, fe_norm. cbv zeta. rewrite !Z.mul_1_r.
  destruct (_ && _ && _ && _ && (d.[4] <=? 0xFFFFFFFFFFFF)) eqn:E.
  - assert (E' : fe_limbs 0xFFFFFFFFFFFF d) by now apply HL.
    pose proof (ge_p_cond52 d E') as Hc. rewrite Z.geb_leb, Z.leb_antisym in Hc. rewrite !andb_true_l.
    assert (Hm : (m >=? 0) && (m <=? 2048) && (m <=? 1) = true <-> 0 <= m <= 1)
      by (rewrite !andb_true_iff, !Z.leb_le, Z.geb_le; lia).
    destruct ((m >=? 0) && (m <=? 2048) && (m <=? 1)) eqn:Em; cbn [andb].
    + destruct (d.[4] =? _), (_ .& d.[1] =? _), (d.[0] <? _); cbn [andb negb] in Hc |- *;
        symmetry in Hc; first [apply Z.leb_le in Hc | apply Z.leb_gt in Hc]; intuition (try discriminate; lia).
    + split; [discriminate |]. intros [Hm' _]. apply Hm in Hm'. discriminate.
  - rewrite !andb_false_l. cbn [andb]. split; [discriminate |]. intros (_ & Hl & _). apply HL in Hl. discriminate.
Qed.
