(* ===== verification/Field5x52Mul.v ===== *)
(** Multiplication and squaring of 5x52 field elements, [secp256k1_fe_mul_inner]
    and [secp256k1_fe_sqr_inner] of [field_5x52_int128_impl.h]: no [uint128_t]
    accumulator overflows for inputs of magnitude at most 8, and the result
    represents the product modulo the prime with magnitude 1.  [M] is written
    [0xFFFFFFFFFFFFF] and [R] is [0x1000003D10]. *)

From Stdlib Require Import ZArith Lia List Bool Zmod.
From S2P Require Import Prelude Limbs Fp FieldSpec FieldVal Field5x52 Field5x52Ser.
Import ListNotations.
Open Scope Z_scope.

Definition secp256k1_fe_mul_inner (a b : secp256k1_fe) : secp256k1_fe :=
  let a0 := a.[0] in let a1 := a.[1] in let a2 := a.[2] in let a3 := a.[3] in let a4 := a.[4] in
  let d := u128 (a0 * b.[3] + a1 * b.[2] + a2 * b.[1] + a3 * b.[0]) in
  let c := u128 (a4 * b.[4]) in
  let d := u128 (d + (c .& 0xFFFFFFFFFFFFF) * 0x1000003D10) in let c := c >> 52 in
  let t3 := d .& 0xFFFFFFFFFFFFF in let d := d >> 52 in
  let d := u128 (d + (a0 * b.[4] + a1 * b.[3] + a2 * b.[2] + a3 * b.[1] + a4 * b.[0])) in
  let d := u128 (d + c * 0x1000003D10) in
  let t4 := d .& 0xFFFFFFFFFFFFF in let d := d >> 52 in
  let tx := t4 >> 48 in let t4 := t4 .& 0xFFFFFFFFFFFF in
  let c := u128 (a0 * b.[0]) in
  let d := u128 (d + (a1 * b.[4] + a2 * b.[3] + a3 * b.[2] + a4 * b.[1])) in
  let u0 := d .& 0xFFFFFFFFFFFFF in let d := d >> 52 in
  let u0 := u64 (u0 << 4) .| tx in
  let c := u128 (c + u0 * 0x1000003D1) in
  let r0 := c .& 0xFFFFFFFFFFFFF in let c := c >> 52 in
  let c := u128 (c + (a0 * b.[1] + a1 * b.[0])) in
  let d := u128 (d + (a2 * b.[4] + a3 * b.[3] + a4 * b.[2])) in
  let c := u128 (c + (d .& 0xFFFFFFFFFFFFF) * 0x1000003D10) in let d := d >> 52 in
  let r1 := c .& 0xFFFFFFFFFFFFF in let c := c >> 52 in
  let c := u128 (c + (a0 * b.[2] + a1 * b.[1] + a2 * b.[0])) in
  let d := u128 (d + (a3 * b.[4] + a4 * b.[3])) in
  let c := u128 (c + (d .& 0xFFFFFFFFFFFFF) * 0x1000003D10) in let d := d >> 52 in
  let r2 := c .& 0xFFFFFFFFFFFFF in let c := c >> 52 in
  let c := u128 (c + (d * 0x1000003D10 + t3)) in
  let r3 := c .& 0xFFFFFFFFFFFFF in let c := c >> 52 in
  let c := u128 (c + t4) in
  let r4 := u64 c in
  [r0; r1; r2; r3; r4].

Definition secp256k1_fe_sqr_inner (a : secp256k1_fe) : secp256k1_fe :=
  let a0 := a.[0] in let a1 := a.[1] in let a2 := a.[2] in let a3 := a.[3] in let a4 := a.[4] in
  let d := u128 (u64 (a0 * 2) * a3 + u64 (a1 * 2) * a2) in
  let c := u128 (a4 * a4) in
  let d := u128 (d + (c .& 0xFFFFFFFFFFFFF) * 0x1000003D10) in let c := c >> 52 in
  let t3 := d .& 0xFFFFFFFFFFFFF in let d := d >> 52 in
  let a4 := u64 (a4 * 2) in
  let d := u128 (d + (a0 * a4 + u64 (a1 * 2) * a3 + a2 * a2)) in
  let d := u128 (d + c * 0x1000003D10) in
  let t4 := d .& 0xFFFFFFFFFFFFF in let d := d >> 52 in
  let tx := t4 >> 48 in let t4 := t4 .& 0xFFFFFFFFFFFF in
  let c := u128 (a0 * a0) in
  let d := u128 (d + (a1 * a4 + u64 (a2 * 2) * a3)) in
  let u0 := d .& 0xFFFFFFFFFFFFF in let d := d >> 52 in
  let u0 := u64 (u0 << 4) .| tx in
  let c := u128 (c + u0 * 0x1000003D1) in
  let r0 := c .& 0xFFFFFFFFFFFFF in let c := c >> 52 in
  let a0 := u64 (a0 * 2) in
  let c := u128 (c + a0 * a1) in
  let d := u128 (d + (a2 * a4 + a3 * a3)) in
  let c := u128 (c + (d .& 0xFFFFFFFFFFFFF) * 0x1000003D10) in let d := d >> 52 in
  let r1 := c .& 0xFFFFFFFFFFFFF in let c := c >> 52 in
  let c := u128 (c + (a0 * a2 + a1 * a1)) in
  let d := u128 (d + a3 * a4) in
  let c := u128 (c + (d .& 0xFFFFFFFFFFFFF) * 0x1000003D10) in let d := d >> 52 in
  let r2 := c .& 0xFFFFFFFFFFFFF in let c := c >> 52 in
  let c := u128 (c + (d * 0x1000003D10 + t3)) in
  let r3 := c .& 0xFFFFFFFFFFFFF in let c := c >> 52 in
  let c := u128 (c + t4) in
  let r4 := u64 c in
  [r0; r1; r2; r3; r4].

Definition secp256k1_fe_mul (a b : secp256k1_fe) : secp256k1_fe := secp256k1_fe_mul_inner a b.

Definition secp256k1_fe_sqr (a : secp256k1_fe) : secp256k1_fe := secp256k1_fe_sqr_inner a.

(** [(u0 << 4) | tx] joins two bit fields. *)
Lemma join_word x y : Rng x 0xFFFFFFFFFFFFF -> Rng y 15 -> u64 (x << 4) .| y = x * 16 + y.
Proof.
  intros Hx Hy. unfold Rng in *. rewrite u64_id by (rewrite Z.shiftl_mul_pow2 by lia; lia).
  rewrite Z.lor_comm, lor_shiftl by lia. lia.
Qed.

Ltac wp_join :=
  match goal with
  | |- wp (let x := Z.lor (u64 (Z.shiftl ?u 4)) ?t in _) _ => rewrite (join_word u t) by assumption
  end.

(** A doubled limb inside a product does not wrap. *)
Ltac wp_twice :=
  match goal with
  | |- wp (let x := u128 ?e in _) _ =>
      match e with context [u64 (?y * 2)] => rewrite (u64_id (y * 2)) by (unfold Rng in *; lia) end
  end.

Lemma mul_inner52_spec a b : fe_mag 8 a -> fe_mag 8 b ->
  fe_mag 1 (secp256k1_fe_mul_inner a b) /\
  fe_val (secp256k1_fe_mul_inner a b) mod secp_p = (fe_val a * fe_val b) mod secp_p.
Proof.
  intros Ha Hb. fe_cases a Ha. fe_cases b Hb.
  match goal with |- context [secp256k1_fe_mul_inner ?x ?y] => pattern (secp256k1_fe_mul_inner x y) end.
  apply wp_intro. cbv beta iota delta [secp256k1_fe_mul_inner nth].
  repeat first [wp_join | wp_step]. wp_done. split; [fe_bounds |].
  apply (mod_eq_of _ _ (- (16 * limbs_val 52 [0; d5; d6; c0 + q7; q] + u0))); [discriminate |].
  unfold fe_val, secp_p; cbn [limbs_val]. solve_carries. ring.
Qed.

Lemma sqr_inner52_spec a : fe_mag 8 a ->
  fe_mag 1 (secp256k1_fe_sqr_inner a) /\
  fe_val (secp256k1_fe_sqr_inner a) mod secp_p = (fe_val a * fe_val a) mod secp_p.
Proof.
  intros Ha. fe_cases a Ha.
  match goal with |- context [secp256k1_fe_sqr_inner ?x] => pattern (secp256k1_fe_sqr_inner x) end.
  apply wp_intro. cbv beta iota delta [secp256k1_fe_sqr_inner nth].
  repeat first [wp_join | wp_twice | wp_step]. wp_done. split; [fe_bounds |].
  apply (mod_eq_of _ _ (- (16 * limbs_val 52 [0; d5; d6; c0 + q7; q] + u0))); [discriminate |].
  unfold fe_val, secp_p; cbn [limbs_val]. solve_carries. ring.
Qed.

(** * The interface

    The 5x52 representation implements the field interface, so that all the code
    above the fields is verified over it as well. *)

(** The representation with the given product and square: those above, or those
    in assembly. *)
Definition field_5x52_with (mul : secp256k1_fe -> secp256k1_fe -> secp256k1_fe) (sqr : secp256k1_fe -> secp256k1_fe) : FieldImpl := {|
  fe := secp256k1_fe;
  fe_storage := secp256k1_fe_storage;
  fe_const := SECP256K1_FE_CONST;
  fe_normalize := secp256k1_fe_normalize;
  fe_normalize_weak := secp256k1_fe_normalize_weak;
  fe_normalize_var := secp256k1_fe_normalize_var;
  fe_normalizes_to_zero := secp256k1_fe_normalizes_to_zero;
  fe_normalizes_to_zero_var := secp256k1_fe_normalizes_to_zero_var;
  fe_set_int := secp256k1_fe_set_int;
  fe_clear := secp256k1_fe_clear;
  fe_is_zero := secp256k1_fe_is_zero;
  fe_is_odd := secp256k1_fe_is_odd;
  fe_cmp_var := secp256k1_fe_cmp_var;
  fe_set_b32 := secp256k1_fe_set_b32;
  fe_get_b32 := secp256k1_fe_get_b32;
  fe_negate := secp256k1_fe_negate;
  fe_mul_int := secp256k1_fe_mul_int;
  fe_add := secp256k1_fe_add;
  fe_mul := mul;
  fe_sqr := sqr;
  fe_to_storage := secp256k1_fe_to_storage;
  fe_from_storage := secp256k1_fe_from_storage;
  fe_storage_cmov := secp256k1_fe_storage_cmov;
  fe_cmov := secp256k1_fe_cmov
|}.

Definition storage_ok (s : secp256k1_fe_storage) : Prop := limbs_lt 64 s /\ length s = 4%nat.

Lemma fe52_limbs_mag top a : top <= 0xFFFFFFFFFFFF * 2 -> fe_limbs top a -> fe_mag 1 a.
Proof.
  intros Ht (HL & HF & HT). split; [exact HL |]. split.
  - eapply Forall_impl; [| exact HF]. cbv beta. unfold Rng. lia.
  - unfold Rng in *. lia.
Qed.

(** What the interface needs of them. *)
Definition mul52_ok (mul : secp256k1_fe -> secp256k1_fe -> secp256k1_fe) : Prop := forall a b, fe_mag 8 a -> fe_mag 8 b ->
  fe_mag 1 (mul a b) /\ fe_val (mul a b) mod secp_p = (fe_val a * fe_val b) mod secp_p.

Definition sqr52_ok (sqr : secp256k1_fe -> secp256k1_fe) : Prop := forall a, fe_mag 8 a ->
  fe_mag 1 (sqr a) /\ fe_val (sqr a) mod secp_p = (fe_val a * fe_val a) mod secp_p.

Section With.
Variable mul : secp256k1_fe -> secp256k1_fe -> secp256k1_fe.
Variable sqr : secp256k1_fe -> secp256k1_fe.
Hypothesis mul_spec : mul52_ok mul.
Hypothesis sqr_spec : sqr52_ok sqr.
Local Abbreviation impl := (field_5x52_with mul sqr).

Definition field_5x52_val_with : FieldVal impl.
Proof.
  refine {| vmag := fe_mag : Z -> fe (FieldImpl := impl) -> Prop; vnorm := fe_norm; val := fe_val;
            vst_ok := storage_ok : fe_storage (FieldImpl := impl) -> Prop; vst_val := limbs_val 64 |}.
  - exact fe52_mag_weaken.
  - exact fe52_norm_mag.
  - exact fe52_norm_val.
  - exact fe52_norm_inj.
  - intros d7 d6 d5 d4 d3 d2 d1 d0 H v Hv. destruct (fe52_const_spec d7 d6 d5 d4 d3 d2 d1 d0 H) as [Hl E].
    unfold fe_norm. cbn [fe_const field_5x52_with]. rewrite E. auto.
  - exact normalize52_spec.
  - intros a H. destruct (normalize_weak52_spec a H) as [Hn E]. split; [apply (fe52_limbs_mag 0x100000000003E); [lia | exact Hn] |].
    cbn [fe_normalize_weak field_5x52_with]. rewrite E. apply (mod_eq_of _ _ (- (a.[4] >> 48))); [discriminate | ring].
  - exact normalize_var52_spec.
  - exact normalizes_to_zero52_spec.
  - exact normalizes_to_zero_var52_spec.
  - exact set_int52_spec.
  - exact (set_int52_spec 0 ltac:(lia)).
  - exact is_zero52_spec.
  - exact is_odd52_spec.
  - exact cmp_var52_spec.
  - intros b Hb Hl. cbn [fe_set_b32 field_5x52_with]. rewrite set_b32_52_spec by assumption. cbn [fst snd].
    pose proof (be_val_bound b Hb) as B. rewrite Hl in B. change (8 * Z.of_nat 32) with 256 in B.
    pose proof (fe52_limbs_digits _ B) as Ld. pose proof (fe52_val_digits _ B) as Vd.
    split; [reflexivity |]. split; [apply (fe52_limbs_mag 0xFFFFFFFFFFFF); [lia | exact Ld] |]. unfold fe_norm. rewrite Vd. auto.
  - intros a H. apply get_b32_52_spec, H.
  - exact negate52_spec.
  - exact mul_int52_spec.
  - exact add52_spec.
  - exact mul_spec.
  - exact sqr_spec.
  - intros a H. destruct (to_storage52_spec a (proj1 H)) as (Hl & HL & E). repeat split; assumption.
  - intros s [H HL]. destruct (from_storage52_spec s H HL) as [Hl E]. split; [apply (fe52_limbs_mag 0xFFFFFFFFFFFF); [lia | exact Hl] |].
    split; [exact E |]. intros Hp. split; [exact Hl | exact (eq_ind_r (fun v => v < secp_p) Hp E)].
  - intros r a b [? ?] [? ?]. now apply storage_cmov52_spec.
  - intros r a b Hr Ha. apply cmov52_spec; try (apply Hr || apply Ha); now apply (fe52_mag_u64 31).
Defined.

Definition field_5x52_laws_with : FieldLaws impl := laws_of_val field_5x52_val_with.
End With.

Definition field_5x52 : FieldImpl := field_5x52_with secp256k1_fe_mul secp256k1_fe_sqr.

Definition field_5x52_laws : FieldLaws field_5x52 := field_5x52_laws_with _ _ mul_inner52_spec sqr_inner52_spec.

(** * What the 5x52 field promises *)

(** The canonical limbs of a residue. *)
Definition fe52_of_Z (v : Z) : secp256k1_fe := digits 52 5 (v mod secp_p).

Lemma fe52_norm_eq a v : fe_norm a -> fe_val a mod secp_p = v mod secp_p -> a = fe52_of_Z v.
Proof.
  intros Ha Hv. pose proof (fe52_norm_val a Ha) as R. rewrite Z.mod_small in Hv by exact R.
  assert (B : 0 <= v mod secp_p < 2 ^ 256) by (rewrite <- Hv; unfold secp_p in *; lia).
  apply fe52_norm_inj; [exact Ha | |]; unfold fe52_of_Z; rewrite ?fe52_val_digits by exact B; [| exact Hv].
  split; [apply fe52_limbs_digits; exact B |]. rewrite fe52_val_digits by exact B. lia.
Qed.

Lemma normalize52_eq a v : fe_mag 31 a -> fe_val a mod secp_p = v mod secp_p -> secp256k1_fe_normalize a = fe52_of_Z v.
Proof.
  intros Ha Hv. destruct (normalize52_spec a Ha) as [Hn E]. apply fe52_norm_eq; [exact Hn |].
  now rewrite E, Z.mod_mod by discriminate.
Qed.

(** C22. The 5x52 field on elements of bounded magnitude: products and squares
    of magnitude 8 overflow no 128-bit accumulator and have magnitude 1; every
    normalisation returns the canonical limbs of the residue, and the zero
    tests decide whether it is zero. *)
Theorem fe_5x52_correct a b c : fe_mag 8 a -> fe_mag 8 b -> fe_mag 31 c ->
  fe_mag 1 (secp256k1_fe_mul a b) /\ secp256k1_fe_normalize (secp256k1_fe_mul a b) = fe52_of_Z (fe_val a * fe_val b) /\
  fe_mag 1 (secp256k1_fe_sqr a) /\ secp256k1_fe_normalize (secp256k1_fe_sqr a) = fe52_of_Z (fe_val a * fe_val a) /\
  secp256k1_fe_normalize c = fe52_of_Z (fe_val c) /\ secp256k1_fe_normalize_var c = fe52_of_Z (fe_val c) /\
  secp256k1_fe_normalize (secp256k1_fe_normalize_weak c) = fe52_of_Z (fe_val c) /\
  secp256k1_fe_normalizes_to_zero c = b2z (fe_val c mod secp_p =? 0) /\
  secp256k1_fe_normalizes_to_zero_var c = b2z (fe_val c mod secp_p =? 0).
Proof.
  intros Ha Hb Hc. destruct (mul_inner52_spec a b Ha Hb) as [Mm Vm]. destruct (sqr_inner52_spec a Ha) as [Ms Vs].
  destruct (normalize_weak52_spec c Hc) as [Hw Ew]. destruct (normalize_var52_spec c Hc) as [Nv Ev].
  assert (W : forall m x, m <= 31 -> fe_mag m x -> fe_mag 31 x) by (intros m x; apply fe52_mag_weaken).
  split; [exact Mm |]. split; [apply normalize52_eq; [exact (W 1 _ ltac:(lia) Mm) | exact Vm] |].
  split; [exact Ms |]. split; [apply normalize52_eq; [exact (W 1 _ ltac:(lia) Ms) | exact Vs] |].
  split; [exact (normalize52_eq c _ Hc eq_refl) |].
  split; [apply fe52_norm_eq; [exact Nv | now rewrite Ev, Z.mod_mod by discriminate] |].
  split; [| split; [exact (normalizes_to_zero52_spec c Hc) | exact (normalizes_to_zero_var52_spec c Hc)]].
  apply normalize52_eq; [apply (W 1); [lia |]; apply (fe52_limbs_mag 0x100000000003E); [lia | exact Hw] |].
  rewrite Ew. apply (mod_eq_of _ _ (- Z.shiftr (nth 4 c 0) 48)); [discriminate | ring].
Qed.

(** Every limb at the bound of magnitude 8. *)
Definition fe52_mag8_max : secp256k1_fe :=
  [0xFFFFFFFFFFFFF0; 0xFFFFFFFFFFFFF0; 0xFFFFFFFFFFFFF0; 0xFFFFFFFFFFFFF0; 0xFFFFFFFFFFFF0].

Lemma fe_5x52_correct_witness : fe_mag 8 fe52_mag8_max /\
  secp256k1_fe_normalize (secp256k1_fe_mul fe52_mag8_max fe52_mag8_max) = fe52_of_Z (fe_val fe52_mag8_max * fe_val fe52_mag8_max).
Proof.
  assert (H : fe_mag 8 fe52_mag8_max) by (repeat split; repeat constructor; unfold Rng; cbn; lia).
  split; [exact H |]. apply (fe_5x52_correct fe52_mag8_max fe52_mag8_max fe52_mag8_max H H).
  repeat split; repeat constructor; unfold Rng; cbn; lia.
Defined.
