(* ===== verification/Field5x52Asm.v ===== *)
(** Multiplication and squaring of 5x52 field elements in x86-64 assembly,
    [field_5x52_asm_impl.h], as built with [USE_ASM_X86_64]: the instructions of
    the two [asm] statements, run by the semantics of [X86] from any registers
    and stack slots.  They reach no memory but the operands', change no
    register that the statements do not declare, and leave the product modulo
    the prime with magnitude 1; [r] may be the same array as [a]. *)

From Stdlib Require Import ZArith Lia List Bool.
From S2P Require Import Prelude Limbs Fp FieldSpec FieldVal Field5x52 Field5x52Ser Field5x52Mul X86.
Import ListNotations.
Open Scope Z_scope.
Open Scope c_scope.

(** * The programs *)

(** The statement of [secp256k1_fe_mul_inner], up to column 5 of the product. *)
Definition fe_mul_asm_1 : list instr := [
    movq (Mem 0 RSI) R10; movq (Mem 8 RSI) R11; movq (Mem 16 RSI) R12; movq (Mem 24 RSI) R13;
    movq (Mem 32 RSI) R14;
    (* d += a3 * b0 *)
    movq (Mem 0 RBX) RAX; mulq R13; movq RAX RCX; movq RDX R15;
    (* d += a2 * b1 *)
    movq (Mem 8 RBX) RAX; mulq R12; addq RAX RCX; adcq RDX R15;
    (* d += a1 * b2 *)
    movq (Mem 16 RBX) RAX; mulq R11; addq RAX RCX; adcq RDX R15;
    (* d = a0 * b3 *)
    movq (Mem 24 RBX) RAX; mulq R10; addq RAX RCX; adcq RDX R15;
    (* c = a4 * b4 *)
    movq (Mem 32 RBX) RAX; mulq R14; movq RAX R8; movq RDX R9;
    (* d += (c & M) * R *)
    movq (Imm 0xfffffffffffff) RDX; andq RDX RAX; movq (Imm 0x1000003d10) RDX; mulq RDX; addq RAX RCX;
    adcq RDX R15;
    (* c >>= 52 (r8 only) *)
    shrdq 52 R9 R8;
    (* t3 (tmp1) = d & M *)
    movq RCX RSI; movq (Imm 0xfffffffffffff) RDX; andq RDX RSI; movq RSI (Arg 1);
    (* d >>= 52 *)
    shrdq 52 R15 RCX; xorq R15 R15;
    (* d += a4 * b0 *)
    movq (Mem 0 RBX) RAX; mulq R14; addq RAX RCX; adcq RDX R15;
    (* d += a3 * b1 *)
    movq (Mem 8 RBX) RAX; mulq R13; addq RAX RCX; adcq RDX R15;
    (* d += a2 * b2 *)
    movq (Mem 16 RBX) RAX; mulq R12; addq RAX RCX; adcq RDX R15;
    (* d += a1 * b3 *)
    movq (Mem 24 RBX) RAX; mulq R11; addq RAX RCX; adcq RDX R15;
    (* d += a0 * b4 *)
    movq (Mem 32 RBX) RAX; mulq R10; addq RAX RCX; adcq RDX R15;
    (* d += c * R *)
    movq R8 RAX; movq (Imm 0x1000003d10) RDX; mulq RDX; addq RAX RCX; adcq RDX R15;
    (* t4 = d & M (rsi) *)
    movq RCX RSI; movq (Imm 0xfffffffffffff) RDX; andq RDX RSI;
    (* d >>= 52 *)
    shrdq 52 R15 RCX; xorq R15 R15;
    (* tx = t4 >> 48 (tmp3) *)
    movq RSI RAX; shrq 48 RAX; movq RAX (Arg 3);
    (* t4 &= (M >> 4) (tmp2) *)
    movq (Imm 0xffffffffffff) RAX; andq RAX RSI; movq RSI (Arg 2);
    (* c = a0 * b0 *)
    movq (Mem 0 RBX) RAX; mulq R10; movq RAX R8; movq RDX R9;
    (* d += a4 * b1 *)
    movq (Mem 8 RBX) RAX; mulq R14; addq RAX RCX; adcq RDX R15;
    (* d += a3 * b2 *)
    movq (Mem 16 RBX) RAX; mulq R13; addq RAX RCX; adcq RDX R15;
    (* d += a2 * b3 *)
    movq (Mem 24 RBX) RAX; mulq R12; addq RAX RCX; adcq RDX R15;
    (* d += a1 * b4 *)
    movq (Mem 32 RBX) RAX; mulq R11; addq RAX RCX; adcq RDX R15
  ].

Definition fe_mul_asm_2 : list instr := [
    (* u0 = d & M (rsi) *)
    movq RCX RSI; movq (Imm 0xfffffffffffff) RDX; andq RDX RSI;
    (* d >>= 52 *)
    shrdq 52 R15 RCX; xorq R15 R15;
    (* u0 = (u0 << 4) | tx (rsi) *)
    shlq 4 RSI; movq (Arg 3) RAX; orq RAX RSI;
    (* c += u0 * (R >> 4) *)
    movq (Imm 0x1000003d1) RAX; mulq RSI; addq RAX R8; adcq RDX R9;
    (* r[0] = c & M *)
    movq R8 RAX; movq (Imm 0xfffffffffffff) RDX; andq RDX RAX; movq RAX (Mem 0 RDI);
    (* c >>= 52 *)
    shrdq 52 R9 R8; xorq R9 R9;
    (* c += a1 * b0 *)
    movq (Mem 0 RBX) RAX; mulq R11; addq RAX R8; adcq RDX R9;
    (* c += a0 * b1 *)
    movq (Mem 8 RBX) RAX; mulq R10; addq RAX R8; adcq RDX R9;
    (* d += a4 * b2 *)
    movq (Mem 16 RBX) RAX; mulq R14; addq RAX RCX; adcq RDX R15;
    (* d += a3 * b3 *)
    movq (Mem 24 RBX) RAX; mulq R13; addq RAX RCX; adcq RDX R15;
    (* d += a2 * b4 *)
    movq (Mem 32 RBX) RAX; mulq R12; addq RAX RCX; adcq RDX R15;
    (* c += (d & M) * R *)
    movq RCX RAX; movq (Imm 0xfffffffffffff) RDX; andq RDX RAX; movq (Imm 0x1000003d10) RDX; mulq RDX;
    addq RAX R8; adcq RDX R9;
    (* d >>= 52 *)
    shrdq 52 R15 RCX; xorq R15 R15;
    (* r[1] = c & M *)
    movq R8 RAX; movq (Imm 0xfffffffffffff) RDX; andq RDX RAX; movq RAX (Mem 8 RDI);
    (* c >>= 52 *)
    shrdq 52 R9 R8; xorq R9 R9;
    (* c += a2 * b0 *)
    movq (Mem 0 RBX) RAX; mulq R12; addq RAX R8; adcq RDX R9;
    (* c += a1 * b1 *)
    movq (Mem 8 RBX) RAX; mulq R11; addq RAX R8; adcq RDX R9;
    (* c += a0 * b2 (last use of r10 = a0) *)
    movq (Mem 16 RBX) RAX; mulq R10; addq RAX R8; adcq RDX R9;
    (* fetch t3 (r10, overwrites a0), t4 (rsi) *)
    movq (Arg 2) RSI; movq (Arg 1) R10;
    (* d += a4 * b3 *)
    movq (Mem 24 RBX) RAX; mulq R14; addq RAX RCX; adcq RDX R15;
    (* d += a3 * b4 *)
    movq (Mem 32 RBX) RAX; mulq R13; addq RAX RCX; adcq RDX R15;
    (* c += (d & M) * R *)
    movq RCX RAX; movq (Imm 0xfffffffffffff) RDX; andq RDX RAX; movq (Imm 0x1000003d10) RDX; mulq RDX;
    addq RAX R8; adcq RDX R9;
    (* d >>= 52 (rcx only) *)
    shrdq 52 R15 RCX;
    (* r[2] = c & M *)
    movq R8 RAX; movq (Imm 0xfffffffffffff) RDX; andq RDX RAX; movq RAX (Mem 16 RDI);
    (* c >>= 52 *)
    shrdq 52 R9 R8; xorq R9 R9;
    (* c += t3 *)
    addq R10 R8;
    (* c += d * R *)
    movq RCX RAX; movq (Imm 0x1000003d10) RDX; mulq RDX; addq RAX R8; adcq RDX R9;
    (* r[3] = c & M *)
    movq R8 RAX; movq (Imm 0xfffffffffffff) RDX; andq RDX RAX; movq RAX (Mem 24 RDI);
    (* c >>= 52 (r8 only) *)
    shrdq 52 R9 R8;
    (* c += t4 (r8 only) *)
    addq RSI R8;
    (* r[4] = c *)
    movq R8 (Mem 32 RDI)
  ].

(** The statement of [secp256k1_fe_sqr_inner], likewise. *)
Definition fe_sqr_asm_1 : list instr := [
    movq (Mem 0 RSI) R10; movq (Mem 8 RSI) R11; movq (Mem 16 RSI) R12; movq (Mem 24 RSI) R13;
    movq (Mem 32 RSI) R14; movq (Imm 0xfffffffffffff) R15;
    (* d = (a0*2) * a3 *)
    leaq R10 R10 1 RAX; mulq R13; movq RAX RBX; movq RDX RCX;
    (* d += (a1*2) * a2 *)
    leaq R11 R11 1 RAX; mulq R12; addq RAX RBX; adcq RDX RCX;
    (* c = a4 * a4 *)
    movq R14 RAX; mulq R14; movq RAX R8; movq RDX R9;
    (* d += (c & M) * R *)
    andq R15 RAX; movq (Imm 0x1000003d10) RDX; mulq RDX; addq RAX RBX; adcq RDX RCX;
    (* c >>= 52 (r8 only) *)
    shrdq 52 R9 R8;
    (* t3 (tmp1) = d & M *)
    movq RBX RSI; andq R15 RSI; movq RSI (Arg 1);
    (* d >>= 52 *)
    shrdq 52 RCX RBX; xorq RCX RCX;
    (* a4 *= 2 *)
    addq R14 R14;
    (* d += a0 * a4 *)
    movq R10 RAX; mulq R14; addq RAX RBX; adcq RDX RCX;
    (* d+= (a1*2) * a3 *)
    leaq R11 R11 1 RAX; mulq R13; addq RAX RBX; adcq RDX RCX;
    (* d += a2 * a2 *)
    movq R12 RAX; mulq R12; addq RAX RBX; adcq RDX RCX;
    (* d += c * R *)
    movq R8 RAX; movq (Imm 0x1000003d10) RDX; mulq RDX; addq RAX RBX; adcq RDX RCX;
    (* t4 = d & M (rsi) *)
    movq RBX RSI; andq R15 RSI;
    (* d >>= 52 *)
    shrdq 52 RCX RBX; xorq RCX RCX;
    (* tx = t4 >> 48 (tmp3) *)
    movq RSI RAX; shrq 48 RAX; movq RAX (Arg 3);
    (* t4 &= (M >> 4) (tmp2) *)
    movq (Imm 0xffffffffffff) RAX; andq RAX RSI; movq RSI (Arg 2);
    (* c = a0 * a0 *)
    movq R10 RAX; mulq R10; movq RAX R8; movq RDX R9;
    (* d += a1 * a4 *)
    movq R11 RAX; mulq R14; addq RAX RBX; adcq RDX RCX;
    (* d += (a2*2) * a3 *)
    leaq R12 R12 1 RAX; mulq R13; addq RAX RBX; adcq RDX RCX
  ].

Definition fe_sqr_asm_2 : list instr := [
    (* u0 = d & M (rsi) *)
    movq RBX RSI; andq R15 RSI;
    (* d >>= 52 *)
    shrdq 52 RCX RBX; xorq RCX RCX;
    (* u0 = (u0 << 4) | tx (rsi) *)
    shlq 4 RSI; movq (Arg 3) RAX; orq RAX RSI;
    (* c += u0 * (R >> 4) *)
    movq (Imm 0x1000003d1) RAX; mulq RSI; addq RAX R8; adcq RDX R9;
    (* r[0] = c & M *)
    movq R8 RAX; andq R15 RAX; movq RAX (Mem 0 RDI);
    (* c >>= 52 *)
    shrdq 52 R9 R8; xorq R9 R9;
    (* a0 *= 2 *)
    addq R10 R10;
    (* c += a0 * a1 *)
    movq R10 RAX; mulq R11; addq RAX R8; adcq RDX R9;
    (* d += a2 * a4 *)
    movq R12 RAX; mulq R14; addq RAX RBX; adcq RDX RCX;
    (* d += a3 * a3 *)
    movq R13 RAX; mulq R13; addq RAX RBX; adcq RDX RCX;
    (* c += (d & M) * R *)
    movq RBX RAX; andq R15 RAX; movq (Imm 0x1000003d10) RDX; mulq RDX; addq RAX R8; adcq RDX R9;
    (* d >>= 52 *)
    shrdq 52 RCX RBX; xorq RCX RCX;
    (* r[1] = c & M *)
    movq R8 RAX; andq R15 RAX; movq RAX (Mem 8 RDI);
    (* c >>= 52 *)
    shrdq 52 R9 R8; xorq R9 R9;
    (* c += a0 * a2 (last use of r10) *)
    movq R10 RAX; mulq R12; addq RAX R8; adcq RDX R9;
    (* fetch t3 (r10, overwrites a0),t4 (rsi) *)
    movq (Arg 2) RSI; movq (Arg 1) R10;
    (* c += a1 * a1 *)
    movq R11 RAX; mulq R11; addq RAX R8; adcq RDX R9;
    (* d += a3 * a4 *)
    movq R13 RAX; mulq R14; addq RAX RBX; adcq RDX RCX;
    (* c += (d & M) * R *)
    movq RBX RAX; andq R15 RAX; movq (Imm 0x1000003d10) RDX; mulq RDX; addq RAX R8; adcq RDX R9;
    (* d >>= 52 (rbx only) *)
    shrdq 52 RCX RBX;
    (* r[2] = c & M *)
    movq R8 RAX; andq R15 RAX; movq RAX (Mem 16 RDI);
    (* c >>= 52 *)
    shrdq 52 R9 R8; xorq R9 R9;
    (* c += t3 *)
    addq R10 R8;
    (* c += d * R *)
    movq RBX RAX; movq (Imm 0x1000003d10) RDX; mulq RDX; addq RAX R8; adcq RDX R9;
    (* r[3] = c & M *)
    movq R8 RAX; andq R15 RAX; movq RAX (Mem 24 RDI);
    (* c >>= 52 (r8 only) *)
    shrdq 52 R9 R8;
    (* c += t4 (r8 only) *)
    addq RSI R8;
    (* r[4] = c *)
    movq R8 (Mem 32 RDI)
  ].

(** [a] is in [rsi]; [tmp1], [tmp2] and [tmp3] are in memory. *)
Definition fe_operands : list operand := [Reg RSI; Slot 0; Slot 1; Slot 2].

(** [a] is object 0, [b] object 1, and [r] the object of that number. *)
Definition secp256k1_fe_mul_inner (g : regs) (tmp : list val) (r : nat) (a b x : list Z) : option state :=
  run (map (inst fe_operands) (fe_mul_asm_1 ++ fe_mul_asm_2))
    (State (set RSI (Ptr 0 0) (set RBX (Ptr 1 0) (set RDI (Ptr r 0) g))) None tmp [a; b; x]).

Definition secp256k1_fe_sqr_inner (g : regs) (tmp : list val) (r : nat) (a x : list Z) : option state :=
  run (map (inst fe_operands) (fe_sqr_asm_1 ++ fe_sqr_asm_2))
    (State (set RSI (Ptr 0 0) (set RDI (Ptr r 0) g)) None tmp [a; x]).

(** * Correctness *)

Lemma fe_mul_asm_spec g tmp r a b x : fe_mag 8 a -> fe_mag 8 b -> length tmp = 3%nat -> length x = 5%nat -> r = 0%nat \/ r = 2%nat ->
  leaves r [a; b; x] (fun r => fe_mag 1 r /\ fe_val r mod secp_p = (fe_val a * fe_val b) mod secp_p)
    (secp256k1_fe_mul_inner g tmp r a b x).
Proof.
  intros Ha Hb Ht Hx Hr. fe_cases a Ha. fe_cases b Hb. list_cases tmp Ht. list_cases x Hx. destruct g.
  unfold secp256k1_fe_mul_inner. destruct Hr as [-> | ->]; x86_run; split; [fe_bounds | | fe_bounds |];
    (apply (mod_eq_of _ _ (- (16 * limbs_val 52 [0; t63; t81; t11 + v9; v0] + v5))); [discriminate |]);
    unfold fe_val, secp_p; cbn [limbs_val]; solve_words; ring.
Qed.

Lemma fe_sqr_asm_spec g tmp r a x : fe_mag 8 a -> length tmp = 3%nat -> length x = 5%nat -> r = 0%nat \/ r = 1%nat ->
  leaves r [a; x] (fun r => fe_mag 1 r /\ fe_val r mod secp_p = (fe_val a * fe_val a) mod secp_p)
    (secp256k1_fe_sqr_inner g tmp r a x).
Proof.
  intros Ha Ht Hx Hr. fe_cases a Ha. list_cases tmp Ht. list_cases x Hx. destruct g.
  unfold secp256k1_fe_sqr_inner. destruct Hr as [-> | ->]; x86_run; split; [fe_bounds | | fe_bounds |];
    (apply (mod_eq_of _ _ (- (16 * limbs_val 52 [0; t41; t53; t5 + v13; v2] + v9))); [discriminate |]);
    unfold fe_val, secp_p; cbn [limbs_val]; solve_words; ring.
Qed.

(** The registers that the statements declare as changed: [rsi], which is both
    input and output, and the clobbers. *)
Definition fe_mul_clobbers : list reg := [RSI; RAX; RCX; RDX; R8; R9; R10; R11; R12; R13; R14; R15].
Definition fe_sqr_clobbers : list reg := [RSI; RAX; RBX; RCX; RDX; R8; R9; R10; R11; R12; R13; R14; R15].

Lemma fe_asm_clobbers :
  clobbers_only fe_mul_clobbers (map (inst fe_operands) (fe_mul_asm_1 ++ fe_mul_asm_2)) = true /\
  clobbers_only fe_sqr_clobbers (map (inst fe_operands) (fe_sqr_asm_1 ++ fe_sqr_asm_2)) = true.
Proof. split; vm_compute; reflexivity. Qed.

(** * The field built with the assembly *)

(** Some temporaries to start from, which do not matter. *)
Definition tmp0 : list val := repeat (Word 0) 3.

Definition secp256k1_fe_mul (a b : secp256k1_fe) : secp256k1_fe :=
  result 2 (secp256k1_fe_mul_inner regs0 tmp0 2 a b (repeat 0 5)).

Definition secp256k1_fe_sqr (a : secp256k1_fe) : secp256k1_fe :=
  result 1 (secp256k1_fe_sqr_inner regs0 tmp0 1 a (repeat 0 5)).

Lemma fe_mul_asm_ok a b : fe_mag 8 a -> fe_mag 8 b ->
  fe_mag 1 (secp256k1_fe_mul a b) /\ fe_val (secp256k1_fe_mul a b) mod secp_p = (fe_val a * fe_val b) mod secp_p.
Proof.
  intros Ha Hb. exact (leaves_result _ _ _ _ (fe_mul_asm_spec regs0 tmp0 2 a b (repeat 0 5) Ha Hb eq_refl eq_refl (or_intror eq_refl))).
Qed.

Lemma fe_sqr_asm_ok a : fe_mag 8 a ->
  fe_mag 1 (secp256k1_fe_sqr a) /\ fe_val (secp256k1_fe_sqr a) mod secp_p = (fe_val a * fe_val a) mod secp_p.
Proof.
  intros Ha. exact (leaves_result _ _ _ _ (fe_sqr_asm_spec regs0 tmp0 1 a (repeat 0 5) Ha eq_refl eq_refl (or_intror eq_refl))).
Qed.

Definition field_5x52_asm : FieldImpl := field_5x52_with secp256k1_fe_mul secp256k1_fe_sqr.

Definition field_5x52_asm_laws : FieldLaws field_5x52_asm := field_5x52_laws_with _ _ fe_mul_asm_ok fe_sqr_asm_ok.

(** C25. The assembly multiplies and squares field elements of magnitude at most
    8: from any registers and temporaries, also when the result overwrites the
    first factor, the statements run to their end without touching other
    memory, write limbs of magnitude 1 that stand for the product modulo the
    prime, and leave the registers they do not declare as changed, which hold
    [b] and [r], as they were. *)
Theorem fe_asm_correct g tmp a b x : fe_mag 8 a -> fe_mag 8 b -> length tmp = 3%nat -> length x = 5%nat ->
  (forall r, In r [0; 2]%nat ->
     leaves r [a; b; x] (fun r => fe_mag 1 r /\ fe_val r mod secp_p = (fe_val a * fe_val b) mod secp_p)
       (secp256k1_fe_mul_inner g tmp r a b x)) /\
  (forall r, In r [0; 1]%nat ->
     leaves r [a; x] (fun r => fe_mag 1 r /\ fe_val r mod secp_p = (fe_val a * fe_val a) mod secp_p)
       (secp256k1_fe_sqr_inner g tmp r a x)) /\
  (forall r s, secp256k1_fe_mul_inner g tmp r a b x = Some s -> get (registers s) RBX = Ptr 1 0 /\ get (registers s) RDI = Ptr r 0) /\
  (forall r s, secp256k1_fe_sqr_inner g tmp r a x = Some s -> get (registers s) RDI = Ptr r 0).
Proof.
  intros Ha Hb Ht Hx. destruct fe_asm_clobbers as [Cm Cs]. destruct g.
  split; [intros r Hr; apply fe_mul_asm_spec; cbn in Hr; intuition auto |].
  split; [intros r Hr; apply fe_sqr_asm_spec; cbn in Hr; intuition auto |]. split.
  - intros r s E. pose proof (fun q => clobbers_only_run _ _ _ _ q Cm E) as K.
    split; [exact (K RBX ltac:(cbn; intuition discriminate)) | exact (K RDI ltac:(cbn; intuition discriminate))].
  - intros r s E. exact (clobbers_only_run _ _ _ _ RDI Cs E ltac:(cbn; intuition discriminate)).
Qed.

Lemma fe_asm_correct_witness :
  leaves 0 [fe52_mag8_max; fe52_mag8_max; repeat 0 5]
    (fun r => fe_mag 1 r /\ fe_val r mod secp_p = (fe_val fe52_mag8_max * fe_val fe52_mag8_max) mod secp_p)
    (secp256k1_fe_mul_inner regs0 tmp0 0 fe52_mag8_max fe52_mag8_max (repeat 0 5)) /\
  secp256k1_fe_mul_inner regs0 tmp0 0 fe52_mag8_max fe52_mag8_max (repeat 0 5) <> None.
Proof.
  assert (H : fe_mag 8 fe52_mag8_max) by (repeat split; repeat constructor; unfold Rng; cbn; lia).
  split; [| vm_compute; discriminate].
  exact (proj1 (fe_asm_correct regs0 tmp0 fe52_mag8_max fe52_mag8_max (repeat 0 5) H H eq_refl eq_refl) 0%nat (or_introl eq_refl)).
Defined.
