(* ===== verification/FieldThm.v ===== *)
(** What [field_impl.h] promises over any field representation, with the 10x26
    representation as the instance of the witnesses; and the byte strings of
    the 10x26 representation. *)

From Stdlib Require Import ZArith Lia List Bool Zmod Field.
From S2P Require Import Prelude Limbs Primes Fp FieldSpec FieldGen.
From S2P Require Import Field10x26 Field10x26Ser Field10x26Mul.
Import ListNotations.
Open Scope Z_scope.

Section Generic.
Context {I : FieldImpl} {L : FieldLaws I}.

(** C27. The square root returns 1 exactly on squares; the value written is then
    a root and itself a square, and otherwise a root of the opposite. *)
Theorem fe_sqrt_correct a : mag 8 a ->
  let '(r, ret) := secp256k1_fe_sqrt a in
  mag 1 r /\
  (ret = 1 /\ (fv r * fv r = fv a)%F /\ (exists w, w * w = fv r)%F \/
   ret = 0 /\ (fv r * fv r = - fv a)%F /\ ~ (exists w, w * w = fv a)%F).
Proof.
  intros Ha. destruct (fe_sqrt_pow a (fv a) (conj Ha eq_refl)) as [[Hm Hr] Hs].
  destruct (secp256k1_fe_sqrt a) as [r ret]. cbn [fst snd] in *. split; [exact Hm |]. rewrite Hs, Hr.
  destruct (sqrt_exp_spec (fv a)) as [[E _] | (E & N & S)].
  - left. rewrite E, Zmod.eqb_refl. split; [reflexivity |]. split; [reflexivity |].
    exists (fv a ^ (sqrt_exp / 2))%F. symmetry. apply sqrt_exp_even.
  - right. destruct (Zmod.eqb _ _) eqn:Q; [apply Zmod.eqb_eq in Q; contradiction | auto].
Qed.

(** The addition chain computes the inverse, and zero for zero. *)
Theorem fe_inv_correct a : mag 8 a ->
  mag 1 (secp256k1_fe_inv a) /\ (fv a = 0%F -> fv (secp256k1_fe_inv a) = 0%F) /\
  (fv a <> 0%F -> (fv a * fv (secp256k1_fe_inv a) = 1)%F) /\ secp256k1_fe_inv_var a = secp256k1_fe_inv a.
Proof.
  intros Ha. destruct (fe_inv_ok a (fv a) (conj Ha eq_refl)) as [Hm E]. split; [exact Hm |]. rewrite E.
  split; [intros ->; apply Zmod.inv_0 |]. split; [intros N; field; exact N | reflexivity].
Qed.

(** Batch inversion with one inversion writes the inverse of every element,
    whatever the output array held. *)
Theorem fe_inv_all_correct r a : Forall (fun x => mag 8 x /\ fv x <> 0%F) a -> length r = length a ->
  length (secp256k1_fe_inv_all_var r a) = length a /\
  forall i, (i < length a)%nat ->
    mag 1 (nth_fe (secp256k1_fe_inv_all_var r a) i) /\
    (fv (nth_fe a i) * fv (nth_fe (secp256k1_fe_inv_all_var r a) i) = 1)%F.
Proof.
  intros Ha Hr. destruct (inv_all_ok a Ha r Hr) as [HL HI]. split; [exact HL |]. intros i Hi.
  destruct (HI i Hi) as [Hm E]. split; [exact Hm |]. rewrite E. destruct (inv_all_input a Ha i Hi) as [_ N].
  field. exact N.
Qed.
End Generic.

(** Two, with magnitude 1. *)
Definition fe_two : secp256k1_fe := secp256k1_fe_set_int 2.

Lemma fe_two_ok : fe_mag 8 fe_two /\ fv (FieldLaws := field_10x26_laws) fe_two <> 0%F.
Proof.
  split; [repeat split; repeat constructor; unfold Rng; cbn; lia |].
  apply F_of_Z_nz. split; vm_compute; reflexivity.
Qed.

Lemma fe_sqrt_correct_witness :
  let '(r, ret) := secp256k1_fe_sqrt (fe_two : fe) in mag 1 r.
Proof.
  pose proof (fe_sqrt_correct (I := field_10x26) fe_two (proj1 fe_two_ok)) as H.
  destruct (secp256k1_fe_sqrt _) as [r ret]. exact (proj1 H).
Defined.

Lemma fe_inv_correct_witness :
  let a : fe := fe_two in (fv a * fv (secp256k1_fe_inv a) = 1)%F.
Proof.
  exact (proj1 (proj2 (proj2 (fe_inv_correct (I := field_10x26) fe_two (proj1 fe_two_ok)))) (proj2 fe_two_ok)).
Defined.

Lemma fe_inv_all_correct_witness :
  let a : list fe := [fe_two; fe_two; fe_two] in
  (fv (nth_fe a 1) * fv (nth_fe (secp256k1_fe_inv_all_var a a) 1) = 1)%F.
Proof.
  refine (proj2 (proj2 (fe_inv_all_correct (I := field_10x26) [fe_two; fe_two; fe_two] [fe_two; fe_two; fe_two] _ eq_refl) 1%nat _)).
  - repeat constructor; apply fe_two_ok.
  - cbn. lia.
Defined.

(** Parsing 32 bytes accepts exactly the values below the prime and stores
    them normalised; printing a parsed value and parsing a printed element
    are the identity. *)
Theorem fe_b32_roundtrip b a : limbs_lt 8 b -> length b = 32%nat -> fe_norm a ->
  snd (secp256k1_fe_set_b32 b) = b2z (be_val b <? secp_p) /\
  (be_val b < secp_p -> fe_norm (fst (secp256k1_fe_set_b32 b)) /\
     secp256k1_fe_get_b32 (fst (secp256k1_fe_set_b32 b)) = b) /\
  secp256k1_fe_set_b32 (secp256k1_fe_get_b32 a) = (a, 1).
Proof.
  intros Hb Hl Ha. pose proof (be_val_bound b Hb) as B. rewrite Hl in B. change (8 * Z.of_nat 32) with 256 in B.
  rewrite (set_b32_spec b Hb Hl). cbn [fst snd]. pose proof (fe_limbs_digits _ B) as Ld. pose proof (fe_val_digits _ B) as Vd.
  split; [reflexivity |]. split.
  - intros H. split; [split; [exact Ld | now rewrite Vd] |]. rewrite get_b32_spec by exact Ld. rewrite Vd, <- Hl. now apply be_bytes_val.
  - rewrite get_b32_spec by apply Ha. pose proof (fe_norm_val a Ha) as Bv. assert (Hp : secp_p < 2 ^ 256) by reflexivity.
    rewrite set_b32_spec by (apply limbs_lt_be_bytes || apply length_be_bytes). rewrite be_val_bytes. change (8 * Z.of_nat 32) with 256.
    rewrite Z.mod_small, (proj2 (Z.ltb_lt _ _)) by lia. cbn [b2z]. f_equal. unfold fe_val.
    rewrite <- (proj1 (proj1 Ha)). apply digits_limbs_val; [lia | apply fe_limbs_lt, Ha].
Qed.

Lemma fe_b32_roundtrip_witness :
  secp256k1_fe_get_b32 (fst (secp256k1_fe_set_b32 (repeat 0x7F 32))) = repeat 0x7F 32.
Proof.
  refine (proj2 (proj1 (proj2 (fe_b32_roundtrip (repeat 0x7F 32) secp256k1_fe_clear _ _ _)) _)).
  - repeat constructor; lia.
  - reflexivity.
  - exact (proj1 (set_int_spec 0 ltac:(lia))).
  - vm_compute. reflexivity.
Defined.
