(* ===== verification/NumThm.v ===== *)
(** What the numbers on top of GMP promise, for every GMP that keeps the laws of
    its manual, and a GMP on integers that does. *)

From Stdlib Require Import ZArith Lia List Bool Zmod Zcong Field.
From S2P Require Import Prelude Limbs Primes Fp FieldSpec FieldGen ScalarSpec ScalarGen Num NumSpec.
From S2P Require Import Field10x26 Field10x26Ser Field10x26Mul FieldThm Scalar8x32 Scalar8x32Ops Scalar8x32Mul ScalarThm.
Import ListNotations.
Open Scope Z_scope.
Open Scope c_scope.

Section Generic.
Context {E : GMP} {EL : GMPLaws E} {I : FieldImpl} {L : FieldLaws I} {J : ScalarImpl} {M : ScalarLaws J}.

(** C28. Every function on numbers keeps them well formed (an array of its
    length, no leading zero limb) and computes with the integers they stand
    for: conversions from and to bytes, with no result when the buffer is too
    short, comparisons, the arithmetic, when the result fits the array, inverses
    for a modulus of [NUM_LIMBS] limbs, with no result when it is longer than the
    local arrays, and the Jacobi symbol for an odd prime.  The test for one
    ignores the sign, and [secp256k1_num_cmp] compares absolute values. *)
Theorem num_correct r a b : num_mem r -> num_ok a -> num_ok b ->
  let fits x := Z.abs x < 2 ^ (GMP_NUMB_BITS * Z.of_nat (2 * NUM_LIMBS)) in
  let holds x v := num_ok x /\ num_val x = v in
  (forall s, limbs_lt 8 s -> (0 < length s <= 64)%nat -> holds (secp256k1_num_set_bin r s) (be_val s)) /\
  (forall n, secp256k1_num_get_bin n a =
     if num_abs a <? 2 ^ (8 * Z.of_nat n) then Some (be_bytes n (num_abs a)) else None) /\
  secp256k1_num_is_zero a = (num_val a =? 0) /\ secp256k1_num_is_one a = (Z.abs (num_val a) =? 1) /\
  secp256k1_num_is_neg a = (num_val a <? 0) /\ secp256k1_num_eq a b = (num_val a =? num_val b) /\
  (secp256k1_num_cmp a b ?= 0) = (Z.abs (num_val a) ?= Z.abs (num_val b)) /\
  holds (secp256k1_num_copy a) (num_val a) /\ holds (secp256k1_num_negate a) (- num_val a) /\
  (fits (Z.abs (num_val a) + Z.abs (num_val b)) ->
     holds (secp256k1_num_add r a b) (num_val a + num_val b) /\ holds (secp256k1_num_sub r a b) (num_val a - num_val b)) /\
  (fits (num_val a * num_val b) -> holds (secp256k1_num_mul r a b) (num_val a * num_val b)) /\
  (forall bits, 0 <= bits -> holds (secp256k1_num_shift a bits) (Z.quot (num_val a) (2 ^ bits))) /\
  (num_val b <> 0 -> holds (secp256k1_num_mod a b) (num_val a mod Z.abs (num_val b))) /\
  (neg b = false -> (limbs b <= NUM_LIMBS)%nat -> 1 < num_val b -> Z.abs (num_val a) < num_val b -> Z.gcd (num_val a) (num_val b) = 1 ->
     exists i, secp256k1_num_mod_inverse r a b = Some i /\ num_ok i /\ Z.abs (num_val i) < num_val b /\
     (num_val i * num_val a) mod num_val b = 1) /\
  ((NUM_LIMBS + 1 < limbs b)%nat -> secp256k1_num_mod_inverse r a b = None) /\
  (neg b = false -> Z.prime (num_val b) -> 2 < num_val b ->
     (secp256k1_num_jacobi a b = 0 <-> num_val a mod num_val b = 0) /\
     (secp256k1_num_jacobi a b = 1 <-> num_val a mod num_val b <> 0 /\ exists x, (x * x) mod num_val b = num_val a mod num_val b) /\
     (secp256k1_num_jacobi a b = -1 <-> ~ exists x, (x * x) mod num_val b = num_val a mod num_val b)).
Proof.
  intros Hr Ha Hb. cbv zeta. pose proof (abs_val a Ha) as Aa. pose proof (abs_val b Hb) as Ab.
  split. { intros s Fs Ls. destruct (num_set_bin_ok r s Hr Fs Ls) as (K & V & N). split; [exact K |]. unfold num_val. now rewrite N. }
  split. { intros n. destruct (Z.ltb_spec (num_abs a) (2 ^ (8 * Z.of_nat n))); [now apply num_get_bin_ok | now apply num_get_bin_short]. }
  split. { rewrite num_is_zero_ok by exact Ha. destruct (Z.eqb_spec (num_abs a) 0), (Z.eqb_spec (num_val a) 0); (reflexivity || lia). }
  split. { rewrite num_is_one_ok by exact Ha. now rewrite Aa. }
  split; [now apply num_is_neg_ok |]. split; [now apply num_eq_ok |]. rewrite Aa, Ab. split; [now apply num_cmp_ok |].
  split; [now split |]. split; [now apply num_negate_ok |]. pose proof (abs_bound a Ha). pose proof (abs_bound b Hb).
  split. { intros R. rewrite Z.abs_eq in R by lia. split; [now apply (num_subadd_ok r a b false) | now apply (num_subadd_ok r a b true)]. }
  split. { intros R. rewrite Z.abs_mul, Aa, Ab in R. now apply num_mul_ok. }
  split. { intros bits Hbits. now apply num_shift_val. }
  split. { intros N. apply num_mod_ok; try assumption. lia. }
  assert (Vb : neg b = false -> num_val b = num_abs b) by (unfold num_val; now intros ->).
  split. { intros Nb Lb B1 R G. rewrite (Vb Nb) in *. rewrite <- Z.gcd_abs_l, Aa in G.
           destruct (num_mod_inverse_ok r a b Hr Ha Hb Nb B1 R G Lb) as (i & Ei & K & Ri & _ & V). exists i. rewrite (abs_val _ K). auto. }
  split. { intros Lb. unfold secp256k1_num_mod_inverse. now rewrite (proj2 (Nat.ltb_lt _ _) Lb). }
  intros Nb Pb B2. rewrite (Vb Nb) in *. rewrite num_jacobi_ok by assumption. now apply mpz_jacobi_ok.
Qed.

(** C29. Built with GMP, the inverses and the test for squares return what the
    code without it returns; the inverses abort for zero, where the code
    without GMP returns zero. *)
Theorem num_inverses_agree n m a x : num_mem n -> num_mem m -> mag 8 a -> sok x ->
  match secp256k1_fe_inv_var n m a with
  | Some r => norm r /\ (fv a * fv r = 1)%F /\ fv (FieldGen.secp256k1_fe_inv_var a) = fv r
  | None => fv a = 0%F
  end /\
  b2z (secp256k1_fe_is_quad_var n m a) = FieldGen.secp256k1_fe_is_quad_var a /\
  match secp256k1_scalar_inverse_var n m x with
  | Some r => (sv x * sv r) mod secp_n = 1 /\ r = ScalarGen.secp256k1_scalar_inverse_var x
  | None => sv x = 0
  end.
Proof.
  intros Hn Hm Ha Hx. assert (H8 : FeI a 8 (fv a)) by now split. pose proof (feI_weaken a 8 31 _ ltac:(lia) H8) as H31. split.
  - pose proof (fe_inv_num_ok n m a _ Hn Hm H31) as Q. destruct (secp256k1_fe_inv_var n m a) as [r |]; [| exact Q]. destruct Q as (N & Nr & Er).
    split; [exact Nr |]. rewrite Er. split; [field; exact N |]. apply (proj2 (fe_inv_ok a _ H8)).
  - split; [rewrite (fe_is_quad_num_ok n m a _ Hn Hm H31); symmetry; now apply fe_is_quad_ok |].
    pose proof (scalar_inverse_num_ok n m x Hn Hm Hx) as Q. destruct (secp256k1_scalar_inverse_var n m x) as [r |]; [| exact Q]. destruct Q as (N & Or & P).
    split; [exact P |]. destruct (scalar_inverse_ok x Hx) as [Oi Ei]. apply sv_inj; [exact Or | exact Oi |].
    symmetry. unfold ScalarGen.secp256k1_scalar_inverse_var. rewrite (sres_val _ (sv r) Oi); [apply Z.mod_small, sv_range, Or |]. rewrite Ei. symmetry. now apply Fn_inv_unique.
Qed.
End Generic.

(** * A GMP on integers, with limbs of 64 bits *)

Local Abbreviation W := (limbs_val 64).

(** The limbs of a natural number, without leading zeros. *)
Definition words (x : Z) : list Z := if x =? 0 then [] else digits 64 (S (Z.to_nat (Z.log2 x / 64))) x.

(** The cofactor of [u] in [gcd u v] closest to zero. *)
Definition cofactor (u v : Z) : Z :=
  let w := v / Z.gcd u v in
  let s := Z.invmod (u / Z.gcd u v) w in
  if 2 * s <=? w then s else s - w.

Definition int_jacobi (a p : Z) : Z :=
  if a mod p =? 0 then 0
  else if existsb (fun x => (Z.of_nat x * Z.of_nat x) mod p =? a mod p) (seq 0 (Z.to_nat p)) then 1 else -1.

#[local] Instance int_gmp : GMP := {
  GMP_NUMB_BITS := 64;
  mpn_get_str l := be_bytes (8 * length l) (W l);
  mpn_set_str s := digits 64 ((length s + 7) / 8) (be_val s);
  mpn_add a b := (digits 64 (length a) (W a + W b), (W a + W b) / 2 ^ (64 * Z.of_nat (length a)));
  mpn_sub a b := (digits 64 (length a) (W a - W b), - ((W a - W b) / 2 ^ (64 * Z.of_nat (length a))));
  mpn_mul a b := digits 64 (length a + length b) (W a * W b);
  mpn_cmp a b := W a - W b;
  mpn_rshift a k := (digits 64 (length a) (W a / 2 ^ k), (W a mod 2 ^ k) * 2 ^ (64 - k));
  mpn_tdiv_qr a d := (digits 64 (S (length a - length d)) (W a / W d), digits 64 (length d) (W a mod W d));
  mpn_gcdext a b :=
    let s := cofactor (W a) (W b) in
    (words (Z.gcd (W a) (W b)), words (Z.abs s), Z.sgn s * Z.of_nat (length (words (Z.abs s))));
  mpz_import l := W l;
  mpz_jacobi := int_jacobi
}.

Lemma digits_ok n v : 0 <= v < 2 ^ (64 * Z.of_nat n) -> length (digits 64 n v) = n /\ limbs_lt 64 (digits 64 n v) /\ W (digits 64 n v) = v.
Proof.
  intros R. split; [apply length_digits |]. split; [now apply limbs_lt_digits |]. rewrite limbs_val_digits by lia. now apply Z.mod_small.
Qed.

Lemma words_ok x : 0 <= x -> limbs_lt 64 (words x) /\ W (words x) = x /\ (words x <> [] -> last (words x) 0 <> 0) /\ (words x = [] <-> x = 0).
Proof.
  intros Hx. unfold words. destruct (Z.eqb_spec x 0) as [-> | N]; [repeat split; try (constructor || reflexivity); intros Q; now destruct Q |].
  destruct (Z.log2_spec x ltac:(lia)) as [Lo Hi]. set (k := Z.log2 x / 64). pose proof (Z.log2_nonneg x) as Lp. pose proof (Z.div_mod (Z.log2 x) 64 ltac:(lia)) as D. fold k in D.
  pose proof (Z.mod_pos_bound (Z.log2 x) 64 eq_refl). assert (K0 : 0 <= k) by (apply Z.div_pos; lia).
  assert (R : x < 2 ^ (64 * Z.of_nat (S (Z.to_nat k)))) by (eapply Z.lt_le_trans; [exact Hi |]; apply Z.pow_le_mono_r; lia).
  destruct (digits_ok (S (Z.to_nat k)) x ltac:(lia)) as (Ld & Fd & Vd). split; [exact Fd |]. split; [exact Vd |].
  assert (Ne : digits 64 (S (Z.to_nat k)) x <> []) by (intros Q; rewrite Q in Ld; discriminate). split; [| now split].
  intros _. rewrite last_nth, Ld, nth_digits by lia. replace (Z.of_nat (S (Z.to_nat k) - 1)) with k by lia.
  assert (Q : 0 < x / 2 ^ (64 * k)) by (apply Z.div_str_pos; split; [apply Z.pow_pos_nonneg; lia |]; eapply Z.le_trans; [| exact Lo]; apply Z.pow_le_mono_r; lia).
  rewrite Z.mod_small; [lia |]. split; [lia |]. apply Z.div_lt_upper_bound; [apply Z.pow_pos_nonneg; lia |]. rewrite <- Z.pow_add_r by lia.
  eapply Z.lt_le_trans; [exact R |]. apply Z.pow_le_mono_r; lia.
Qed.

Lemma cofactor_ok u v : 0 <= u -> 0 < v ->
  (exists T, Z.gcd u v = u * cofactor u v + v * T) /\ (cofactor u v = 1 \/ 2 * Z.gcd u v * Z.abs (cofactor u v) < v).
Proof.
  intros Hu Hv. unfold cofactor. set (g := Z.gcd u v). assert (Hg : 0 < g) by (pose proof (Z.gcd_nonneg u v) as Q0; pose proof (Z.gcd_eq_0_r u v) as Q1; fold g in Q0, Q1; lia).
  assert (Eu : u = g * (u / g)) by (apply Z.div_exact; [lia |]; apply Z.mod_divide; [lia | apply Z.gcd_divide_l]).
  assert (Ev : v = g * (v / g)) by (apply Z.div_exact; [lia |]; apply Z.mod_divide; [lia | apply Z.gcd_divide_r]).
  assert (C : Z.coprime (u / g) (v / g)) by (apply Z.gcd_div_gcd; [lia | reflexivity]).
  set (u' := u / g) in *. set (w := v / g) in *. assert (Hw : 0 < w) by nia. cbv zeta. set (s := Z.invmod u' w).
  assert (Rs : 0 <= s < w) by (apply Z.mod_pos_bound; exact Hw).
  pose proof (Z.invmod_coprime' u' w C) as Q. fold s in Q. assert (Ht : exists t, s * u' = 1 + t * w).
  { exists ((s * u') / w - 1 / w). pose proof (Z.div_mod (s * u') w ltac:(lia)). pose proof (Z.div_mod 1 w ltac:(lia)). rewrite Q in *. nia. }
  destruct Ht as [t Ht].
  destruct (Z.leb_spec (2 * s) w) as [G | G].
  - split; [exists (- t); nia |]. destruct (Z.eq_dec (2 * s) w) as [Q2 | Q2].
    + left. assert (D : (s | 1)) by (exists (u' - 2 * t); nia). apply Z.divide_1_r_nonneg in D; lia.
    + right. rewrite Z.abs_eq by lia. nia.
  - split; [exists (- t + u'); nia |]. right. rewrite Z.abs_neq by lia. nia.
Qed.

Lemma int_jacobi_ok a p : Z.prime p -> 2 < p ->
  (int_jacobi a p = 0 <-> a mod p = 0) /\
  (int_jacobi a p = 1 <-> a mod p <> 0 /\ exists x, (x * x) mod p = a mod p) /\
  (int_jacobi a p = -1 <-> ~ exists x, (x * x) mod p = a mod p).
Proof.
  intros _ Hp. unfold int_jacobi. destruct (Z.eqb_spec (a mod p) 0) as [E | E].
  - split; [now split |]. split; [split; [discriminate | intros [N _]; contradiction] |]. split; [discriminate |].
    intros N. exfalso. apply N. exists 0. rewrite E. reflexivity.
  - destruct (existsb _ _) eqn:Q.
    + assert (S : exists x, (x * x) mod p = a mod p) by (apply existsb_exists in Q as (x & _ & Hx); apply Z.eqb_eq in Hx; eauto).
      repeat split; try discriminate; try contradiction; auto.
    + assert (S : ~ exists x, (x * x) mod p = a mod p).
      { intros [x Hx]. apply Bool.not_true_iff_false in Q. apply Q. apply existsb_exists. exists (Z.to_nat (x mod p)).
        pose proof (Z.mod_pos_bound x p ltac:(lia)). split; [apply in_seq; lia |]. apply Z.eqb_eq. rewrite Z2Nat.id by lia. now rewrite <- Zmult_mod. }
      split; [split; [discriminate | contradiction] |]. split; [split; [discriminate | intros [_ S']; contradiction] |]. now split.
Qed.

Lemma W_bound l : limbs_lt 64 l -> 0 <= W l < 2 ^ (64 * Z.of_nat (length l)).
Proof. now apply limbs_val_bound. Qed.

Lemma pow_le_limbs m n : (m <= n)%nat -> 2 ^ (64 * Z.of_nat m) <= 2 ^ (64 * Z.of_nat n).
Proof. intros H. apply Z.pow_le_mono_r; lia. Qed.

Lemma int_carry n v : - 2 ^ (64 * Z.of_nat n) <= v < 2 * 2 ^ (64 * Z.of_nat n) ->
  length (digits 64 n v) = n /\ limbs_lt 64 (digits 64 n v) /\ -1 <= v / 2 ^ (64 * Z.of_nat n) <= 1 /\
  W (digits 64 n v) + 2 ^ (64 * Z.of_nat n) * (v / 2 ^ (64 * Z.of_nat n)) = v.
Proof.
  intros R. pose proof (Z.pow_pos_nonneg 2 (64 * Z.of_nat n) ltac:(lia) ltac:(lia)) as P. rewrite limbs_val_digits by lia.
  pose proof (Z.div_mod v (2 ^ (64 * Z.of_nat n)) ltac:(lia)) as D. pose proof (Z.mod_pos_bound v (2 ^ (64 * Z.of_nat n)) P).
  split; [apply length_digits |]. split; [now apply limbs_lt_digits |]. split; [nia | lia].
Qed.

#[local] Instance int_gmp_laws : GMPLaws int_gmp.
Proof.
  constructor; cbn [GMP_NUMB_BITS mpn_get_str mpn_set_str mpn_add mpn_sub mpn_mul mpn_cmp mpn_rshift mpn_tdiv_qr mpn_gcdext mpz_import mpz_jacobi int_gmp].
  - now right.
  - intros l Fl _ _. split; [apply limbs_lt_be_bytes |]. rewrite be_val_bytes, length_be_bytes. pose proof (W_bound l Fl).
    replace (8 * Z.of_nat (8 * length l)) with (64 * Z.of_nat (length l)) by lia. split; [now apply Z.mod_small | lia].
  - intros s Fs _. pose proof (be_val_bound s Fs) as R. pose proof (Nat.div_mod (length s + 7) 8 ltac:(lia)). pose proof (Nat.mod_upper_bound (length s + 7) 8 ltac:(lia)).
    destruct (digits_ok ((length s + 7) / 8) (be_val s)) as (Ld & Fd & Vd).
    { split; [lia |]. eapply Z.lt_le_trans; [apply R |]. apply Z.pow_le_mono_r; lia. }
    split; [exact Fd |]. split; [exact Vd |]. rewrite Ld. lia.
  - intros a b Fa Fb Hl. pose proof (W_bound a Fa). pose proof (W_bound b Fb). pose proof (pow_le_limbs (length b) (length a) ltac:(lia)).
    destruct (int_carry (length a) (W a + W b) ltac:(lia)) as (Ld & Fd & Rc & V). split; [exact Ld |]. split; [exact Fd |]. split; [| exact V].
    split; [apply Z.div_pos |]; lia.
  - intros a b Fa Fb Hl. pose proof (W_bound a Fa). pose proof (W_bound b Fb). pose proof (pow_le_limbs (length b) (length a) ltac:(lia)).
    destruct (int_carry (length a) (W a - W b) ltac:(lia)) as (Ld & Fd & Rc & V). split; [exact Ld |]. split; [exact Fd |]. split; [| lia].
    assert ((W a - W b) / 2 ^ (64 * Z.of_nat (length a)) < 1) by (apply Z.div_lt_upper_bound; lia). lia.
  - intros a b Fa Fb Hl. pose proof (W_bound a Fa). pose proof (W_bound b Fb). apply digits_ok. rewrite Nat2Z.inj_add, Z.mul_add_distr_l, Z.pow_add_r by lia. nia.
  - intros a b _ _ _. symmetry. apply Z.compare_sub.
  - intros a k Fa Hk _. pose proof (W_bound a Fa). apply digits_ok. pose proof (Z.pow_pos_nonneg 2 k ltac:(lia) ltac:(lia)).
    split; [apply Z.div_pos; lia |]. apply Z.div_lt_upper_bound; [lia |]. nia.
  - intros a d Fa Fd Hl Hd. pose proof (W_bound d Fd). assert (Nd : d <> []) by (intros ->; cbn in Hl; lia).
    pose proof (limbs_top 64 d ltac:(lia) Fd Nd Hd). pose proof (Z.pow_pos_nonneg 2 (64 * Z.of_nat (length d - 1)) ltac:(lia) ltac:(lia)).
    apply digits_ok. pose proof (Z.mod_pos_bound (W a) (W d) ltac:(lia)). lia.
  - intros a b Fa Fb Hl Hb. pose proof (W_bound a Fa) as Ra. assert (Nb : b <> []) by (intros ->; cbn in Hl; lia).
    pose proof (limbs_top 64 b ltac:(lia) Fb Nb Hb). pose proof (Z.pow_pos_nonneg 2 (64 * Z.of_nat (length b - 1)) ltac:(lia) ltac:(lia)).
    destruct (cofactor_ok (W a) (W b) ltac:(lia) ltac:(lia)) as [C1 C2]. set (s := cofactor (W a) (W b)) in *.
    destruct (words_ok (Z.gcd (W a) (W b)) (Z.gcd_nonneg _ _)) as (Fg & Vg & _). destruct (words_ok (Z.abs s) (Z.abs_nonneg s)) as (Fs & Vs & Ts & Zs).
    assert (Sg : Z.sgn (Z.sgn s * Z.of_nat (length (words (Z.abs s)))) * W (words (Z.abs s)) = s).
    { rewrite Vs, Z.sgn_mul, Z.sgn_sgn. destruct (words (Z.abs s)) as [| x l] eqn:Q; [pose proof (proj1 Zs eq_refl); lia |]. cbn [length].
      rewrite (Z.sgn_pos (Z.of_nat _)) by lia. lia. }
    rewrite Sg. split; [exact Fg |]. split; [exact Vg |]. split; [exact Fs |]. split; [| split; [exact Ts | now split]].
    destruct (Z.eq_dec s 0) as [-> | Ns]; [reflexivity |]. lia.
  - reflexivity.
  - exact int_jacobi_ok.
Qed.

(** Fresh memory. *)
Definition num_zeros : secp256k1_num := Num (repeat 0 8) false 1.

Lemma num_zeros_mem : num_mem num_zeros.
Proof. split; [reflexivity |]. repeat constructor; cbn; lia. Qed.

Lemma num_correct_witness :
  let a := secp256k1_num_set_bin num_zeros prime_bytes in
  num_ok (secp256k1_num_mul num_zeros a a) /\ num_val (secp256k1_num_mul num_zeros a a) = secp_p * secp_p.
Proof.
  cbv zeta. destruct prime_bytes_ok as (Fp & Lp & Vp). pose proof num_zeros_mem as Hz.
  destruct (num_set_bin_ok num_zeros prime_bytes Hz Fp ltac:(lia)) as (K & V & N). set (a := secp256k1_num_set_bin num_zeros prime_bytes) in *.
  assert (Va : num_val a = secp_p) by (unfold num_val; rewrite N, V; exact Vp).
  pose proof (num_correct num_zeros a a Hz K K) as Q. cbv zeta in Q. rewrite Va in Q. destruct Q as (_ & _ & _ & _ & _ & _ & _ & _ & _ & _ & Q & _).
  apply Q. vm_compute. reflexivity.
Defined.

Lemma num_inverses_agree_witness :
  match secp256k1_fe_inv_var num_zeros num_zeros (fe_two : @fe field_10x26) with
  | Some r => (fv (fe_two : @fe field_10x26) * fv r = 1)%F
  | None => False
  end.
Proof.
  pose proof (num_inverses_agree (I := field_10x26) (J := scalar_8x32) num_zeros num_zeros fe_two sc_max num_zeros_mem num_zeros_mem (proj1 fe_two_ok) sc_max_ok) as [Q _].
  destruct (secp256k1_fe_inv_var _ _ _) as [r |]; [apply Q | exact (proj2 fe_two_ok Q)].
Defined.
