(* ===== verification/GroupThm.v ===== *)
(** What the group code promises: the group law of the curve
    [y^2 = x^3 + 7] on Jacobian and affine elements over any field
    representation. *)

From Stdlib Require Import ZArith Lia List Bool Zmod Field.
From S2P Require Import Prelude Limbs Primes Fp Curve CurveGroup FieldSpec FieldGen.
From S2P Require Import Group GroupSpec GroupOps GroupTable.
From S2P Require Import Field10x26 Field10x26Ser Field10x26Mul.
Import ListNotations.
Open Scope Z_scope.

Section Generic.
Context {I : FieldImpl} {L : FieldLaws I}.

(** A well-formed element on the curve. *)
Definition gej_ok (a : gej) : Prop := gej_wf a /\ secp (gej_pt a).
Definition ge_ok (a : ge) : Prop := ge_wf a /\ secp (ge_pt a).

Lemma gej_ok_y a : gej_ok a -> y_nz (gej_pt a).
Proof. intros [_ H]. now apply secp_y_nz_pt. Qed.

Lemma gej_ok_sum r P Q : gej_wf r -> gej_pt r = padd P Q -> secp P -> secp Q -> gej_ok r /\ gej_pt r = padd P Q.
Proof. intros W E HP HQ. split; [split; [exact W | rewrite E; now apply padd_on_curve] | exact E]. Qed.

Lemma g_gej_ok : gej_ok (secp256k1_gej_set_ge secp256k1_ge_const_g).
Proof.
  destruct ge_const_g_ok as (W & P & _). destruct (gej_set_ge_ok _ W) as [W' P'].
  split; [exact W' |]. rewrite P', P. exact G_on_curve.
Qed.

Lemma g_ge_ok : ge_ok secp256k1_ge_const_g.
Proof. destruct ge_const_g_ok as (W & P & _). split; [exact W |]. rewrite P. exact G_on_curve. Qed.

(** C8. Doubling and the three variable-time additions compute the group law on
    every pair of points of the curve, infinity, equal and opposite points
    included, and keep the invariant whatever the output held before. *)
Theorem gej_add_correct r a b g bzinv : gej_mem r -> gej_ok a -> gej_ok b -> ge_ok g ->
  mag 8 bzinv -> secp (zinv_pt g bzinv) ->
  let d := fst (secp256k1_gej_double_var r a None) in
  let s := fst (secp256k1_gej_add_var r a b None) in
  let t := fst (secp256k1_gej_add_ge_var r a g None) in
  let u := secp256k1_gej_add_zinv_var r a g bzinv in
  (gej_ok d /\ gej_pt d = padd (gej_pt a) (gej_pt a)) /\
  (gej_ok s /\ gej_pt s = padd (gej_pt a) (gej_pt b)) /\
  (gej_ok t /\ gej_pt t = padd (gej_pt a) (ge_pt g)) /\
  (gej_ok u /\ gej_pt u = padd (gej_pt a) (zinv_pt g bzinv)).
Proof.
  intros Hr Ha Hb Hg Hm Hz d s t u. pose proof (gej_ok_y a Ha) as Hy.
  destruct (gej_double_var_ok r a None Hr (proj1 Ha) Hy) as (Wd & Pd & _). fold d in Wd, Pd.
  destruct (gej_add_var_ok curve_b r a b None Hr (proj1 Ha) (proj1 Hb) ltac:(auto) Hy (proj2 Ha) (proj2 Hb)) as (Ws & Ps & _). fold s in Ws, Ps.
  destruct (gej_add_ge_var_ok curve_b r a g None Hr (proj1 Ha) (proj1 Hg) ltac:(auto) Hy (proj2 Ha) (proj2 Hg)) as (Wt & Pt & _). fold t in Wt, Pt.
  destruct (gej_add_zinv_var_ok curve_b r a g bzinv Hr (proj1 Ha) (proj1 Hg) Hm Hy (proj2 Ha) Hz) as (Wu & Pu). fold u in Wu, Pu.
  destruct Ha as [_ Sa], Hb as [_ Sb], Hg as [_ Sg].
  split; [| split; [| split]]; now apply gej_ok_sum.
Qed.

(** C9. The branch-free addition computes the group law for every Jacobian [a]
    and finite affine [b], with the degenerate slope of [y1 = - y2] included. *)
Theorem gej_add_ge_correct a b : gej_ok a -> ge_ok b -> ge_infinity b = 0 ->
  gej_ok (secp256k1_gej_add_ge a b) /\ gej_pt (secp256k1_gej_add_ge a b) = padd (gej_pt a) (ge_pt b).
Proof.
  intros Ha Hb Eb. destruct (gej_add_ge_ok curve_b a b (proj1 Ha) (proj1 Hb) Eb (proj2 Ha) (proj2 Hb)) as [W P].
  destruct Ha as [_ Sa], Hb as [_ Sb]. now apply gej_ok_sum.
Qed.

(** Addition as coded is commutative and associative on points, doubling is
    addition of a point to itself, and negation is the inverse. *)
Theorem gej_add_group a b c : gej_ok a -> gej_ok b -> gej_ok c ->
  let add x y := fst (secp256k1_gej_add_var x x y None) in
  gej_pt (add (add a b) c) = gej_pt (add a (add b c)) /\ gej_pt (add a b) = gej_pt (add b a) /\
  gej_pt (fst (secp256k1_gej_double_var a a None)) = gej_pt (add a a) /\
  gej_pt (add a (secp256k1_gej_neg a)) = Inf.
Proof.
  intros Ha Hb Hc add.
  assert (A : forall x y, gej_ok x -> gej_ok y -> gej_ok (add x y) /\ gej_pt (add x y) = padd (gej_pt x) (gej_pt y)).
  { intros x y Hx Hy. unfold add.
    destruct (gej_add_var_ok curve_b x x y None (gej_wf_mem _ (proj1 Hx)) (proj1 Hx) (proj1 Hy) ltac:(auto) (gej_ok_y x Hx) (proj2 Hx) (proj2 Hy)) as (W & P & _).
    destruct Hx as [_ Sx], Hy as [_ Sy]. now apply gej_ok_sum. }
  destruct (A a b Ha Hb) as [Oab Eab]. destruct (A b c Hb Hc) as [Obc Ebc]. destruct (gej_neg_ok a (proj1 Ha)) as [Wn Pn].
  assert (On : gej_ok (secp256k1_gej_neg a)) by (split; [exact Wn |]; rewrite Pn; apply pneg_on_curve, Ha).
  destruct (gej_double_var_ok a a None (gej_wf_mem _ (proj1 Ha)) (proj1 Ha) (gej_ok_y a Ha)) as (_ & Pd & _).
  rewrite (proj2 (A _ _ Oab Hc)), (proj2 (A _ _ Ha Obc)), (proj2 (A _ _ Hb Ha)), (proj2 (A _ _ Ha Ha)), (proj2 (A _ _ Ha On)), Eab, Ebc, Pd, Pn.
  destruct Ha as [_ Sa], Hb as [_ Sb], Hc as [_ Sc]. split; [exact (padd_assoc curve_b curve_b_nz _ _ _ Sa Sb Sc) |].
  split; [exact (padd_comm curve_b _ _ Sa Sb) |]. split; [reflexivity | apply padd_neg_r].
Qed.

(** C30. Decompression finds the point with the given abscissa and parity of the
    ordinate, or returns 0 when no point has that abscissa. *)
Theorem ge_set_xo_correct x odd : mag 8 x -> 0 <= odd <= 1 ->
  let '(r, ret) := secp256k1_ge_set_xo_var x odd in
  ret = 1 /\ ge_ok r /\ (exists y, ge_pt r = Aff (fv x) y /\ Zmod.to_Z y mod 2 = odd) \/
  ret = 0 /\ forall y, ~ secp (Aff (fv x) y).
Proof.
  intros Hx Ho. destruct (ge_set_xo_ok x (fv x) odd (conj Hx eq_refl) Ho) as [(R & W & y & P & S & Q) | (R & N)];
    destruct (secp256k1_ge_set_xo_var x odd) as [r ret]; cbn [fst snd] in *; [left | right; auto].
  split; [exact R |]. split; [split; [exact W | now rewrite P] |]. exists y. auto.
Qed.

(** Validity is membership in the curve, for affine and Jacobian elements. *)
Theorem valid_correct a g : gej_wf a -> ge_wf g ->
  (secp256k1_gej_is_valid_var a = 1 <-> gej_pt a <> Inf /\ secp (gej_pt a)) /\
  (secp256k1_ge_is_valid_var g = 1 <-> ge_pt g <> Inf /\ secp (ge_pt g)).
Proof.
  intros Ha Hg. split; [now apply gej_is_valid_ok |]. rewrite (ge_is_valid_ok g Hg). unfold ge_pt, secp.
  destruct (z2b (ge_infinity g)); cbn [negb andb on_curve].
  - split; [discriminate | intros [C _]; now contradiction C].
  - destruct (Zmod.eqb _ _) eqn:E.
    + apply Zmod.eqb_eq in E. split; [intros _; split; [discriminate | exact E] | reflexivity].
    + split; [discriminate |]. intros [_ C]. apply Zmod.eqb_eq in C. congruence.
Qed.

(** Converting to affine coordinates, one by one, in a batch with a single
    inversion, or through compact storage, keeps the point. *)
Theorem ge_convert_correct r l mem a : Forall gej_wf a -> Forall ge_wf l -> length l = length a ->
  length mem = length (all_gej_collect a) -> ge_wf r ->
  Forall2 (fun g j => ge_wf g /\ ge_pt g = gej_pt j) (secp256k1_ge_set_all_gej_var mem l a) a /\
  Forall (fun j => ge_pt (fst (secp256k1_ge_set_gej j)) = gej_pt j /\
                   ge_pt (fst (secp256k1_ge_set_gej_var r j)) = gej_pt j /\
                   (gej_infinity j = 0 ->
                    ge_pt (secp256k1_ge_from_storage (secp256k1_ge_to_storage (fst (secp256k1_ge_set_gej j)))) = gej_pt j)) a.
Proof.
  intros Ha Hl El Em Hr. split; [now apply ge_set_all_gej_ok |]. eapply Forall_impl; [| exact Ha].
  intros j Hj. destruct (ge_set_gej_ok j Hj) as (W & P & _). destruct (ge_set_gej_var_ok r j Hr Hj) as (_ & P' & _).
  split; [exact P |]. split; [exact P' |]. intros E. destruct (ge_storage_ok _ W) as (_ & _ & _ & _ & _ & Q); [exact E |].
  now rewrite Q.
Qed.

(** With the right ratios of [z] coordinates, one inversion converts a table
    to affine coordinates, and without any inversion every entry is brought
    over the [z] of the last one. *)
Theorem ge_table_correct a zr r gz : table_ok a zr -> length r = length a -> (0 < length a)%nat ->
  (forall j, (j < length a)%nat -> same_pt (nth_ge (secp256k1_ge_set_table_gej_var r a zr) j) (nth_gej a j)) /\
  let '(pre, z) := secp256k1_ge_globalz_set_table_gej (length a) r gz a zr in
  forall j, (j < length a)%nat -> over_z (fv z) (nth_ge pre j) (nth_gej a j).
Proof.
  intros HT Hr Hl. split; [now apply ge_set_table_ok |].
  destruct (ge_globalz_ok a zr HT r gz Hr Hl) as (_ & _ & H). destruct (secp256k1_ge_globalz_set_table_gej _ _ _ _ _). exact H.
Qed.
End Generic.

(** ** Witnesses, on the generator with the 10x26 field *)

Definition gj : gej := secp256k1_gej_set_ge secp256k1_ge_const_g.

Lemma gj_ok : gej_ok gj.
Proof. exact g_gej_ok. Qed.

Lemma gj_one_mag : mag 8 (fe_set_int 1).
Proof. exact (mag_8 _ _ _ one_is eq_refl). Qed.

Lemma g_zinv : secp (zinv_pt secp256k1_ge_const_g (fe_set_int 1)).
Proof.
  replace (zinv_pt _ _) with (ge_pt secp256k1_ge_const_g); [exact (proj2 g_ge_ok) |].
  unfold ge_pt, zinv_pt. destruct (z2b _); [reflexivity |]. rewrite (proj2 one_is). f_equal; ring.
Qed.

Lemma gej_add_correct_witness :
  gej_pt (fst (secp256k1_gej_double_var gj gj None)) = padd (gej_pt gj) (gej_pt gj).
Proof.
  exact (proj2 (proj1 (gej_add_correct gj gj gj secp256k1_ge_const_g (fe_set_int 1) (gej_wf_mem _ (proj1 gj_ok)) gj_ok gj_ok
    g_ge_ok gj_one_mag g_zinv))).
Defined.

Lemma gej_add_ge_correct_witness :
  gej_pt (secp256k1_gej_add_ge gj secp256k1_ge_const_g) = padd (gej_pt gj) (ge_pt secp256k1_ge_const_g).
Proof. exact (proj2 (gej_add_ge_correct gj secp256k1_ge_const_g gj_ok g_ge_ok eq_refl)). Defined.

Lemma gej_add_group_witness : gej_pt (fst (secp256k1_gej_add_var gj gj (secp256k1_gej_neg gj) None)) = Inf.
Proof. exact (proj2 (proj2 (proj2 (gej_add_group gj gj gj gj_ok gj_ok gj_ok)))). Defined.

Lemma ge_set_xo_correct_witness : let '(r, ret) := secp256k1_ge_set_xo_var (fe_set_int 1) 0 in
  ret = 1 /\ ge_ok r /\ (exists y, ge_pt r = Aff (fv (fe_set_int 1)) y /\ Zmod.to_Z y mod 2 = 0) \/
  ret = 0 /\ forall y, ~ secp (Aff (fv (fe_set_int 1)) y).
Proof. apply (ge_set_xo_correct (fe_set_int 1) 0); [exact gj_one_mag | lia]. Defined.

Lemma valid_correct_witness : secp256k1_gej_is_valid_var gj = 1 <-> gej_pt gj <> Inf /\ secp (gej_pt gj).
Proof. exact (proj1 (valid_correct gj secp256k1_ge_const_g (proj1 gj_ok) (proj1 g_ge_ok))). Defined.

Lemma ge_convert_correct_witness :
  Forall2 (fun g j => ge_wf g /\ ge_pt g = gej_pt j)
    (secp256k1_ge_set_all_gej_var [fe_clear] [secp256k1_ge_const_g; secp256k1_ge_const_g] [gj; secp256k1_gej_set_infinity])
    [gj; secp256k1_gej_set_infinity].
Proof.
  refine (proj1 (ge_convert_correct secp256k1_ge_const_g _ _ _ _ _ _ _ (proj1 g_ge_ok))).
  - constructor; [exact (proj1 gj_ok) |]. constructor; [exact (proj1 gej_set_infinity_ok) | constructor].
  - constructor; [exact (proj1 g_ge_ok) |]. constructor; [exact (proj1 g_ge_ok) | constructor].
  - reflexivity.
  - reflexivity.
Defined.

Lemma gj_table : table_ok [gj; gj] [fe_set_int 1; fe_set_int 1].
Proof.
  split.
  - intros i Hi. assert (nth_gej [gj; gj] i = gj) as -> by (destruct i as [| [|]]; [reflexivity .. | cbn in Hi; lia]).
    split; [exact (proj1 gj_ok) | reflexivity].
  - intros i Hi. assert (i = 0%nat) as -> by (cbn in Hi; lia). split; [exact gj_one_mag |].
    change (fv (gej_z gj) = (fv (fe_set_int 1) * fv (gej_z gj))%F). rewrite (proj2 one_is). ring.
Qed.

Lemma ge_table_correct_witness :
  same_pt (nth_ge (secp256k1_ge_set_table_gej_var [secp256k1_ge_const_g; secp256k1_ge_const_g] [gj; gj] [fe_set_int 1; fe_set_int 1]) 0) gj.
Proof.
  refine (proj1 (ge_table_correct [gj; gj] [fe_set_int 1; fe_set_int 1] _ fe_clear gj_table _ _) 0%nat _).
  - reflexivity.
  - cbn. lia.
  - cbn. lia.
Defined.
