(* ===== verification/MemInst.v ===== *)
(** The memory of the representations: words of four or eight bytes on a
    little-endian machine.  Public keys, signatures and contexts hold it. *)

From Stdlib Require Import ZArith Lia List Bool.
From S2P Require Import Prelude Limbs Fp FieldSpec Group GroupSpec ScalarSpec ScalarGen Hash HashSpec HashThm Api.
From S2P Require Import Field10x26Mul Scalar8x32Mul Field5x52 Field5x52Mul Scalar4x64 Scalar4x64Mul.
Import ListNotations.
Open Scope Z_scope.

Section Words.
(** Bytes per word. *)
Variable k : nat.

Definition store_words (w : list Z) : list Z := flat_map (digits 8 k) w.

Fixpoint load_words (n : nat) (bytes : list Z) : list Z :=
  match n with
  | O => []
  | S m => limbs_val 8 (firstn k bytes) :: load_words m (skipn k bytes)
  end.

Local Abbreviation width := (8 * Z.of_nat k).

Lemma load_store w : limbs_lt width w -> forall rest, load_words (length w) (store_words w ++ rest) = w.
Proof.
  induction 1 as [| x w Hx _ IH]; intros rest; [reflexivity |]. cbn [length load_words].
  change (store_words (x :: w) ++ rest) with ((digits 8 k x ++ store_words w) ++ rest). rewrite <- app_assoc.
  rewrite firstn_app, skipn_app, length_digits, Nat.sub_diag, firstn_O, app_nil_r, firstn_all2, skipn_all2 by (rewrite length_digits; lia).
  change (skipn 0 (store_words w ++ rest)) with (store_words w ++ rest). cbn [app]. rewrite IH, limbs_val_digits, Z.mod_small by lia. reflexivity.
Qed.

Lemma length_store w : length (store_words w) = (k * length w)%nat.
Proof. induction w as [| x w IH]; [cbn; lia |]. change (store_words (x :: w)) with (digits 8 k x ++ store_words w). rewrite length_app, length_digits, IH. cbn [length]. lia. Qed.

Lemma limbs_lt_store w : limbs_lt 8 (store_words w).
Proof. induction w as [| x w IH]; [constructor |]. apply Forall_app. split; [apply limbs_lt_digits; lia | exact IH]. Qed.

Lemma load_lt n : forall l, limbs_lt 8 l -> (k * n <= length l)%nat -> limbs_lt width (load_words n l) /\ length (load_words n l) = n.
Proof.
  induction n as [| n IH]; intros l HB Hl; [split; [constructor | reflexivity] |]. cbn [load_words length].
  destruct (IH (skipn k l)) as [H1 H2]; [now apply limbs_lt_skipn | rewrite length_skipn; lia |]. split; [| now rewrite H2].
  constructor; [| exact H1]. pose proof (limbs_val_bound 8 (firstn k l) ltac:(lia) (limbs_lt_firstn 8 l k HB)) as B.
  rewrite length_firstn, Nat.min_l in B by lia. exact B.
Qed.

(** One value, and two after each other. *)
Lemma store_one n x : limbs_lt width x -> length x = n ->
  length (store_words x) = (k * n)%nat /\ limbs_lt 8 (store_words x) /\ load_words n (store_words x) = x.
Proof.
  intros B <-. split; [apply length_store |]. split; [apply limbs_lt_store |].
  rewrite <- (app_nil_r (store_words x)). now apply load_store.
Qed.

Lemma store_two n x y : limbs_lt width x -> length x = n -> limbs_lt width y -> length y = n ->
  let s := store_words x ++ store_words y in
  length s = (k * n + k * n)%nat /\ limbs_lt 8 s /\ load_words n s = x /\ load_words n (skipn (k * n) s) = y.
Proof.
  intros Bx Lx By Ly s. destruct (store_one n y By Ly) as (Sy & Fy & Ey). unfold s.
  rewrite length_app, !length_store, Lx, Ly. split; [reflexivity |].
  split; [apply Forall_app; split; apply limbs_lt_store |]. split; [rewrite <- Lx; now apply load_store |].
  rewrite skipn_app, length_store, Lx, Nat.sub_diag, skipn_all2 by (rewrite length_store, Lx; lia). exact Ey.
Qed.

Lemma load_two n l : limbs_lt 8 l -> length l = (k * n + k * n)%nat ->
  (limbs_lt width (load_words n l) /\ length (load_words n l) = n) /\
  limbs_lt width (load_words n (skipn (k * n) l)) /\ length (load_words n (skipn (k * n) l)) = n.
Proof. intros B L. split; apply load_lt; rewrite ?length_skipn; try lia; [exact B | now apply limbs_lt_skipn]. Qed.

(** The words are the bytes, the lowest first. *)
Lemma load_val n : forall l, limbs_val width (load_words n l) = limbs_val 8 (firstn (k * n) l).
Proof.
  induction n as [| n IH]; intros l; cbn [load_words limbs_val]; [rewrite Nat.mul_0_r; reflexivity |].
  rewrite IH. replace (k * S n)%nat with (k + k * n)%nat by lia. rewrite <- (firstn_skipn k (firstn (k + k * n) l)), firstn_firstn, Nat.min_l, limbs_val_app by lia.
  rewrite <- firstn_skipn_comm, length_firstn.
  destruct (Nat.le_gt_cases k (length l)) as [H | H]; [now rewrite Nat.min_l by lia |].
  rewrite (skipn_all2 l), firstn_nil by lia. cbn [limbs_val]. ring.
Qed.

Lemma store_val n x : limbs_lt width x -> length x = n -> store_words x = digits 8 (k * n) (limbs_val width x).
Proof.
  intros B Lx. destruct (store_one n x B Lx) as (HL & HF & E). rewrite <- E at 2. rewrite load_val, <- HL, firstn_all.
  symmetry. apply digits_limbs_val; [lia | exact HF].
Qed.
End Words.

(** The layout both builds have on a little-endian machine. *)
Class MemLayout {I : FieldImpl} {J : ScalarImpl} (L : FieldLaws I) (M : ScalarLaws J) (N : MemImpl I J) : Prop := {
  scalar_layout : forall a, sok a -> scalar_bytes a = digits 8 32 (sv a);
  storage_layout : forall l, length l = 64%nat ->
    st_val (ges_x (ge_storage_of_bytes l)) = limbs_val 8 (firstn 32 l) /\
    st_val (ges_y (ge_storage_of_bytes l)) = limbs_val 8 (skipn 32 l)
}.

(** * [USE_FIELD_10X26] and [USE_SCALAR_8X32] *)

#[export] Instance mem_10x26_8x32 : MemImpl field_10x26 scalar_8x32 := {
  sizeof_ge_storage := 64;
  sizeof_scalar := 32;
  ge_storage_bytes s := store_words 4 (ges_x (I := field_10x26) s) ++ store_words 4 (ges_y (I := field_10x26) s);
  ge_storage_of_bytes l := GeS (I := field_10x26) (load_words 4 8 l) (load_words 4 8 (skipn 32 l));
  scalar_bytes a := store_words 4 a;
  scalar_of_bytes l := load_words 4 8 l
}.

#[export] Instance mem_10x26_8x32_laws : MemLaws field_10x26_laws scalar_8x32_laws mem_10x26_8x32.
Proof.
  split; [reflexivity | reflexivity | | | reflexivity | | exact sc_clear_ok].
  - intros [x y] [Bx Lx] [By Ly]. destruct (store_two 4 8 x y Bx Lx By Ly) as (HL & HF & Ex & Ey).
    exact (conj HL (conj HF (f_equal2 (GeS (I := field_10x26)) Ex Ey))).
  - intros l HL HB. exact (load_two 4 8 l HB HL).
  - intros a [[La Ba] _]. exact (store_one 4 8 a Ba La).
Defined.

#[export] Instance layout_10x26_8x32 : MemLayout field_10x26_laws scalar_8x32_laws mem_10x26_8x32.
Proof.
  split.
  - intros a [[La Ba] _]. exact (store_val 4 8 a Ba La).
  - intros l HL. split; [exact (load_val 4 8 l) |]. refine (eq_trans (load_val 4 8 (skipn 32 l)) _).
    rewrite firstn_all2 by (rewrite length_skipn; lia). reflexivity.
Qed.

(** * [USE_FIELD_5X52] and [USE_SCALAR_4X64] *)

Section Words64.
Context {mul : Field5x52.secp256k1_fe -> Field5x52.secp256k1_fe -> Field5x52.secp256k1_fe} {sqr : Field5x52.secp256k1_fe -> Field5x52.secp256k1_fe}.
Context {smul : Scalar4x64.secp256k1_scalar -> Scalar4x64.secp256k1_scalar -> Scalar4x64.secp256k1_scalar}.
Context {ssqr : Scalar4x64.secp256k1_scalar -> Scalar4x64.secp256k1_scalar}.
Context {sshift : Scalar4x64.secp256k1_scalar -> Scalar4x64.secp256k1_scalar -> Z -> Scalar4x64.secp256k1_scalar}.
Local Abbreviation F64 := (field_5x52_with mul sqr).
Local Abbreviation S64 := (scalar_4x64_with smul ssqr sshift).

#[local] Instance mem_5x52_4x64 : MemImpl F64 S64 := {
  sizeof_ge_storage := 64;
  sizeof_scalar := 32;
  ge_storage_bytes s := store_words 8 (ges_x (I := F64) s) ++ store_words 8 (ges_y (I := F64) s);
  ge_storage_of_bytes l := GeS (I := F64) (load_words 8 4 l) (load_words 8 4 (skipn 32 l));
  scalar_bytes a := store_words 8 a;
  scalar_of_bytes l := load_words 8 4 l
}.

Context {Hmul : mul52_ok mul} {Hsqr : sqr52_ok sqr} {Hsmul : mul64_ok smul} {Hssqr : sqr64_ok ssqr} {Hsshift : shift64_ok sshift}.
Local Abbreviation FL64 := (field_5x52_laws_with mul sqr Hmul Hsqr).
Local Abbreviation SL64 := (scalar_4x64_laws_with smul ssqr sshift Hsmul Hssqr Hsshift).

Definition mem_5x52_4x64_laws : MemLaws FL64 SL64 mem_5x52_4x64.
Proof.
  split; [reflexivity | reflexivity | | | reflexivity | | exact (sc_clear_ok (ScalarLaws := SL64))].
  - intros [x y] [Bx Lx] [By Ly]. destruct (store_two 8 4 x y Bx Lx By Ly) as (HL & HF & Ex & Ey).
    exact (conj HL (conj HF (f_equal2 (GeS (I := F64)) Ex Ey))).
  - intros l HL HB. exact (load_two 8 4 l HB HL).
  - intros a [[La Ba] _]. exact (store_one 8 4 a Ba La).
Defined.

Lemma layout_5x52_4x64 : MemLayout FL64 SL64 mem_5x52_4x64.
Proof.
  split.
  - intros a [[La Ba] _]. exact (store_val 8 4 a Ba La).
  - intros l HL. split; [exact (load_val 8 4 l) |]. refine (eq_trans (load_val 8 4 (skipn 32 l)) _).
    rewrite firstn_all2 by (rewrite length_skipn; lia). reflexivity.
Qed.
End Words64.
