(* ===== verification/EcmultThm.v ===== *)
(** What the multiplication code promises, with the contexts it is called
    with. *)

From Stdlib Require Import ZArith Lia List Bool Zmod Field.
From S2P Require Import Prelude Limbs Primes Fp Curve CurveGroup FieldSpec FieldGen.
From S2P Require Import Group GroupSpec GroupOps GOrder Cofactor GroupTable ScalarSpec ScalarGen Hash HashSpec HashThm.
From S2P Require Import EcmultEndo EcmultEndoSpec.
From S2P Require Import Ecmult EcmultWnaf EcmultTable EcmultSpec EcmultGen EcmultGenSpec GenTable EcmultConst EcmultConstSpec.
From S2P Require Import Scalar8x32 Scalar8x32Ops Scalar8x32Mul Field10x26 Field10x26Ser Field10x26Mul.
Import ListNotations.
Open Scope Z_scope.

Section Generic.
Context {I : FieldImpl} {L : FieldLaws I} {J : ScalarImpl} {M : ScalarLaws J}.

(** The digits of a scalar add up to it, or to it less the group order when
    its top bit is set; each is zero or odd and of fewer than [w] bits, nonzero
    ones are at least [w] positions apart, and the returned length covers all. *)
Theorem wnaf_correct a w : sok a -> 2 <= w < 32 ->
  let '(wnaf, bits) := secp256k1_ecmult_wnaf 256 a w in wnaf_ok 256 w (sv a) wnaf bits.
Proof.
  intros Ha Hw. pose proof (ecmult_wnaf_256 a w Ha Hw) as H. destruct (secp256k1_ecmult_wnaf 256 a w). exact H.
Qed.

(** The precomputed tables hold the odd multiples: over one common [z] for
    the point, affine in storage form for the generator. *)
Theorem odd_multiples_correct a n : gej_wf a -> secp (gej_pt a) -> gej_pt a <> Inf -> (0 < n)%nat -> 2 * Z.of_nat n < secp_n ->
  (let '(pre, z) := secp256k1_ecmult_odd_multiples_table_globalz_windowa a in
   fv z <> 0%F /\ forall j, (j < 8)%nat ->
     ge_wf (nth_ge pre j) /\ ge_pt (nth_ge pre j) = pscale (fv z) (smul (2 * Z.of_nat j + 1) (gej_pt a))) /\
  pre_storage_ok (gej_pt a) n (secp256k1_ecmult_odd_multiples_table_storage_var n a).
Proof.
  intros W S N Hn Hb. split; [| now apply storage_var_ok]. destruct (globalz_windowa_ok a W S N) as (_ & NZ & H & _).
  destruct (secp256k1_ecmult_odd_multiples_table_globalz_windowa a) as [pre z]. cbn [fst snd] in *.
  split; [exact NZ |]. intros j Hj. destruct (H j Hj) as (Wj & _ & Pj). now split.
Qed.

(** The signed digits of the constant-time multiplication are all odd and
    below [2^w]; as a base-[2^w] number they make the scalar plus the skew,
    which is 1 or 2, modulo the group order. *)
Theorem wnaf_const_correct s w : sok s -> 0 < w < 16 ->
  let '(wnaf, skew) := secp256k1_wnaf_const WNAF_BITS s w in
  Z.of_nat (length wnaf) = WNAF_SIZE WNAF_BITS w + 1 /\ (skew = 1 \/ skew = 2) /\
  Forall (fun d => d mod 2 = 1 /\ Z.abs d < 2 ^ w) wnaf /\
  limbs_val w wnaf mod secp_n = (sv s + skew) mod secp_n.
Proof.
  intros Hs Hw. pose proof (wnaf_const_ok_256 s w Hs Hw) as H. destruct (secp256k1_wnaf_const WNAF_BITS s w). exact H.
Qed.

(** C36. The constant-time multiplication of a finite point of the curve by any
    scalar, zero included, is the multiple. *)
Theorem ecmult_const_product a k : ge_wf a -> ge_infinity a = 0 -> secp (ge_pt a) -> sok k ->
  gej_wf (secp256k1_ecmult_const a k) /\ gej_pt (secp256k1_ecmult_const a k) = smul (sv k) (ge_pt a).
Proof. exact (ecmult_const_ok a k). Qed.

(** C32. With the context built, the product of any finite point and any two
    scalars is [na * A + ng * G], infinity included. *)
Theorem ecmult_correct a na ng : gej_wf a -> secp (gej_pt a) -> gej_pt a <> Inf -> sok na -> sok ng ->
  exists t, pre_g (secp256k1_ecmult_context_build secp256k1_ecmult_context_init) = Some t /\
  gej_wf (secp256k1_ecmult t a na ng) /\
  gej_pt (secp256k1_ecmult t a na ng) = padd (smul (sv na) (gej_pt a)) (smul (sv ng) G).
Proof.
  intros W S N Hna Hng. destruct ecmult_context_ok as (t & E & Ht). exists t. split; [exact E |]. now apply ecmult_ok.
Qed.

(** C37. In the build with the endomorphism, the context holds the tables of the
    generator and of its multiple by [2^128]; the product of any finite point
    and any two scalars, each split in halves of 128 bits, and the constant-time
    product are those of the build without it. *)
Theorem endomorphism_correct a b na ng : gej_wf a -> secp (gej_pt a) -> gej_pt a <> Inf ->
  ge_wf b -> ge_infinity b = 0 -> secp (ge_pt b) -> sok na -> sok ng ->
  exists t t_128 t', EcmultEndo.secp256k1_ecmult_context_build EcmultEndo.secp256k1_ecmult_context_init = EcmultEndo.EcmultContext (Some t) (Some t_128) /\
  pre_g (secp256k1_ecmult_context_build secp256k1_ecmult_context_init) = Some t' /\
  let r := EcmultEndo.secp256k1_ecmult t t_128 a na ng in let q := EcmultEndo.secp256k1_ecmult_const b na in
  gej_wf r /\ gej_pt r = padd (smul (sv na) (gej_pt a)) (smul (sv ng) G) /\ gej_pt r = gej_pt (secp256k1_ecmult t' a na ng) /\
  gej_wf q /\ gej_pt q = smul (sv na) (ge_pt b) /\ gej_pt q = gej_pt (secp256k1_ecmult_const b na).
Proof.
  intros Wa Sa Na Wb Eb Sb Hna Hng. destruct endo_context_ok as (t & u & Et & Ht & Hu). destruct ecmult_context_ok as (t' & E' & Ht').
  exists t, u, t'. split; [exact Et |]. split; [exact E' |]. cbv zeta.
  destruct (ecmult_endo_ok t u a na ng Ht Hu Wa Sa Na Hna Hng) as [Wr Pr]. destruct (ecmult_ok t' a na ng Ht' Wa Sa Na Hna Hng) as [_ P'].
  destruct (ecmult_const_endo_ok b na Wb Eb Sb Hna) as [Wq Pq]. destruct (ecmult_const_ok b na Wb Eb Sb Hna) as [_ Q'].
  rewrite P', Q'. exact (conj Wr (conj Pr (conj Pr (conj Wq (conj Pq Pq))))).
Qed.

(** C33. Building a fresh generator context terminates with the first draws of
    its random generator, and the product it computes is [gn * G]. *)
Theorem ecmult_gen_correct fuel ctx gn : gen_prec ctx = None -> sok gn ->
  exists ctx' r, secp256k1_ecmult_gen_context_build (S fuel) ctx = Some ctx' /\
  secp256k1_ecmult_gen ctx' gn = Some r /\ gej_wf r /\ gej_pt r = smul (sv gn) G.
Proof.
  intros E Hg. destruct (gen_build_ok fuel ctx E) as (ctx' & Eb & Hc). destruct (ecmult_gen_ok ctx' gn Hc Hg) as (r & Er & W & P).
  exists ctx', r. auto.
Qed.

(** C34. Blinding a context with any seed changes no product: whenever it returns
    the new context computes [gn * G] too, and it returns at once when the
    draws are in range. *)
Theorem ecmult_gen_blind_correct fuel ctx seed gn : gen_ctx_ok ctx -> bytes32 seed -> sok gn ->
  (forall ctx', secp256k1_ecmult_gen_blind fuel ctx (Some seed) = Some ctx' ->
     gen_ctx_ok ctx' /\ exists r, secp256k1_ecmult_gen ctx' gn = Some r /\ gej_pt r = smul (sv gn) G) /\
  (draws_in_range (secp256k1_rfc6979_hmac_sha256_initialize (sc_get_b32 (gen_blind ctx) ++ seed)) = true ->
     exists ctx', secp256k1_ecmult_gen_blind (S fuel) ctx (Some seed) = Some ctx').
Proof.
  intros Hc Hs Hg. split.
  - intros ctx' E. destruct (gen_blind_ok fuel ctx (Some seed) ctx' (conj Hc Hs) E) as [Hc' _]. split; [exact Hc' |].
    destruct (ecmult_gen_ok ctx' gn Hc' Hg) as (r & Er & _ & P). now exists r.
  - intros D. destruct Hc as ((prec & Ep & _) & Hb & _). destruct Hs as [Ls Bs].
    apply (blind_from_total fuel ctx prec); [| exact D | exact Ep].
    apply rfc6979_initialize_ok; rewrite (sc_get_b32_ok _ Hb).
    + apply Forall_app. split; [apply limbs_lt_be_bytes | exact Bs].
    + rewrite length_app, length_be_bytes, Ls. reflexivity.
Qed.

(** C35. An affine element that passes the validity check is a multiple of the
    generator, so it has the order of the group: the curve has no other
    points. *)
Theorem valid_in_group g : ge_wf g -> secp256k1_ge_is_valid_var g = 1 ->
  (exists k, 0 < k < secp_n /\ ge_pt g = smul k G) /\ smul secp_n (ge_pt g) = Inf.
Proof.
  intros W V. rewrite (ge_is_valid_ok g W) in V. destruct (negb (z2b (ge_infinity g))) eqn:E; [| discriminate].
  apply negb_true_iff in E.
  assert (S : secp (ge_pt g)).
  { unfold ge_pt, secp. rewrite E. cbn [on_curve andb] in *. apply Zmod.eqb_eq. destruct (Zmod.eqb _ _); [reflexivity | discriminate]. }
  split; [| now apply secp_order]. destruct (secp_cyclic _ S) as (k & Hk & P). exists k. split; [| exact P].
  destruct (Z.eq_dec k 0) as [-> | N]; [| lia]. unfold ge_pt in P. rewrite E in P. discriminate.
Qed.
End Generic.

(** ** Witnesses, on the 32-bit representations *)

#[local] Abbreviation two := (sc_set_int (ScalarImpl := scalar_8x32) 2).

Lemma two_ok : sok two.
Proof. apply sc_set_int_ok. lia. Qed.

Definition g10 : gej (I := field_10x26) := secp256k1_gej_set_ge secp256k1_ge_const_g.

Lemma g10_facts : gej_wf g10 /\ gej_pt g10 = G.
Proof. destruct ge_const_g_ok as (W & P & _). destruct (gej_set_ge_ok _ W) as [W' P']. split; [exact W' |]. unfold g10. now rewrite P', P. Qed.

Lemma g10_secp : secp (gej_pt g10).
Proof. rewrite (proj2 g10_facts). exact G_on_curve. Qed.

Lemma g10_finite : gej_pt g10 <> Inf.
Proof. rewrite (proj2 g10_facts). discriminate. Qed.

Lemma wnaf_correct_witness : let '(wnaf, bits) := secp256k1_ecmult_wnaf 256 two 5 in wnaf_ok 256 5 (sv two) wnaf bits.
Proof. exact (wnaf_correct two 5 two_ok ltac:(lia)). Defined.

Lemma odd_multiples_correct_witness :
  pre_storage_ok (gej_pt g10) 3 (secp256k1_ecmult_odd_multiples_table_storage_var 3 g10).
Proof.
  assert (Hn : (0 < 3)%nat) by lia. assert (Hb : 2 * Z.of_nat 3 < secp_n) by reflexivity.
  pose proof (odd_multiples_correct g10 3 (proj1 g10_facts) g10_secp g10_finite Hn Hb) as H.
  destruct H as [_ H]. exact H.
Defined.

Lemma ecmult_correct_witness : exists t,
  pre_g (I := field_10x26) (secp256k1_ecmult_context_build secp256k1_ecmult_context_init) = Some t /\
  gej_wf (secp256k1_ecmult t g10 two two) /\
  gej_pt (secp256k1_ecmult t g10 two two) = padd (smul (sv two) (gej_pt g10)) (smul (sv two) G).
Proof. exact (ecmult_correct g10 two two (proj1 g10_facts) g10_secp g10_finite two_ok two_ok). Defined.

Lemma endomorphism_correct_witness : exists t u, EcmultEndo.secp256k1_ecmult_context_build EcmultEndo.secp256k1_ecmult_context_init = EcmultEndo.EcmultContext (Some t) (Some u) /\
  gej_pt (EcmultEndo.secp256k1_ecmult t u g10 two two) = padd (smul (sv two) (gej_pt g10)) (smul (sv two) G).
Proof.
  assert (S : secp (ge_pt (I := field_10x26) secp256k1_ge_const_g)) by (rewrite (proj1 (proj2 ge_const_g_ok)); exact G_on_curve).
  destruct (endomorphism_correct g10 secp256k1_ge_const_g two two (proj1 g10_facts) g10_secp g10_finite (proj1 ge_const_g_ok) eq_refl S two_ok two_ok)
    as (t & u & t' & E & _ & _ & P & _). exists t, u. split; [exact E | exact P].
Defined.

Definition gen_new : ecmult_gen_context (I := field_10x26) (J := scalar_8x32) := EcmultGenContext None sc_clear gej_clear_val.

Lemma ecmult_gen_correct_witness : exists ctx r,
  secp256k1_ecmult_gen_context_build 1 gen_new = Some ctx /\
  secp256k1_ecmult_gen ctx two = Some r /\ gej_wf r /\ gej_pt r = smul (sv two) G.
Proof. exact (ecmult_gen_correct 0 gen_new two eq_refl two_ok). Defined.

Definition gen_first : ecmult_gen_context (I := field_10x26) (J := scalar_8x32) :=
  EcmultGenContext (Some gen_table) (sc_set_int 1) (secp256k1_gej_neg (secp256k1_gej_set_ge secp256k1_ge_const_g)).

Lemma gen_first_ok : gen_ctx_ok gen_first.
Proof.
  assert (E : gen_prec gen_first = Some gen_table) by reflexivity.
  split; [exists gen_table; split; [exact E | exact (gen_table_ok nums_U nums_at nums_finite)] |].
  split; [apply sc_set_int_ok; lia |]. exact neg_g_ok.
Qed.

Lemma gen_first_draws :
  draws_in_range (secp256k1_rfc6979_hmac_sha256_initialize (sc_get_b32 (gen_blind gen_first) ++ repeat 0 32)) = true.
Proof.
  assert (E : gen_blind gen_first = sc_set_int 1) by reflexivity. rewrite E. vm_compute. reflexivity.
Qed.

Lemma ecmult_gen_blind_correct_witness : exists ctx',
  secp256k1_ecmult_gen_blind 1 gen_first (Some (repeat 0 32)) = Some ctx'.
Proof. exact (proj2 (ecmult_gen_blind_correct 0 gen_first (repeat 0 32) two gen_first_ok (bytes32_const 0 ltac:(lia)) two_ok) gen_first_draws). Defined.

Lemma valid_in_group_witness : smul secp_n (ge_pt (I := field_10x26) secp256k1_ge_const_g) = Inf.
Proof.
  refine (proj2 (valid_in_group (I := field_10x26) secp256k1_ge_const_g (proj1 ge_const_g_ok) _)). vm_compute. reflexivity.
Defined.

Lemma wnaf_const_correct_witness : limbs_val 4 (fst (secp256k1_wnaf_const WNAF_BITS two 4)) mod secp_n = (sv two + snd (secp256k1_wnaf_const WNAF_BITS two 4)) mod secp_n.
Proof.
  pose proof (wnaf_const_correct two 4 two_ok ltac:(lia)) as H. destruct (secp256k1_wnaf_const WNAF_BITS two 4) as [wnaf skew].
  destruct H as (_ & _ & _ & H). exact H.
Defined.

Lemma ecmult_const_product_witness :
  gej_pt (secp256k1_ecmult_const (I := field_10x26) secp256k1_ge_const_g two) = smul (sv two) (ge_pt (I := field_10x26) secp256k1_ge_const_g).
Proof.
  assert (S : secp (ge_pt (I := field_10x26) secp256k1_ge_const_g)) by (rewrite (proj1 (proj2 ge_const_g_ok)); exact G_on_curve).
  destruct (ecmult_const_product (I := field_10x26) secp256k1_ge_const_g two (proj1 ge_const_g_ok) eq_refl S two_ok) as [_ H]. exact H.
Defined.
