(* ===== verification/EcdsaThm.v ===== *)
(** What the signature code promises on scalars and bytes. *)

From Stdlib Require Import ZArith Lia List Bool Zmod Field.
From S2P Require Import Prelude Limbs Primes Fp Curve CurveGroup FieldSpec FieldGen.
From S2P Require Import Group GroupSpec GroupOps GOrder Cofactor ScalarSpec ScalarGen Hash.
From S2P Require Import Ecmult EcmultTable EcmultSpec EcmultGen EcmultGenSpec Ecdsa EcdsaDer EcdsaSpec.
From S2P Require Import Scalar8x32 Scalar8x32Ops Scalar8x32Mul.
Import ListNotations.
Open Scope Z_scope.

Section Generic.
Context {I : FieldImpl} {L : FieldLaws I} {J : ScalarImpl} {M : ScalarLaws J}.

(** C13. The DER parser never reads outside of its input, and accepts it exactly
    when it is the DER encoding of a sequence of two integers; each scalar is
    the integer, or zero when that is negative or not below the group order. *)
Theorem der_parse_exact sig : limbs_lt 8 sig -> Z.of_nat (length sig) < 2 ^ 31 ->
  exists o, secp256k1_ecdsa_sig_parse sig = Some o /\
  match o with
  | Some (r, s) => exists c d, der_minimal c = true /\ der_minimal d = true /\ sig = der_sig c d /\
      sok r /\ sv r = int_val c /\ sok s /\ sv s = int_val d
  | None => forall c d, der_minimal c = true -> der_minimal d = true -> sig <> der_sig c d
  end.
Proof.
  intros HB Hl. destruct (sig_parse_ok sig HB Hl) as (o & E & H). exists o. split; [exact E |]. destruct o as [[r s] |]; [| exact H].
  destruct H as (c & d & Hc & Hd & Hs & [H1 H2] & [H3 H4]). exists c, d. auto 10.
Qed.

(** C14. Printing and parsing are inverse: the encoding of two scalars has 8 to
    72 bytes and is read back, and an input that is read as two scalars that are
    not zero is their encoding. *)
Theorem der_roundtrip a b : sok a -> sok b ->
  exists e, secp256k1_ecdsa_sig_serialize 72 a b = (Z.of_nat (length e), Some e) /\ (8 <= length e <= 72)%nat /\
  secp256k1_ecdsa_sig_parse e = Some (Some (a, b)) /\
  forall sig, limbs_lt 8 sig -> Z.of_nat (length sig) < 2 ^ 31 -> sv a <> 0 -> sv b <> 0 ->
  secp256k1_ecdsa_sig_parse sig = Some (Some (a, b)) -> sig = e.
Proof.
  intros Ha Hb. destruct (sig_serialize_ok 72 a b Ha Hb) as [E Le]. set (e := der_sig (der_nat (sv a)) (der_nat (sv b))) in *. exists e.
  destruct (Z.ltb_spec 72 (Z.of_nat (length e))) as [H | _]; [lia |]. split; [exact E |]. split; [exact Le |].
  destruct (strip_scalar a Ha) as (_ & Ba & Ma & _). destruct (strip_scalar b Hb) as (_ & Bb & Mb & _). split.
  - pose proof (limbs_lt_der_sig _ _ Ba Bb ltac:(fold e; lia)) as HB. fold e in HB.
    destruct (sig_parse_complete _ _ HB ltac:(fold e; lia) Ma Mb) as (r & s & Ep & [Hr Vr] & [Hs Vs]). fold e in Ep. rewrite Ep.
    rewrite int_val_nat in Vr, Vs by assumption. now rewrite (sv_inj r a Hr Ha Vr), (sv_inj s b Hs Hb Vs).
  - intros sig HB Hl Na Nb Ep. destruct (sig_parse_ok sig HB Hl) as (o & Eo & H). rewrite Ep in Eo. injection Eo as <-.
    destruct H as (c & d & Hc & Hd & -> & [_ Vc] & [_ Vd]). destruct (der_sig_lt _ _ HB) as [Bc Bd].
    unfold e. rewrite Vc, Vd. rewrite Vc in Na. rewrite Vd in Nb. f_equal; now apply int_val_inv.
Qed.

(** There is a nonce for which signing reports success with [r = 0], which no
    key verifies: a point has the group order as its abscissa. *)
Theorem sign_zero_r ctx d m : gen_ctx_ok ctx -> sok d -> sok m -> sv m <> 0 ->
  exists k, 0 < k < secp_n /\ forall nonce, sok nonce -> sv nonce = k ->
  exists o, secp256k1_ecdsa_sig_sign ctx d m nonce None = Some o /\ sign_ret o = 1 /\ sv (sign_r o) = 0.
Proof.
  intros HC Hd Hm Nm. set (Y := F_of_Z 0x98f66641cb0ae1776b463ebdee3d77fe2658f021db48e2c8ac7ab4c92f83621e). set (X := F_of_Z secp_n).
  assert (S : secp (Aff X Y)) by (unfold secp; cbn [on_curve]; apply Zmod.unsigned_inj; vm_compute; reflexivity).
  destruct (secp_cyclic _ S) as (k & R & E). exists k. assert (Nk : k <> 0) by (intros ->; discriminate E). split; [lia |].
  intros nonce Hn Vn. destruct (sig_sign_ok ctx d m nonce None HC Hd Hm Hn ltac:(lia)) as (o & Eo & _ & (X' & Y' & EP & Vr) & H).
  exists o. split; [exact Eo |]. rewrite <- (smF_sres nonce G Hn G_on_curve), Vn, <- E in EP. apply aff_inj in EP as [<- _].
  assert (ZX : Zmod.to_Z X = secp_n) by (unfold X; rewrite F_to_of_Z; reflexivity). rewrite ZX, Z.mod_same in Vr by discriminate.
  split; [| exact Vr]. destruct H as [[_ H] | [H _]]; [exfalso | exact H]. apply Nm. apply (sres_zero m Hm).
  unfold sres at 1 in H. rewrite Vr in H. change (Fn_of_Z 0) with (0%F : Fn) in H. rewrite <- H. ring.
Qed.
End Generic.

Definition two8 : scalar (ScalarImpl := scalar_8x32) := sc_set_int 2.

Lemma two8_ok : sok two8.
Proof. exact (proj1 (sc_set_int_ok 2 ltac:(lia))). Qed.

Lemma der_parse_exact_witness : exists o, secp256k1_ecdsa_sig_parse (J := scalar_8x32) [0x30; 6; 2; 1; 5; 2; 1; 7] = Some o.
Proof.
  assert (HB : limbs_lt 8 [0x30; 6; 2; 1; 5; 2; 1; 7]) by (repeat constructor; lia).
  destruct (der_parse_exact (J := scalar_8x32) [0x30; 6; 2; 1; 5; 2; 1; 7] HB eq_refl) as (o & E & _). exists o. exact E.
Defined.

Lemma der_roundtrip_witness : exists e, secp256k1_ecdsa_sig_parse e = Some (Some (two8, two8)).
Proof.
  destruct (der_roundtrip two8 two8 two8_ok two8_ok) as (e & _ & _ & E & _). exists e. exact E.
Defined.
