(* ===== verification/ApiThm.v ===== *)
(** What the public interface promises. *)

From Stdlib Require Import String ZArith Lia List Bool Zmod Field.
From S2P Require Import Prelude Limbs Primes Fp Curve CurveGroup FieldSpec FieldGen.
From S2P Require Import Group GroupSpec GroupOps GOrder Cofactor ScalarSpec ScalarGen Hash HashSpec HashThm.
From S2P Require Import Ecmult EcmultTable EcmultSpec EcmultGen EcmultGenSpec GenTable Ecdsa EcdsaDer EcdsaSpec Eckey EckeySpec.
From S2P Require Import Recovery Api Secp256k1 Modules ApiSpec ApiSign ApiKeys ApiModules.
From S2P Require Import Scalar8x32 Scalar8x32Ops Scalar8x32Mul Field10x26 Field10x26Ser Field10x26Mul MemInst.
Import ListNotations.
Open Scope Z_scope.

Section Generic.
Context {I : FieldImpl} {L : FieldLaws I} {J : ScalarImpl} {M : ScalarLaws J} {N : MemImpl I J} {NL : MemLaws L M N}.

Definition ctx_ok (ctx : secp256k1_context) : Prop := ctx_sign ctx /\ ctx_verify ctx.

(** C10. A context created with the flags for signing and verification has the
    tables both need, and keeps them: in its clone, and after any number of
    randomisations that return. *)
Theorem context_invariant fuel mem flags : (flags .& SECP256K1_FLAGS_TYPE_MASK) = SECP256K1_FLAGS_TYPE_CONTEXT ->
  z2b (flags .& SECP256K1_FLAGS_BIT_CONTEXT_SIGN) = true -> z2b (flags .& SECP256K1_FLAGS_BIT_CONTEXT_VERIFY) = true ->
  (exists ctx, secp256k1_context_create (S fuel) mem flags = ret (Some ctx) /\ ctx_ok ctx) /\
  forall ctx, ctx_ok ctx -> ctx_ok (secp256k1_context_clone mem ctx) /\
  forall fuel' seed, match seed with Some b => bytes32 b | None => True end ->
  secp256k1_context_randomize fuel' ctx seed = NoResult \/
  exists ctx', secp256k1_context_randomize fuel' ctx seed = ret (ctx', 1) /\ ctx_ok ctx'.
Proof.
  intros Hf Hs Hv. split.
  - destruct (context_create_ok fuel mem flags Hf) as (ctx & E & HS & HV & _). exists ctx. split; [exact E |]. split; auto.
  - intros ctx [HS HV]. destruct (context_clone_ok mem ctx) as (CV & CS & _). split; [split; auto |].
    intros fuel' seed Hb. destruct (context_randomize_ok fuel' ctx seed HS Hb) as [E | (ctx' & E & HS' & HV')]; [now left | right].
    exists ctx'. split; [exact E |]. split; auto.
Qed.

(** C3. Verification accepts a signature exactly when it is a valid ECDSA
    signature of the message for the key, with [s] at most half the order. *)
Theorem ecdsa_verify_correct ctx r s msg pk P : ctx_ok ctx -> sok r -> sok s -> bytes32 msg -> pubkey_rep pk P ->
  exists b : bool, secp256k1_ecdsa_verify ctx (Some (secp256k1_ecdsa_signature_save r s)) (Some msg) (Some pk) = ret (b2z b) /\
  (b = true <-> ecdsa_valid P (be_val msg mod secp_n) (sv r) (sv s) /\ sv s <= secp_n / 2).
Proof. intros [_ HV]. now apply verify_api. Qed.

(** C2. What signing returns for a valid key verifies for the key's public key,
    unless [r] is zero; the other outcomes are a nonce function that fails,
    which clears the output, and a loop that is out of fuel. *)
Theorem ecdsa_sign_verify fuel ctx mem mem' msg key f data : ctx_ok ctx -> bytes32 msg -> seckey_ok key ->
  nonce_fills (nonce_of f) msg key data ->
  exists pk, secp256k1_ec_pubkey_create ctx (Some mem') (Some key) = ret (1, Some pk) /\
  let res := secp256k1_ecdsa_sign fuel ctx (Some mem) (Some msg) (Some key) f data in
  res = NoResult \/ (exists rt, res = ret (rt, Some (zeros 64)) /\ z2b rt = false) \/
  exists rt sig, res = ret (rt, Some sig) /\ z2b rt = true /\
    (sv (fst (secp256k1_ecdsa_signature_load sig)) <> 0 -> secp256k1_ecdsa_verify ctx (Some sig) (Some msg) (Some pk) = ret 1).
Proof.
  intros [HS HV] Hm HK HF. destruct (pubkey_create_ok ctx mem' key HS (proj1 HK)) as [(_ & pk & E & HP) | [NK _]]; [| contradiction].
  exists pk. split; [exact E |]. destruct (sign_api fuel ctx mem msg key f data HS Hm HK HF) as [-> | [(rt & -> & Er) | (rt & o & k & -> & Er & Ho)]]; cbv zeta;
    [now left | right; left; now exists rt |]. right. right. do 2 eexists. split; [reflexivity |]. split; [exact Er |].
  pose proof Ho as (Hr & Hs & _). rewrite sig_load_save by assumption. cbn [fst]. intros Nr. now apply (signed_verifies ctx msg key k).
Qed.

(** C7. Signing terminates: it returns within the first attempt at which the
    nonce function fails or gives a nonce in range with [s] not zero. *)
Theorem ecdsa_sign_terminates fuel ctx mem msg key f data i : ctx_ok ctx -> bytes32 msg -> seckey_ok key ->
  nonce_fills (nonce_of f) msg key data -> (i < fuel)%nat -> Z.of_nat i < 2 ^ 32 ->
  attempt_ends (nonce_of f) msg key data (fst (sc_set_b32 key)) (fst (sc_set_b32 msg)) (Z.of_nat i) ->
  secp256k1_ecdsa_sign fuel ctx (Some mem) (Some msg) (Some key) f data <> NoResult.
Proof.
  intros [HS _] Hm HK HF. now apply sign_ends.
Qed.

(** C4. The public key printed from a recoverable signature in compact form is
    the signer's, unless [r] is zero; then recovery returns 0 and prints nothing.
    Recoverable signing returns when an attempt within the fuel ends, and when the
    nonce function fails it clears the signature. *)
Theorem ecdsa_recover_signer fuel ctx mem out msg key f data : ctx_ok ctx -> bytes32 msg -> seckey_ok key ->
  nonce_fills (nonce_of f) msg key data -> length out = 65%nat ->
  let res := secp256k1_ecdsa_sign_recoverable fuel ctx (Some mem) (Some msg) (Some key) f data in
  (forall i, (i < fuel)%nat -> Z.of_nat i < 2 ^ 32 ->
   attempt_ends (nonce_of f) msg key data (fst (sc_set_b32 key)) (fst (sc_set_b32 msg)) (Z.of_nat i) -> res <> NoResult) /\
  (res = NoResult \/ (exists rt, res = ret (rt, Some (zeros 65)) /\ z2b rt = false) \/
   exists rt sig r s v, res = ret (rt, Some sig) /\ z2b rt = true /\ secp256k1_ecdsa_recoverable_signature_load sig = (r, s, v) /\
   let rec := secp256k1_ext_ecdsa_recover ctx out (sc_get_b32 r ++ sc_get_b32 s ++ [v]) msg in
   if sv r =? 0 then rec = ret (0, out)
   else exists X Y, smul (be_val key) G = Aff X Y /\ rec = ret (1, pub_uncompressed X Y)).
Proof.
  intros [HS HV] Hm HK HF Lo res. split; [intros i Hi Hb; now apply sign_recoverable_ends |].
  destruct (sign_recoverable_api fuel ctx mem msg key f data HS Hm HK HF) as [E | [E | (rt & o & k & v & E & Er & Ho & Ev & Rv)]];
    [now left | right; now left | right; right]. pose proof Ho as (Hr & Hs & _).
  exists rt, (secp256k1_ecdsa_recoverable_signature_save (sign_r o) (sign_s o) v), (sign_r o), (sign_s o), v. split; [exact E |]. split; [exact Er |].
  split; [apply recoverable_load_save; (assumption || lia) |]. rewrite !sc_get_b32_ok by assumption. destruct (Z.eqb_spec (sv (sign_r o)) 0) as [Zr | Nr].
  - now apply ext_recover_zero.
  - now apply (ext_recover_api ctx out msg key k o v).
Qed.

(** C6. A recovered key verifies the signature it was recovered from, up to
    the bound on [s], and recovery fails only if there is no such key. *)
Theorem ecdsa_recover_valid ctx mem r s v msg : ctx_ok ctx -> sok r -> sok s -> 0 <= v < 256 -> bytes32 msg ->
  let res := secp256k1_ecdsa_recover ctx (Some mem) (Some (secp256k1_ecdsa_recoverable_signature_save r s v)) (Some msg) in
  (exists pk P, res = ret (1, Some pk) /\ pubkey_rep pk P /\ ecdsa_valid P (be_val msg mod secp_n) (sv r) (sv s)) \/
  (res = ret (0, Some (zeros 64)) /\ (sv r = 0 \/ sv s = 0 \/
   forall X Y, nonce_at v (sv r) X Y -> recovered (sres r) (sres s) (Fn_of_Z (be_val msg)) X Y = Inf)).
Proof.
  intros [_ HV] Hr Hs Hv Hm. destruct (recover_api ctx mem r s v msg HV Hr Hs Hv Hm) as [(pk & X & Y & E & HN & Nr & Ns & HP) | H]; [left | now right].
  do 2 eexists. split; [exact E |]. split; [exact HP |]. destruct (b32_scalar msg Hm) as [Hsm Vm]. rewrite <- Vm.
  assert (Em : sres (fst (sc_set_b32 msg)) = Fn_of_Z (be_val msg)) by (unfold sres; rewrite Vm; apply Zmod.of_Z_mod). rewrite <- Em.
  now apply (recovered_valid v).
Qed.

(** C11. Tweaking a secret key and its public key agree, for addition and for
    multiplication: they fail together, or the public key of the new secret key
    is the new public key. *)
Theorem tweak_correct ctx key pk tweak : ctx_ok ctx -> seckey_ok key -> bytes32 tweak -> pubkey_rep pk (smul (be_val key) G) ->
  tweak_agrees tweak (secp256k1_ec_privkey_tweak_add ctx (Some key) (Some tweak)) (secp256k1_ec_pubkey_tweak_add ctx (Some pk) (Some tweak))
    (smul (be_val key + be_val tweak) G) /\
  tweak_agrees tweak (secp256k1_ec_privkey_tweak_mul ctx (Some key) (Some tweak)) (secp256k1_ec_pubkey_tweak_mul ctx (Some pk) (Some tweak))
    (smul (be_val key * be_val tweak) G).
Proof. intros [_ HV] HK HT HP. split; [now apply tweak_add_api | now apply tweak_mul_api]. Qed.

(** C12. Public keys as bytes: exactly the compressed, uncompressed and hybrid
    encodings of finite points of the curve are parsed, a key is printed in the
    encoding asked for, and re-encoding converts between them. *)
Theorem pubkey_encoding_correct ctx mem pub out (c : bool) : limbs_lt 8 pub -> length out = (if c then 33%nat else 65%nat) ->
  (exists pk X Y, secp256k1_ec_pubkey_parse ctx (Some mem) (Some pub) = ret (1, Some pk) /\ pubkey_rep pk (Aff X Y) /\ pub_encodes pub X Y /\
   secp256k1_ec_pubkey_serialize ctx (Some out) (Some (Z.of_nat (length out))) (Some pk)
     (if c then SECP256K1_EC_COMPRESSED else SECP256K1_EC_UNCOMPRESSED) = ret (1, Some (Z.of_nat (length out)), Some (pub_bytes c X Y)) /\
   secp256k1_ext_reencode_pubkey ctx out pub = ret (1, pub_bytes c X Y)) \/
  (secp256k1_ec_pubkey_parse ctx (Some mem) (Some pub) = ret (0, Some (zeros 64)) /\ secp256k1_ext_reencode_pubkey ctx out pub = ret (0, out) /\
   forall X Y, secp (Aff X Y) -> ~ pub_encodes pub X Y).
Proof.
  intros HB Lo. assert (Lc : (length out =? 33)%nat = c) by (rewrite Lo; now destruct c).
  destruct (pubkey_parse_api ctx mem pub HB) as [(pk & X & Y & E & HP & HE) | (E & NE)].
  - left. exists pk, X, Y. split; [exact E |]. split; [exact HP |]. split; [exact HE |]. split.
    + rewrite (pubkey_serialize_api ctx out pk X Y c HP) by (rewrite Lo; now destruct c).
      rewrite zeros_nil by (rewrite length_pub_bytes, Lo; reflexivity). rewrite Lo. now destruct c.
    + destruct (reencode_api ctx out pub HB) as [(X' & Y' & S' & E' & R) | (_ & NE)]; [rewrite Lo; destruct c; auto | | exfalso; apply (NE X Y); [apply HP | exact HE]].
      destruct (pub_encodes_unique pub X Y X' Y' (proj1 (proj2 (proj2 HP))) S' HE E') as [-> ->]. now rewrite R, Lc.
  - right. split; [exact E |]. split; [| exact NE].
    destruct (reencode_api ctx out pub HB) as [(X & Y & S & E' & _) | (R & _)]; [rewrite Lo; destruct c; auto | exfalso; exact (NE X Y S E') | exact R].
Qed.

(** C17. Both parties of a Diffie-Hellman exchange compute the same secret, the
    SHA-256 digest of the compressed product point; the extension function
    multiplies an encoded point. *)
Theorem ecdh_agrees ctx mem pka pkb a b : seckey_ok a -> seckey_ok b ->
  pubkey_rep pka (smul (be_val a) G) -> pubkey_rep pkb (smul (be_val b) G) ->
  exists X Y, smul (be_val a * be_val b) G = Aff X Y /\
  secp256k1_ecdh ctx (Some mem) (Some pka) (Some b) = ret (1, Some (fips_sha256 (pub_compressed X Y))) /\
  secp256k1_ecdh ctx (Some mem) (Some pkb) (Some a) = ret (1, Some (fips_sha256 (pub_compressed X Y))) /\
  forall Xa Ya, smul (be_val a) G = Aff Xa Ya ->
  secp256k1_ext_scalar_mul ctx (Some (fe_bytes Xa ++ fe_bytes Ya)) (Some b) = ret (1, Some (fe_bytes X ++ fe_bytes Y)).
Proof.
  intros Ha Hb HA HB. destruct (ecdh_api ctx mem pka _ b HA Hb) as (X & Y & E & R). destruct (ecdh_api ctx mem pkb _ a HB Ha) as (X' & Y' & E' & R').
  assert (EP : smul (be_val a * be_val b) G = Aff X Y) by (rewrite Z.mul_comm, (smul_mul curve_b curve_b_nz) by exact G_on_curve; exact E).
  rewrite <- (smul_mul curve_b curve_b_nz), EP in E' by exact G_on_curve. apply aff_inj in E' as [<- <-].
  exists X, Y. split; [exact EP |]. split; [exact R |]. split; [exact R' |]. intros Xa Ya Ea. rewrite Ea in *.
  destruct (scalar_mul_api ctx Xa Ya b (proj1 (proj2 (proj2 HA))) Hb) as (X1 & Y1 & E1 & ->). rewrite E in E1. now apply aff_inj in E1 as [<- <-].
Qed.

(** The combination of keys is their sum, and fails when that is the point
    at infinity. *)
Theorem combine_correct ctx mem pks Ps : Forall2 pubkey_rep pks Ps -> pks <> [] ->
  (exists pk, secp256k1_ec_pubkey_combine ctx (Some mem) (Some pks) (Z.of_nat (length pks)) = ret (1, Some pk) /\ pubkey_rep pk (psum Ps)) \/
  (secp256k1_ec_pubkey_combine ctx (Some mem) (Some pks) (Z.of_nat (length pks)) = ret (0, Some (zeros 64)) /\ psum Ps = Inf).
Proof. exact (combine_api ctx mem pks Ps). Qed.
End Generic.

(** * Instances *)

(** Small secret keys, and a nonce function that always gives one. *)
Definition key_of (k : Z) : list Z := be_bytes 32 k.

Lemma key_of_ok k : 0 < k < 2 ^ 16 -> seckey_ok (key_of k) /\ be_val (key_of k) = k.
Proof.
  intros R. assert (Hn : 2 ^ 16 < secp_n) by reflexivity. assert (H6 : 2 ^ 16 < 2 ^ 256) by reflexivity.
  assert (E : be_val (key_of k) = k) by (unfold key_of; rewrite be_val_bytes; apply Z.mod_small; change (8 * Z.of_nat 32) with 256; lia).
  split; [| exact E]. split; [split; [apply length_be_bytes | apply limbs_lt_be_bytes] | lia].
Qed.

Definition nonce_one : secp256k1_nonce_function := fun _ _ _ _ _ => Some (1, key_of 1).

Lemma nonce_one_fills msg key data : nonce_fills nonce_one msg key data.
Proof. intros counter _. exact (proj1 (proj1 (key_of_ok 1 ltac:(lia)))). Qed.

Definition fresh : secp256k1_context (I := field_10x26) (J := scalar_8x32) :=
  Context secp256k1_ecmult_context_init (EcmultGenContext None sc_clear gej_clear_val) default_illegal_callback default_error_callback.

Definition both : Z := SECP256K1_CONTEXT_SIGN .| SECP256K1_CONTEXT_VERIFY.

Lemma demo_context : exists ctx, secp256k1_context_create 1 fresh both = ret (Some ctx) /\ ctx_ok ctx.
Proof.
  destruct (context_create_ok 0 fresh both eq_refl) as (ctx & E & HS & HV & _). exists ctx. split; [exact E |]. split; [exact (HS eq_refl) | exact (HV eq_refl)].
Qed.

Lemma demo_ends : attempt_ends (J := scalar_8x32) nonce_one (key_of 7) (key_of 5) None (fst (sc_set_b32 (key_of 5))) (fst (sc_set_b32 (key_of 7))) 0.
Proof.
  right. destruct (key_of_ok 1 ltac:(lia)) as [[_ R] E]. split; [exact R |]. rewrite E. intros X Y EX.
  change (smul 1 G) with G in EX. apply aff_inj in EX as [<- _]. intros H. apply (f_equal Zmod.to_Z) in H. revert H. vm_compute. discriminate.
Qed.

(** The point of a small key, and its bytes as a public key. *)
Lemma demo_pubkey k : 0 < k < 2 ^ 16 -> exists pk, pubkey_rep (I := field_10x26) (N := mem_10x26_8x32) pk (smul k G).
Proof.
  intros R. destruct demo_context as (ctx & _ & HS & _). destruct (key_of_ok k R) as [HK E].
  destruct (pubkey_create_ok ctx [] (key_of k) HS (proj1 HK)) as [(_ & pk & _ & HP) | [NK _]]; [| contradiction].
  exists pk. rewrite <- E. exact HP.
Qed.

Lemma k5_ok : seckey_ok (key_of 5).
Proof. exact (proj1 (key_of_ok 5 ltac:(lia))). Qed.
Lemma k7_ok : seckey_ok (key_of 7).
Proof. exact (proj1 (key_of_ok 7 ltac:(lia))). Qed.

Lemma context_invariant_witness : exists ctx, secp256k1_context_create 1 fresh both = ret (Some ctx) /\ ctx_ok ctx.
Proof. exact (proj1 (context_invariant 0 fresh both eq_refl eq_refl eq_refl)). Defined.

Lemma ecdsa_verify_correct_witness : exists ctx pk (b : bool), secp256k1_context_create 1 fresh both = ret (Some ctx) /\
  secp256k1_ecdsa_verify ctx (Some (secp256k1_ecdsa_signature_save (sc_set_int 2) (sc_set_int 2))) (Some (key_of 7)) (Some pk) = ret (b2z b).
Proof.
  destruct demo_context as (ctx & E & HC). destruct (demo_pubkey 5 ltac:(lia)) as (pk & HP).
  pose proof (proj1 (sc_set_int_ok (I := scalar_8x32) 2 ltac:(lia))) as H2.
  destruct (ecdsa_verify_correct ctx _ _ (key_of 7) pk _ HC H2 H2 (proj1 k7_ok) HP) as (b & Eb & _). exists ctx, pk, b. split; [exact E | exact Eb].
Defined.

Lemma ecdsa_sign_verify_witness : exists ctx pk, secp256k1_context_create 1 fresh both = ret (Some ctx) /\
  secp256k1_ec_pubkey_create ctx (Some []) (Some (key_of 5)) = ret (1, Some pk) /\
  let res := secp256k1_ecdsa_sign 1 ctx (Some []) (Some (key_of 7)) (Some (key_of 5)) (Some nonce_one) None in
  res = NoResult \/ (exists rt, res = ret (rt, Some (zeros 64)) /\ z2b rt = false) \/
  exists rt sig, res = ret (rt, Some sig) /\ z2b rt = true /\
    (sv (fst (secp256k1_ecdsa_signature_load sig)) <> 0 -> secp256k1_ecdsa_verify ctx (Some sig) (Some (key_of 7)) (Some pk) = ret 1).
Proof.
  destruct demo_context as (ctx & E & HC).
  destruct (ecdsa_sign_verify 1 ctx [] [] (key_of 7) (key_of 5) (Some nonce_one) None HC (proj1 k7_ok) k5_ok (nonce_one_fills _ _ _)) as (pk & H).
  exists ctx, pk. split; [exact E | exact H].
Defined.

Lemma ecdsa_sign_terminates_witness : exists ctx, secp256k1_context_create 1 fresh both = ret (Some ctx) /\
  secp256k1_ecdsa_sign 1 ctx (Some []) (Some (key_of 7)) (Some (key_of 5)) (Some nonce_one) None <> NoResult.
Proof.
  destruct demo_context as (ctx & E & HC). exists ctx. split; [exact E |].
  exact (ecdsa_sign_terminates 1 ctx [] (key_of 7) (key_of 5) (Some nonce_one) None 0 HC (proj1 k7_ok) k5_ok (nonce_one_fills _ _ _) ltac:(lia) eq_refl demo_ends).
Defined.

Lemma ecdsa_recover_signer_witness : exists ctx, secp256k1_context_create 1 fresh both = ret (Some ctx) /\
  let res := secp256k1_ecdsa_sign_recoverable 1 ctx (Some []) (Some (key_of 7)) (Some (key_of 5)) (Some nonce_one) None in
  (exists rt, res = ret (rt, Some (zeros 65)) /\ z2b rt = false) \/
  exists rt sig r s v, res = ret (rt, Some sig) /\ z2b rt = true /\ secp256k1_ecdsa_recoverable_signature_load sig = (r, s, v) /\
  let rec := secp256k1_ext_ecdsa_recover ctx (zeros 65) (sc_get_b32 r ++ sc_get_b32 s ++ [v]) (key_of 7) in
  if sv r =? 0 then rec = ret (0, zeros 65)
  else exists X Y, smul (be_val (key_of 5)) G = Aff X Y /\ rec = ret (1, pub_uncompressed X Y).
Proof.
  destruct demo_context as (ctx & E & HC). exists ctx. split; [exact E |].
  destruct (ecdsa_recover_signer 1 ctx [] (zeros 65) (key_of 7) (key_of 5) (Some nonce_one) None HC (proj1 k7_ok) k5_ok (nonce_one_fills _ _ _) eq_refl) as [T [H | H]].
  - destruct (T 0%nat ltac:(lia) eq_refl demo_ends H).
  - exact H.
Defined.

Lemma ecdsa_recover_valid_witness : exists ctx pk, secp256k1_context_create 1 fresh both = ret (Some ctx) /\
  let sig := secp256k1_ecdsa_recoverable_signature_save (sc_set_int 2) (sc_set_int 2) 0 in
  let res := secp256k1_ecdsa_recover ctx (Some []) (Some sig) (Some (key_of 7)) in
  res = ret (1, Some pk) \/ res = ret (0, Some pk).
Proof.
  destruct demo_context as (ctx & E & HC). pose proof (proj1 (sc_set_int_ok (I := scalar_8x32) 2 ltac:(lia))) as H2.
  destruct (ecdsa_recover_valid ctx [] _ _ 0 (key_of 7) HC H2 H2 ltac:(lia) (proj1 k7_ok)) as [(pk & _ & R & _) | [R _]];
    eexists ctx, _; split; [exact E | left; exact R | exact E | right; exact R].
Defined.

Lemma tweak_correct_witness : exists ctx pk, secp256k1_context_create 1 fresh both = ret (Some ctx) /\
  tweak_agrees (key_of 7) (secp256k1_ec_privkey_tweak_add ctx (Some (key_of 5)) (Some (key_of 7)))
    (secp256k1_ec_pubkey_tweak_add ctx (Some pk) (Some (key_of 7))) (smul (be_val (key_of 5) + be_val (key_of 7)) G).
Proof.
  destruct demo_context as (ctx & E & HC). destruct (demo_pubkey (be_val (key_of 5)) ltac:(rewrite (proj2 (key_of_ok 5 ltac:(lia))); lia)) as (pk & HP).
  exists ctx, pk. split; [exact E |]. exact (proj1 (tweak_correct ctx (key_of 5) pk (key_of 7) HC k5_ok (proj1 k7_ok) HP)).
Defined.

Lemma pubkey_encoding_correct_witness : exists r o, secp256k1_ext_reencode_pubkey fresh (zeros 33) (2 :: key_of 1) = ret (r, o).
Proof.
  assert (HB : limbs_lt 8 (2 :: key_of 1)) by (constructor; [lia | exact (proj2 (proj1 (proj1 (key_of_ok 1 ltac:(lia)))))]).
  destruct (pubkey_encoding_correct fresh [] (2 :: key_of 1) (zeros 33) true HB eq_refl) as [(pk & X & Y & _ & _ & _ & _ & R) | (_ & R & _)];
    do 2 eexists; exact R.
Defined.

Lemma ecdh_agrees_witness : exists pka pkb secret, secp256k1_ecdh fresh (Some []) (Some pka) (Some (key_of 7)) = ret (1, Some secret) /\
  secp256k1_ecdh fresh (Some []) (Some pkb) (Some (key_of 5)) = ret (1, Some secret).
Proof.
  destruct (demo_pubkey (be_val (key_of 5)) ltac:(rewrite (proj2 (key_of_ok 5 ltac:(lia))); lia)) as (pka & HA).
  destruct (demo_pubkey (be_val (key_of 7)) ltac:(rewrite (proj2 (key_of_ok 7 ltac:(lia))); lia)) as (pkb & HB).
  destruct (ecdh_agrees fresh [] pka pkb (key_of 5) (key_of 7) k5_ok k7_ok HA HB) as (X & Y & _ & R1 & R2 & _).
  exists pka, pkb. eexists. split; [exact R1 | exact R2].
Defined.

Lemma combine_correct_witness : exists pk r, secp256k1_ec_pubkey_combine fresh (Some []) (Some [pk; pk]) 2 = ret r.
Proof.
  destruct (demo_pubkey 5 ltac:(lia)) as (pk & HP). exists pk.
  assert (H2 : Forall2 pubkey_rep [pk; pk] [smul 5 G; smul 5 G]) by (constructor; [exact HP | constructor; [exact HP | constructor]]).
  assert (Nn : [pk; pk] <> []) by (intros H; inversion H).
  destruct (combine_correct fresh [] [pk; pk] _ H2 Nn) as [(q & R & _) | [R _]]; eexists; exact R.
Defined.
