(* ===== verification/Java.v ===== *)
(** The Java wrapper, [src/java/org_bitcoin_NativeSecp256k1.c] and
    [src/java/org_bitcoin_Secp256k1Context.c]: the native methods of the class
    [NativeSecp256k1] on top of the public functions.

    The arguments come in one direct byte buffer, [None] when the address of
    the buffer is null.  The results are byte arrays of the virtual machine,
    which the methods reach through [JNIEnv]; the machine is a parameter, and
    [JNILaws] is what the specification of the interface says about it.  A null
    reference is [None]; the methods do not test for one, and passing it on is a
    [NoResult].  [JNIMemory] is the assumption that the machine has the class of
    byte arrays and memory for the arrays of a result. *)

From Stdlib Require Import String ZArith Lia List Bool.
From S2P Require Import Prelude Limbs Fp Curve CurveGroup FieldSpec FieldGen Group GroupSpec GroupOps GOrder ScalarSpec ScalarGen.
From S2P Require Import Hash HashSpec HashThm Ecmult EcmultGen EcmultConst Ecdsa EcdsaSpec Eckey EckeySpec Recovery Api Secp256k1 Modules.
From S2P Require Import ApiSpec ApiSign ApiKeys ApiModules Field10x26Mul Scalar8x32Mul MemInst ApiThm.
Import ListNotations.
Open Scope Z_scope.

(** * The virtual machine *)

Class JNIEnv : Type := {
  jvm : Type;
  jobject : Type;
  FindClass : jvm -> string -> option jobject;
  NewByteArray : jvm -> Z -> option jobject * jvm;
  SetByteArrayRegion : jvm -> jobject -> Z -> Z -> list Z -> jvm;
  NewObjectArray : jvm -> Z -> jobject -> jobject -> option jobject * jvm;
  SetObjectArrayElement : jvm -> jobject -> Z -> jobject -> jvm
}.

(** [bytes vm a] are the elements of the byte array [a], [elements vm a] those of
    the object array [a].  New arrays are none of the old ones, and a change of
    an array leaves the others alone. *)
Class JNILaws (E : JNIEnv) : Type := {
  bytes : jvm -> jobject -> option (list Z);
  elements : jvm -> jobject -> option (list jobject);
  new_bytes : forall vm n a vm', 0 <= n -> NewByteArray vm n = (Some a, vm') ->
    bytes vm a = None /\ bytes vm' a = Some (repeat 0 (Z.to_nat n)) /\
    (forall b, b <> a -> bytes vm' b = bytes vm b) /\ forall b, elements vm' b = elements vm b;
  set_bytes : forall vm a n l old, bytes vm a = Some old -> 0 <= n <= Z.of_nat (length l) -> n = Z.of_nat (length old) ->
    let vm' := SetByteArrayRegion vm a 0 n l in
    bytes vm' a = Some (firstn (Z.to_nat n) l) /\
    (forall b, b <> a -> bytes vm' b = bytes vm b) /\ forall b, elements vm' b = elements vm b;
  new_objects : forall vm n c x a vm', 0 <= n -> NewObjectArray vm n c x = (Some a, vm') ->
    elements vm a = None /\ elements vm' a = Some (repeat x (Z.to_nat n)) /\
    (forall b, b <> a -> elements vm' b = elements vm b) /\ forall b, bytes vm' b = bytes vm b;
  set_object : forall vm a i x l, elements vm a = Some l -> 0 <= i < Z.of_nat (length l) ->
    let vm' := SetObjectArrayElement vm a i x in
    elements vm' a = Some (upd (Z.to_nat i) x l) /\
    (forall b, b <> a -> elements vm' b = elements vm b) /\ forall b, bytes vm' b = bytes vm b
}.

(** There is memory for arrays of the sizes the methods ask for. *)
Class JNIMemory (E : JNIEnv) : Prop := {
  byte_class : forall vm, exists c, FindClass vm "[B" = Some c;
  byte_memory : forall vm n, 0 <= n <= 72 -> exists a vm', NewByteArray vm n = (Some a, vm');
  object_memory : forall vm c x, exists a vm', NewObjectArray vm 2 c x = (Some a, vm')
}.

Section Code.
Context {I : FieldImpl} {J : ScalarImpl} {N : MemImpl I J} {E : JNIEnv}.

(** [n] bytes at [data + off], which have to be in the buffer. *)
Definition region (data : option (list Z)) (off n : Z) : result (option (list Z)) :=
  match data with
  | None => if off =? 0 then ret None else NoResult
  | Some data =>
      if (0 <=? off) && (0 <=? n) && (off + n <=? Z.of_nat (length data))
      then ret (Some (firstn (Z.to_nat n) (skipn (Z.to_nat off) data))) else NoResult
  end.

(** A reference that is passed on must not be null. *)
Definition not_null (p : option jobject * jvm) : result (jobject * jvm) :=
  let '(a, vm) := p in
  match a with Some a => ret (a, vm) | None => NoResult end.

(** The array of two byte arrays that most methods return: the first [outputLen]
    bytes of [output], and [intsarray]. *)
Definition new_result (vm : jvm) (output : list Z) (outputLen : Z) (intsarray : list Z) : result (jobject * jvm) :=
  let! (filler, vm) := not_null (NewByteArray vm 1) in
  let! (byteClass, vm) := not_null (FindClass vm "[B", vm) in
  let! (retArray, vm) := not_null (NewObjectArray vm 2 byteClass filler) in
  let! (outArray, vm) := not_null (NewByteArray vm outputLen) in
  let vm := SetByteArrayRegion vm outArray 0 outputLen output in
  let vm := SetObjectArrayElement vm retArray 0 outArray in
  let n := Z.of_nat (length intsarray) in
  let! (intsByteArray, vm) := not_null (NewByteArray vm n) in
  let vm := SetByteArrayRegion vm intsByteArray 0 n intsarray in
  let vm := SetObjectArrayElement vm retArray 1 intsByteArray in
  ret (retArray, vm).

(** * Contexts *)

Definition Java_org_bitcoin_Secp256k1Context_secp256k1_1init_1context (fuel : nat) (mem : secp256k1_context)
    : result (option secp256k1_context) :=
  secp256k1_context_create fuel mem (SECP256K1_CONTEXT_SIGN .| SECP256K1_CONTEXT_VERIFY).

Definition Java_org_bitcoin_NativeSecp256k1_secp256k1_1ctx_1clone (mem ctx : secp256k1_context) : secp256k1_context :=
  secp256k1_context_clone mem ctx.

Definition Java_org_bitcoin_NativeSecp256k1_secp256k1_1context_1randomize (fuel : nat) (byteBufferObject : option (list Z))
    (ctx : secp256k1_context) : result (secp256k1_context * Z) :=
  let! seed := region byteBufferObject 0 32 in
  secp256k1_context_randomize fuel ctx seed.

Definition Java_org_bitcoin_NativeSecp256k1_secp256k1_1destroy_1context (ctx : option secp256k1_context) : option secp256k1_context :=
  secp256k1_context_destroy ctx.

(** * Signatures *)

(** [mem] is what the stack holds in [sig] and [pubkey]. *)
Definition Java_org_bitcoin_NativeSecp256k1_secp256k1_1ecdsa_1verify (mem : list Z) (byteBufferObject : option (list Z))
    (ctx : secp256k1_context) (siglen publen : Z) : result Z :=
  let! sigdata := region byteBufferObject 32 siglen in
  let! (ret_, sig) := secp256k1_ecdsa_signature_parse_der ctx (Some mem) sigdata in
  if z2b ret_ then
    let! pubdata := region byteBufferObject (siglen + 32) publen in
    let! (ret_, pubkey) := secp256k1_ec_pubkey_parse ctx (Some mem) pubdata in
    if z2b ret_ then let! data := region byteBufferObject 0 32 in secp256k1_ecdsa_verify ctx sig data pubkey
    else ret ret_
  else ret ret_.

(** [outputSer] is what the stack holds there: it is returned when signing fails. *)
Definition Java_org_bitcoin_NativeSecp256k1_secp256k1_1ecdsa_1sign (fuel : nat) (vm : jvm) (mem outputSer : list Z)
    (byteBufferObject : option (list Z)) (ctx : secp256k1_context) : result (jobject * jvm) :=
  let! data := region byteBufferObject 0 32 in
  let! secKey := region byteBufferObject 32 32 in
  let! (ret_, sig) := secp256k1_ecdsa_sign fuel ctx (Some mem) data secKey None None in
  let outputLen := Some 72 in
  let! (_, outputLen, outputSer) :=
    (if z2b ret_ then secp256k1_ecdsa_signature_serialize_der ctx (Some outputSer) outputLen sig
     else ret (0, outputLen, Some outputSer)) in
  match outputLen, outputSer with
  | Some outputLen, Some outputSer => new_result vm outputSer outputLen [u8 outputLen; u8 ret_]
  | _, _ => NoResult
  end.

(** * Keys *)

Definition Java_org_bitcoin_NativeSecp256k1_secp256k1_1ec_1seckey_1verify (byteBufferObject : option (list Z))
    (ctx : secp256k1_context) : result Z :=
  let! secKey := region byteBufferObject 0 32 in
  secp256k1_ec_seckey_verify ctx secKey.

(** [if (ret)] the key is printed, uncompressed, into the 65 bytes of [outputSer]. *)
Definition print_pubkey (ctx : secp256k1_context) (ret_ : Z) (outputSer : list Z) (pubkey : option (list Z)) : result (Z * list Z) :=
  let outputLen := Some 65 in
  let! (_, outputLen, outputSer) :=
    (if z2b ret_ then secp256k1_ec_pubkey_serialize ctx (Some outputSer) outputLen pubkey SECP256K1_EC_UNCOMPRESSED
     else ret (0, outputLen, Some outputSer)) in
  match outputLen, outputSer with
  | Some outputLen, Some outputSer => ret (outputLen, outputSer)
  | _, _ => NoResult
  end.

Definition Java_org_bitcoin_NativeSecp256k1_secp256k1_1ec_1pubkey_1create (vm : jvm) (mem outputSer : list Z)
    (byteBufferObject : option (list Z)) (ctx : secp256k1_context) : result (jobject * jvm) :=
  let! secKey := region byteBufferObject 0 32 in
  let! (ret_, pubkey) := secp256k1_ec_pubkey_create ctx (Some mem) secKey in
  let! (outputLen, outputSer) := print_pubkey ctx ret_ outputSer pubkey in
  new_result vm outputSer outputLen [u8 outputLen; u8 ret_].

(** The key is replaced in the buffer too. *)
Definition Java_org_bitcoin_NativeSecp256k1_secp256k1_1privkey_1tweak_1add (vm : jvm) (byteBufferObject : option (list Z))
    (ctx : secp256k1_context) : result (jobject * jvm * list Z) :=
  let! privkey := region byteBufferObject 0 32 in
  let! tweak := region byteBufferObject 32 32 in
  let privkeylen := 32 in
  let! (ret_, privkey) := secp256k1_ec_privkey_tweak_add ctx privkey tweak in
  match privkey, byteBufferObject with
  | Some privkey, Some data =>
      let! p := new_result vm privkey privkeylen [u8 privkeylen; u8 ret_] in
      ret (p, privkey ++ skipn 32 data)
  | _, _ => NoResult
  end.

Definition Java_org_bitcoin_NativeSecp256k1_secp256k1_1privkey_1tweak_1mul (vm : jvm) (byteBufferObject : option (list Z))
    (ctx : secp256k1_context) : result (jobject * jvm * list Z) :=
  let! privkey := region byteBufferObject 0 32 in
  let! tweak := region byteBufferObject 32 32 in
  let privkeylen := 32 in
  let! (ret_, privkey) := secp256k1_ec_privkey_tweak_mul ctx privkey tweak in
  match privkey, byteBufferObject with
  | Some privkey, Some data =>
      let! p := new_result vm privkey privkeylen [u8 privkeylen; u8 ret_] in
      ret (p, privkey ++ skipn 32 data)
  | _, _ => NoResult
  end.

Definition Java_org_bitcoin_NativeSecp256k1_secp256k1_1pubkey_1tweak_1add (vm : jvm) (mem outputSer : list Z)
    (byteBufferObject : option (list Z)) (ctx : secp256k1_context) (publen : Z) : result (jobject * jvm) :=
  let! pkey := region byteBufferObject 0 publen in
  let! (ret_, pubkey) := secp256k1_ec_pubkey_parse ctx (Some mem) pkey in
  let! (ret_, pubkey) :=
    (if z2b ret_ then let! tweak := region byteBufferObject publen 32 in secp256k1_ec_pubkey_tweak_add ctx pubkey tweak
     else ret (ret_, pubkey)) in
  let! (outputLen, outputSer) := print_pubkey ctx ret_ outputSer pubkey in
  new_result vm outputSer outputLen [u8 outputLen; u8 ret_].

Definition Java_org_bitcoin_NativeSecp256k1_secp256k1_1pubkey_1tweak_1mul (vm : jvm) (mem outputSer : list Z)
    (byteBufferObject : option (list Z)) (ctx : secp256k1_context) (publen : Z) : result (jobject * jvm) :=
  let! pkey := region byteBufferObject 0 publen in
  let! (ret_, pubkey) := secp256k1_ec_pubkey_parse ctx (Some mem) pkey in
  let! (ret_, pubkey) :=
    (if z2b ret_ then let! tweak := region byteBufferObject publen 32 in secp256k1_ec_pubkey_tweak_mul ctx pubkey tweak
     else ret (ret_, pubkey)) in
  let! (outputLen, outputSer) := print_pubkey ctx ret_ outputSer pubkey in
  new_result vm outputSer outputLen [u8 outputLen; u8 ret_].

(** Not implemented: the method returns 0. *)
Definition Java_org_bitcoin_NativeSecp256k1_secp256k1_1ecdsa_1pubkey_1combine (byteBufferObject : option (list Z))
    (ctx : secp256k1_context) (numkeys : Z) : Z := 0.

(** [nonce_res] is what the stack holds there. *)
Definition Java_org_bitcoin_NativeSecp256k1_secp256k1_1ecdh (vm : jvm) (mem nonce_res : list Z)
    (byteBufferObject : option (list Z)) (ctx : secp256k1_context) (publen : Z) : result (jobject * jvm) :=
  let! pubdata := region byteBufferObject 32 publen in
  let! (ret_, pubkey) := secp256k1_ec_pubkey_parse ctx (Some mem) pubdata in
  let! (ret_, nonce_res) :=
    (if z2b ret_ then let! secdata := region byteBufferObject 0 32 in secp256k1_ecdh ctx (Some nonce_res) pubkey secdata
     else ret (ret_, Some nonce_res)) in
  match nonce_res with
  | Some nonce_res => new_result vm nonce_res 32 [u8 ret_]
  | None => NoResult
  end.
End Code.

(** * What the methods promise *)

Section Spec.
Context {I : FieldImpl} {L : FieldLaws I} {J : ScalarImpl} {M : ScalarLaws J} {N : MemImpl I J} {NL : MemLaws L M N}.
Context {E : JNIEnv} {EL : JNILaws E} {EM : JNIMemory E}.

(** The object is an array of the two byte arrays. *)
Definition returned (p : jobject * jvm) (output ints : list Z) : Prop :=
  exists a b, elements (snd p) (fst p) = Some [a; b] /\ bytes (snd p) a = Some output /\ bytes (snd p) b = Some ints.

Lemma new_byte_array vm n : 0 <= n <= 72 -> exists a vm', not_null (NewByteArray vm n) = ret (a, vm') /\
  bytes vm a = None /\ bytes vm' a = Some (repeat 0 (Z.to_nat n)) /\
  (forall b, b <> a -> bytes vm' b = bytes vm b) /\ forall b, elements vm' b = elements vm b.
Proof.
  intros Hn. destruct (byte_memory vm n Hn) as (a & vm' & EN). exists a, vm'. rewrite EN. split; [reflexivity |].
  exact (new_bytes vm n a vm' ltac:(lia) EN).
Qed.

Lemma new_result_ok vm output len ints : 0 <= len <= Z.of_nat (length output) -> len <= 72 -> Z.of_nat (length ints) <= 72 ->
  exists p, new_result vm output len ints = ret p /\ returned p (firstn (Z.to_nat len) output) ints.
Proof.
  intros Hl Hm Hi. unfold new_result. destruct (new_byte_array vm 1 ltac:(lia)) as (f & vm0 & -> & _). rewrite rbind_ret.
  destruct (byte_class vm0) as [c ->]. cbn [not_null]. rewrite rbind_ret.
  destruct (object_memory vm0 c f) as (o & vm1 & EO). rewrite EO. cbn [not_null]. rewrite rbind_ret. destruct (new_objects vm0 2 c f o vm1 ltac:(lia) EO) as (_ & O1 & _).
  destruct (new_byte_array vm1 len ltac:(lia)) as (a & vm2 & -> & _ & B2 & _ & O2). rewrite rbind_ret.
  destruct (set_bytes vm2 a len output _ B2 Hl ltac:(rewrite repeat_length; lia)) as (B3 & _ & O3). set (vm3 := SetByteArrayRegion vm2 a 0 len output) in *.
  destruct (set_object vm3 o 0 a [f; f] ltac:(now rewrite O3, O2) ltac:(cbn; lia)) as (O4 & _ & B4). set (vm4 := SetObjectArrayElement vm3 o 0 a) in *.
  set (n := Z.of_nat (length ints)). destruct (new_byte_array vm4 n ltac:(lia)) as (b & vm5 & -> & N5 & B5 & K5 & O5). rewrite rbind_ret.
  destruct (set_bytes vm5 b n ints _ B5 ltac:(lia) ltac:(rewrite repeat_length; lia)) as (B6 & K6 & O6). set (vm6 := SetByteArrayRegion vm5 b 0 n ints) in *.
  destruct (set_object vm6 o 1 b [a; f] ltac:(rewrite O6, O5; exact O4) ltac:(cbn; lia)) as (O7 & _ & B7).
  assert (D : a <> b) by (intros ->; rewrite B4, B3 in N5; discriminate). eexists. split; [reflexivity |].
  exists a, b. cbn [fst snd]. split; [exact O7 |]. rewrite !B7, B6, K6, K5, B4, B3 by exact D. split; [reflexivity |]. f_equal.
  unfold n. now rewrite Nat2Z.id, firstn_all.
Qed.

(** A result that returns all of an array. *)
Lemma new_result_all vm output len ints : len = Z.of_nat (length output) -> len <= 72 -> Z.of_nat (length ints) <= 72 ->
  exists p, new_result vm output len ints = ret p /\ returned p output ints.
Proof.
  intros -> Hm Hi. destruct (new_result_ok vm output (Z.of_nat (length output)) ints ltac:(lia) Hm Hi) as (p & E0 & H). exists p. split; [exact E0 |].
  now rewrite Nat2Z.id, firstn_all in H.
Qed.

(** A buffer that holds [l] after [pre] bytes. *)
Lemma region_app pre l rest off n : off = Z.of_nat (length pre) -> n = Z.of_nat (length l) -> region (Some (pre ++ l ++ rest)) off n = ret (Some l).
Proof.
  intros -> ->. unfold region. rewrite !length_app.
  replace (_ && _ && _) with true by (symmetry; rewrite !andb_true_iff, !Z.leb_le; lia).
  rewrite !Nat2Z.id, skipn_app, Nat.sub_diag, skipn_all. cbn [app skipn].
  now rewrite firstn_app, Nat.sub_diag, firstn_O, app_nil_r, firstn_all.
Qed.

Lemma region_0 l rest n : n = Z.of_nat (length l) -> region (Some (l ++ rest)) 0 n = ret (Some l).
Proof. exact (region_app [] l rest 0 n eq_refl). Qed.

(** Printing succeeds for a key, into the 65 bytes of the output. *)
Lemma print_pubkey_ok ctx out pk X Y : pubkey_rep pk (Aff X Y) -> length out = 65%nat ->
  print_pubkey ctx 1 out (Some pk) = ret (65, pub_uncompressed X Y).
Proof.
  intros HP Lo. unfold print_pubkey. pose proof (pubkey_serialize_api ctx out pk X Y false HP ltac:(rewrite Lo; lia)) as H. rewrite Lo in H.
  cbn [z2b Z.eqb negb]. change (Z.of_nat 65) with 65 in H. rewrite H. rewrite zeros_nil by (rewrite length_pub_bytes; reflexivity). reflexivity.
Qed.

Lemma length_uncompressed X Y : length (pub_uncompressed X Y) = 65%nat.
Proof. exact (length_pub_bytes false X Y). Qed.

Lemma pubkey_parse_known ctx mem pub X Y : limbs_lt 8 pub -> secp (Aff X Y) -> pub_encodes pub X Y ->
  exists pk, secp256k1_ec_pubkey_parse ctx (Some mem) (Some pub) = ret (1, Some pk) /\ pubkey_rep pk (Aff X Y).
Proof.
  intros HB S HE. destruct (pubkey_parse_api ctx mem pub HB) as [(pk & X' & Y' & EP & HP & HE') | (_ & NE)]; [| now destruct (NE X Y S)].
  destruct (pub_encodes_unique pub X Y X' Y' S (proj1 (proj2 (proj2 HP))) HE HE') as [-> ->]. now exists pk.
Qed.

Lemma limbs_lt_uncompressed X Y : limbs_lt 8 (pub_uncompressed X Y).
Proof. unfold pub_uncompressed. constructor; [lia |]. apply Forall_app. split; apply limbs_lt_fe_bytes. Qed.

(** The public key of a secret key, from a buffer that starts with it. *)
Lemma jni_pubkey_create_ok vm mem out key rest ctx : ctx_sign ctx -> seckey_ok key -> length out = 65%nat ->
  exists p X Y, smul (be_val key) G = Aff X Y /\
  Java_org_bitcoin_NativeSecp256k1_secp256k1_1ec_1pubkey_1create vm mem out (Some (key ++ rest)) ctx = ret p /\
  returned p (pub_uncompressed X Y) [65; 1].
Proof.
  intros HS Hk Lo. destruct (pubkey_create_ok ctx mem key HS (proj1 Hk)) as [(_ & pk & Ec & HP) | [NK _]]; [| contradiction].
  destruct HP as (H1 & H2 & H3 & X & Y & EP & H4).
  destruct (new_result_all vm (pub_uncompressed X Y) 65 [65; 1]) as (p & E1 & R1); [now rewrite length_uncompressed | lia | cbn; lia |].
  exists p, X, Y. split; [exact EP |]. split; [| exact R1].
  unfold Java_org_bitcoin_NativeSecp256k1_secp256k1_1ec_1pubkey_1create. rewrite region_0 by now rewrite (proj1 (proj1 Hk)). rewrite rbind_ret, Ec, rbind_ret.
  rewrite (print_pubkey_ok ctx out pk X Y) by (rewrite ?EP in *; try assumption; unfold pubkey_rep; eauto 10). now rewrite rbind_ret.
Qed.

(** The buffer of a verification: the message, the signature and the key. *)
Lemma jni_verify_ok mem ctx msg sig pub rest r s X Y : ctx_verify ctx -> bytes32 msg -> limbs_lt 8 pub -> secp (Aff X Y) -> pub_encodes pub X Y ->
  secp256k1_ecdsa_signature_parse_der ctx (Some mem) (Some sig) = ret (1, Some (secp256k1_ecdsa_signature_save r s)) ->
  exists pk, pubkey_rep pk (Aff X Y) /\
  Java_org_bitcoin_NativeSecp256k1_secp256k1_1ecdsa_1verify mem (Some (msg ++ sig ++ pub ++ rest)) ctx (Z.of_nat (length sig)) (Z.of_nat (length pub)) =
    secp256k1_ecdsa_verify ctx (Some (secp256k1_ecdsa_signature_save r s)) (Some msg) (Some pk).
Proof.
  intros HV [Lm _] HB S HE Es. destruct (pubkey_parse_known ctx mem pub X Y HB S HE) as (pk & Ep & HP). exists pk. split; [exact HP |].
  unfold Java_org_bitcoin_NativeSecp256k1_secp256k1_1ecdsa_1verify. rewrite (region_app msg sig) by (now rewrite ?Lm). run_checks. rewrite Es. run_checks.
  rewrite (app_assoc msg sig), (region_app (msg ++ sig) pub) by (rewrite ?length_app, ?Lm; lia). run_checks. rewrite Ep. run_checks.
  rewrite <- app_assoc, region_0 by now rewrite Lm. run_checks. cbn [z2b Z.eqb negb]. now destruct (secp256k1_ecdsa_verify _ _ _ _).
Qed.

(** Signing from a buffer with the message and the key: only
    [secp256k1_ecdsa_sign] may have no result. *)
Lemma jni_sign_ok fuel vm mem out msg key rest ctx : ctx_sign ctx -> bytes32 msg -> seckey_ok key -> length out = 72%nat ->
  let res := Java_org_bitcoin_NativeSecp256k1_secp256k1_1ecdsa_1sign fuel vm mem out (Some (msg ++ key ++ rest)) ctx in
  (res = NoResult /\ secp256k1_ecdsa_sign fuel ctx (Some mem) (Some msg) (Some key) None None = NoResult) \/
  exists p sig o k, res = ret p /\ returned p sig [Z.of_nat (length sig); 1] /\
  signed (Fn_of_Z (be_val key)) (Fn_of_Z (be_val msg)) k o /\
  secp256k1_ecdsa_signature_parse_der ctx (Some mem) (Some sig) = ret (1, Some (secp256k1_ecdsa_signature_save (sign_r o) (sign_s o))).
Proof.
  intros HS Hm Hk Lo. cbv zeta. unfold Java_org_bitcoin_NativeSecp256k1_secp256k1_1ecdsa_1sign.
  rewrite region_0, (region_app msg key) by now rewrite ?(proj1 Hm), ?(proj1 (proj1 Hk)). rewrite !rbind_ret.
  destruct (sign_default fuel ctx mem msg key None HS Hm Hk Logic.I) as [-> | (o & k & -> & Ho)]; [now left | right]. rewrite rbind_ret. cbn [z2b Z.eqb negb].
  pose proof Ho as (Hr & Hs & _). destruct (der_api ctx mem out _ _ Hr Hs ltac:(lia)) as (e & Ed & Le & Ep).
  change (Some 72) with (Some (Z.of_nat 72)). rewrite <- Lo, Ed, rbind_ret.
  replace (u8 (Z.of_nat (length e))) with (Z.of_nat (length e)) by (symmetry; apply Z.mod_small; lia).
  destruct (new_result_ok vm (e ++ skipn (length e) out) (Z.of_nat (length e)) [Z.of_nat (length e); u8 1]) as (p & -> & R);
    [rewrite length_app; lia | lia | cbn; lia |].
  rewrite Nat2Z.id, firstn_app, firstn_all, Nat.sub_diag, firstn_O, app_nil_r in R. now exists p, e, o, k.
Qed.

(** C18. The Java methods compose: the key that [ec_pubkey_create] returns for a
    buffer with a valid secret key has 65 bytes, and the signature that
    [ecdsa_sign] returns for a buffer with a message and that key is accepted by
    [ecdsa_verify] in a buffer with the message, the signature and the public
    key, unless [r] is zero.  The second array holds the length and 1.  The
    method [ecdsa_sign] has a result whenever an attempt within the fuel ends,
    and the other two always: none of them reads outside of its buffer. *)
Theorem jni_sign_verify fuel vm mem out pout msg key rest ctx : ctx_ok ctx -> bytes32 msg -> seckey_ok key ->
  length out = 72%nat -> length pout = 65%nat ->
  exists p pub, Java_org_bitcoin_NativeSecp256k1_secp256k1_1ec_1pubkey_1create vm mem pout (Some (key ++ rest)) ctx = ret p /\
  returned p pub [65; 1] /\ length pub = 65%nat /\
  let res := Java_org_bitcoin_NativeSecp256k1_secp256k1_1ecdsa_1sign fuel vm mem out (Some (msg ++ key ++ rest)) ctx in
  (forall i, (i < fuel)%nat -> Z.of_nat i < 2 ^ 32 ->
   attempt_ends secp256k1_nonce_function_default msg key None (fst (sc_set_b32 key)) (fst (sc_set_b32 msg)) (Z.of_nat i) -> res <> NoResult) /\
  ((res = NoResult /\ secp256k1_ecdsa_sign fuel ctx (Some mem) (Some msg) (Some key) None None = NoResult) \/
   exists q sig s, res = ret q /\ returned q sig [Z.of_nat (length sig); 1] /\
   secp256k1_ecdsa_signature_parse_der ctx (Some mem) (Some sig) = ret (1, Some s) /\
   Java_org_bitcoin_NativeSecp256k1_secp256k1_1ecdsa_1verify mem (Some (msg ++ sig ++ pub ++ rest)) ctx (Z.of_nat (length sig)) 65 =
     ret (b2z (negb (sv (fst (secp256k1_ecdsa_signature_load s)) =? 0)))).
Proof.
  intros [HS HV] Hm Hk Lo Lp. destruct (jni_pubkey_create_ok vm mem pout key rest ctx HS Hk Lp) as (p & X & Y & EP & Ec & Rc).
  exists p, (pub_uncompressed X Y). split; [exact Ec |]. split; [exact Rc |]. split; [apply length_uncompressed |].
  destruct (jni_sign_ok fuel vm mem out msg key rest ctx HS Hm Hk Lo) as [[-> EN] | (q & sig & o & k & -> & Rq & Ho & Ep)].
  { split; [| now left]. intros i Hi Hb HA _.
    exact (sign_ends fuel ctx mem msg key None None i HS Hm Hk (nonce_default_fills msg key None Hm (proj1 Hk) Logic.I) Hi Hb HA EN). }
  split; [discriminate | right]. exists q, sig, (secp256k1_ecdsa_signature_save (sign_r o) (sign_s o)). split; [reflexivity |]. split; [exact Rq |]. split; [exact Ep |].
  pose proof Ho as (Hr & Hs & _). rewrite sig_load_save by assumption. assert (S : secp (Aff X Y)) by (rewrite <- EP; apply G_multiple).
  destruct (jni_verify_ok mem ctx msg sig _ rest _ _ X Y HV Hm (limbs_lt_uncompressed X Y) S (or_intror (or_introl eq_refl)) Ep) as (pk & HP & Ev).
  rewrite length_uncompressed in Ev. change (Z.of_nat 65) with 65 in Ev. rewrite Ev.
  cbn [fst]. destruct (Z.eqb_spec (sv (sign_r o)) 0) as [Zr | Nr]; [| apply (signed_verifies ctx msg key k); try assumption; now rewrite EP].
  destruct (verify_api ctx (sign_r o) (sign_s o) msg pk (Aff X Y) HV Hr Hs Hm HP) as ([] & -> & Hb); [| reflexivity].
  destruct (proj1 Hb eq_refl) as [[? _] _]. lia.
Qed.

(** Both sides of a tweak of a key with the tweak [R], where [Q] is the point of
    the tweaked key: the arrays report failure together, for a tweak that is no
    scalar or a tweaked key that is zero, or they hold the secret key of [Q] and
    its public key.  The secret key is replaced in the buffer. *)
Definition jni_tweak_agrees (buf R : list Z) (Q : point) (rs : result (jobject * jvm * list Z)) (rp : result (jobject * jvm)) : Prop :=
  exists p k' q pub ok, rs = ret (p, k' ++ skipn 32 buf) /\ rp = ret q /\ returned p k' [32; b2z ok] /\ returned q pub [65; b2z ok] /\
  if ok : bool then seckey_ok k' /\ smul (be_val k') G = Q /\ exists X Y, Q = Aff X Y /\ pub = pub_uncompressed X Y
  else k' = zeros 32 /\ (secp_n <= be_val R \/ Q = Inf).

Lemma jni_tweak_result (vm vm' : jvm) ctx out buf R Q rs rp : length out = 65%nat -> tweak_agrees R rs rp Q ->
  jni_tweak_agrees buf R Q
    (let! (ret_, privkey) := rs in
     match privkey with
     | Some privkey => let! p := new_result vm privkey 32 [u8 32; u8 ret_] in ret (p, privkey ++ skipn 32 buf)
     | None => NoResult
     end)
    (let! (ret_, pubkey) := rp in
     let! (outputLen, outputSer) := print_pubkey ctx ret_ out pubkey in
     new_result vm' outputSer outputLen [u8 outputLen; u8 ret_]).
Proof.
  intros Lo [(k' & pk' & -> & -> & Hk & HP & EQ) | (-> & -> & F)]; rewrite !rbind_ret.
  - destruct HP as (H1 & H2 & H3 & X & Y & EP & H4).
    rewrite (print_pubkey_ok ctx out pk' X Y), rbind_ret by (rewrite ?EP in *; try assumption; unfold pubkey_rep; eauto 10).
    destruct (new_result_all vm k' 32 [32; 1]) as (p & E1 & R1); [now rewrite (proj1 (proj1 Hk)) | lia | cbn; lia |].
    destruct (new_result_all vm' (pub_uncompressed X Y) 65 [65; 1]) as (q & E2 & R2); [now rewrite length_uncompressed | lia | cbn; lia |].
    exists p, k', q, (pub_uncompressed X Y), true. change (u8 32) with 32. change (u8 65) with 65. change (u8 1) with 1. rewrite E1, rbind_ret.
    repeat (split; [first [reflexivity | assumption] |]). exists X, Y. now rewrite <- EQ, EP.
  - unfold print_pubkey. cbn [z2b Z.eqb negb]. rewrite !rbind_ret.
    destruct (new_result_all vm (zeros 32) 32 [32; 0]) as (p & E1 & R1); [reflexivity | lia | cbn; lia |].
    destruct (new_result_all vm' out 65 [65; 0]) as (q & E2 & R2); [now rewrite Lo | lia | cbn; lia |].
    exists p, (zeros 32), q, out, false. change (u8 32) with 32. change (u8 65) with 65. change (u8 0) with 0. rewrite E1, rbind_ret.
    repeat (split; [first [reflexivity | assumption] |]). exact F.
Qed.

Lemma length_secret X Y : length (fips_sha256 (pub_compressed X Y)) = 32%nat.
Proof.
  apply sha256_once; [| rewrite (length_pub_bytes true X Y : length (pub_compressed X Y) = 33%nat); reflexivity].
  unfold pub_compressed. pose proof (parity_range Y). constructor; [lia | apply limbs_lt_fe_bytes].
Qed.

(** The exchange: the digest of the compressed product. *)
Lemma jni_ecdh_ok vm mem secret ctx key pub X Y rest : seckey_ok key -> limbs_lt 8 pub -> secp (Aff X Y) -> pub_encodes pub X Y ->
  exists p X' Y', smul (be_val key) (Aff X Y) = Aff X' Y' /\
  Java_org_bitcoin_NativeSecp256k1_secp256k1_1ecdh vm mem secret (Some (key ++ pub ++ rest)) ctx (Z.of_nat (length pub)) = ret p /\
  returned p (fips_sha256 (pub_compressed X' Y')) [1].
Proof.
  intros Hk HB S HE. destruct (pubkey_parse_known ctx mem pub X Y HB S HE) as (pk & Ep & HP).
  destruct (ecdh_api ctx secret pk _ key HP Hk) as (X' & Y' & E' & R').
  destruct (new_result_all vm (fips_sha256 (pub_compressed X' Y')) 32 [1]) as (p & E1 & R1); [now rewrite length_secret | lia | cbn; lia |].
  exists p, X', Y'. split; [exact E' |]. split; [| exact R1].
  unfold Java_org_bitcoin_NativeSecp256k1_secp256k1_1ecdh. rewrite region_0, (region_app key pub) by now rewrite ?(proj1 (proj1 Hk)).
  rewrite rbind_ret, Ep, rbind_ret. cbn [z2b Z.eqb negb]. now rewrite rbind_ret, R', rbind_ret.
Qed.

(** C19. Keys in Java: tweaking a secret key in its buffer and its public key in
    any of its encodings agree, and give the keys of [key + tweak] and of
    [key * tweak]; they fail only if the tweak is no scalar or the result is
    zero.  Both parties of an exchange get the digest of the product point. *)
Theorem jni_keys_agree (vm vm' : jvm) mem out secret ctx key tweak pub X Y rest : ctx_ok ctx -> seckey_ok key -> bytes32 tweak ->
  limbs_lt 8 pub -> smul (be_val key) G = Aff X Y -> pub_encodes pub X Y -> length out = 65%nat -> length secret = 32%nat ->
  let n := Z.of_nat (length pub) in
  jni_tweak_agrees (key ++ tweak ++ rest) tweak (smul (be_val key + be_val tweak) G)
    (Java_org_bitcoin_NativeSecp256k1_secp256k1_1privkey_1tweak_1add vm (Some (key ++ tweak ++ rest)) ctx)
    (Java_org_bitcoin_NativeSecp256k1_secp256k1_1pubkey_1tweak_1add vm' mem out (Some (pub ++ tweak ++ rest)) ctx n) /\
  jni_tweak_agrees (key ++ tweak ++ rest) tweak (smul (be_val key * be_val tweak) G)
    (Java_org_bitcoin_NativeSecp256k1_secp256k1_1privkey_1tweak_1mul vm (Some (key ++ tweak ++ rest)) ctx)
    (Java_org_bitcoin_NativeSecp256k1_secp256k1_1pubkey_1tweak_1mul vm' mem out (Some (pub ++ tweak ++ rest)) ctx n) /\
  forall other pub' X' Y', seckey_ok other -> limbs_lt 8 pub' -> smul (be_val other) G = Aff X' Y' -> pub_encodes pub' X' Y' ->
  exists p q X'' Y'', smul (be_val key * be_val other) G = Aff X'' Y'' /\
  Java_org_bitcoin_NativeSecp256k1_secp256k1_1ecdh vm mem secret (Some (other ++ pub ++ rest)) ctx n = ret p /\
  Java_org_bitcoin_NativeSecp256k1_secp256k1_1ecdh vm' mem secret (Some (key ++ pub' ++ rest)) ctx (Z.of_nat (length pub')) = ret q /\
  returned p (fips_sha256 (pub_compressed X'' Y'')) [1] /\ returned q (fips_sha256 (pub_compressed X'' Y'')) [1].
Proof.
  intros [_ HV] Hk Ht HB EP HE Lo Ls n. assert (S : secp (Aff X Y)) by (rewrite <- EP; apply G_multiple).
  destruct (pubkey_parse_known ctx mem pub X Y HB S HE) as (pk & Ep & HP). rewrite <- EP in HP.
  split; [| split].
  - pose proof (jni_tweak_result vm vm' ctx out (key ++ tweak ++ rest) tweak _ _ _ Lo (tweak_add_api ctx key pk tweak HV Hk Ht HP)) as H.
    unfold Java_org_bitcoin_NativeSecp256k1_secp256k1_1privkey_1tweak_1add, Java_org_bitcoin_NativeSecp256k1_secp256k1_1pubkey_1tweak_1add.
    rewrite !region_0, (region_app key tweak), (region_app pub tweak) by (rewrite ?(proj1 (proj1 Hk)), ?(proj1 Ht); reflexivity).
    rewrite !rbind_ret, Ep, rbind_ret. cbn [z2b Z.eqb negb]. rewrite rbind_ret. exact H.
  - pose proof (jni_tweak_result vm vm' ctx out (key ++ tweak ++ rest) tweak _ _ _ Lo (tweak_mul_api ctx key pk tweak HV Hk Ht HP)) as H.
    unfold Java_org_bitcoin_NativeSecp256k1_secp256k1_1privkey_1tweak_1mul, Java_org_bitcoin_NativeSecp256k1_secp256k1_1pubkey_1tweak_1mul.
    rewrite !region_0, (region_app key tweak), (region_app pub tweak) by (rewrite ?(proj1 (proj1 Hk)), ?(proj1 Ht); reflexivity).
    rewrite !rbind_ret, Ep, rbind_ret. cbn [z2b Z.eqb negb]. rewrite rbind_ret. exact H.
  - intros other pub' X' Y' Ho HB' EP' HE'.
    destruct (jni_ecdh_ok vm mem secret ctx other pub X Y rest Ho HB S HE) as (p & X1 & Y1 & E1 & R1 & Q1).
    destruct (jni_ecdh_ok vm' mem secret ctx key pub' X' Y' rest Hk HB' ltac:(rewrite <- EP'; apply G_multiple) HE') as (q & X2 & Y2 & E2 & R2 & Q2).
    rewrite <- EP, <- (smul_mul curve_b curve_b_nz), Z.mul_comm in E1 by exact G_on_curve. rewrite <- EP', <- (smul_mul curve_b curve_b_nz), E1 in E2 by exact G_on_curve.
    apply aff_inj in E2 as [<- <-]. exists p, q, X1, Y1. auto.
Qed.
End Spec.

(** * A virtual machine

    Objects are numbers of cells of a heap that only grows. *)

Inductive jcell : Type :=
| JBytes (l : list Z)
| JObjects (l : list nat).

Definition cell_bytes (vm : list jcell) (a : nat) : option (list Z) :=
  match nth_error vm a with Some (JBytes l) => Some l | _ => None end.

Definition cell_objects (vm : list jcell) (a : nat) : option (list nat) :=
  match nth_error vm a with Some (JObjects l) => Some l | _ => None end.

#[export] Instance heap_env : JNIEnv := {
  jvm := list jcell;
  jobject := nat;
  FindClass _ _ := Some O;
  NewByteArray vm n := (Some (length vm), vm ++ [JBytes (repeat 0 (Z.to_nat n))]);
  SetByteArrayRegion vm a start n l :=
    match cell_bytes vm a with
    | Some old =>
        let s := Z.to_nat start in let k := Z.to_nat n in
        upd a (JBytes (firstn s old ++ firstn k l ++ skipn (s + k) old)) vm
    | None => vm
    end;
  NewObjectArray vm n _ x := (Some (length vm), vm ++ [JObjects (repeat x (Z.to_nat n))]);
  SetObjectArrayElement vm a i x :=
    match cell_objects vm a with Some l => upd a (JObjects (upd (Z.to_nat i) x l)) vm | None => vm end
}.

Lemma nth_error_upd {A : Type} (x y : A) b : forall l a, nth_error l a = Some y ->
  nth_error (upd a x l) b = if (b =? a)%nat then Some x else nth_error l b.
Proof.
  induction b as [| b IH]; intros [| h l] [| a] H; try discriminate; cbn in *; try reflexivity. exact (IH l a H).
Qed.

Lemma nth_error_grow {A : Type} (vm : list A) c b :
  nth_error (vm ++ [c]) b = if (b =? length vm)%nat then Some c else nth_error vm b.
Proof.
  destruct (Nat.eqb_spec b (length vm)) as [-> | D]; [now rewrite nth_error_app2, Nat.sub_diag by lia |].
  destruct (Nat.ltb_spec b (length vm)); [now apply nth_error_app1 |].
  rewrite (proj2 (nth_error_None _ _)), (proj2 (nth_error_None _ _)) by (rewrite ?length_app; cbn; lia). reflexivity.
Qed.

#[export] Instance heap_laws : JNILaws heap_env.
Proof.
  refine {| bytes := cell_bytes : jvm (JNIEnv := heap_env) -> _ -> _; elements := cell_objects : jvm (JNIEnv := heap_env) -> _ -> _ |}; cbn;
    unfold cell_bytes, cell_objects.
  - intros vm n a vm' _ H. injection H as <- <-. rewrite nth_error_grow, Nat.eqb_refl, (proj2 (nth_error_None vm (length vm))) by lia.
    repeat split; intros b; [intros D |]; rewrite nth_error_grow; destruct (Nat.eqb_spec b (length vm)) as [-> |]; try easy.
    now rewrite (proj2 (nth_error_None vm (length vm))).
  - intros vm a n l old H Hn EN. destruct (nth_error vm a) as [[old' |] |] eqn:EA; try discriminate. injection H as ->.
    rewrite (nth_error_upd _ _ _ _ _ EA), Nat.eqb_refl. split.
    + cbn [firstn app]. rewrite skipn_all2 by lia. now rewrite app_nil_r.
    + split; intros b; [intros D |]; rewrite (nth_error_upd _ _ _ _ _ EA); destruct (Nat.eqb_spec b a) as [-> |]; try easy. now rewrite EA.
  - intros vm n _ x a vm' _ H. injection H as <- <-. rewrite nth_error_grow, Nat.eqb_refl, (proj2 (nth_error_None vm (length vm))) by lia.
    repeat split; intros b; [intros D |]; rewrite nth_error_grow; destruct (Nat.eqb_spec b (length vm)) as [-> |]; try easy.
    now rewrite (proj2 (nth_error_None vm (length vm))).
  - intros vm a i x l H Hi. destruct (nth_error vm a) as [[| l'] |] eqn:EA; try discriminate. injection H as ->.
    rewrite (nth_error_upd _ _ _ _ _ EA), Nat.eqb_refl. split; [reflexivity |].
    split; intros b; [intros D |]; rewrite (nth_error_upd _ _ _ _ _ EA); destruct (Nat.eqb_spec b a) as [-> |]; try easy. now rewrite EA.
Defined.

#[export] Instance heap_memory : JNIMemory heap_env.
Proof. split; intros; repeat eexists; reflexivity. Qed.

Definition empty_vm : jvm (JNIEnv := heap_env) := [].

Lemma jni_sign_verify_witness : exists ctx p pub, secp256k1_context_create 1 fresh both = ret (Some ctx) /\
  Java_org_bitcoin_NativeSecp256k1_secp256k1_1ec_1pubkey_1create empty_vm [] (zeros 65) (Some (key_of 5 ++ [])) ctx = ret p /\ returned p pub [65; 1] /\
  let res := Java_org_bitcoin_NativeSecp256k1_secp256k1_1ecdsa_1sign 1 empty_vm [] (zeros 72) (Some (key_of 7 ++ key_of 5 ++ [])) ctx in
  (res = NoResult /\ secp256k1_ecdsa_sign 1 ctx (Some []) (Some (key_of 7)) (Some (key_of 5)) None None = NoResult) \/
  exists q sig, res = ret q /\ returned q sig [Z.of_nat (length sig); 1].
Proof.
  destruct demo_context as (ctx & E & HC).
  destruct (jni_sign_verify 1 empty_vm [] (zeros 72) (zeros 65) (key_of 7) (key_of 5) [] ctx HC (proj1 k7_ok) k5_ok eq_refl eq_refl) as (p & pub & Ec & Rp & _ & _ & H).
  exists ctx, p, pub. split; [exact E |]. split; [exact Ec |]. split; [exact Rp |]. cbv zeta in *. destruct H as [H | (q & sig & s & Eq & Rq & _)]; [now left | right].
  exists q, sig. now split.
Defined.

Lemma jni_keys_agree_witness : exists ctx X Y, secp256k1_context_create 1 fresh both = ret (Some ctx) /\ smul (be_val (key_of 5)) G = Aff X Y /\
  jni_tweak_agrees (key_of 5 ++ key_of 7 ++ []) (key_of 7) (smul (be_val (key_of 5) + be_val (key_of 7)) G)
    (Java_org_bitcoin_NativeSecp256k1_secp256k1_1privkey_1tweak_1add empty_vm (Some (key_of 5 ++ key_of 7 ++ [])) ctx)
    (Java_org_bitcoin_NativeSecp256k1_secp256k1_1pubkey_1tweak_1add empty_vm [] (zeros 65) (Some (pub_uncompressed X Y ++ key_of 7 ++ [])) ctx
       (Z.of_nat (length (pub_uncompressed X Y)))).
Proof.
  destruct demo_context as (ctx & E & HC). destruct (jni_pubkey_create_ok empty_vm [] (zeros 65) (key_of 5) [] ctx (proj1 HC) k5_ok eq_refl) as (_ & X & Y & EP & _).
  exists ctx, X, Y. split; [exact E |]. split; [exact EP |].
  exact (proj1 (jni_keys_agree empty_vm empty_vm [] (zeros 65) (zeros 32) ctx (key_of 5) (key_of 7) _ X Y [] HC k5_ok (proj1 k7_ok) (limbs_lt_uncompressed X Y) EP
    (or_intror (or_introl eq_refl)) eq_refl eq_refl)).
Defined.
