(* ===== verification/ApiRefine.v ===== *)
(** What the public interface computes, as functions on integers and points
    that mention no representation, and that the code computes the same.  Two
    builds of the library therefore return the same bytes. *)

From Stdlib Require Import String ZArith Lia List Bool Zmod Field.
From S2P Require Import X86 Field10x26Mul Scalar8x32Mul Field5x52Mul Scalar4x64Mul Field5x52Asm Scalar4x64Asm.
From S2P Require Import Prelude Limbs Primes Fp Curve CurveGroup FieldSpec FieldGen.
From S2P Require Import Group GroupSpec GroupOps GOrder Cofactor ScalarSpec ScalarGen Hash HashSpec HashThm.
From S2P Require Import Ecmult EcmultTable EcmultSpec EcmultGen EcmultGenSpec GenTable Ecdsa EcdsaDer EcdsaSpec Eckey EckeySpec.
From S2P Require Import Recovery Api Secp256k1 Modules ApiSpec ApiSign ApiKeys ApiModules.
From S2P Require Import MemInst ApiThm.
Import ListNotations.
Open Scope Z_scope.

(** * The specification *)

(** A signature and a public key in memory. *)
Definition sig_bytes (r s : Z) : list Z := digits 8 32 r ++ digits 8 32 s.

Definition key_bytes (X Y : F) : list Z := digits 8 32 (Zmod.to_Z X) ++ digits 8 32 (Zmod.to_Z Y).

Definition valid_key (k : Z) : bool := (0 <? k) && (k <? secp_n).

(** The signature of [m] with the key [d] and the nonce [k], with the lower of
    the two values of [s]; none when [s] is zero. *)
Definition spec_sig (d m k : Z) : option (Z * Z) :=
  match smul k G with
  | Inf => None
  | Aff X _ =>
      let r := Zmod.to_Z X mod secp_n in
      let s := Zmod.to_Z ((Fn_of_Z r * Fn_of_Z d + Fn_of_Z m) / Fn_of_Z k)%F in
      if s =? 0 then None else Some (r, if secp_n / 2 <? s then secp_n - s else s)
  end.

(** Try the nonces until one gives a signature. *)
Fixpoint spec_sign_loop (fuel : nat) (f : secp256k1_nonce_function) (msg key : list Z) (data : option (list Z)) (count : Z) :
    result (Z * option (Z * Z)) :=
  match fuel with
  | O => NoResult
  | S fuel' =>
      let! (rt, nonce) := of_option (f msg key None data count) in
      if negb (z2b rt) then ret (rt, None)
      else match (if valid_key (be_val nonce) then spec_sig (be_val key) (be_val msg) (be_val nonce) else None) with
           | Some rs => ret (rt, Some rs)
           | None => spec_sign_loop fuel' f msg key data (u32 (count + 1))
           end
  end.

Definition spec_sign (fuel : nat) (f : secp256k1_nonce_function) (msg key : list Z) (data : option (list Z)) :
    result (Z * option (list Z)) :=
  if valid_key (be_val key) then
    let! (rt, o) := spec_sign_loop fuel f msg key data 0 in
    ret (rt, Some (match o with Some (r, s) => sig_bytes r s | None => zeros 64 end))
  else ret (0, Some (zeros 64)).

Definition spec_verify (Q : point) (z r s : Z) : bool :=
  (0 <? r) && (0 <? s) && (s <=? secp_n / 2) &&
  match padd (smF (Fn_of_Z z / Fn_of_Z s) G) (smF (Fn_of_Z r / Fn_of_Z s) Q) with
  | Aff x _ => Zmod.to_Z x mod secp_n =? r
  | Inf => false
  end.

Definition spec_pubkey (k : Z) : Z * option (list Z) :=
  if valid_key k then match smul k G with Aff X Y => (1, Some (key_bytes X Y)) | Inf => (0, Some (zeros 64)) end
  else (0, Some (zeros 64)).

(** A signature as 64 bytes, both numbers big-endian. *)
Definition spec_compact (b : list Z) : Z * option (list Z) :=
  let r := be_val (firstn 32 b) in let s := be_val (skipn 32 b) in
  if (r <? secp_n) && (s <? secp_n) then (1, Some (sig_bytes r s)) else (0, Some (zeros 64)).

(** * The code computes it *)

Lemma valid_key_iff k : bytes32 k -> valid_key (be_val k) = true <-> seckey_ok k.
Proof. intros H. unfold valid_key, seckey_ok. rewrite andb_true_iff, !Z.ltb_lt. tauto. Qed.

Section Refinement.
Context {I : FieldImpl} {L : FieldLaws I} {J : ScalarImpl} {M : ScalarLaws J} {N : MemImpl I J} {NL : MemLaws L M N}.
Context {Lay : MemLayout L M N}.

Lemma save_bytes r s : sok r -> sok s -> secp256k1_ecdsa_signature_save r s = sig_bytes (sv r) (sv s).
Proof.
  intros Hr Hs. unfold secp256k1_ecdsa_signature_save. rewrite sizeof_scalar_ok. cbn [Z.eqb Pos.eqb].
  now rewrite !scalar_layout by assumption.
Qed.

Lemma bytes_scalar v : 0 <= v < secp_n -> exists a : scalar, sok a /\ sv a = v.
Proof.
  intros H. destruct (b32_scalar (be_bytes 32 v)) as [Ha Va]; [split; [apply length_be_bytes | apply limbs_lt_be_bytes] |].
  eexists. split; [exact Ha |]. rewrite Va, be_val_bytes. change (8 * Z.of_nat 32) with 256.
  assert (secp_n < 2 ^ 256) by reflexivity. rewrite (Z.mod_small v (2 ^ 256)) by lia. apply Z.mod_small. exact H.
Qed.

(** A key in memory is the coordinates of its point. *)
Lemma rep_bytes pk X Y : pubkey_rep pk (Aff X Y) <-> secp (Aff X Y) /\ pk = key_bytes X Y.
Proof.
  assert (Hp : secp_p < 2 ^ 256) by reflexivity. pose proof (F_to_Z_bound X). pose proof (F_to_Z_bound Y).
  assert (D : forall Z : F, limbs_val 8 (digits 8 32 (Zmod.to_Z Z)) = Zmod.to_Z Z).
  { intros Z. pose proof (F_to_Z_bound Z). rewrite limbs_val_digits by lia. apply Z.mod_small. change (8 * Z.of_nat 32) with 256. lia. }
  split.
  - intros (HL & HF & S & X' & Y' & E & Ex & Ey). apply aff_inj in E as [<- <-]. split; [exact S |].
    destruct (storage_layout pk HL) as [Lx Ly]. rewrite Lx in Ex. rewrite Ly in Ey. unfold key_bytes. rewrite <- Ex, <- Ey.
    pose proof (digits_limbs_val 8 (firstn 32 pk) ltac:(lia) (limbs_lt_firstn 8 pk 32 HF)) as D1.
    pose proof (digits_limbs_val 8 (skipn 32 pk) ltac:(lia) (limbs_lt_skipn 8 32 pk HF)) as D2.
    rewrite length_firstn, HL in D1. rewrite length_skipn, HL in D2. cbn [Nat.min Nat.sub] in D1, D2.
    rewrite D1, D2. symmetry. apply firstn_skipn.
  - intros [S ->]. unfold pubkey_rep. assert (HL : length (key_bytes X Y) = 64%nat) by reflexivity.
    split; [exact HL |]. split; [apply Forall_app; split; apply limbs_lt_digits; lia |]. split; [exact S |].
    exists X, Y. split; [reflexivity |]. destruct (storage_layout _ HL) as [-> ->]. unfold key_bytes. rewrite firstn_app, skipn_app, length_digits.
    rewrite Nat.sub_diag, firstn_O, app_nil_r, firstn_all2, skipn_all2 by (rewrite length_digits; lia). split; apply D.
Qed.

Lemma pubkey_create_refines ctx mem k : ctx_sign ctx -> bytes32 k ->
  secp256k1_ec_pubkey_create ctx (Some mem) (Some k) = ret (spec_pubkey (be_val k)).
Proof.
  intros HS Hk. unfold spec_pubkey. pose proof (valid_key_iff k Hk) as V.
  destruct (pubkey_create_ok ctx mem k HS Hk) as [(HK & pk & -> & HP) | [NK ->]].
  - rewrite (proj2 V HK). destruct (smul (be_val k) G) as [| X Y] eqn:E.
    + destruct HP as (_ & _ & _ & ? & ? & E' & _). discriminate.
    + now apply rep_bytes in HP as [_ ->].
  - destruct (valid_key (be_val k)); [| reflexivity]. now destruct (NK (proj1 V eq_refl)).
Qed.

Lemma spec_verify_iff Q z r s : secp Q -> 0 <= r < secp_n -> 0 <= s < secp_n ->
  spec_verify Q z r s = true <-> ecdsa_valid Q z r s /\ s <= secp_n / 2.
Proof.
  intros S Hr Hs. rewrite ecdsa_valid_iff by assumption. unfold spec_verify.
  rewrite !andb_true_iff, !Z.ltb_lt, Z.leb_le. destruct (padd _ _) as [| x y].
  - split; [intros [_ H]; discriminate |]. intros [(_ & _ & ? & ? & E & _) _]. discriminate.
  - rewrite Z.eqb_eq. split.
    + intros [[[R1 R2] R3] E]. repeat split; try lia. now exists x, y.
    + intros [(R1 & R2 & x' & y' & E & Er) R3]. apply aff_inj in E as [<- <-]. repeat split; lia.
Qed.

Lemma verify_refines ctx r s msg X Y : ctx_verify ctx -> 0 <= r < secp_n -> 0 <= s < secp_n -> bytes32 msg -> secp (Aff X Y) ->
  secp256k1_ecdsa_verify ctx (Some (sig_bytes r s)) (Some msg) (Some (key_bytes X Y)) =
  ret (b2z (spec_verify (Aff X Y) (be_val msg mod secp_n) r s)).
Proof.
  intros HV Hr Hs Hm S. destruct (bytes_scalar r Hr) as (ra & Ra & <-). destruct (bytes_scalar s Hs) as (sa & Sa & <-).
  rewrite <- save_bytes by assumption.
  destruct (verify_api ctx ra sa msg (key_bytes X Y) (Aff X Y) HV Ra Sa Hm (proj2 (rep_bytes _ X Y) (conj S eq_refl))) as (b & -> & Hb).
  do 2 f_equal. apply eq_true_iff_eq. rewrite Hb. symmetry. now apply spec_verify_iff.
Qed.

(** The signature of a nonce is determined: of [s] and its negation only one is
    at most half the order. *)
Lemma signed_spec d m k o X Y : smF (sres k) G = Aff X Y -> sv (sign_r o) = Zmod.to_Z X mod secp_n -> sok k -> sv k <> 0 ->
  signed (Fn_of_Z d) (Fn_of_Z m) (sres k) o -> spec_sig d m (sv k) = Some (sv (sign_r o), sv (sign_s o)).
Proof.
  intros EP Vr Hk Nk (Hr & Hs & k' & _ & _ & Ek & _ & _ & Rs & E & _). unfold spec_sig.
  rewrite smF_sres, EP by (assumption || exact G_on_curve). rewrite <- Vr. fold (sres (sign_r o)) (sres k). cbv zeta.
  assert (Nk' : sres k <> 0%F) by (rewrite sres_zero; assumption).
  assert (En : secp_n = 2 * (secp_n / 2) + 1) by reflexivity. pose proof (sv_range _ Hs) as R.
  assert (T : Zmod.to_Z ((sres (sign_r o) * Fn_of_Z d + Fn_of_Z m) / sres k)%F = sv (sign_s o) \/
              Zmod.to_Z ((sres (sign_r o) * Fn_of_Z d + Fn_of_Z m) / sres k)%F = secp_n - sv (sign_s o)).
  { rewrite <- E. destruct Ek as [-> | ->]; [left | right].
    - replace (sres (sign_s o) * sres k / sres k)%F with (sres (sign_s o)) by now field.
      unfold sres. rewrite Fn_to_of. apply Z.mod_small. lia.
    - replace (sres (sign_s o) * - sres k / sres k)%F with (Fn_of_Z (- sv (sign_s o)))
        by (unfold Fn_of_Z; rewrite Zmod.of_Z_opp; fold (Fn_of_Z (sv (sign_s o))) (sres (sign_s o)); now field).
      rewrite Fn_to_of. symmetry. apply (mod_of_reduced _ _ (-1)); lia. }
  destruct (Zmod.to_Z _ =? 0) eqn:E0; [lia |]. do 2 f_equal.
  set (h := secp_n / 2) in *. clearbody h. destruct T as [-> | ->]; zcases; lia.
Qed.

Lemma zero_spec d m k r X Y : smF (sres k) G = Aff X Y -> sv r = Zmod.to_Z X mod secp_n -> sok k ->
  (sres r * Fn_of_Z d + Fn_of_Z m = 0)%F -> spec_sig d m (sv k) = None.
Proof.
  intros EP Vr Hk E. unfold spec_sig. rewrite smF_sres, EP by (assumption || exact G_on_curve). rewrite <- Vr.
  fold (sres r). rewrite E. replace (0 / Fn_of_Z (sv k))%F with (0 : Fn)%F by (unfold Zmod.mdiv; ring). reflexivity.
Qed.

(** The loop returns what the specified one does, its signature as scalars. *)
Lemma sign_loop_refines gen f msg32 seckey data (sec msg : scalar) : gen_ctx_ok gen -> nonce_fills f msg32 seckey data ->
  sok sec -> sok msg -> sv sec = be_val seckey -> sres msg = Fn_of_Z (be_val msg32) -> forall fuel count,
  match sign_loop fuel gen f msg32 seckey data None sec msg count with
  | Returns l (rt, o) =>
      match o with Some o => sok (sign_r o) /\ sok (sign_s o) | None => True end /\
      spec_sign_loop fuel f msg32 seckey data count =
        Returns l (rt, match o with Some o => Some (sv (sign_r o), sv (sign_s o)) | None => None end)
  | Aborts _ => False
  | NoResult => spec_sign_loop fuel f msg32 seckey data count = NoResult
  end.
Proof.
  intros HG HF Hsec Hmsg Vs Vm. induction fuel as [| fuel IH]; intros count; cbn [sign_loop spec_sign_loop]; [reflexivity |].
  pose proof (HF count) as H. destruct (f msg32 seckey None data count) as [[rt out] |]; [| reflexivity]. cbn [of_option]. rewrite !rbind_ret.
  destruct (z2b rt); cbn [negb]; [specialize (H eq_refl) | split; reflexivity || exact Logic.I].
  pose proof (set_seckey out H) as HS. destruct (sc_set_b32 out) as [non ov]. destruct HS as (Hn & Vn & -> & _).
  fold (valid_key (be_val out)). destruct (valid_key (be_val out)) eqn:E; [| apply IH].
  apply andb_true_iff in E as [E1 E2]. rewrite Z.mod_small in Vn by lia. specialize (IH (u32 (count + 1))).
  destruct (sig_sign_ok gen sec msg non None HG Hsec Hmsg Hn ltac:(lia)) as (o & -> & _ & (X & Y & EP & Vr) & Ho).
  assert (Es : sres sec = Fn_of_Z (be_val seckey)) by (unfold sres; now rewrite Vs). rewrite Es, Vm in Ho. rewrite <- Vn.
  destruct Ho as [(Er0 & E0) | (Er0 & Ho)]; run_checks; rewrite Er0; cbn [z2b Z.eqb negb].
  - rewrite (zero_spec _ _ non (sign_r o) X Y) by assumption. now destruct (sign_loop fuel _ _ _ _ _ _ _ _ _).
  - rewrite (signed_spec _ _ non o X Y) by (assumption || lia). destruct Ho as (Hr & Hs & _). now repeat split.
Qed.

Lemma sign_refines fuel ctx mem msg key f data : ctx_sign ctx -> bytes32 msg -> bytes32 key -> nonce_fills (nonce_of f) msg key data ->
  secp256k1_ecdsa_sign fuel ctx (Some mem) (Some msg) (Some key) f data = spec_sign fuel (nonce_of f) msg key data.
Proof.
  intros HS Hm Hk HF. pose proof (valid_key_iff key Hk) as V. unfold spec_sign.
  destruct (valid_key (be_val key)).
  2: { apply sign_invalid_key; [exact HS | exact Hk |]. intros HK. now discriminate (proj2 V HK). }
  unfold secp256k1_ecdsa_sign. rewrite (ctx_sign_built _ HS). run_checks. fold (nonce_of f).
  destruct (seckey_scalar key (proj1 V eq_refl)) as (sec & -> & Hs & Vs). destruct (proj1 V eq_refl) as [_ R].
  rewrite sc_is_zero_ok, b2z_b2z, Vs by exact Hs. cbn [z2b Z.eqb negb andb].
  destruct (Z.eqb_spec (be_val key) 0); [lia |]. cbn [negb]. destruct (b32_scalar msg Hm) as [Hsm Vm].
  assert (Em : sres (fst (sc_set_b32 msg)) = Fn_of_Z (be_val msg)) by (unfold sres; rewrite Vm; apply Zmod.of_Z_mod).
  pose proof (sign_loop_refines _ _ msg key data sec _ HS HF Hs Hsm Vs Em fuel 0) as Hl.
  destruct (sign_loop fuel _ _ _ _ _ _ _ _ _) as [l [rt o] | l |]; [destruct Hl as [Ho ->] | contradiction | now rewrite Hl].
  destruct o as [o |]; cbn [rbind]; [| reflexivity]. now rewrite save_bytes by apply Ho.
Qed.

Lemma pubkey_parse_refines ctx mem pub : limbs_lt 8 pub ->
  (exists X Y, secp (Aff X Y) /\ pub_encodes pub X Y /\ secp256k1_ec_pubkey_parse ctx (Some mem) (Some pub) = ret (1, Some (key_bytes X Y))) \/
  (forall X Y, secp (Aff X Y) -> ~ pub_encodes pub X Y) /\ secp256k1_ec_pubkey_parse ctx (Some mem) (Some pub) = ret (0, Some (zeros 64)).
Proof.
  intros HB. destruct (pubkey_parse_api ctx mem pub HB) as [(pk & X & Y & E & HP & HE) | [E HN]]; [left | now right].
  apply rep_bytes in HP as [S ->]. exists X, Y. split; [exact S |]. split; [exact HE | exact E].
Qed.

Lemma parse_compact_refines ctx mem b : length b = 64%nat -> limbs_lt 8 b ->
  secp256k1_ecdsa_signature_parse_compact ctx (Some mem) (Some b) = ret (spec_compact b).
Proof.
  intros HL HB. unfold secp256k1_ecdsa_signature_parse_compact, spec_compact. run_checks.
  destruct (sc_set_b32_ok (firstn 32 b) (limbs_lt_firstn 8 b 32 HB) ltac:(rewrite length_firstn; lia)) as (Hr & Vr & Or).
  destruct (sc_set_b32_ok (skipn 32 b) (limbs_lt_skipn 8 32 b HB) ltac:(rewrite length_skipn; lia)) as (Hs & Vs & Os).
  destruct (sc_set_b32 (firstn 32 b)) as [r o1]. destruct (sc_set_b32 (skipn 32 b)) as [s o2]. cbn [fst snd] in *. subst o1 o2.
  pose proof (proj1 (be_val_bound _ (limbs_lt_firstn 8 b 32 HB))). pose proof (proj1 (be_val_bound _ (limbs_lt_skipn 8 32 b HB))).
  set (vr := be_val (firstn 32 b)) in *. set (vs := be_val (skipn 32 b)) in *. cbv zeta. rewrite !(Z.ltb_antisym secp_n).
  destruct (Z.leb_spec secp_n vr), (Z.leb_spec secp_n vs); try reflexivity. rewrite Z.mod_small in Vr, Vs by lia. cbn - [secp256k1_ecdsa_signature_save sig_bytes].
  now rewrite save_bytes, Vr, Vs by assumption.
Qed.

(** C1. Signing, key generation and verification compute the functions above,
    whatever the representations of field elements and scalars: for every key,
    message, nonce function that fills its buffer, fuel, and number of attempts
    the loop takes. *)
Theorem ecdsa_refines_spec fuel ctx mem msg key f data r s X Y : ctx_ok ctx -> bytes32 msg -> bytes32 key ->
  nonce_fills (nonce_of f) msg key data -> 0 <= r < secp_n -> 0 <= s < secp_n -> secp (Aff X Y) ->
  secp256k1_ecdsa_sign fuel ctx (Some mem) (Some msg) (Some key) f data = spec_sign fuel (nonce_of f) msg key data /\
  secp256k1_ec_pubkey_create ctx (Some mem) (Some key) = ret (spec_pubkey (be_val key)) /\
  secp256k1_ecdsa_verify ctx (Some (sig_bytes r s)) (Some msg) (Some (key_bytes X Y)) =
    ret (b2z (spec_verify (Aff X Y) (be_val msg mod secp_n) r s)).
Proof.
  intros [HS HV] Hm Hk HF Hr Hs S. split; [now apply sign_refines |]. split; [now apply pubkey_create_refines |].
  now apply verify_refines.
Qed.

Lemma some_context : exists ctx : secp256k1_context, ctx_ok ctx.
Proof.
  set (mem := Context secp256k1_ecmult_context_init (EcmultGenContext None sc_clear gej_clear_val) default_illegal_callback default_error_callback).
  destruct (context_create_ok 0 mem both eq_refl) as (ctx & _ & HS & HV & _). exists ctx. split; [exact (HS eq_refl) | exact (HV eq_refl)].
Qed.
End Refinement.

(** The builds: 32-bit words, 64-bit words with a 128-bit product, and 64-bit
    words with the products in assembly. *)
Record build : Type := Build {
  b_field : FieldImpl;
  b_field_laws : FieldLaws b_field;
  b_scalar : ScalarImpl;
  b_scalar_laws : ScalarLaws b_scalar;
  b_mem : MemImpl b_field b_scalar;
  b_mem_laws : MemLaws b_field_laws b_scalar_laws b_mem;
  b_layout : MemLayout b_field_laws b_scalar_laws b_mem
}.

Definition build32 : build := Build _ _ _ _ _ mem_10x26_8x32_laws layout_10x26_8x32.
Definition build64 : build := Build field_5x52 field_5x52_laws scalar_4x64 scalar_4x64_laws mem_5x52_4x64 mem_5x52_4x64_laws layout_5x52_4x64.
Definition build64_asm : build :=
  Build field_5x52_asm field_5x52_asm_laws scalar_4x64_asm scalar_4x64_asm_laws mem_5x52_4x64 mem_5x52_4x64_laws layout_5x52_4x64.

Local Abbreviation at_build b f := (f (b_field b) (b_scalar b) (b_mem b)).
Local Abbreviation context_of b := (@secp256k1_context (b_field b) (b_scalar b)).
Local Abbreviation context_ok b := (@ctx_ok _ (b_field_laws b) _ (b_scalar_laws b)).

(** C5. Any two builds of the library, among them those with [USE_FIELD_10X26]
    and [USE_SCALAR_8X32], with [USE_FIELD_5X52] and [USE_SCALAR_4X64], and the
    latter with [USE_ASM_X86_64], return the same bytes when they sign, derive
    a public key, parse keys and signatures, and the same verdict on every
    signature and key that either of them parsed. *)
Theorem builds_agree fuel (A B : build) (ca : context_of A) (cb : context_of B) mem msg key f data pub sig r s X Y :
  context_ok A ca -> context_ok B cb ->
  bytes32 msg -> bytes32 key -> nonce_fills (nonce_of f) msg key data -> limbs_lt 8 pub -> length sig = 64%nat -> limbs_lt 8 sig ->
  0 <= r < secp_n -> 0 <= s < secp_n -> secp (Aff X Y) ->
  at_build A (@secp256k1_ecdsa_sign) fuel ca (Some mem) (Some msg) (Some key) f data =
    at_build B (@secp256k1_ecdsa_sign) fuel cb (Some mem) (Some msg) (Some key) f data /\
  at_build A (@secp256k1_ec_pubkey_create) ca (Some mem) (Some key) = at_build B (@secp256k1_ec_pubkey_create) cb (Some mem) (Some key) /\
  at_build A (@secp256k1_ec_pubkey_parse) ca (Some mem) (Some pub) = at_build B (@secp256k1_ec_pubkey_parse) cb (Some mem) (Some pub) /\
  at_build A (@secp256k1_ecdsa_signature_parse_compact) ca (Some mem) (Some sig) =
    at_build B (@secp256k1_ecdsa_signature_parse_compact) cb (Some mem) (Some sig) /\
  at_build A (@secp256k1_ecdsa_verify) ca (Some (sig_bytes r s)) (Some msg) (Some (key_bytes X Y)) =
    at_build B (@secp256k1_ecdsa_verify) cb (Some (sig_bytes r s)) (Some msg) (Some (key_bytes X Y)).
Proof.
  intros [SA VA] [SB VB] Hm Hk HF HB HL HS Hr Hs S.
  pose proof (b_layout A) as LA. pose proof (b_layout B) as LB. pose proof (b_mem_laws A) as NA. pose proof (b_mem_laws B) as NB.
  split; [| split; [| split; [| split]]].
  - exact (eq_trans (sign_refines (Lay := LA) fuel ca mem msg key f data SA Hm Hk HF)
             (eq_sym (sign_refines (Lay := LB) fuel cb mem msg key f data SB Hm Hk HF))).
  - exact (eq_trans (pubkey_create_refines (Lay := LA) ca mem key SA Hk) (eq_sym (pubkey_create_refines (Lay := LB) cb mem key SB Hk))).
  - destruct (pubkey_parse_refines (Lay := LA) ca mem pub HB) as [(X1 & Y1 & S1 & E1 & R1) | [N1 R1]],
      (pubkey_parse_refines (Lay := LB) cb mem pub HB) as [(X2 & Y2 & S2 & E2 & R2) | [N2 R2]]; cbv beta; rewrite R1, R2.
    + now destruct (pub_encodes_unique pub X1 Y1 X2 Y2 S1 S2 E1 E2) as [-> ->].
    + now destruct (N2 X1 Y1 S1).
    + now destruct (N1 X2 Y2 S2).
    + reflexivity.
  - exact (eq_trans (parse_compact_refines (Lay := LA) ca mem sig HL HS) (eq_sym (parse_compact_refines (Lay := LB) cb mem sig HL HS))).
  - exact (eq_trans (verify_refines (Lay := LA) ca r s msg X Y VA Hr Hs Hm S) (eq_sym (verify_refines (Lay := LB) cb r s msg X Y VB Hr Hs Hm S))).
Qed.

Lemma ecdsa_refines_spec_witness : exists ctx, secp256k1_context_create 1 fresh both = ret (Some ctx) /\
  secp256k1_ecdsa_sign 1 ctx (Some []) (Some (key_of 7)) (Some (key_of 5)) (Some nonce_one) None =
  spec_sign 1 nonce_one (key_of 7) (key_of 5) None.
Proof.
  destruct demo_context as (ctx & E & HC). exists ctx. split; [exact E |].
  exact (proj1 (ecdsa_refines_spec 1 ctx [] (key_of 7) (key_of 5) (Some nonce_one) None 1 1 _ _ HC (proj1 k7_ok) (proj1 k5_ok)
    (nonce_one_fills _ _ _) ltac:(split; [lia | reflexivity]) ltac:(split; [lia | reflexivity]) (G_on_curve : secp (Aff _ _)))).
Defined.

Lemma builds_agree_witness : exists (c32 : context_of build32) (c64 : context_of build64_asm),
  at_build build32 (@secp256k1_ecdsa_sign) 1%nat c32 (Some []) (Some (key_of 7)) (Some (key_of 5)) (Some nonce_one) None =
  at_build build64_asm (@secp256k1_ecdsa_sign) 1%nat c64 (Some []) (Some (key_of 7)) (Some (key_of 5)) (Some nonce_one) None.
Proof.
  destruct (some_context (L := b_field_laws build32) (M := b_scalar_laws build32)) as (c32 & H32).
  destruct (some_context (L := b_field_laws build64_asm) (M := b_scalar_laws build64_asm)) as (c64 & H64). exists c32, c64.
  exact (proj1 (builds_agree 1 build32 build64_asm c32 c64 [] (key_of 7) (key_of 5) (Some nonce_one) None [] (zeros 64) 1 1 _ _ H32 H64 (proj1 k7_ok) (proj1 k5_ok)
    (nonce_one_fills _ _ _) (Forall_nil _) eq_refl ltac:(apply Forall_forall; intros x Hx; apply repeat_spec in Hx; subst x; lia)
    ltac:(split; [lia | reflexivity]) ltac:(split; [lia | reflexivity]) (G_on_curve : secp (Aff _ _)))).
Defined.
