(* ===== verification/LaxThm.v ===== *)
(** What the parsers in [contrib] promise. *)

From Stdlib Require Import String ZArith Lia List Bool Zmod.
From S2P Require Import Prelude Limbs Fp Curve CurveGroup FieldSpec FieldGen Group GroupSpec GroupOps ScalarSpec ScalarGen.
From S2P Require Import Hash HashSpec HashThm Ecmult EcmultGen EcmultGenSpec Ecdsa EcdsaDer EcdsaSpec Eckey EckeySpec.
From S2P Require Import Api Secp256k1 Lax LaxSpec ApiSpec ApiSign.
From S2P Require Import Field10x26Mul Scalar8x32Mul MemInst ApiThm ApiRefine.
Import ListNotations.
Open Scope Z_scope.

(** * Signatures *)

(** The signature in memory: zeros unless both numbers are below the order. *)
Definition lax_sig (c d : list Z) : list Z :=
  if (be_val c <? secp_n) && (be_val d <? secp_n) then sig_bytes (be_val c) (be_val d) else zeros 64.

Lemma der_len_lax n : 0 <= n < 2 ^ 55 -> lax_len (der_len n) n.
Proof.
  intros H. unfold der_len. destruct (Z.ltb_spec n 128); [constructor; lia |].
  pose proof (nbytes_bound n 7 ltac:(cbn; lia) ltac:(lia)) as B.
  pose proof (lax_long 0 (be_bytes (nbytes n) n)) as L. cbn [repeat app Nat.add] in L.
  rewrite length_be_bytes, be_val_nbytes in L by lia. apply L; [lia | lia | apply limbs_lt_be_bytes].
Qed.

(** DER is part of the grammar. *)
Lemma der_sig_lax c d : Z.of_nat (length (der_sig c d)) < 2 ^ 55 -> lax_grammar (der_sig c d) c d.
Proof.
  unfold der_sig. set (t := der_tlv 0x02 c ++ der_tlv 0x02 d). unfold der_tlv at 1 2. intros Hl.
  assert (Hh : forall n, 0 <= n < 2 ^ 55 -> lax_seq_len (der_len n)).
  { intros n Hn. destruct (der_len_lax n Hn) as [m Hm | k b Hk _ _]; [now constructor |].
    replace (k + length b)%nat with (length (repeat 0 k ++ b)) by (rewrite length_app, repeat_length; lia). constructor.
    rewrite length_app, repeat_length. lia. }
  cbn [length] in Hl. rewrite length_app in Hl. exists (der_len (Z.of_nat (length t))), t, []. split; [reflexivity |].
  split; [apply Hh; lia |]. assert (Hc : Z.of_nat (length c) < 2 ^ 55 /\ Z.of_nat (length d) < 2 ^ 55).
  { unfold t, der_tlv in Hl. rewrite !length_app in Hl. cbn [length] in Hl. rewrite !length_app in Hl. lia. }
  exists (der_tlv 0x02 d). split; eexists; (split; [| apply der_len_lax; lia]).
  - unfold t, der_tlv. cbn [app]. now rewrite <- app_assoc.
  - unfold der_tlv. now rewrite app_nil_r.
Qed.

Section Generic.
Context {I : FieldImpl} {L : FieldLaws I} {J : ScalarImpl} {M : ScalarLaws J} {N : MemImpl I J} {NL : MemLaws L M N}.
Context {Lay : MemLayout L M N}.

Lemma parse_zeros ctx mem : secp256k1_ecdsa_signature_parse_compact ctx (Some mem) (Some (zeros 64)) = ret (1, Some (zeros 64)).
Proof.
  assert (F : limbs_lt 8 (zeros 64)) by (apply Forall_forall; intros x Hx; apply repeat_spec in Hx; subst x; lia).
  rewrite parse_compact_refines by (reflexivity || exact F). reflexivity.
Qed.

Lemma lax_parse_api ctx mem input : limbs_lt 8 input -> Z.of_nat (length input) < 2 ^ 62 ->
  (exists c d, lax_grammar input c d /\ ecdsa_signature_parse_der_lax ctx (Some mem) input = ret (1, Some (lax_sig c d))) \/
  ((forall c d, ~ lax_grammar input c d) /\ ecdsa_signature_parse_der_lax ctx (Some mem) input = ret (0, Some (zeros 64))).
Proof.
  intros HB Hl. unfold ecdsa_signature_parse_der_lax. rewrite parse_zeros. run_checks.
  destruct (parse_ok input Hl HB) as [(c & d & ov & tmp & G & E & Ht) | [HN E]]; change (lax_parse input _ (zeros 64)) with (lax_parse input (Z.of_nat (length input)) (repeat 0 64)); rewrite E; run_checks;
    [left | right; split; [exact HN | reflexivity]].
  exists c, d. split; [exact G |]. unfold lax_sig. assert (Hn : secp_n < 2 ^ 256) by reflexivity.
  destruct (Z.ltb_spec (be_val c) (2 ^ 256)), (Z.ltb_spec (be_val d) (2 ^ 256)); cbn [andb] in Ht.
  2-4: subst ov; cbn [Z.eqb]; run_checks; cbn [z2b Z.eqb negb]; rewrite parse_zeros; run_checks;
    replace ((be_val c <? secp_n) && (be_val d <? secp_n))%bool with false by (symmetry; apply andb_false_iff; rewrite !Z.ltb_ge; lia);
    reflexivity.
  destruct Ht as [-> ->]. cbn [Z.eqb].
  rewrite parse_compact_refines by (rewrite ?length_app, ?length_be_bytes; reflexivity || (apply Forall_app; split; apply limbs_lt_be_bytes)).
  unfold spec_compact. rewrite firstn_app, skipn_app, length_be_bytes, Nat.sub_diag, firstn_O, app_nil_r, firstn_all2, skipn_all2 by (rewrite length_be_bytes; lia).
  cbn [skipn app]. destruct (grammar_bytes _ _ _ G HB) as [Fc Fd]. pose proof (be_val_bound c Fc). pose proof (be_val_bound d Fd). rewrite !be_val_bytes. change (8 * Z.of_nat 32) with 256. rewrite !Z.mod_small by lia.
  destruct ((be_val c <? secp_n) && (be_val d <? secp_n)); run_checks; [reflexivity |]. cbn [z2b Z.eqb negb b2z]. rewrite parse_zeros. reflexivity.
Qed.

(** C15. The lax parser never reads outside of its input; it accepts exactly the
    inputs of its grammar, which every DER signature has, and then returns the
    two numbers, or zeros when one is not below the order; otherwise it returns
    0 and zeros. *)
Theorem lax_der_correct ctx mem input c d : limbs_lt 8 input -> Z.of_nat (length input) < 2 ^ 62 ->
  limbs_lt 8 (der_sig c d) -> Z.of_nat (length (der_sig c d)) < 2 ^ 55 ->
  ((exists c d, lax_grammar input c d /\ ecdsa_signature_parse_der_lax ctx (Some mem) input = ret (1, Some (lax_sig c d))) \/
   ((forall c d, ~ lax_grammar input c d) /\ ecdsa_signature_parse_der_lax ctx (Some mem) input = ret (0, Some (zeros 64)))) /\
  ecdsa_signature_parse_der_lax ctx (Some mem) (der_sig c d) = ret (1, Some (lax_sig c d)).
Proof.
  intros HB Hl HB' Hl'. split; [now apply lax_parse_api |]. pose proof (der_sig_lax c d Hl') as G.
  destruct (lax_parse_api ctx mem (der_sig c d) HB' ltac:(lia)) as [(c' & d' & G' & ->) | [HN _]]; [| now destruct (HN c d)].
  now destruct (lax_grammar_det _ _ _ _ _ G G') as [-> ->].
Qed.
End Generic.

(** * Private keys *)

Lemma rd_ok l i : limbs_lt 8 l -> 0 <= i < Z.of_nat (length l) -> exists b, rd l i = Some b /\ 0 <= b < 256.
Proof.
  intros F Hi. unfold rd. destruct (nth_error l (Z.to_nat i)) as [b |] eqn:E.
  - exists b. split; [reflexivity |]. apply nth_error_In in E. exact (proj1 (Forall_forall _ _) F b E).
  - apply nth_error_None in E. lia.
Qed.

Ltac skip_lengths := repeat match goal with H : context [length (skipn _ _)] |- _ => rewrite length_skipn in H | H : (_ <? _) = false |- _ => apply Z.ltb_ge in H | H : _ /\ _ |- _ => destruct H end;
  rewrite ?length_skipn.

(** The reads and tests of the import: every read is inside of the input. *)
Ltac octets F :=
  repeat match goal with
  | |- context [if ?c then Some None else _] => let C := fresh "C" in destruct c eqn:C; [left; reflexivity |]; rewrite ?orb_false_iff in C
  | |- context [if ?c >? 1 then _ else _] => destruct (Z.gtb_spec c 1); cbn [bind]
  | |- context [rd ?l ?i] =>
      let b := fresh "b" in let E := fresh "E" in let R := fresh "R" in
      destruct (rd_ok l i) as (b & E & R);
        [first [exact F | repeat apply limbs_lt_skipn; exact F] | skip_lengths; lia | rewrite E; cbn [bind]; clear E]
  end.

(** The import reads only its input, and yields at most 32 octets. *)
Lemma privkey_octets_ok l : limbs_lt 8 l ->
  privkey_octets l = Some None \/ exists k, privkey_octets l = Some (Some k) /\ limbs_lt 8 k /\ (length k <= 32)%nat.
Proof.
  intros F. unfold privkey_octets. cbv zeta. octets F.
  all: unfold rd_bytes; skip_lengths;
    rewrite (proj2 (Z.leb_le _ _)) by lia; cbn [bind]; right; eexists;
    (split; [reflexivity |]); (split; [apply limbs_lt_firstn; repeat apply limbs_lt_skipn; exact F | rewrite length_firstn; lia]).
Qed.

(** Run the import on octets that start as the export writes them. *)
Ltac octets_run :=
  repeat (first [rewrite (proj2 (Z.ltb_ge _ _)) by (cbn [length]; rewrite ?length_app; cbn [length]; lia)
                | progress cbn - [Z.ltb Z.of_nat length Z.leb rd_bytes Pos.to_nat]
                | match goal with |- context [Pos.to_nat ?p] => let n := eval vm_compute in (Pos.to_nat p) in change (Pos.to_nat p) with n end]).

Lemma rd_key key t : length key = 32%nat -> rd_bytes (4 :: 32 :: key ++ t) 2 32 = Some key.
Proof.
  intros Hk. unfold rd_bytes. rewrite (proj2 (Z.leb_le _ _)) by (cbn [length]; rewrite length_app; lia).
  change (Z.to_nat 32) with 32%nat. change (skipn (Z.to_nat 2) (4 :: 32 :: key ++ t)) with (key ++ t).
  rewrite firstn_app, Hk, firstn_all2 by lia. change (32 - 32)%nat with 0%nat. now rewrite firstn_O, app_nil_r.
Qed.

Lemma octets_exported (c : bool) key t : length key = 32%nat -> ((if c then 174 else 238) <= length t)%nat ->
  privkey_octets ((if c then begin_compressed else begin_uncompressed) ++ key ++ t) = Some (Some key).
Proof.
  intros Hk Ht. destruct c; unfold privkey_octets, begin_compressed, begin_uncompressed; octets_run; now rewrite rd_key.
Qed.

Lemma put_app src pre rest : put src (pre ++ rest, length pre) = ((pre ++ src) ++ skipn (length src) rest, length (pre ++ src)).
Proof.
  unfold put, memcpy_at. rewrite firstn_app, Nat.sub_diag, firstn_O, app_nil_r, firstn_all, skipn_app, (skipn_all2 pre) by lia.
  replace (length pre + length src - length pre)%nat with (length src) by lia. now rewrite length_app, <- app_assoc.
Qed.

Lemma put_three a b m buf : put m (put b (put a (buf, O))) =
  ((a ++ b ++ m) ++ skipn (length (a ++ b ++ m)) buf, length (a ++ b ++ m)).
Proof.
  change (put a (buf, O)) with (put a ([] ++ buf, length (@nil Z))). rewrite !put_app, !skipn_skipn. cbn [app].
  rewrite <- !app_assoc, !length_app. now replace (length m + length b + length a)%nat with (length a + (length b + length m))%nat by lia.
Qed.

Section Keys.
Context {I : FieldImpl} {L : FieldLaws I} {J : ScalarImpl} {M : ScalarLaws J} {N : MemImpl I J} {NL : MemLaws L M N}.

Lemma import_total ctx p : limbs_lt 8 p ->
  (exists k, ec_privkey_import_der ctx p = ret (1, k) /\ seckey_ok k) \/ ec_privkey_import_der ctx p = ret (0, zeros 32).
Proof.
  intros F. unfold ec_privkey_import_der. destruct (privkey_octets_ok p F) as [-> | (k & -> & Fk & Lk)]; run_checks; [now right |].
  assert (B : bytes32 (memcpy_at (32 - length k) k (zeros 32))).
  { split; [apply length_memcpy; change (length (zeros 32)) with 32%nat; lia | apply limbs_lt_memcpy; [exact Fk |]].
    apply Forall_forall. intros x Hx. apply repeat_spec in Hx. subst x. lia. }
  destruct (seckey_verify_ok ctx _ B) as (b & -> & Hb). run_checks. destruct b; cbn [b2z z2b Z.eqb negb]; [left | now right].
  eexists. split; [reflexivity | now apply Hb].
Qed.

Lemma import_exported ctx (c : bool) key t : seckey_ok key -> ((if c then 174 else 238) <= length t)%nat ->
  ec_privkey_import_der ctx ((if c then begin_compressed else begin_uncompressed) ++ key ++ t) = ret (1, key).
Proof.
  intros HK Ht. pose proof (proj1 HK) as [Lk _]. unfold ec_privkey_import_der. rewrite octets_exported by assumption. run_checks.
  assert (E : memcpy_at (32 - length key) key (zeros 32) = key) by (unfold memcpy_at; rewrite Lk; cbn; apply app_nil_r). rewrite E.
  destruct (seckey_verify_ok ctx key (proj1 HK)) as (b & -> & Hb). rewrite (proj2 Hb HK). reflexivity.
Qed.

(** The octets the export writes. *)
Definition exported (c : bool) (key : list Z) (X Y : F) : list Z :=
  (if c then begin_compressed else begin_uncompressed) ++ key ++
  (if c then middle_compressed else middle_uncompressed) ++ pub_bytes c X Y.

Lemma export_ok ctx mem buf key (c : bool) : ctx_sign ctx -> seckey_ok key -> (279 <= length buf)%nat ->
  exists X Y, smul (be_val key) G = Aff X Y /\
  ec_privkey_export_der ctx mem buf key (b2z c) =
  ret (1, if c then 214 else 279, exported c key X Y ++ skipn (length (exported c key X Y)) buf).
Proof.
  intros HS HK Hb. unfold ec_privkey_export_der. pose proof (proj1 HK) as [Lk _].
  destruct (pubkey_create_ok ctx mem key HS (proj1 HK)) as [(_ & pk & -> & HP) | [NK _]]; [| contradiction].
  pose proof HP as (_ & _ & _ & X & Y & EP & _). exists X, Y. split; [exact EP |]. rewrite EP in HP. run_checks.
  change (negb (z2b 1)) with false. cbv iota. rewrite b2z_b2z. set (n := if c then 33%nat else 65%nat).
  set (pre := (if c then begin_compressed else begin_uncompressed) ++ key ++ (if c then middle_compressed else middle_uncompressed)).
  assert (Lp : length pre = if c then 181%nat else 214%nat) by (unfold pre; rewrite !length_app, Lk; destruct c; reflexivity).
  set (out := firstn n (skipn (length pre) (pre ++ skipn (length pre) buf))).
  assert (Lo : length out = n).
  { unfold out. rewrite skipn_app, skipn_all, Nat.sub_diag, length_firstn. cbn [app skipn]. rewrite length_skipn. unfold n. destruct c; lia. }
  pose proof (pubkey_serialize_api ctx out pk X Y c HP ltac:(rewrite Lo; unfold n; destruct c; cbn; lia)) as ES.
  pose proof (length_pub_bytes c X Y) as Lb. fold n in Lb. rewrite Lo, Lb, Nat.sub_diag, app_nil_r in ES.
  assert (Ex : exported c key X Y = pre ++ pub_bytes c X Y) by (unfold exported, pre; now rewrite <- !app_assoc).
  assert (EM : memcpy_at (length pre) (pub_bytes c X Y) (pre ++ skipn (length pre) buf) = exported c key X Y ++ skipn (length (exported c key X Y)) buf).
  { pose proof (f_equal fst (put_app (pub_bytes c X Y) pre (skipn (length pre) buf))) as E. cbn [fst put] in E.
    rewrite E, Ex, skipn_skipn, length_app. do 2 f_equal. lia. }
  subst out n pre. destruct c; cbv iota in *; rewrite put_three; cbv iota;
    match goal with |- context [firstn (Z.to_nat ?k)] => let m := eval vm_compute in (Z.to_nat k) in change (Z.to_nat k) with m end;
    change (Z.of_nat 33) with 33 in ES; change (Z.of_nat 65) with 65 in ES; rewrite ES; run_checks; rewrite EM, Lp; reflexivity.
Qed.

(** C16. A private key that the export writes, with either form of the public
    key, is a DER sequence of the announced length, and the import reads the key
    back from it.  The import never reads outside of its input, and returns a
    valid secret key, or 0 and zeros. *)
Theorem privkey_der_roundtrip ctx mem buf key (c : bool) p : ctx_sign ctx -> seckey_ok key -> (279 <= length buf)%nat -> limbs_lt 8 p ->
  (exists e body, ec_privkey_export_der ctx mem buf key (b2z c) = ret (1, Z.of_nat (length e), e ++ skipn (length e) buf) /\
   e = der_tlv 0x30 body /\ (length e <= 279)%nat /\ ec_privkey_import_der ctx e = ret (1, key)) /\
  ((exists k, ec_privkey_import_der ctx p = ret (1, k) /\ seckey_ok k) \/ ec_privkey_import_der ctx p = ret (0, zeros 32)).
Proof.
  intros HS HK Hb F. split; [| now apply import_total]. destruct (export_ok ctx mem buf key c HS HK Hb) as (X & Y & _ & E).
  pose proof (proj1 HK) as [Lk _]. pose proof (length_pub_bytes c X Y) as Lb.
  assert (Le : length (exported c key X Y) = if c then 214%nat else 279%nat)
    by (unfold exported; rewrite !length_app, Lk, Lb; destruct c; reflexivity).
  exists (exported c key X Y), (skipn (if c then 3%nat else 4%nat) (exported c key X Y)).
  split; [rewrite E, Le; destruct c; reflexivity |]. split; [| split; [rewrite Le; destruct c; lia |]].
  - unfold der_tlv. rewrite length_skipn, Le. destruct c; reflexivity.
  - apply import_exported; [exact HK |]. rewrite length_app, Lb. destruct c; cbn; lia.
Qed.
End Keys.

Lemma lax_der_correct_witness :
  ecdsa_signature_parse_der_lax fresh (Some []) (der_sig [5] [7]) = ret (1, Some (lax_sig [5] [7])).
Proof.
  assert (B : limbs_lt 8 (der_sig [5] [7])) by (repeat constructor; lia).
  exact (proj2 (lax_der_correct fresh [] (der_sig [5] [7]) [5] [7] B eq_refl B eq_refl)).
Defined.

Lemma privkey_der_roundtrip_witness : exists ctx, secp256k1_context_create 1 fresh both = ret (Some ctx) /\
  exists e body, ec_privkey_export_der ctx [] (zeros 279) (key_of 5) (b2z true) = ret (1, Z.of_nat (length e), e ++ skipn (length e) (zeros 279)) /\
  e = der_tlv 0x30 body /\ (length e <= 279)%nat /\ ec_privkey_import_der ctx e = ret (1, key_of 5).
Proof.
  destruct demo_context as (ctx & E & HS & _). exists ctx. split; [exact E |].
  exact (proj1 (privkey_der_roundtrip ctx [] (zeros 279) (key_of 5) true [] HS k5_ok ltac:(vm_compute; lia) (Forall_nil _))).
Defined.
